(* ===== verification/_CoqProject ===== *)
-Q . S2P
Prelude.v
GoLib.v
Buffer.v
Stream.v
History.v
Reader.v
Model.v
McText.v
Progress.v
Transaction.v
Deliveries.v
Conversation.v
Hotlist.v
Analysis.v
Callers.v
Concurrent.v
Interval.v
PacketBuffer.v
Capture.v
Replay.v
Decode.v
DecodePool.v
Batches.v
Files.v
Assembly.v
Dispatch.v
Conservation.v
Pipeline.v
Traffic.v
GoFmt.v
Logger.v
Presentation.v
Terminal.v
Profiling.v
Main.v
Session.v
Witnesses.v
PipelineWitnesses.v
CallersWitnesses.v
FrontWitnesses.v
