(* ===== verification/Prelude.v ===== *)
(** * memsniff: a model of its packet pipeline and its proofs

    memsniff watches the network traffic of memcached servers and shows, on a
    terminal, the keys whose values take the most bandwidth.  This library is a
    shallow embedding of the program: Go code becomes functions and state monads,
    goroutines become steps, and the theorems are about those definitions.

    ** The program and the files

    Packets flow through the program in one direction; each stage is a Go package
    and has a file (or some) here:

    - capture reads packets: PacketBuffer.v (capture/packetbuffer.go, the batches
      of packets), Capture.v (capture/capture.go, live interfaces and files),
      Replay.v (capture/replay.go, replaying a file at its original pace, and
      capture.New);
    - decode parses headers: Decode.v (decode/decode.go, one packet and one batch)
      and DecodePool.v (decode/pool.go and decode/worker.go, Run and its workers),
      with Batches.v on what every worker hands over and Files.v on an input that
      ends;
    - assembly puts the two directions of connections together: Assembly.v
      (assembly/pool.go, worker.go and streamfactory.go), Buffer.v and Reader.v
      (assembly/reader/buffer.go, reader.go and error.go);
    - protocol parses memcached conversations: Model.v (protocol/model/consumer.go
      and dummy.go, the connection state shared by protocols) and McText.v
      (protocol/mctext/consumer.go, the text protocol);
    - analysis and hotlist count: Hotlist.v (hotlist/hotlist.go and perfect.go),
      Analysis.v (analysis/pool.go, worker.go, filter.go and report.go, a call being
      one step) and Callers.v (the same calls made by many goroutines at once, a
      step being one operation on a channel, the filter or the counters);
    - presentation shows the report: Presentation.v (presentation/presentation.go
      and termbox.go), with GoFmt.v for the conversions it prints with, and Terminal.v
      (termbox.go: the goroutine that waits for events, and how the loop ends);
    - log and main: Logger.v (log/logger.go), Profiling.v (profiling.go), Main.v
      (main.go, start-up, statistics and the deferred call) and Session.v (main.go, the
      rest of main, and the whole program).

    Stream.v is the abstract stream of bytes and gaps that a reassembly buffer
    implements, and History.v runs arbitrary sequences of calls against it.
    Progress.v, Transaction.v, Deliveries.v and Conversation.v are about whole
    conversations of the protocol parser, and how TCP delivers them; Concurrent.v relates Callers to Analysis, and Interval.v is
    about the reports that clear the pool; Dispatch.v is about the work that Assembly
    gives its workers; Conservation.v composes DecodePool and Assembly, and Pipeline.v
    and Traffic.v compose Assembly, McText and Callers.
    GoLib.v holds the functions of bytes, strconv and hash/fnv that the program
    computes with, and this file the vocabulary of all: machine integers, errors, the
    monads of Go calls, slices, and the lemmas that several files use.  Witnesses.v,
    PipelineWitnesses.v, CallersWitnesses.v and FrontWitnesses.v apply the properties
    to concrete inputs.

    ** How Go is modelled

    A call is an [outcome]: a value, a panic, waiting for ever, or out of fuel.  A
    method is a [GoM] from its receiver to a result and the new receiver; a record
    has the fields of the Go struct, and an operation its name.  An [int] is a Z in
    64 bits with the wrap-around of [+!], [-!] and [*!] written out; uint64
    arithmetic is [u64].  Strings and byte slices are lists of bytes; indexing and
    slicing out of range panic.  Maps are gmaps, and the order in which Go iterates
    one is an argument.

    Goroutines are state machines: Analysis, Callers, DecodePool, Assembly, Logger,
    Presentation, Terminal and Session each have a type of actions (one step of one goroutine,
    up to its next channel operation or lock) and a function that runs one; [Blocked]
    is a goroutine that waits.  A step on an unbuffered channel is one of both sides.  A schedule is a list of actions, so that a theorem about
    every list is one about every interleaving.  Channels are queues with their capacity.

    Packages that are not part of the program are type classes with their documented
    behaviour as laws: RegexpPkg and SortPkg (regexp, sort), PcapPkg (gopacket/pcap),
    GopacketPkg, LayersPkg and LayersLaws (gopacket's flows, the layers of a packet
    and what their decoders overwrite), TcpAssembly with AssemblyLaws (tcpassembly: which calls it makes of streams, never what
    they do), TermboxPkg with TermboxLaws (termbox-go, go-runewidth).  Inside the
    program the interfaces are classes too: ConsumerSource (the stream readers of
    a connection), HotList, PacketSource with PacketSourceLaws and CollectorLaws.

    ** What is proved

    - The buffer and the readers: a buffer never panics, whatever is written and
      read; every sequence of calls behaves like the abstract stream, lost data
      included; errors are sticky until a reset.
    - The protocol: a conversation never panics or loops; a sequence of retrieval,
      storage and unknown commands, both directions cut anywhere into segments of at
      most half a buffer,
      delivered together or with calls without data between them (SYN, FIN,
      retransmissions), yields exactly the hits of the retrievals; after a protocol error
      on either side both are dropped and the parser waits for the next command.
    - Counting: hot lists count exactly; concurrent calls of HandleEvents, on any
      pool and with any events, leave the pool that successive calls leave, every event counted as handled or dropped;
      calls of the pool always complete, whatever else is called; a report of a pool
      at rest has exactly the distinct keys with their numbers, heaviest first, if
      they are not more than its size, also when several are made at once; reports that clear the pool while it is being
      filled never show a hit twice (one may be lost, which a run in
      CallersWitnesses.v does); what the copy loop of a worker does with events that
      are not hits.
    - Capture: packet buffers return what was appended; CollectPackets and
      DiscardPacket of both sources, branch by branch, failures of the source and
      packets too large for the batch included; the port filter can be read
      back.
    - Decoding: what is read of a TCP packet over IP depends only on its bytes,
      through the loop of gopacket's layer parser, although its layers are reused
      (unless IPv6 hop-by-hop options follow); a batch
      is handed over in order; in every interleaving the pool never panics, accounts
      for every packet captured, decodes and hands over every buffer that was filled
      once and in order, and shuts down in bounded time after the end of the
      input; an error of the source makes it lose a worker.  On a file, at every moment
      each packet is captured, counted as dropped or still to be read; the end of the
      file can always be reached, and then what was captured is what was handed over
      (Files.v, Session.v).  Both sources of the
      program, a handle and a replayer, keep the promises the pool relies on.
    - Reassembly: a connection goes to one worker in both directions; the two streams
      of a connection share a consumer whichever comes first; the pool survives
      every protocol-abiding assembler; a call of HandlePackets completes unless a
      queue was full, and then never does.
    - From capture to assembly (Conservation.v): when both pools have come to rest and
      no queue was full, the packets that the assembly workers have taken are those
      that the source delivered, decoded, each exactly once.
    - From traffic to report (Dispatch.v, Pipeline.v, Traffic.v): in every run of the
      assembly pool a worker does what its work alone would do, and its work is its
      shards, each once and in order; when the calls that the assemblers make of it
      are those for any number of connections, each opened and closed by either
      direction, interleaved in any way, then the concurrent calls of HandleEvents
      that they cause give a report with exactly the values that were returned on all
      of them.
    - The front: messages logged at start-up all arrive, once, with no deadlock, in
      every interleaving; every cell of the screen is what the report, the statistics and
      the latest messages, which are followed exactly, make it; the event loop waits only where it must, and gets the events of the
      terminal, each once and in order; the footer adds up;
      start-up establishes the invariants of the components; main without the
      interface waits for a signal or the end of the input only, and ends; the
      profiles of a run that returns or panics are complete, and what the other exits
      leave.
      Four deadlocks are proved: the pause key with a full channel, quitting while
      another event is on its way, an interval that is not positive, and main after
      the interface failed.

    ** Fuel and bounds

    Loops whose end depends on data have fuel, and it is proved to suffice: the
    protocol loop runs for the bytes buffered plus two rounds (McText.run), handleGet
    for the bytes of its stream, the loops of the replayer for the packets left in
    their source, renderLine for the width of its line, Itoa for the twenty digits
    of an int.  Sizes assumed in statements are those of Go values in memory: less
    than [int_max], or the capacity that the code itself allocates (128 work items,
    1000 packets, 1024 batches).

    ** Not modelled

    Vendored packages are parameters, but for the loop of gopacket's layer parser; a
    decoder of a layer is given the bytes of its packet and not what follows them in
    the capture buffer (for a header cut short, that decides which error is logged).
    The handler of the decode pool is a call that returns: in the program it is
    HandlePackets of the assembly pool, which waits for ever after a refused batch
    (HandlePackets_lost_signal) and panics without workers; what is said of the
    end of the decode pool and of main is for a handler that returns.  Slices that Go
    could not allocate are not refused, but for those of negative length.  FileLaws
    (Files.v) are those of the handle of a file; a replayer times out.  The command line is what the package pflag
    makes of it, the record [flags].  Left out are the methods that only format a
    value for the log (String, DstString, log), and colors.
    time.Sleep and the date in log lines have no effect on the state.  A run of the whole
    program (Session.memsniff) is given what happens in it: the schedule of the other
    goroutines, the signals and the events of the terminal.  A panic of main runs its
    deferred call and ends the process; one of another goroutine would end it at once,
    and is excluded by the theorems about the components where they say that no step
    panics.  With the interface the run of main is that of its own goroutine and the
    terminal's; the components that it reads are those of their own files.  The memory
    model is sequentially consistent at the granularity of the actions: an atomic
    addition, or a section under the lock of the filter, is one step.  The plain reads
    of the counters of the decoder and of the analysis pool by their Stats, data races
    in Go, are reads of the present values. *)
From stdpp Require Export prelude gmap list strings fin_maps sorting.
From Stdlib Require Export ZArith Lia.
From Stdlib Require Import Strings.Byte.

(** ** Bytes and strings *)

(** Go's [byte], [[]byte] and [string]: all three are byte sequences; the
    conversions between [string] and [[]byte] copy and are the identity here. *)
Abbreviation byte := Byte.byte.
Abbreviation bytes := (list Byte.byte).

(** A literal: [bs "get"] is the Go literal ["get"]. *)
Definition bs (s : string) : bytes := String.list_byte_of_string s.

(** The numeric value of a byte, 0 to 255. *)
Definition byteZ (b : byte) : Z := Z.of_N (Byte.to_N b).

(** [len(x)] of a slice or string. *)
Definition zlen {A} (l : list A) : Z := Z.of_nat (length l).

Arguments zlen {A} l : simpl never.

Definition sumZ {A} (f : A -> Z) (l : list A) : Z :=
  foldr (fun x acc => (f x + acc)%Z) 0%Z l.

(** ** Machine integers *)

Definition int_min : Z := -9223372036854775808.
Definition int_max : Z := 9223372036854775807.
Definition in_int (z : Z) : Prop := (int_min <= z <= int_max)%Z.

(** Go's [int] is 64 bits wide: arithmetic wraps around in two's complement. *)
Definition wrap64 (z : Z) : Z :=
  ((z + 9223372036854775808) mod 18446744073709551616 - 9223372036854775808)%Z.

(** [uint64] arithmetic is modulo 2^64. *)
Definition u64 (z : Z) : Z := (z mod 18446744073709551616)%Z.

Declare Scope go_scope.
Delimit Scope go_scope with go.
Notation "a +! b" := (wrap64 (a + b)%Z) (at level 50, left associativity) : go_scope.
Notation "a -! b" := (wrap64 (a - b)%Z) (at level 50, left associativity) : go_scope.
Notation "a *! b" := (wrap64 (a * b)%Z) (at level 40, left associativity) : go_scope.
Open Scope go_scope.

(** ** Errors *)

(** The error values of the program and of the standard library calls it
    makes; a nil [error] is [None] of [option error]. *)
Inductive error : Type :=
  | ErrShortWrite            (* io.ErrShortWrite *)
  | ErrUnexpectedEOF         (* io.ErrUnexpectedEOF *)
  | EOF                      (* io.EOF *)
  | ErrShortRead             (* assembly/reader *)
  | ErrLostData (Lost : Z)   (* assembly/reader *)
  | errProtocolDesync        (* protocol/mctext *)
  | ErrNum                   (* *strconv.NumError *)
  | errQueueFull             (* analysis and assembly *)
  | ErrBytesFull             (* capture *)
  | ErrBlocksFull            (* capture *)
  | ErrNoSource              (* capture *)
  | ErrAmbiguousSource       (* capture *)
  | ErrNoPort                (* capture.portFilter *)
  | NextErrorTimeoutExpired  (* pcap *)
  | errQuitRequested         (* presentation *)
  | ErrOther (code : Z).     (* any other error of a called package *)

(** ** Effects *)

(** What a Go call does: return a value, panic, block forever on a channel,
    or (for the loops that are modelled with fuel) exhaust the fuel given. *)
Inductive outcome (A : Type) : Type :=
  | Ret (a : A)
  | Panic
  | Blocked
  | OutOfFuel.
Arguments Ret {A} a.
Arguments Panic {A}.
Arguments Blocked {A}.
Arguments OutOfFuel {A}.

#[export] Instance outcome_ret : MRet outcome := fun A a => Ret a.
#[export] Instance outcome_bind : MBind outcome := fun A B f m =>
  match m with
  | Ret a => f a | Panic => Panic | Blocked => Blocked | OutOfFuel => OutOfFuel
  end.

(** Stateful Go code: the receiver is threaded through. *)
Definition GoM (S A : Type) : Type := S -> outcome (A * S).

#[export] Instance gom_ret {S} : MRet (GoM S) := fun A a s => Ret (a, s).
#[export] Instance gom_bind {S} : MBind (GoM S) := fun A B f m s =>
  match m s with
  | Ret (a, s') => f a s' | Panic => Panic | Blocked => Blocked | OutOfFuel => OutOfFuel
  end.

Definition gets {S A} (f : S -> A) : GoM S A := fun s => Ret (f s, s).
Definition modify {S} (f : S -> S) : GoM S unit := fun s => Ret (tt, f s).
Definition go_panic {S A} : GoM S A := fun _ => Panic.

(** Run a method of a field of the state: [get] and [set] are the field. *)
Definition zoom {S F A} (get : S -> F) (set : F -> S -> S) (m : GoM F A) : GoM S A :=
  fun s => match m (get s) with
           | Ret (a, f) => Ret (a, set f s)
           | Panic => Panic
           | Blocked => Blocked
           | OutOfFuel => OutOfFuel
           end.

(** [v, err := m; if err != nil { return err }; k v]. *)
Definition bind_err {S A} (m : GoM S (A * option error))
    (k : A -> GoM S (option error)) : GoM S (option error) :=
  '(a, err) ← m; match err with Some e => mret (Some e) | None => k a end.
Notation "x ←? m ; k" := (bind_err m (fun x => k))
  (at level 20, m at level 100, k at level 200, only parsing) : go_scope.

(** [m] returns normally from [s], with a result and a state in [Q]: it
    neither panics nor runs out of fuel. *)
Definition wp {S A} (m : GoM S A) (Q : A -> S -> Prop) (s : S) : Prop :=
  exists a s', m s = Ret (a, s') /\ Q a s'.

(** ** Slices *)

(** [l[:n]].  Reslicing beyond the length (up to the capacity) is counted as
    a fault here: the program never means to do it. *)
Definition slice_to {A} (n : Z) (l : list A) : outcome (list A) :=
  if bool_decide (0 <= n <= zlen l)%Z then Ret (take (Z.to_nat n) l) else Panic.

(** [l[n:]]. *)
Definition slice_from {A} (n : Z) (l : list A) : outcome (list A) :=
  if bool_decide (0 <= n <= zlen l)%Z then Ret (drop (Z.to_nat n) l) else Panic.

(** [l[n]]. *)
Definition index {A} (n : Z) (l : list A) : outcome A :=
  if bool_decide (0 <= n)%Z
  then match l !! Z.to_nat n with Some x => Ret x | None => Panic end
  else Panic.

(** [copy(dst, src)]: the new contents of [dst]. *)
Definition go_copy {A} (dst src : list A) : list A :=
  take (length dst) src ++ drop (length src) dst.

(** ** Instances *)

#[export] Instance byte_eq_decision : EqDecision byte := Byte.byte_eq_dec.

#[export] Program Instance byte_countable : Countable byte :=
  inj_countable Byte.to_N Byte.of_N _.
Next Obligation. intros b. apply Byte.of_to_N. Qed.

#[export] Instance error_eq_decision : EqDecision error.
Proof. solve_decision. Defined.

#[export] Instance in_int_decision z : Decision (in_int z).
Proof. unfold in_int. apply _. Defined.

(** ** Automation *)

Create HintDb go discriminated.

(** Linear arithmetic over lengths and machine-integer bounds. *)
Ltac golia :=
  unfold in_int, int_min, int_max, zlen in *;
  repeat rewrite ?length_app, ?length_take, ?length_drop, ?length_map,
    ?length_replicate, ?length_insert, ?length_fmap in *;
  simpl in *; lia.

(** ** Interleavings *)

(** [l] interleaves the lists [ls], each in its own order. *)
Inductive interleaves {A} : list (list A) -> list A -> Prop :=
  | interleaves_done ls : Forall (fun l => l = []) ls -> interleaves ls []
  | interleaves_step ls i x l rest :
      ls !! i = Some (x :: l) -> interleaves (<[i := l]> ls) rest -> interleaves ls (x :: rest).

Lemma interleaves_perm {A} (ls : list (list A)) l : interleaves ls l -> l ≡ₚ concat ls.
Proof.
  induction 1 as [ls Hls|ls i x l rest Hi _ IH].
  - induction Hls as [|l ls -> _ IH]; [done|exact IH].
  - rewrite IH. clear IH. rewrite insert_take_drop by (by eapply lookup_lt_Some).
    rewrite <- (take_drop_middle ls i (x :: l) Hi) at 3.
    rewrite !concat_app. cbn. by rewrite Permutation_middle.
Qed.

(** The interleaving that takes the next element of the lists in the order [sched]. *)
Fixpoint interleave {A} (sched : list nat) (ls : list (list A)) : option (list A) :=
  match sched with
  | [] => if forallb (fun l => match l with [] => true | _ => false end) ls then Some [] else None
  | i :: sched =>
      match ls !! i with
      | Some (x :: l) => cons x <$> interleave sched (<[i := l]> ls)
      | _ => None
      end
  end.

Lemma interleave_interleaves {A} sched : forall (ls : list (list A)) l,
  interleave sched ls = Some l -> interleaves ls l.
Proof.
  induction sched as [|i sched IH]; intros ls l; simpl.
  - destruct (forallb _ ls) eqn:E; [|done]. intros [= <-]. constructor. apply Forall_forall. intros l Hl.
    rewrite forallb_forall in E. apply list_elem_of_In, E in Hl. by destruct l.
  - destruct (ls !! i) as [[|x l']|] eqn:E; [done| |done]. intros (r & Hr & ->)%fmap_Some.
    by eapply interleaves_step, IH.
Qed.

(** ** Integers *)

Lemma wrap64_id z : in_int z -> wrap64 z = z.
Proof. unfold wrap64, in_int, int_min, int_max. intros ?. rewrite Z.mod_small; lia. Qed.

Lemma wrap64_in z : in_int (wrap64 z).
Proof.
  unfold wrap64, in_int, int_min, int_max.
  pose proof (Z.mod_pos_bound (z + 9223372036854775808) 18446744073709551616). lia.
Qed.

Lemma wrap64_wrap_l a b : wrap64 (wrap64 a + b) = wrap64 (a + b).
Proof.
  unfold wrap64. f_equal.
  replace (a + b + 9223372036854775808)%Z with ((a + 9223372036854775808) + b)%Z by lia.
  rewrite <- (Z.add_mod_idemp_l (a + 9223372036854775808)) by done.
  f_equal. lia.
Qed.

Lemma u64_range z : (0 <= u64 z < 18446744073709551616)%Z.
Proof. apply Z.mod_pos_bound. lia. Qed.

(** Remove the wrap-around of every operation whose exact result is in range. *)
Ltac nowrap := repeat rewrite wrap64_id by golia.
Tactic Notation "nowrap" "in" hyp(H) := repeat rewrite wrap64_id in H by golia.

(** Split on the integer tests of the goal. *)
Ltac zcase :=
  match goal with
  | |- context [ Z.ltb ?a ?b ] => destruct (Z.ltb_spec a b)
  | |- context [ Z.leb ?a ?b ] => destruct (Z.leb_spec a b)
  | |- context [ Z.eqb ?a ?b ] => destruct (Z.eqb_spec a b)
  end.

(** ** Lists *)

Section lists.
  Context {A : Type}.
  Implicit Types l k : list A.

Lemma zlen_nonneg l : (0 <= zlen l)%Z.
Proof. golia. Qed.

Lemma zlen_app l k : zlen (l ++ k) = (zlen l + zlen k)%Z.
Proof. golia. Qed.

Lemma zlen_cons x l : zlen (x :: l) = (1 + zlen l)%Z.
Proof. unfold zlen. simpl. lia. Qed.

Lemma zlen_0_inv l : zlen l = 0%Z -> l = [].
Proof. destruct l; [done|]. golia. Qed.

Lemma sumZ_app (f : A -> Z) l k : sumZ f (l ++ k) = (sumZ f l + sumZ f k)%Z.
Proof. induction l as [|x l IH]; simpl; [done|]. rewrite IH. lia. Qed.

Lemma sumZ_nonneg (f : A -> Z) l : Forall (fun x => (0 <= f x)%Z) l -> (0 <= sumZ f l)%Z.
Proof. induction 1; simpl; lia. Qed.

Lemma sumZ_take_drop (f : A -> Z) n l :
  sumZ f l = (sumZ f (take n l) + sumZ f (drop n l))%Z.
Proof. rewrite <- sumZ_app. by rewrite take_drop. Qed.

Lemma sumZ_insert (f : A -> Z) l i x y : l !! i = Some x ->
  sumZ f (<[i := y]> l) = (sumZ f l - f x + f y)%Z.
Proof.
  intros Hi. apply lookup_lt_Some in Hi as Hlt.
  rewrite <- (take_drop_middle l i x Hi), insert_app_r_alt by (rewrite length_take; lia).
  rewrite length_take, Nat.min_l, Nat.sub_diag by lia. simpl. rewrite !sumZ_app. simpl. lia.
Qed.

Lemma sumZ_elem (f : A -> Z) l i x : l !! i = Some x -> Forall (fun y => (0 <= f y)%Z) l -> (f x <= sumZ f l)%Z.
Proof.
  intros Hi Hf. rewrite <- (take_drop_middle l i x Hi) in *. apply Forall_app in Hf as [Hf1 Hf2].
  apply Forall_cons in Hf2 as [_ Hf2]. rewrite sumZ_app. simpl.
  pose proof (sumZ_nonneg f _ Hf1). pose proof (sumZ_nonneg f _ Hf2). unfold sumZ in *. lia.
Qed.

Lemma sumZ_ext (f g : A -> Z) l : (forall x, x ∈ l -> f x = g x) -> sumZ f l = sumZ g l.
Proof.
  induction l as [|x l IH]; simpl; intros E; [done|].
  rewrite E by left. rewrite IH; [done|]. intros y Hy. apply E. by right.
Qed.

#[export] Instance List_filter_Permutation f : Proper (Permutation ==> Permutation) (@List.filter A f).
Proof.
  induction 1 as [|x l l' _ IH|x y l|l1 l2 l3 _ IH1 _ IH2]; simpl; [done| | |by etrans].
  - destruct (f x); [by constructor|done].
  - destruct (f x), (f y); try done. constructor.
Qed.

#[export] Instance remove_dups_Permutation `{EqDecision A} : Proper (Permutation ==> Permutation) (@remove_dups A _).
Proof.
  intros l l' Hp. apply NoDup_Permutation; [apply NoDup_remove_dups..|].
  intros x. by rewrite !elem_of_remove_dups, Hp.
Qed.

Lemma Forall_List_filter (P : A -> Prop) f l : Forall P l -> Forall P (List.filter f l).
Proof. induction 1 as [|x l Hx Hl IH]; simpl; [done|]. destruct (f x); [by constructor|done]. Qed.

Lemma List_filter_all (f : A -> bool) l : (forall x, f x = true) -> List.filter f l = l.
Proof. intros E. induction l as [|x l IH]; simpl; [done|]. by rewrite E, IH. Qed.

(** Lists of elements that know which list they are in. *)
Lemma NoDup_concat_keyed (g : A -> nat) (ls : list (list A)) : forall off,
  (forall i l, ls !! i = Some l -> NoDup l /\ Forall (fun x => g x = off + i)%nat l) ->
  NoDup (concat ls) /\ Forall (fun x => off <= g x)%nat (concat ls).
Proof.
  induction ls as [|l ls IH]; intros off Hl; simpl; [by split; constructor|].
  destruct (Hl 0%nat l eq_refl) as [Hnd Hg]. destruct (IH (S off)) as [Hnd' Hg'].
  { intros i l' Hi. destruct (Hl (S i) l' Hi) as [? Hg']. split; [done|].
    eapply Forall_impl; [exact Hg'|]. simpl. lia. }
  rewrite Forall_forall in Hg, Hg'. split.
  - apply NoDup_app. split_and!; [done| |done]. intros x Hx Hx'. specialize (Hg x Hx). specialize (Hg' x Hx'). lia.
  - apply Forall_app. split; apply Forall_forall; intros x Hx; [rewrite Hg by done; lia|].
    specialize (Hg' x Hx). lia.
Qed.

Lemma elem_of_concat (ls : list (list A)) x : x ∈ concat ls <-> exists l, x ∈ l /\ l ∈ ls.
Proof.
  rewrite list_elem_of_In, List.in_concat.
  split; intros (l & H1 & H2); exists l; rewrite ?list_elem_of_In in *; done.
Qed.

Lemma List_filter_elem (f : A -> bool) l x : x ∈ List.filter f l <-> x ∈ l /\ f x = true.
Proof. rewrite !list_elem_of_In. apply List.filter_In. Qed.

Lemma go_copy_drop n l : (n <= length l)%nat ->
  take (length l - n) (go_copy l (drop n l)) = drop n l.
Proof.
  intros ?. unfold go_copy. rewrite (take_ge (drop n l)) by (rewrite length_drop; lia).
  rewrite take_app_le by (rewrite length_drop; lia).
  apply take_ge. rewrite length_drop. lia.
Qed.

Lemma insert_middle l x y k : <[length l := y]> (l ++ x :: k) = l ++ y :: k.
Proof. rewrite insert_app_r_alt by lia. by rewrite Nat.sub_diag. Qed.

Lemma alter_last (f : A -> A) l x : alter f (length (l ++ [x]) - 1)%nat (l ++ [x]) = l ++ [f x].
Proof.
  rewrite alter_app_r_alt by (rewrite length_app; simpl; lia).
  rewrite length_app. simpl. by replace (length l + 1 - 1 - length l)%nat with 0%nat by lia.
Qed.

Lemma slice_to_ok n l : (0 <= n <= zlen l)%Z -> slice_to n l = Ret (take (Z.to_nat n) l).
Proof. intros ?. unfold slice_to. by rewrite bool_decide_true. Qed.

Lemma slice_from_ok n l : (0 <= n <= zlen l)%Z -> slice_from n l = Ret (drop (Z.to_nat n) l).
Proof. intros ?. unfold slice_from. by rewrite bool_decide_true. Qed.

End lists.

Lemma fmap_concat {A B} (f : A -> B) (ls : list (list A)) :
  f <$> concat ls = concat ((fun l : list A => (f <$> l : list B)) <$> ls).
Proof. induction ls as [|l ls IH]; simpl; [done|]. by rewrite fmap_app, IH. Qed.

#[export] Hint Resolve zlen_nonneg wrap64_in : go.

(** ** Weakest preconditions *)

Section wp.
  Context {S : Type}.

Lemma wp_ret {A} (a : A) (Q : A -> S -> Prop) s : Q a s -> wp (mret a) Q s.
Proof. intros ?. by exists a, s. Qed.

Lemma wp_bind {A B} (m : GoM S A) (k : A -> GoM S B) Q s :
  wp m (fun a => wp (k a) Q) s -> wp (m ≫= k) Q s.
Proof.
  intros (a & s' & Hm & b & s'' & Hk & HQ). exists b, s''. split; [|done].
  unfold mbind, gom_bind. by rewrite Hm.
Qed.

Lemma wp_bind_inv {A B} (m : GoM S A) (k : A -> GoM S B) Q s :
  wp (m ≫= k) Q s -> wp m (fun a => wp (k a) Q) s.
Proof.
  intros (b & s'' & E & HQ). unfold mbind, gom_bind in E. destruct (m s) as [[a s']| | |] eqn:Em; try done.
  exists a, s'. split; [done|]. by exists b, s''.
Qed.

Lemma wp_mono {A} (m : GoM S A) (Q Q' : A -> S -> Prop) s :
  (forall a s', Q a s' -> Q' a s') -> wp m Q s -> wp m Q' s.
Proof. intros HQ (a & s' & ? & ?). exists a, s'. eauto. Qed.

Lemma wp_and {A} (m : GoM S A) (Q Q' : A -> S -> Prop) s :
  wp m Q s -> wp m Q' s -> wp m (fun a s' => Q a s' /\ Q' a s') s.
Proof. intros (a & s' & E & ?) (a' & s'' & E' & ?). simplify_eq/=. rewrite E in E'. simplify_eq. by exists a', s''. Qed.

Lemma wp_gets {A} (f : S -> A) (Q : A -> S -> Prop) s : Q (f s) s -> wp (gets f) Q s.
Proof. intros ?. by eexists _, _. Qed.

Lemma wp_modify (f : S -> S) (Q : unit -> S -> Prop) s : Q tt (f s) -> wp (modify f) Q s.
Proof. intros ?. by eexists _, _. Qed.

Lemma wp_zoom {F A} (get : S -> F) set (m : GoM F A) (Q : A -> S -> Prop) s :
  wp m (fun a f => Q a (set f s)) (get s) -> wp (zoom get set m) Q s.
Proof.
  intros (a & f & Hm & HQ). exists a, (set f s). split; [|done].
  unfold zoom. by rewrite Hm.
Qed.

Lemma wp_bind_err {A} (m : GoM S (A * option error)) k (Q : option error -> S -> Prop) s :
  wp m (fun r s' => match r.2 with
                    | Some e => Q (Some e) s'
                    | None => wp (k r.1) Q s'
                    end) s ->
  wp (bind_err m k) Q s.
Proof.
  intros H. unfold bind_err. apply wp_bind. eapply wp_mono; [|exact H].
  intros [a [e|]] s'; simpl; [apply wp_ret | done].
Qed.

Lemma wp_run {A} (m : GoM S A) Q s a s' : wp m Q s -> m s = Ret (a, s') -> Q a s'.
Proof. intros (a0 & s0 & E & HQ) E'. congruence. Qed.

End wp.
