(* ===== verification/GoLib.v ===== *)
(** * The parts of Go's standard library that memsniff computes with

    Executable definitions of the functions of [bytes], [strconv] and
    [bytes.Buffer] used by the protocol parser and the stream buffer, with the
    lemmas the components share.  The cut sets and separators the program
    passes are ASCII, for which the byte-wise definitions below and Go's
    rune-wise ones agree. *)
From Stdlib Require Import Strings.Byte.
From S2P Require Import Prelude.
Local Open Scope Z_scope.

(** ** Package bytes *)

(** [bytes.IndexAny(s, chars)]. *)
Definition IndexAny (s chars : bytes) : Z :=
  match list_find (fun b => b ∈ chars) s with
  | Some (i, _) => Z.of_nat i
  | None => -1
  end.

(** [bytes.TrimRight(s, cutset)]. *)
Fixpoint TrimRight (s cutset : bytes) : bytes :=
  match s with
  | [] => []
  | b :: s' => match TrimRight s' cutset with
               | [] => if bool_decide (b ∈ cutset) then [] else [b]
               | r => b :: r
               end
  end.

(** [bytes.Split(s, []byte{sep})]: never empty. *)
Fixpoint Split (s : bytes) (sep : byte) : list bytes :=
  match s with
  | [] => [[]]
  | b :: s' => if decide (b = sep) then [] :: Split s' sep
               else match Split s' sep with
                    | [] => [[b]]
                    | f :: fs => (b :: f) :: fs
                    end
  end.

(** [Next(n)] of a [bytes.Buffer], applied to the unread bytes: what remains.  It
    panics on a negative count and takes everything when there are fewer than
    [n] bytes. *)
Definition buffer_Next (n : Z) (s : bytes) : outcome bytes :=
  if n <? 0 then Panic else Ret (drop (Z.to_nat n) s).

(** ** Package strconv *)

Definition digit_val (b : byte) : option Z :=
  let v := byteZ b - 48 in
  if bool_decide (0 <= v <= 9) then Some v else None.

Fixpoint digits_val (acc : Z) (s : bytes) : option Z :=
  match s with
  | [] => Some acc
  | b :: s' => match digit_val b with
               | Some d => digits_val (acc * 10 + d) s'
               | None => None
               end
  end.

(** [strconv.Atoi(s)]: an optional sign, at least one decimal digit, and a
    value that fits an [int]. *)
Definition Atoi (s : bytes) : Z * option error :=
  let neg := bool_decide (head s = Some "-"%byte) in
  let ds := if neg || bool_decide (head s = Some "+"%byte) then tail s else s in
  match ds with
  | [] => (0, Some ErrNum)
  | _ => match digits_val 0 ds with
         | None => (0, Some ErrNum)
         | Some v =>
             let v := if neg then - v else v in
             if bool_decide (in_int v) then (v, None)
             else (if neg then int_min else int_max, Some ErrNum)
         end
  end.

Definition digit_byte (d : Z) : byte :=
  default "0"%byte (Byte.of_N (Z.to_N (48 + d))).

Fixpoint itoa_digits (fuel : nat) (n : Z) (acc : bytes) : bytes :=
  match fuel with
  | O => acc
  | S f => let acc := digit_byte (n mod 10) :: acc in
           if n <? 10 then acc else itoa_digits f (n / 10) acc
  end.

(** [strconv.Itoa(n)]; an [int] has at most nineteen decimal digits. *)
Definition Itoa (n : Z) : bytes :=
  if n <? 0 then "-"%byte :: itoa_digits 20 (- n) [] else itoa_digits 20 n [].

(** ** Package hash/fnv *)

(** [Sum64] of [fnv.New64a] after writing [s]: the 64-bit FNV-1a hash. *)
Definition fnv1a (s : bytes) : Z :=
  foldl (fun h b => u64 (Z.lxor h (byteZ b) * 1099511628211)) 14695981039346656037 s.

(** ** IndexAny *)

Lemma IndexAny_range s chars : -1 <= IndexAny s chars < zlen s \/ s = [] /\ IndexAny s chars = -1.
Proof.
  unfold IndexAny. destruct (list_find _ s) as [[i b]|] eqn:E.
  - apply list_find_Some in E as (Hl & _ & _). apply lookup_lt_Some in Hl. left. golia.
  - destruct s; [by right|left; golia].
Qed.

Lemma IndexAny_nonneg s chars pos :
  IndexAny s chars = pos -> 0 <= pos ->
  exists p b q, s = p ++ b :: q /\ zlen p = pos /\ b ∈ chars /\ Forall (fun x => x ∉ chars) p.
Proof.
  unfold IndexAny. destruct (list_find _ s) as [[i b]|] eqn:E; [|golia].
  intros <- _. apply list_find_Some in E as (Hl & Hb & Hbefore).
  exists (take i s), b, (drop (S i) s). repeat split.
  - symmetry. by apply take_drop_middle.
  - unfold zlen. rewrite length_take. apply lookup_lt_Some in Hl. lia.
  - done.
  - apply Forall_lookup_2. intros j x [? ?]%lookup_take_Some. eauto.
Qed.

Lemma IndexAny_app p b q chars :
  Forall (fun x => x ∉ chars) p -> b ∈ chars -> IndexAny (p ++ b :: q) chars = zlen p.
Proof.
  intros Hp Hb. unfold IndexAny.
  assert (list_find (fun b => b ∈ chars) (p ++ b :: q) = Some (length p, b)) as ->; [|done].
  apply list_find_Some. split_and!; [by apply list_lookup_middle | done |].
  intros j y Hj Hlt. rewrite lookup_app_l in Hj by done.
  eapply Forall_lookup_1 in Hp; eauto.
Qed.

Lemma IndexAny_none s chars : Forall (fun x => x ∉ chars) s -> IndexAny s chars = -1.
Proof.
  intros Hs. unfold IndexAny. destruct (list_find _ s) as [[i b]|] eqn:E; [|done].
  apply list_find_Some in E as (Hl & Hb & _). eapply Forall_lookup_1 in Hs; [|eauto]. done.
Qed.

Lemma IndexAny_neg s chars : IndexAny s chars < 0 -> Forall (fun x => x ∉ chars) s.
Proof.
  unfold IndexAny. destruct (list_find _ s) as [[i b]|] eqn:E; [lia|]. intros _.
  by apply list_find_None in E.
Qed.

(** ** TrimRight *)

Lemma TrimRight_id s b cutset : b ∉ cutset -> TrimRight (s ++ [b]) cutset = s ++ [b].
Proof.
  intros Hb. induction s as [|c s IH]; simpl; [by rewrite bool_decide_false|].
  rewrite IH. by destruct s.
Qed.

Lemma TrimRight_cut s b cutset : b ∈ cutset -> TrimRight (s ++ [b]) cutset = TrimRight s cutset.
Proof.
  intros Hb. induction s as [|c s IH]; simpl; [by rewrite bool_decide_true|]. by rewrite IH.
Qed.

Lemma TrimRight_clean s cutset : Forall (fun b => b ∉ cutset) s -> TrimRight s cutset = s.
Proof.
  induction 1 as [|b s Hb Hs IH]; simpl; [done|]. rewrite IH.
  destruct s; [by rewrite bool_decide_false|done].
Qed.

Lemma TrimRight_length s cutset : (length (TrimRight s cutset) <= length s)%nat.
Proof.
  induction s as [|b s IH]; simpl; [lia|].
  destruct (TrimRight s cutset) eqn:E; simpl in *; [case_bool_decide; simpl; lia | lia].
Qed.

(** ** Split *)

Lemma Split_nonempty s sep : Split s sep <> [].
Proof. destruct s; simpl; [done|]. case_decide; [done|]. by destruct (Split s sep). Qed.

Lemma Split_clean s sep : Forall (fun b => b <> sep) s -> Split s sep = [s].
Proof. induction 1 as [|b s Hb Hs IH]; simpl; [done|]. rewrite IH. by case_decide. Qed.

Lemma Split_cons f s sep :
  Forall (fun b => b <> sep) f -> Split (f ++ sep :: s) sep = f :: Split s sep.
Proof.
  induction 1 as [|b f Hb Hf IH]; simpl; [by rewrite decide_True|].
  rewrite IH. by case_decide.
Qed.

(** ** Decimal numbers *)

Lemma digit_byte_val d : 0 <= d <= 9 -> digit_val (digit_byte d) = Some d.
Proof.
  intros Hd. assert (d ∈ seqZ 0 10) as Hin by (apply elem_of_seqZ; lia).
  assert (forallb (fun d => bool_decide (digit_val (digit_byte d) = Some d)) (seqZ 0 10) = true)
    as Hall by reflexivity.
  rewrite forallb_forall in Hall. apply list_elem_of_In, Hall in Hin.
  by apply bool_decide_eq_true in Hin.
Qed.

Lemma digits_val_itoa fuel n acc :
  0 <= n < 10 ^ Z.of_nat fuel -> (0 < fuel)%nat ->
  digits_val 0 (itoa_digits fuel n acc) = digits_val n acc.
Proof.
  revert n acc. induction fuel as [|f IH]; intros n acc Hn Hf; [lia|]. simpl.
  rewrite Nat2Z.inj_succ, Z.pow_succ_r in Hn by lia.
  pose proof (Z.div_mod n 10 ltac:(lia)). pose proof (Z.mod_pos_bound n 10 ltac:(lia)).
  zcase.
  - simpl. rewrite digit_byte_val by lia. f_equal. rewrite Z.mod_small; lia.
  - assert (1 <= n / 10) by (apply Z.div_le_lower_bound; lia).
    destruct f as [|f]; [simpl in Hn; lia|].
    rewrite IH; [| split; [lia | apply Z.div_lt_upper_bound; lia] | lia].
    simpl. rewrite digit_byte_val by lia. f_equal. lia.
Qed.

Lemma itoa_digits_all fuel n acc :
  0 <= n -> Forall (fun b => is_Some (digit_val b)) acc ->
  Forall (fun b => is_Some (digit_val b)) (itoa_digits fuel n acc).
Proof.
  revert n acc. induction fuel as [|f IH]; intros n acc Hn Hacc; simpl; [done|].
  pose proof (Z.mod_pos_bound n 10 ltac:(lia)).
  assert (Forall (fun b => is_Some (digit_val b)) (digit_byte (n mod 10) :: acc)).
  { constructor; [|done]. rewrite digit_byte_val by lia. eauto. }
  zcase; [done|]. apply IH; [|done]. apply Z.div_pos; lia.
Qed.

Lemma itoa_digits_nonempty fuel n acc : (0 < fuel)%nat -> itoa_digits fuel n acc <> [].
Proof.
  revert n acc. induction fuel as [|f IH]; intros n acc Hf; [lia|]. simpl.
  zcase; [done|]. destruct f; [done|]. apply IH. lia.
Qed.

Lemma Atoi_digits ds v :
  ds <> [] -> Forall (fun b => is_Some (digit_val b)) ds -> digits_val 0 ds = Some v ->
  in_int v -> Atoi ds = (v, None).
Proof.
  intros Hne Hds Hv Hin. destruct ds as [|b ds]; [done|].
  apply Forall_cons in Hds as [[d Hb] _]. unfold Atoi. simpl head.
  rewrite !bool_decide_false by (intros [= ->]; by vm_compute in Hb). cbv beta zeta iota delta [orb].
  by rewrite Hv, bool_decide_true.
Qed.

Lemma Atoi_Itoa n : 0 <= n <= int_max -> Atoi (Itoa n) = (n, None).
Proof.
  unfold int_max. intros Hn. unfold Itoa. destruct (Z.ltb_spec n 0); [lia|].
  apply Atoi_digits.
  - apply itoa_digits_nonempty. lia.
  - by apply itoa_digits_all.
  - rewrite digits_val_itoa; [done | | lia].
    change (10 ^ Z.of_nat 20) with 100000000000000000000. lia.
  - unfold in_int, int_min, int_max. lia.
Qed.

Lemma Itoa_digits n : 0 <= n -> Forall (fun b => is_Some (digit_val b)) (Itoa n).
Proof.
  intros Hn. unfold Itoa. destruct (Z.ltb_spec n 0); [lia|]. by apply itoa_digits_all.
Qed.

Lemma Atoi_in_int s n : Atoi s = (n, None) -> in_int n.
Proof.
  unfold Atoi. intros H. repeat case_match; simplify_eq; by case_bool_decide.
Qed.

Lemma buffer_Next_ok n s : 0 <= n -> buffer_Next n s = Ret (drop (Z.to_nat n) s).
Proof. intros ?. unfold buffer_Next. by destruct (Z.ltb_spec n 0); [lia|]. Qed.
