(* ===== verification/Buffer.v ===== *)
(** * assembly/reader/buffer.go: the gap-aware stream buffer

    [Buffer] stores the bytes of one direction of a TCP conversation together
    with the gaps left by lost packets.  Every method of the Go type is a
    definition of this file; the methods with effects run in [GoM Buffer].

    Two invariants are kept apart.  [safe] holds for every sequence of calls,
    whatever (even overflowing or negative) count is passed to [Discard]: it is
    what panic freedom and progress need.  [wf] adds exact length accounting,
    and holds as long as counts are non-negative and lengths fit an [int]. *)
From Stdlib Require Import Strings.Byte.
From S2P Require Import Prelude GoLib.
Local Open Scope Z_scope.

(** ** Data *)

(** A contiguous run of bytes of the input stream, possibly preceded by a gap. *)
Record block := mkBlock {
  gap : Z;        (* number of lost bytes before the actual data *)
  dataLen : Z     (* number of bytes of data *)
}.

Record Buffer := mkBuffer {
  buf : bytes;           (* the unread part of the bytes.Buffer *)
  blen : Z;              (* field len: length including gaps *)
  bcap : Z;              (* field cap *)
  blocks : list block;
  discard : Z            (* bytes still to be discarded from future writes *)
}.

Definition set_buf (x : bytes) (b : Buffer) : Buffer :=
  mkBuffer x (blen b) (bcap b) (blocks b) (discard b).
Definition set_blen (x : Z) (b : Buffer) : Buffer :=
  mkBuffer (buf b) x (bcap b) (blocks b) (discard b).
Definition set_blocks (x : list block) (b : Buffer) : Buffer :=
  mkBuffer (buf b) (blen b) (bcap b) x (discard b).
Definition set_discard (x : Z) (b : Buffer) : Buffer :=
  mkBuffer (buf b) (blen b) (bcap b) (blocks b) x.

Definition NewBuffer (cap : Z) : Buffer := mkBuffer [] 0 cap [] 0.

Definition Reset (b : Buffer) : Buffer :=
  set_discard 0 (set_blocks [] (set_blen 0 (set_buf [] b))).

(** ** Blocks *)

Definition hasGap (bl : block) : bool := 0 <? gap bl.

(** [block.len]: bytes of the input stream covered, including the gap. *)
Definition block_len (bl : block) : Z := gap bl +! dataLen bl.

(** [block.discard(buf, n)]: drop the first [n] bytes of the block. *)
Definition block_discard (bl : block) (n : Z) : GoM Buffer block := fun b =>
  if block_len bl <=? n then Panic
  else
    let b := set_blen (blen b -! n) b in
    if n <? gap bl then Ret (mkBlock (gap bl -! n) (dataLen bl), b)
    else
      let n := n -! gap bl in
      rest ← buffer_Next n (buf b);
      Ret (mkBlock 0 (dataLen bl -! n), set_buf rest b).

(** ** Queries *)

Definition Len (b : Buffer) : Z := blen b.

Fixpoint contiguousFrom (avail : Z) (bls : list block) : Z * Z :=
  match bls with
  | [] => (avail, 0)
  | bl :: bls' =>
      if hasGap bl then (avail, gap bl) else contiguousFrom (avail +! dataLen bl) bls'
  end.

(** [contiguousAvailable() (avail, gap)]. *)
Definition contiguousAvailable (b : Buffer) : Z * Z := contiguousFrom 0 (blocks b).

Definition totalData (b : Buffer) : Z :=
  foldl (fun avail bl => avail +! dataLen bl) 0 (blocks b).

Definition validate (b : Buffer) : outcome unit :=
  if totalData b =? zlen (buf b) then Ret tt else Panic.

(** ** Mutation *)

Definition dropBlocks (n : nat) : GoM Buffer unit := fun b =>
  let '(len', dataToDrop) :=
    foldl (fun acc bl => (acc.1 -! block_len bl, acc.2 +! dataLen bl))
      (blen b, 0) (take n (blocks b)) in
  let copied := go_copy (blocks b) (drop n (blocks b)) in
  let bls := take (length (blocks b) - n) copied in
  rest ← buffer_Next dataToDrop (buf b);
  Ret (tt, set_buf rest (set_blocks bls (set_blen len' b))).

(** The loop of [Discard], over the blocks [bls] starting at index [i]. *)
Fixpoint discardLoop (i : nat) (bls : list block) (toDiscard : Z) : GoM Buffer unit :=
  match bls with
  | [] => fun b =>
      Ret (tt, set_discard (discard b +! toDiscard)
                 (set_blocks [] (set_blen 0 (set_buf [] b))))
  | bl :: bls' =>
      let l := block_len bl in
      if toDiscard <? l then
        bl' ← block_discard bl toDiscard;
        modify (fun b => set_blocks (<[i := bl']> (blocks b)) b);;
        dropBlocks i
      else discardLoop (S i) bls' (toDiscard -! l)
  end.

Definition Discard (n : Z) : GoM Buffer unit := fun b => discardLoop 0 (blocks b) n b.

(** [b.blocks[len(b.blocks)-1].dataLen += n], or a new block. *)
Definition appendBlock (skip n : Z) (bls : list block) : list block :=
  if (skip =? 0) && (0 <? zlen bls)
  then alter (fun bl => mkBlock (gap bl) (dataLen bl +! n)) (length bls - 1)%nat bls
  else bls ++ [mkBlock skip n].

Definition Write (skip : Z) (data : bytes) : GoM Buffer (option error) := fun b =>
  let skip := if skip <? 0 then 0 else skip in
  if skip +! zlen data <=? discard b then
    Ret (None, set_discard (discard b -! skip -! zlen data) b)
  else
    '(skip, data) ←
      (if discard b <=? skip then Ret (skip -! discard b, data)
       else data' ← slice_from (discard b -! skip) data; Ret (0, data'));
    if bcap b <? zlen (buf b) +! zlen data then Ret (Some ErrShortWrite, b)
    else
      Ret (None,
        set_blen (blen b +! (skip +! zlen data))
          (set_blocks (appendBlock skip (zlen data) (blocks b))
            (set_discard 0 (set_buf (buf b ++ data) b)))).

(** ** Reading *)

Definition PeekN (n : Z) : GoM Buffer (bytes * option error) := fun b =>
  if blen b <? n then Ret (([], Some ErrShortRead), b)
  else
    let '(avail, gap) := contiguousAvailable b in
    if avail <? n then
      out ← slice_to avail (buf b); Ret ((out, Some (ErrLostData gap)), b)
    else out ← slice_to n (buf b); Ret ((out, None), b).

Definition ReadN (n : Z) : GoM Buffer (bytes * option error) := fun b =>
  if blen b <? n then Ret (([], Some ErrShortRead), b)
  else
    let '(avail, gap) := contiguousAvailable b in
    if avail <? n then
      out ← slice_to avail (buf b);
      '(_, b) ← Discard (avail +! gap) b;
      Ret ((out, Some (ErrLostData gap)), b)
    else
      out ← slice_to n (buf b);
      '(_, b) ← Discard n b;
      Ret ((out, None), b).

(** [indexAny(chars) (pos, avail, gap)]. *)
Definition indexAny (chars : bytes) (b : Buffer) : outcome (Z * Z * Z) :=
  let '(avail, gap) := contiguousAvailable b in
  s ← slice_to avail (buf b);
  Ret (GoLib.IndexAny s chars, avail, gap).

Definition IndexAny (chars : bytes) : GoM Buffer (Z * option error) := fun b =>
  '(pos, avail, gap) ← indexAny chars b;
  if pos <? 0 then
    if avail <? blen b then Ret ((pos, Some (ErrLostData gap)), b)
    else Ret ((pos, Some ErrShortRead), b)
  else Ret ((pos, None), b).

(** [if len(out) >= 1 && out[len(out)-1] == '\r' { out = out[:len(out)-1] }] *)
Definition trimCR (out : bytes) : bytes :=
  if bool_decide (last out = Some "013"%byte)
  then take (length out - 1) out else out.

Definition newline : bytes := ["010"%byte].

Definition ReadLine : GoM Buffer (bytes * option error) := fun b =>
  '(pos, avail, gap) ← indexAny newline b;
  if pos <? 0 then
    if avail <? blen b then
      '(_, b) ← Discard (avail +! gap) b;
      Ret (([], Some (ErrLostData gap)), b)
    else Ret (([], Some ErrShortRead), b)
  else
    out ← slice_to pos (buf b);
    '(_, b) ← Discard (pos +! 1) b;
    Ret ((trimCR out, None), b).

(** ** Invariants *)

(** An upper bound on capacities and on what one delivery may carry (2^60);
    the program's capacity is 32 KiB and a TCP sequence gap is below 2^32. *)
Definition big : Z := 1152921504606846976.

(** What every sequence of calls maintains. *)
Record safe (b : Buffer) : Prop := {
  safe_cap : 0 <= bcap b <= big;
  safe_fit : zlen (buf b) <= bcap b;
  safe_nonneg : Forall (fun bl => 0 <= dataLen bl) (blocks b);
  safe_gaps : Forall (fun bl => in_int (gap bl)) (blocks b);
  safe_data : sumZ dataLen (blocks b) = zlen (buf b);
  safe_tail : Forall (fun bl => 0 < gap bl) (tail (blocks b));
  safe_len : in_int (blen b);
  safe_discard : in_int (discard b);
  safe_owed : discard b <> 0 -> blocks b = []
}.

(** A delivery from the TCP assembler that fits the bounds of [big]. *)
Definition delivery (skip : Z) (data : bytes) : Prop := skip <= big /\ zlen data <= big.

(** The effect of discarding [n] bytes inside block [bl]: the block left and
    the number of data bytes consumed. *)
Definition cut (bl : block) (n : Z) (bl' : block) (k : Z) : Prop :=
  (n < gap bl /\ bl' = mkBlock (gap bl -! n) (dataLen bl) /\ k = 0) \/
  (gap bl <= n /\ 0 <= n - gap bl < dataLen bl /\
     bl' = mkBlock 0 (dataLen bl - (n - gap bl)) /\ k = n - gap bl).

(** The buffer after [Discard] dropped the blocks [dropped] and cut the next
    one down to [bl']. *)
Definition afterCut (b : Buffer) (dropped : list block) (bl' : block) (rest : list block)
    (k n : Z) : Buffer :=
  mkBuffer (drop (Z.to_nat (k + sumZ dataLen dropped)) (buf b))
    (foldl (fun acc bl => acc -! block_len bl) (blen b -! n) dropped)
    (bcap b) (bl' :: rest) (discard b).

(** What every method leaves: a safe buffer of the same capacity. *)
Definition kept (b b' : Buffer) : Prop := safe b' /\ bcap b' = bcap b.

Ltac bufint := unfold big in *; golia.

(** ** Lemmas: blocks *)

Lemma wrap64_add_cases g d : in_int g -> 0 <= d <= big ->
  (g + d <= int_max /\ wrap64 (g + d) = g + d) \/
  (int_max < g + d /\ wrap64 (g + d) = g + d - 18446744073709551616).
Proof.
  intros Hg Hd. destruct (decide (g + d <= int_max)).
  - left. split; [done|]. apply wrap64_id. bufint.
  - right. split; [bufint|]. replace (g + d) with (g + d - 18446744073709551616 + 1 * 18446744073709551616) at 1 by lia.
    unfold wrap64. replace (g + d - 18446744073709551616 + 1 * 18446744073709551616 + 9223372036854775808)
      with (g + d - 18446744073709551616 + 9223372036854775808 + 1 * 18446744073709551616) by lia.
    rewrite Z.mod_add by lia. rewrite Z.mod_small by bufint. bufint.
Qed.

Lemma block_discard_spec bl n b :
  in_int (gap bl) -> in_int n -> 0 <= dataLen bl <= big -> n < block_len bl ->
  exists bl' k, cut bl n bl' k /\
    block_discard bl n b =
      Ret (bl', set_blen (blen b -! n) (set_buf (drop (Z.to_nat k) (buf b)) b)).
Proof.
  intros Hg Hn Hd Hlt. unfold block_discard, cut.
  pose proof (wrap64_add_cases (gap bl) (dataLen bl) Hg Hd) as Hw. unfold block_len in *.
  destruct (Z.leb_spec (gap bl +! dataLen bl) n); [lia|].
  destruct (Z.ltb_spec n (gap bl)).
  - eexists _, 0. split; [left; eauto|]. by destruct b.
  - assert (0 <= n - gap bl < dataLen bl) by bufint.
    eexists _, (n - gap bl). split; [right; eauto|].
    rewrite !(wrap64_id (n - gap bl)) by bufint. rewrite buffer_Next_ok by lia.
    simpl. rewrite (wrap64_id (dataLen bl - _)) by bufint. by destruct b.
Qed.

Lemma foldl_pair (l : list block) x y :
  foldl (fun acc bl => (acc.1 -! block_len bl, acc.2 +! dataLen bl)) (x, y) l =
  (foldl (fun acc bl => acc -! block_len bl) x l,
   foldl (fun acc bl => acc +! dataLen bl) y l).
Proof. revert x y. induction l as [|bl l IH]; intros x y; simpl; [done|]. apply IH. Qed.

Lemma foldl_dataLen l y :
  0 <= y -> Forall (fun bl => 0 <= dataLen bl) l -> y + sumZ dataLen l <= int_max ->
  foldl (fun acc bl => acc +! dataLen bl) y l = y + sumZ dataLen l.
Proof.
  intros Hy Hl. revert y Hy. induction Hl as [|bl l Hbl Hl IH]; intros y Hy Hmax; simpl in *; [lia|].
  pose proof (sumZ_nonneg _ _ Hl).
  rewrite (wrap64_id (y + _)) by bufint. rewrite IH by lia. lia.
Qed.

Lemma foldl_sub_in l x : in_int x -> in_int (foldl (fun acc bl => acc -! block_len bl) x l).
Proof. revert x. induction l; intros x Hx; simpl; auto with go. Qed.

Lemma dropBlocks_spec n b :
  (n <= length (blocks b))%nat -> Forall (fun bl => 0 <= dataLen bl) (blocks b) ->
  sumZ dataLen (blocks b) <= int_max ->
  dropBlocks n b = Ret (tt,
    mkBuffer (drop (Z.to_nat (sumZ dataLen (take n (blocks b)))) (buf b))
      (foldl (fun acc bl => acc -! block_len bl) (blen b) (take n (blocks b)))
      (bcap b) (drop n (blocks b)) (discard b)).
Proof.
  intros Hn Hpos Hmax. unfold dropBlocks. rewrite foldl_pair.
  pose proof (sumZ_take_drop dataLen n (blocks b)).
  pose proof (sumZ_nonneg dataLen _ (Forall_take _ n _ Hpos)).
  pose proof (sumZ_nonneg dataLen _ (Forall_drop _ n _ Hpos)).
  rewrite foldl_dataLen by (auto using Forall_take with lia || lia).
  rewrite go_copy_drop by done. rewrite buffer_Next_ok by lia. by destruct b.
Qed.

(** ** Lemmas: Discard *)

Lemma discardLoop_cut dropped bl rest n b :
  safe b -> blocks b = dropped ++ bl :: rest -> in_int n -> n < block_len bl ->
  exists bl' k, cut bl n bl' k /\
    discardLoop (length dropped) (bl :: rest) n b = Ret (tt, afterCut b dropped bl' rest k n).
Proof.
  intros Hs Hb Hn Hlt.
  pose proof (safe_nonneg b Hs) as Hpos. pose proof (safe_gaps b Hs) as Hgaps.
  pose proof (safe_data b Hs) as Hdata. pose proof (safe_fit b Hs). pose proof (safe_cap b Hs).
  rewrite Hb in Hpos, Hgaps, Hdata. rewrite sumZ_app in Hdata. simpl in Hdata.
  apply Forall_app in Hpos as [Hpos1 [Hpos2 Hpos3]%Forall_cons].
  apply Forall_app in Hgaps as [_ [Hgap _]%Forall_cons].
  pose proof (sumZ_nonneg _ _ Hpos1). pose proof (sumZ_nonneg _ _ Hpos3).
  destruct (block_discard_spec bl n b) as (bl' & k & Hcut & Heq); [done..| lia | done |].
  exists bl', k. split; [done|]. simpl.
  destruct (Z.ltb_spec n (block_len bl)); [|lia].
  unfold mbind, gom_bind. rewrite Heq. unfold modify.
  assert (0 <= dataLen bl' <= dataLen bl /\ 0 <= k) as [? ?].
  { destruct Hcut as [(?&->&->)|(?&?&->&->)]; simpl; lia. }
  rewrite dropBlocks_spec; simpl.
  - rewrite Hb, insert_middle.
    rewrite take_app_length, drop_app_length, drop_drop. unfold afterCut. do 4 f_equal. lia.
  - rewrite length_insert, Hb, length_app. lia.
  - rewrite Hb, insert_middle. apply Forall_app; split; [done|].
    constructor; [lia|done].
  - rewrite Hb, insert_middle. rewrite sumZ_app. simpl. bufint.
Qed.

Lemma afterCut_safe b dropped bl rest bl' k n :
  safe b -> blocks b = dropped ++ bl :: rest -> in_int n -> cut bl n bl' k ->
  safe (afterCut b dropped bl' rest k n) /\
  zlen (buf (afterCut b dropped bl' rest k n)) = zlen (buf b) - k - sumZ dataLen dropped.
Proof.
  intros [Hcap Hfit Hpos Hgaps Hdata Htail Hlen Hdis Howed] Hb Hn Hcut.
  rewrite Hb in Hpos, Hgaps, Hdata, Htail. rewrite sumZ_app in Hdata. simpl in Hdata.
  apply Forall_app in Hpos as [Hpos1 [Hpos2 Hpos3]%Forall_cons].
  apply Forall_app in Hgaps as [_ [Hgap Hgaps]%Forall_cons].
  pose proof (sumZ_nonneg _ _ Hpos1). pose proof (sumZ_nonneg _ _ Hpos3).
  assert (0 <= k /\ dataLen bl' = dataLen bl - k /\ 0 <= dataLen bl' /\ in_int (gap bl'))
    as (Hk & Hd' & Hd0 & Hg').
  { destruct Hcut as [(?&->&->)|(?&?&->&->)]; simpl; split_and!; auto with go; bufint. }
  assert (zlen (buf (afterCut b dropped bl' rest k n)) = zlen (buf b) - k - sumZ dataLen dropped) as Hz.
  { unfold afterCut. simpl. unfold zlen in *. rewrite length_drop. lia. }
  split; [|done]. split; simpl; try done.
  - unfold afterCut in Hz. simpl in Hz. rewrite Hz. lia.
  - by constructor.
  - by constructor.
  - unfold afterCut in Hz. simpl in Hz. rewrite Hz. lia.
  - destruct dropped; simpl in Htail; [done|].
    apply Forall_app in Htail as [_ [_ ?]%Forall_cons]. done.
  - apply foldl_sub_in. auto with go.
  - intros Hne. specialize (Howed Hne). rewrite Hb in Howed. by destruct dropped.
Qed.

(** [Discard] never panics, and drops at least the blocks already passed. *)
Lemma discardLoop_safe rest dropped n b :
  safe b -> blocks b = dropped ++ rest -> in_int n ->
  wp (discardLoop (length dropped) rest n)
    (fun _ b' => kept b b' /\ zlen (buf b') <= zlen (buf b) - sumZ dataLen dropped) b.
Proof.
  revert dropped n. induction rest as [|bl rest IH]; intros dropped n Hs Hb Hn.
  - eexists tt, _. split; [done|].
    rewrite app_nil_r in Hb. destruct Hs. simpl. split; [|rewrite <- Hb; golia]. split; [|done].
    split; simpl; auto with go; unfold zlen; simpl; try lia. all: bufint.
  - destruct (Z.ltb_spec n (block_len bl)) as [Hlt|Hge].
    + destruct (discardLoop_cut dropped bl rest n b) as (bl' & k & Hcut & Heq); [done..|].
      destruct (afterCut_safe b dropped bl rest bl' k n) as [Hs' Hz]; [done..|].
      eexists tt, _. split; [exact Heq|]. split; [by split|].
      destruct Hcut as [(?&?&->)|(?&?&?&->)]; lia.
    + simpl. destruct (Z.ltb_spec n (block_len bl)); [lia|].
      replace (S (length dropped)) with (length (dropped ++ [bl])) by (rewrite length_app; simpl; lia).
      eapply wp_mono; [|apply IH; [done | by rewrite <- app_assoc | auto with go]].
      intros _ b' [? Hz]. split; [done|]. rewrite sumZ_app in Hz. simpl in Hz.
      pose proof (safe_nonneg b Hs) as Hpos. rewrite Hb in Hpos.
      apply Forall_app in Hpos as [_ [? _]%Forall_cons]. lia.
Qed.

Lemma Discard_safe n b : safe b -> in_int n ->
  wp (Discard n) (fun _ b' => kept b b' /\ zlen (buf b') <= zlen (buf b)) b.
Proof.
  intros Hs Hn. eapply wp_mono; [|apply (discardLoop_safe (blocks b) []); done].
  simpl. intros _ b' [? ?]. split; [done|lia].
Qed.

Lemma Discard_progress n b bl rest :
  safe b -> in_int n -> 0 < n -> blocks b = bl :: rest -> gap bl <= 0 -> 0 < dataLen bl ->
  wp (Discard n) (fun _ b' => kept b b' /\ zlen (buf b') < zlen (buf b)) b.
Proof.
  intros Hs Hn Hpos Hb Hg Hd. unfold wp, Discard. rewrite Hb.
  destruct (Z.ltb_spec n (block_len bl)) as [Hlt|Hge].
  - destruct (discardLoop_cut [] bl rest n b) as (bl' & k & Hcut & Heq); [done..|].
    destruct (afterCut_safe b [] bl rest bl' k n) as [Hs' Hz]; [done..|].
    eexists tt, _. split; [exact Heq|]. split; [by split|].
    change (sumZ dataLen []) with 0 in Hz. destruct Hcut as [(?&?&->)|(?&?&?&->)]; lia.
  - simpl. destruct (Z.ltb_spec n (block_len bl)); [lia|].
    destruct (discardLoop_safe rest [bl] (n -! block_len bl) b) as ([] & b' & Heq & Hs' & Hz);
      [done..| auto with go |].
    exists tt, b'. simpl in *. split; [done|]. split; [done|lia].
Qed.

(** ** Lemmas: queries *)

(** Only the first block can be without a gap. *)
Lemma contiguous_safe b avail g :
  safe b -> contiguousAvailable b = (avail, g) ->
  0 <= avail <= zlen (buf b) /\ in_int g /\
  (0 < avail -> exists bl rest, blocks b = bl :: rest /\ gap bl <= 0 /\ dataLen bl = avail).
Proof.
  intros Hs. unfold contiguousAvailable. pose proof (zlen_nonneg (buf b)).
  destruct Hs as [Hcap Hfit Hpos Hgaps Hdata Htail Hlen Hdis Howed].
  destruct (blocks b) as [|bl rest]; simpl in *.
  { intros [= <- <-]. split_and!; [lia| lia | bufint | lia]. }
  apply Forall_cons in Hpos as [Hpos1 Hpos2]. apply Forall_cons in Hgaps as [Hgap Hgaps].
  pose proof (sumZ_nonneg _ _ Hpos2).
  unfold hasGap. destruct (Z.ltb_spec 0 (gap bl)).
  { intros [= <- <-]. split_and!; [lia|lia|done|lia]. }
  rewrite (wrap64_id (0 + dataLen bl)) by bufint.
  destruct rest as [|bl2 rest]; simpl.
  { intros [= <- <-]. split_and!; [lia|simpl in *; lia|bufint|]. intros _. by eexists _, []. }
  apply Forall_cons in Htail as [Htail _]. unfold hasGap.
  destruct (Z.ltb_spec 0 (gap bl2)); [|lia].
  apply Forall_cons in Hgaps as [? _].
  intros [= <- <-]. split_and!; [lia|lia|done|]. intros _. by eexists _, _.
Qed.

Lemma indexAny_safe chars b avail g :
  safe b -> contiguousAvailable b = (avail, g) ->
  exists pos, indexAny chars b = Ret (pos, avail, g) /\
    pos = GoLib.IndexAny (take (Z.to_nat avail) (buf b)) chars /\ pos < avail + 1 /\
    (0 <= pos -> pos < avail).
Proof.
  intros Hs Hc. destruct (contiguous_safe b avail g Hs Hc) as (Ha & Hg & _).
  unfold indexAny. rewrite Hc. unfold mbind, outcome_bind. rewrite slice_to_ok by done.
  eexists. split; [done|]. split; [done|].
  pose proof (IndexAny_range (take (Z.to_nat avail) (buf b)) chars) as Hr.
  assert (zlen (take (Z.to_nat avail) (buf b)) = avail) as Hz.
  { unfold zlen in *. rewrite length_take. lia. }
  rewrite Hz in Hr. lia.
Qed.

(** ** Lemmas: reading *)

Lemma zlen_take_to (n : Z) (l : bytes) : 0 <= n <= zlen l -> zlen (take (Z.to_nat n) l) = n.
Proof. unfold zlen. rewrite length_take. lia. Qed.

Lemma PeekN_safe n b : safe b -> 0 <= n ->
  wp (PeekN n) (fun r b' => b' = b /\ (r.2 = None -> zlen r.1 = n)) b.
Proof.
  intros Hs Hn. unfold wp, PeekN. destruct (Z.ltb_spec (blen b) n).
  { by eexists _, _. }
  destruct (contiguousAvailable b) as [avail g] eqn:Hc.
  destruct (contiguous_safe b avail g Hs Hc) as (Ha & Hg & _).
  destruct (Z.ltb_spec avail n); rewrite slice_to_ok by lia; (eexists _, _; split; [done|]).
  - done.
  - split; [done|]. intros _. apply zlen_take_to. lia.
Qed.

Lemma ReadN_safe n b : safe b -> 0 <= n -> in_int n ->
  wp (ReadN n) (fun r b' => kept b b' /\ zlen (buf b') <= zlen (buf b) /\
    (r.2 = None -> zlen r.1 = n /\ (0 < n -> zlen (buf b') < zlen (buf b)))) b.
Proof.
  intros Hs Hn Hin. unfold wp, ReadN. destruct (Z.ltb_spec (blen b) n).
  { eexists _, _. split; [done|]. by split_and!. }
  destruct (contiguousAvailable b) as [avail g] eqn:Hc.
  destruct (contiguous_safe b avail g Hs Hc) as (Ha & Hg & Hfirst).
  destruct (Z.ltb_spec avail n); rewrite slice_to_ok by lia; unfold mbind, outcome_bind.
  - destruct (Discard_safe (avail +! g) b) as ([] & b' & -> & Hs' & Hz); [done | auto with go |].
    eexists _, _. split; [done|]. done.
  - assert (wp (Discard n) (fun _ b' => kept b b' /\ zlen (buf b') <= zlen (buf b) /\
      (0 < n -> zlen (buf b') < zlen (buf b))) b) as ([] & b' & -> & Hs' & Hz & Hlt).
    { destruct (decide (0 < n)).
      - destruct Hfirst as (bl & rest & ? & ? & ?); [lia|].
        eapply wp_mono; [|eapply Discard_progress; eauto; lia]. simpl. intuition lia.
      - eapply wp_mono; [|by apply Discard_safe]. simpl. intuition lia. }
    eexists _, _. split; [done|]. split_and!; [done..|]. intros _. split; [|done].
    apply zlen_take_to. lia.
Qed.

Lemma IndexAny_safe chars b : safe b ->
  wp (IndexAny chars) (fun r b' => b' = b /\ (r.2 = None -> 0 <= r.1 < zlen (buf b))) b.
Proof.
  intros Hs. unfold wp, IndexAny. destruct (contiguousAvailable b) as [avail g] eqn:Hc.
  destruct (contiguous_safe b avail g Hs Hc) as (Ha & _).
  destruct (indexAny_safe chars b avail g Hs Hc) as (pos & -> & _ & _ & Hlt).
  unfold mbind, outcome_bind.
  destruct (Z.ltb_spec pos 0); [destruct (avail <? blen b)|]; (eexists _, _; split; [done|]);
    split; [done..|simpl; lia].
Qed.

Lemma ReadLine_safe b : safe b ->
  wp ReadLine (fun r b' => kept b b' /\ zlen (buf b') <= zlen (buf b) /\
    (r.2 = None -> zlen (buf b') < zlen (buf b))) b.
Proof.
  intros Hs. unfold wp, ReadLine. destruct (contiguousAvailable b) as [avail g] eqn:Hc.
  destruct (contiguous_safe b avail g Hs Hc) as (Ha & Hg & Hfirst).
  destruct (indexAny_safe newline b avail g Hs Hc) as (pos & -> & _ & _ & Hlt).
  pose proof (safe_fit b Hs). pose proof (safe_cap b Hs).
  unfold mbind, outcome_bind. destruct (Z.ltb_spec pos 0).
  - destruct (avail <? blen b).
    + destruct (Discard_safe (avail +! g) b) as ([] & b' & -> & Hs' & Hz); [done | auto with go |].
      eexists _, _. split; [done|]. done.
    + by eexists _, _.
  - rewrite slice_to_ok by lia. destruct Hfirst as (bl & rest & ? & ? & ?); [lia|].
    destruct (Discard_progress (pos +! 1) b bl rest) as ([] & b' & -> & Hs' & Hz);
      [done | auto with go | rewrite wrap64_id by bufint; lia | done | done | lia |].
    eexists _, _. split; [done|]. split_and!; [done|lia|done].
Qed.

(** ** Lemmas: writing *)

Lemma NewBuffer_safe cap : 0 <= cap <= big -> safe (NewBuffer cap).
Proof. intros ?. split; simpl; auto; unfold zlen; simpl; try lia; bufint. Qed.

Lemma Reset_safe b : safe b -> safe (Reset b).
Proof. intros []. split; simpl; auto; unfold zlen; simpl; try lia; bufint. Qed.

Lemma Reset_buf b : Reset b = NewBuffer (bcap b).
Proof. done. Qed.

Lemma appendBlock_snoc skip n bls bl :
  skip = 0 -> appendBlock skip n (bls ++ [bl]) = bls ++ [mkBlock (gap bl) (dataLen bl +! n)].
Proof.
  intros ->. unfold appendBlock.
  destruct (Z.ltb_spec 0 (zlen (bls ++ [bl]))) as [|Hz]; [|rewrite zlen_app in Hz; unfold zlen in *; simpl in *; lia].
  simpl. by rewrite alter_last.
Qed.

Lemma appendBlock_new skip n bls :
  skip <> 0 \/ bls = [] -> appendBlock skip n bls = bls ++ [mkBlock skip n].
Proof.
  intros H. unfold appendBlock. destruct (Z.eqb_spec skip 0) as [->|]; [|done].
  destruct H as [?| ->]; [lia|done].
Qed.

Lemma appendBlock_safe skip n bls D :
  (bls = [] \/ 0 <= skip) -> in_int skip -> 0 <= n -> D + n <= int_max ->
  Forall (fun bl => 0 <= dataLen bl) bls -> Forall (fun bl => in_int (gap bl)) bls ->
  sumZ dataLen bls = D -> Forall (fun bl => 0 < gap bl) (tail bls) ->
  let bls' := appendBlock skip n bls in
  Forall (fun bl => 0 <= dataLen bl) bls' /\ Forall (fun bl => in_int (gap bl)) bls' /\
  sumZ dataLen bls' = D + n /\ Forall (fun bl => 0 < gap bl) (tail bls').
Proof.
  intros Hskip Hin Hn Hmax Hpos Hgaps <- Htail. simpl.
  destruct (decide (skip <> 0 \/ bls = [])) as [Hnew|Hmerge].
  - rewrite appendBlock_new by done. rewrite sumZ_app, !Forall_app, !Forall_singleton. simpl.
    split_and!; [done..|lia|]. destruct bls; simpl; [done|].
    rewrite Forall_app, Forall_singleton. split; [done|]. simpl.
    destruct Hnew; [|done]. destruct Hskip; [done|lia].
  - destruct bls as [|bl bls _] using rev_ind; [tauto|]. assert (skip = 0) by lia.
    rewrite appendBlock_snoc by done. rewrite !sumZ_app in *. simpl in *.
    rewrite !Forall_app, !Forall_singleton in *. simpl.
    destruct Hpos as [Hpos1 ?]. pose proof (sumZ_nonneg _ _ Hpos1).
    rewrite wrap64_id by (unfold in_int, int_min, int_max in *; lia). split_and!; [tauto|lia|tauto|tauto|lia|].
    destruct bls; simpl in *; [done|]. rewrite Forall_app, Forall_singleton in *. done.
Qed.

Lemma Write_safe skip data b : safe b -> delivery skip data ->
  wp (Write skip data) (fun _ b' => kept b b') b.
Proof.
  intros Hs [Hskip Hdata]. unfold wp, Write.
  set (sk := if skip <? 0 then 0 else skip).
  assert (0 <= sk <= big) by (unfold sk, big in *; destruct (Z.ltb_spec skip 0); lia).
  pose proof (zlen_nonneg data). pose proof (zlen_nonneg (buf b)).
  rewrite (wrap64_id (sk + _)) by bufint.
  destruct Hs as [Hcap Hfit Hpos Hgaps Hd Htail Hlen Hdis Howed].
  destruct (Z.leb_spec (sk + zlen data) (discard b)).
  - rewrite (wrap64_id (discard b - sk)), (wrap64_id (_ - zlen data)) by bufint.
    eexists _, _. split; [done|]. split; [|done]. split; simpl; try done; [bufint|]. intros ?. apply Howed. lia.
  - assert (exists sk' data', (if discard b <=? sk then Ret (sk -! discard b, data)
       else data' ← slice_from (discard b -! sk) data; Ret (0, data')) = Ret (sk', data') /\
       in_int sk' /\ zlen data' <= big /\ (blocks b = [] \/ 0 <= sk'))
      as (sk' & data' & -> & Hsk' & Hdata' & Hor).
    { destruct (Z.leb_spec (discard b) sk).
      - eexists _, _. split; [done|]. split_and!; auto with go.
        destruct (decide (discard b = 0)) as [->|]; [|auto]. right. rewrite wrap64_id by bufint. lia.
      - rewrite (wrap64_id (discard b - sk)) by bufint.
        unfold mbind, outcome_bind. rewrite slice_from_ok by lia.
        eexists _, _. split; [done|]. split_and!; [bufint| |auto with lia].
        unfold zlen in *. rewrite length_drop. lia. }
    unfold mbind, outcome_bind.
    pose proof (zlen_nonneg data').
    rewrite (wrap64_id (_ + zlen data')) by bufint.
    destruct (Z.ltb_spec (bcap b) (zlen (buf b) + zlen data')).
    { eexists _, _. split; [done|]. by split. }
    destruct (appendBlock_safe sk' (zlen data') (blocks b) (zlen (buf b))) as (?&?&?&?);
      auto; [bufint|].
    eexists _, _. split; [done|]. split; [|done]. split; simpl; auto with go; try (rewrite zlen_app; lia).
    all: unfold in_int, int_min, int_max; lia.
Qed.
