(* ===== verification/Stream.v ===== *)
(** * The byte stream a Buffer stands for, and the refinement to it

    A [stream] is the sequence of unread cells, [Some b] for a byte received
    and [None] for a byte lost, together with the number of bytes that a
    [Discard] beyond the end still owes.  The operations of [Buffer] implement
    the specification operations of this file: equalities for writing and
    discarding, relations for the reading methods, whose report of the size of
    a gap is the size of the next recorded gap and so not a function of the
    cells alone. *)
From Stdlib Require Import Strings.Byte.
From S2P Require Import Prelude GoLib Buffer.
Local Open Scope Z_scope.

(** ** The specification *)

Record stream := mkStream {
  cells : list (option byte);
  owed : nat
}.

(** What a delivery adds: [skip] lost bytes, then [data]. *)
Definition newCells (skip : Z) (data : bytes) : list (option byte) :=
  replicate (Z.to_nat skip) None ++ (Some <$> data).

Definition s_write (skip : Z) (data : bytes) (s : stream) : stream :=
  mkStream (cells s ++ drop (owed s) (newCells skip data))
           (owed s - length (newCells skip data)).

Definition s_discard (n : Z) (s : stream) : stream :=
  mkStream (drop (Z.to_nat n) (cells s)) (owed s + (Z.to_nat n - length (cells s))).

(** The bytes available before the next gap. *)
Fixpoint contig (c : list (option byte)) : bytes :=
  match c with
  | Some b :: c' => b :: contig c'
  | _ => []
  end.

(** The cells from [length (contig c)] on start with at least [g] lost ones. *)
Definition gapAt (c : list (option byte)) (g : Z) : Prop :=
  0 < g /\ take (Z.to_nat g) (drop (length (contig c)) c) = replicate (Z.to_nat g) None.

(** The bytes received and not yet read. *)
Definition stored (c : list (option byte)) : bytes := omap id c.

(** [ReadN n]: not enough cells, enough contiguous bytes, or a gap in the way. *)
Inductive s_readN (n : Z) (s : stream) : bytes * option error -> stream -> Prop :=
  | readN_short :
      zlen (cells s) < n -> s_readN n s ([], Some ErrShortRead) s
  | readN_data :
      n <= zlen (contig (cells s)) ->
      s_readN n s (take (Z.to_nat n) (contig (cells s)), None) (s_discard n s)
  | readN_lost g :
      n <= zlen (cells s) -> zlen (contig (cells s)) < n -> gapAt (cells s) g ->
      s_readN n s (contig (cells s), Some (ErrLostData g))
        (s_discard (zlen (contig (cells s)) + g) s).

(** [ReadLine]: a complete line, an incomplete one, or a gap in the way. *)
Inductive s_readLine (s : stream) : bytes * option error -> stream -> Prop :=
  | readLine_line line rest :
      contig (cells s) = line ++ "010"%byte :: rest -> "010"%byte ∉ line ->
      s_readLine s (trimCR line, None) (s_discard (zlen line + 1) s)
  | readLine_short :
      cells s = Some <$> contig (cells s) -> "010"%byte ∉ contig (cells s) ->
      s_readLine s ([], Some ErrShortRead) s
  | readLine_lost g :
      "010"%byte ∉ contig (cells s) -> gapAt (cells s) g ->
      s_readLine s ([], Some (ErrLostData g)) (s_discard (zlen (contig (cells s)) + g) s).

(** ** The abstraction *)

Fixpoint cellsOf (bls : list block) (data : bytes) : list (option byte) :=
  match bls with
  | [] => []
  | bl :: bls' =>
      replicate (Z.to_nat (gap bl)) None ++
      (Some <$> take (Z.to_nat (dataLen bl)) data) ++
      cellsOf bls' (drop (Z.to_nat (dataLen bl)) data)
  end.

Definition abs (b : Buffer) : stream :=
  mkStream (cellsOf (blocks b) (buf b)) (Z.to_nat (discard b)).

(** The exact length of a block, without wrap-around. *)
Definition blockSize (bl : block) : Z := gap bl + dataLen bl.

(** Exact accounting: the invariant under non-negative counts. *)
Record wf (b : Buffer) : Prop := {
  wf_safe : safe b;
  wf_blocks : Forall (fun bl => 0 <= gap bl /\ 0 < blockSize bl) (blocks b);
  wf_len : blen b = sumZ blockSize (blocks b);
  wf_discard : 0 <= discard b
}.

(** ** Lemmas: cells *)

Lemma cellsOf_app l1 l2 d :
  Forall (fun bl => 0 <= dataLen bl) l1 ->
  cellsOf (l1 ++ l2) d = cellsOf l1 d ++ cellsOf l2 (drop (Z.to_nat (sumZ dataLen l1)) d).
Proof.
  intros Hl. revert d. induction Hl as [|bl l1 Hbl Hl IH]; intros d; simpl; [done|].
  pose proof (sumZ_nonneg _ _ Hl). rewrite IH, drop_drop, <- !app_assoc. do 5 f_equal. lia.
Qed.

Lemma cellsOf_take l d n :
  Forall (fun bl => 0 <= dataLen bl) l -> sumZ dataLen l <= Z.of_nat n ->
  cellsOf l (take n d) = cellsOf l d.
Proof.
  intros Hl. revert d n. induction Hl as [|bl l Hbl Hl IH]; intros d n Hn; simpl in *; [done|].
  pose proof (sumZ_nonneg _ _ Hl).
  rewrite take_take, Nat.min_l by lia. do 2 f_equal.
  rewrite skipn_firstn_comm. apply IH. lia.
Qed.

Lemma cellsOf_length l d :
  Forall (fun bl => 0 <= gap bl) l -> Forall (fun bl => 0 <= dataLen bl) l ->
  sumZ dataLen l <= zlen d ->
  zlen (cellsOf l d) = sumZ blockSize l.
Proof.
  intros Hg Hl. revert d Hg. induction Hl as [|bl l Hbl Hl IH]; intros d Hg Hd; simpl in *; [done|].
  apply Forall_cons in Hg as [? Hg]. pose proof (sumZ_nonneg _ _ Hl).
  rewrite !zlen_app, IH; [|done|unfold zlen in *; rewrite length_drop; lia].
  unfold zlen, blockSize in *. rewrite length_replicate, length_fmap, length_take. lia.
Qed.

Lemma cut_cells bl n bl' k rest d :
  in_int n -> 0 <= gap bl <= int_max -> 0 <= n -> 0 <= dataLen bl <= zlen d -> cut bl n bl' k ->
  cellsOf (bl' :: rest) (drop (Z.to_nat k) d) = drop (Z.to_nat n) (cellsOf (bl :: rest) d).
Proof.
  intros Hin Hg Hn Hd [(Hlt & -> & ->)|(Hle & Hrange & -> & ->)]; simpl.
  - rewrite wrap64_id by golia. rewrite drop_app_le by (rewrite length_replicate; lia).
    rewrite drop_replicate, drop_0. f_equal. f_equal. lia.
  - rewrite drop_app_ge by (rewrite length_replicate; lia). rewrite length_replicate.
    replace (Z.to_nat n - Z.to_nat (gap bl))%nat with (Z.to_nat (n - gap bl)) by lia.
    rewrite drop_app_le by (rewrite length_fmap, length_take; unfold zlen in *; lia).
    rewrite <- fmap_drop, skipn_firstn_comm, drop_drop.
    f_equal; [do 2 f_equal; lia | f_equal; f_equal; lia].
Qed.

Lemma contig_app_some d c : contig ((Some <$> d) ++ c) = d ++ contig c.
Proof. induction d as [|x d IH]; csimpl; [done|]. by rewrite IH. Qed.

Lemma contig_gap d g c : 0 < g ->
  contig ((Some <$> d) ++ replicate (Z.to_nat g) None ++ c) = d.
Proof.
  intros Hg. rewrite contig_app_some. destruct (Z.to_nat g) eqn:E; [lia|]. apply app_nil_r.
Qed.

Lemma gapAt_gap d g c : 0 < g ->
  gapAt ((Some <$> d) ++ replicate (Z.to_nat g) None ++ c) g.
Proof.
  intros Hg. split; [done|]. rewrite contig_gap by done.
  rewrite drop_app_length' by (by rewrite length_fmap).
  by rewrite take_app_length' by (by rewrite length_replicate).
Qed.

Lemma sizes_nonneg l :
  Forall (fun bl => 0 <= gap bl /\ 0 < blockSize bl) l -> 0 <= sumZ blockSize l.
Proof. intros Hl. apply sumZ_nonneg. eapply Forall_impl; [exact Hl|]. simpl. lia. Qed.

(** ** Lemmas: well-formed buffers *)

Section wf_facts.
  Context (b : Buffer) (Hwf : wf b).

Lemma wf_gaps : Forall (fun bl => 0 <= gap bl) (blocks b).
Proof. eapply Forall_impl; [apply (wf_blocks b Hwf)|]. simpl. tauto. Qed.

Lemma wf_cells_length : zlen (cellsOf (blocks b) (buf b)) = blen b.
Proof.
  destruct (wf_safe b Hwf). rewrite (wf_len b Hwf). apply cellsOf_length; [apply wf_gaps|done|lia].
Qed.

Lemma wf_len_range : 0 <= blen b <= int_max.
Proof.
  pose proof (safe_len b (wf_safe b Hwf)). rewrite (wf_len b Hwf) in *.
  pose proof (sizes_nonneg _ (wf_blocks b Hwf)). golia.
Qed.

Lemma wf_block_len bl : bl ∈ blocks b -> block_len bl = blockSize bl /\ 0 < blockSize bl <= int_max.
Proof.
  intros Hin. pose proof wf_len_range as Hr. rewrite (wf_len b Hwf) in Hr.
  apply list_elem_of_split in Hin as (l1 & l2 & Hb).
  pose proof (wf_blocks b Hwf) as Hbl. rewrite Hb in Hr, Hbl.
  apply Forall_app in Hbl as [Hbl1 [Hbl2 Hbl3]%Forall_cons].
  rewrite sumZ_app in Hr. simpl in Hr.
  pose proof (sizes_nonneg _ Hbl1). pose proof (sizes_nonneg _ Hbl3).
  unfold block_len. unfold blockSize in *. split; [|lia]. apply wrap64_id. golia.
Qed.

(** The first block tells what is contiguously available. *)
Lemma wf_contiguous avail g :
  contiguousAvailable b = (avail, g) ->
  contig (cells (abs b)) = take (Z.to_nat avail) (buf b) /\ 0 <= avail <= zlen (buf b) /\
  in_int g /\ avail + g <= blen b /\
  (avail < blen b -> gapAt (cells (abs b)) g) /\
  (blen b <= avail -> blen b = avail /\ cells (abs b) = Some <$> buf b).
Proof.
  intros Hc. destruct (contiguous_safe b avail g (wf_safe b Hwf) Hc) as (Ha & Hg & _).
  pose proof wf_len_range as Hr. pose proof (wf_len b Hwf) as Hlen.
  pose proof (wf_blocks b Hwf) as Hbl. destruct (wf_safe b Hwf) as [_ _ Hpos _ Hdata Htail _ _ _].
  unfold contiguousAvailable in Hc. unfold abs. simpl.
  destruct (blocks b) as [|bl rest] eqn:Eb; simpl in *.
  { injection Hc as <- <-. split_and!; try done; try lia.
    intros _. split; [lia|]. symmetry in Hdata. by rewrite (zlen_0_inv _ Hdata). }
  apply Forall_cons in Hpos as [Hpos1 Hpos2]. apply Forall_cons in Hbl as [[Hg0 Hsz] Hbl].
  pose proof (sumZ_nonneg _ _ Hpos2). pose proof (sizes_nonneg _ Hbl) as Hrest.
  unfold blockSize at 1 in Hlen. unfold hasGap in Hc. destruct (Z.ltb_spec 0 (gap bl)).
  { injection Hc as <- <-. rewrite take_0.
    split_and!; try done; try lia; [by apply (contig_gap [])|].
    intros _. by apply (gapAt_gap []). }
  assert (gap bl = 0) as Hgz by lia. rewrite Hgz in *. simpl.
  rewrite wrap64_id in Hc by golia. rewrite Z.add_0_l in Hc.
  destruct rest as [|bl2 rest]; simpl in *.
  { injection Hc as <- <-. rewrite contig_app_some, !app_nil_r. split_and!; try done; try lia.
    intros _. split; [lia|]. rewrite take_ge; [done|]. unfold zlen in *. lia. }
  apply Forall_cons in Htail as [Htail _]. unfold hasGap in Hc.
  destruct (Z.ltb_spec 0 (gap bl2)); [|lia]. injection Hc as <- <-.
  apply Forall_cons in Hbl as [[? Hsz2] Hbl]. apply Forall_cons in Hpos2 as [? Hpos3].
  pose proof (sumZ_nonneg _ _ Hpos3). pose proof (sizes_nonneg _ Hbl).
  unfold blockSize at 1 in Hlen. unfold blockSize at 1 in Hrest.
  rewrite contig_gap by done. split_and!; try done; try lia.
  intros _. by apply gapAt_gap.
Qed.

End wf_facts.

(** ** Lemmas: Discard *)

Lemma foldl_sub_exact l x :
  Forall (fun bl => block_len bl = blockSize bl /\ 0 < blockSize bl) l ->
  0 <= x - sumZ blockSize l -> x <= int_max ->
  foldl (fun acc bl => acc -! block_len bl) x l = x - sumZ blockSize l.
Proof.
  intros Hl. revert x. induction Hl as [|bl l [Heq Hpos] Hl IH]; intros x Hx Hmax; simpl in *; [lia|].
  assert (0 <= sumZ blockSize l).
  { apply sumZ_nonneg. eapply Forall_impl; [exact Hl|]. simpl. lia. }
  rewrite Heq, wrap64_id by (unfold in_int, int_min; lia). rewrite IH by lia. lia.
Qed.

Lemma afterCut_wf b dropped bl rest bl' k n :
  wf b -> blocks b = dropped ++ bl :: rest -> in_int n -> 0 <= n -> n < block_len bl ->
  cut bl n bl' k ->
  wf (afterCut b dropped bl' rest k n) /\
  abs (afterCut b dropped bl' rest k n) = s_discard (sumZ blockSize dropped + n) (abs b).
Proof.
  intros Hwf Hb Hin Hn Hlt Hcut.
  pose proof (wf_len_range b Hwf) as Hr. pose proof (wf_len b Hwf) as Hlen.
  pose proof (wf_cells_length b Hwf) as Hcl.
  assert (Forall (fun bl => block_len bl = blockSize bl /\ 0 < blockSize bl) dropped) as Hdrop.
  { apply Forall_forall. intros x Hx. destruct (wf_block_len b Hwf x); [rewrite Hb, elem_of_app; by left|lia]. }
  destruct (wf_block_len b Hwf bl) as [Hble Hble']; [rewrite Hb, elem_of_app, elem_of_cons; auto|]. rewrite Hble in Hlt.
  pose proof (wf_blocks b Hwf) as Hbl. pose proof (wf_safe b Hwf) as Hs.
  pose proof (safe_nonneg b Hs) as Hpos. pose proof (safe_data b Hs) as Hdata.
  rewrite Hb in Hbl, Hlen, Hpos, Hdata. rewrite sumZ_app in Hlen, Hdata. simpl in Hlen, Hdata.
  apply Forall_app in Hbl as [Hbl1 [[Hg0 _] Hbl3]%Forall_cons].
  apply Forall_app in Hpos as [Hpos1 [Hpos2 Hpos3]%Forall_cons].
  pose proof (sizes_nonneg _ Hbl1). pose proof (sizes_nonneg _ Hbl3).
  pose proof (sumZ_nonneg _ _ Hpos1). pose proof (sumZ_nonneg _ _ Hpos3).
  assert (0 <= gap bl' /\ blockSize bl' = blockSize bl - n /\ 0 <= k) as (Hg' & Hsz' & Hk).
  { unfold blockSize in *. destruct Hcut as [(?&->&->)|(?&?&->&->)]; simpl.
    - rewrite wrap64_id by golia. lia.
    - lia. }
  split.
  - split; simpl.
    + by eapply afterCut_safe.
    + constructor; [lia|done].
    + rewrite (wrap64_id (blen b - n)) by golia. rewrite foldl_sub_exact by (done || lia). lia.
    + apply (wf_discard b Hwf).
  - unfold abs, s_discard, afterCut. cbn [blocks buf discard cells owed]. f_equal.
    + rewrite Hb, cellsOf_app by done. pose proof (wf_gaps b Hwf) as Hgs. rewrite Hb in Hgs.
      apply Forall_app in Hgs as [Hgs1 _].
      assert (length (cellsOf dropped (buf b)) = Z.to_nat (sumZ blockSize dropped)) as Hdl.
      { pose proof (cellsOf_length dropped (buf b) Hgs1 Hpos1). unfold zlen in *. lia. }
      rewrite drop_app_ge by lia. rewrite Hdl.
      replace (Z.to_nat (sumZ blockSize dropped + n) - Z.to_nat (sumZ blockSize dropped))%nat
        with (Z.to_nat n) by lia.
      rewrite <- (cut_cells bl n bl' k); [|done|split; [lia|unfold blockSize in *; lia]|done| |done].
      * rewrite drop_drop. do 2 f_equal. lia.
      * unfold zlen in *. rewrite length_drop. lia.
    + unfold zlen in Hcl. lia.
Qed.

Lemma discardLoop_refines rest dropped n b :
  wf b -> blocks b = dropped ++ rest -> 0 <= n -> discard b + n <= int_max ->
  exists b', discardLoop (length dropped) rest n b = Ret (tt, b') /\ wf b' /\
    abs b' = s_discard (sumZ blockSize dropped + n) (abs b) /\ bcap b' = bcap b.
Proof.
  revert dropped n. induction rest as [|bl rest IH]; intros dropped n Hwf Hb Hn Hmax.
  - rewrite app_nil_r in Hb. pose proof (wf_discard b Hwf). pose proof (wf_len_range b Hwf).
    pose proof (wf_cells_length b Hwf) as Hcl. pose proof (wf_len b Hwf) as Hlen. rewrite Hb in Hlen.
    pose proof (wf_safe b Hwf) as Hs. eexists. split; [done|].
    rewrite wrap64_id by golia. split_and!; [| |done].
    + split; simpl; [|by constructor|done|lia].
      destruct Hs. split; simpl; auto; unfold zlen in *; simpl; bufint.
    + unfold abs, s_discard. simpl. unfold zlen in Hcl. rewrite drop_ge by lia. f_equal. lia.
  - pose proof (wf_discard b Hwf).
    destruct (wf_block_len b Hwf bl) as [Hble Hpos]; [rewrite Hb, elem_of_app, elem_of_cons; auto|].
    destruct (Z.ltb_spec n (block_len bl)) as [Hlt|Hge].
    + destruct (discardLoop_cut dropped bl rest n b) as (bl' & k & Hcut & Heq);
        [apply Hwf|done|golia|done|].
      destruct (afterCut_wf b dropped bl rest bl' k n) as [Hwf' Habs]; [done..|golia|done|done|done|].
      by eexists.
    + simpl. destruct (Z.ltb_spec n (block_len bl)); [lia|].
      replace (S (length dropped)) with (length (dropped ++ [bl])) by (rewrite length_app; simpl; lia).
      rewrite wrap64_id by golia.
      destruct (IH (dropped ++ [bl]) (n - block_len bl)) as (b' & Heq & Hwf' & Habs & Hcap);
        [done | by rewrite <- app_assoc | lia | lia |].
      eexists. split; [done|]. split_and!; [done| |done]. rewrite Habs, sumZ_app. simpl. f_equal. lia.
Qed.

Lemma Discard_refines_aux n b :
  wf b -> 0 <= n -> discard b + n <= int_max ->
  exists b', Discard n b = Ret (tt, b') /\ wf b' /\ abs b' = s_discard n (abs b) /\ bcap b' = bcap b.
Proof. intros. by apply (discardLoop_refines (blocks b) []). Qed.

(** A discard inside the buffered cells never overflows the debt. *)
Lemma Discard_inside n b :
  wf b -> 0 <= n <= blen b ->
  exists b', Discard n b = Ret (tt, b') /\ wf b' /\ abs b' = s_discard n (abs b) /\ bcap b' = bcap b.
Proof.
  intros Hwf Hn. pose proof (wf_len_range b Hwf). pose proof (wf_discard b Hwf).
  destruct (decide (discard b = 0)); [apply Discard_refines_aux; auto; lia|].
  assert (blocks b = []) as Hb by (by apply (safe_owed b (wf_safe b Hwf))).
  pose proof (wf_len b Hwf) as Hlen. rewrite Hb in Hlen. simpl in Hlen.
  pose proof (safe_discard b (wf_safe b Hwf)).
  apply Discard_refines_aux; auto; golia.
Qed.

(** ** Lemmas: reading *)

Lemma wf_avail_le b avail g :
  wf b -> contiguousAvailable b = (avail, g) -> zlen (buf b) <= blen b.
Proof.
  intros Hwf _. rewrite (wf_len b Hwf), <- (safe_data b (wf_safe b Hwf)).
  pose proof (wf_gaps b Hwf) as Hg. induction Hg; unfold blockSize in *; simpl; lia.
Qed.

Lemma PeekN_refines_aux n b : wf b -> 0 <= n ->
  exists r s', PeekN n b = Ret (r, b) /\ s_readN n (abs b) r s'.
Proof.
  intros Hwf Hn. unfold PeekN. pose proof (wf_cells_length b Hwf) as Hcl.
  destruct (Z.ltb_spec (blen b) n).
  { eexists _, _. split; [done|]. constructor. simpl. lia. }
  destruct (contiguousAvailable b) as [avail g] eqn:Hc.
  destruct (wf_contiguous b Hwf avail g Hc) as (Hcontig & Ha & Hg & Hsum & Hgap & Hfull).
  assert (zlen (contig (cells (abs b))) = avail) as Hz by (rewrite Hcontig; by apply zlen_take_to).
  destruct (Z.ltb_spec avail n); rewrite slice_to_ok by lia; (eexists _, _; split; [done|]).
  - rewrite <- Hcontig. apply readN_lost; [simpl; lia|lia|apply Hgap; lia].
  - replace (take (Z.to_nat n) (buf b)) with (take (Z.to_nat n) (contig (cells (abs b)))).
    + apply readN_data. lia.
    + rewrite Hcontig, take_take. f_equal. lia.
Qed.

Lemma ReadN_refines_aux n b : wf b -> 0 <= n ->
  exists r b', ReadN n b = Ret (r, b') /\ wf b' /\ s_readN n (abs b) r (abs b') /\ bcap b' = bcap b.
Proof.
  intros Hwf Hn. unfold ReadN. pose proof (wf_cells_length b Hwf) as Hcl.
  pose proof (wf_len_range b Hwf).
  destruct (Z.ltb_spec (blen b) n).
  { eexists _, _. split; [done|]. split_and!; [done| |done]. constructor. simpl. lia. }
  destruct (contiguousAvailable b) as [avail g] eqn:Hc.
  destruct (wf_contiguous b Hwf avail g Hc) as (Hcontig & Ha & Hg & Hsum & Hgap & Hfull).
  assert (zlen (contig (cells (abs b))) = avail) as Hz by (rewrite Hcontig; by apply zlen_take_to).
  destruct (Z.ltb_spec avail n); rewrite slice_to_ok by lia; unfold mbind, outcome_bind.
  - assert (gapAt (cells (abs b)) g) as Hga by (apply Hgap; lia). pose proof (proj1 Hga).
    rewrite wrap64_id by golia.
    destruct (Discard_inside (avail + g) b) as (b' & -> & Hwf' & Habs & Hcap); [done|lia|].
    eexists _, _. split; [done|]. split_and!; [done| |done].
    rewrite Habs, <- Hcontig, <- Hz. apply readN_lost; [simpl; lia|lia|done].
  - destruct (Discard_inside n b) as (b' & -> & Hwf' & Habs & Hcap); [done|lia|].
    eexists _, _. split; [done|]. split_and!; [done| |done].
    replace (take (Z.to_nat n) (buf b)) with (take (Z.to_nat n) (contig (cells (abs b)))).
    + rewrite Habs. apply readN_data. lia.
    + rewrite Hcontig, take_take. f_equal. lia.
Qed.

(** What [indexAny] finds, in terms of the cells. *)
Lemma indexAny_wf chars b avail g : wf b -> contiguousAvailable b = (avail, g) ->
  exists pos, indexAny chars b = Ret (pos, avail, g) /\
    pos = GoLib.IndexAny (contig (cells (abs b))) chars.
Proof.
  intros Hwf Hc. destruct (indexAny_safe chars b avail g (wf_safe b Hwf) Hc) as (pos & -> & -> & _).
  destruct (wf_contiguous b Hwf avail g Hc) as (-> & _). eauto.
Qed.

Lemma not_elem_newline l : Forall (fun x => x ∉ newline) l -> "010"%byte ∉ l.
Proof.
  intros Hl Hin. rewrite Forall_forall in Hl. apply (Hl _ Hin). by apply list_elem_of_singleton.
Qed.

Lemma ReadLine_refines_aux b : wf b ->
  exists r b', ReadLine b = Ret (r, b') /\ wf b' /\ s_readLine (abs b) r (abs b') /\ bcap b' = bcap b.
Proof.
  intros Hwf. unfold ReadLine. pose proof (wf_cells_length b Hwf) as Hcl.
  pose proof (wf_len_range b Hwf).
  destruct (contiguousAvailable b) as [avail g] eqn:Hc.
  destruct (wf_contiguous b Hwf avail g Hc) as (Hcontig & Ha & Hg & Hsum & Hgap & Hfull).
  pose proof (wf_avail_le b avail g Hwf Hc).
  assert (zlen (contig (cells (abs b))) = avail) as Hz by (rewrite Hcontig; by apply zlen_take_to).
  destruct (indexAny_wf newline b avail g Hwf Hc) as (pos & -> & Hpos).
  unfold mbind, outcome_bind. destruct (Z.ltb_spec pos 0).
  - assert ("010"%byte ∉ contig (cells (abs b))) by (apply not_elem_newline, IndexAny_neg; lia).
    destruct (Z.ltb_spec avail (blen b)).
    + assert (gapAt (cells (abs b)) g) as Hga by (apply Hgap; lia). pose proof (proj1 Hga).
      rewrite wrap64_id by golia.
      destruct (Discard_inside (avail + g) b) as (b' & -> & Hwf' & Habs & Hcap); [done|lia|].
      eexists _, _. split; [done|]. split_and!; [done| |done].
      rewrite Habs, <- Hz. by apply readLine_lost.
    + eexists _, _. split; [done|]. split_and!; [done| |done]. apply readLine_short; [|done].
      destruct (Hfull ltac:(lia)) as [Hl Hcells]. rewrite Hcells at 1.
      rewrite Hcontig, take_ge; [done|]. unfold zlen in *. lia.
  - symmetry in Hpos.
    destruct (IndexAny_nonneg _ _ _ Hpos) as (p & x & q & Hsplit & Hp & Hx%list_elem_of_singleton & Hclean);
      [lia|]. subst x.
    rewrite Hsplit, zlen_app in Hz. pose proof (zlen_nonneg q).
    assert (zlen ("010"%byte :: q) = 1 + zlen q) as Hzq by (unfold zlen; simpl; lia).
    rewrite slice_to_ok, wrap64_id by golia.
    destruct (Discard_inside (pos + 1) b) as (b' & -> & Hwf' & Habs & Hcap); [done|lia|].
    eexists _, _. split; [done|]. split_and!; [done| |done].
    replace (take (Z.to_nat pos) (buf b)) with p.
    + rewrite Habs, <- Hp. eapply readLine_line; [done|]. by apply not_elem_newline.
    + transitivity (take (Z.to_nat pos) (take (Z.to_nat avail) (buf b))).
      * rewrite <- Hcontig, Hsplit, take_app_length'; [done|]. unfold zlen in Hp. lia.
      * rewrite take_take. f_equal. lia.
Qed.

(** ** Lemmas: writing *)

Lemma newCells_length skip data :
  Z.of_nat (length (newCells skip data)) = Z.max 0 skip + zlen data.
Proof. unfold newCells, zlen. rewrite length_app, length_replicate, length_fmap. lia. Qed.

Lemma cellsOf_more l d e :
  Forall (fun bl => 0 <= dataLen bl) l -> sumZ dataLen l = zlen d ->
  cellsOf l (d ++ e) = cellsOf l d.
Proof.
  intros Hl Hs. rewrite <- (cellsOf_take l (d ++ e) (length d)); [|done|unfold zlen in *; lia].
  by rewrite take_app_length.
Qed.

Lemma cellsOf_appendBlock skip bls d e :
  Forall (fun bl => 0 <= dataLen bl) bls -> sumZ dataLen bls = zlen d ->
  zlen d + zlen e <= int_max -> 0 <= skip ->
  cellsOf (appendBlock skip (zlen e) bls) (d ++ e) = cellsOf bls d ++ newCells skip e.
Proof.
  intros Hpos Hd Hmax Hskip. unfold newCells.
  destruct (decide (skip <> 0 \/ bls = [])) as [Hnew|Hmerge].
  - rewrite appendBlock_new, cellsOf_app, cellsOf_more by done. simpl.
    rewrite Hd. unfold zlen. rewrite !Nat2Z.id, drop_app_length, take_ge, app_nil_r by done. done.
  - destruct bls as [|bl bls _] using rev_ind; [tauto|]. assert (skip = 0) as -> by lia.
    rewrite appendBlock_snoc by done. rewrite sumZ_app in Hd. simpl in Hd.
    apply Forall_app in Hpos as [Hpos [Hbl _]%Forall_cons]. pose proof (sumZ_nonneg _ _ Hpos).
    pose proof (zlen_nonneg e).
    rewrite !cellsOf_app by done. simpl. rewrite (wrap64_id (_ + zlen e)) by golia.
    rewrite <- (cellsOf_take bls (d ++ e) (length d)), take_app_length by (done || unfold zlen in *; lia).
    rewrite <- !app_assoc. do 2 f_equal. rewrite !app_nil_r.
    rewrite drop_app_le by (unfold zlen in *; lia).
    rewrite !take_ge by (unfold zlen in *; rewrite ?length_app, ?length_drop; lia).
    by rewrite fmap_app.
Qed.

Lemma sumZ_appendBlock skip n bls :
  0 <= n -> sumZ dataLen bls + n <= int_max -> Forall (fun bl => 0 <= dataLen bl) bls ->
  sumZ blockSize (appendBlock skip n bls) = sumZ blockSize bls + skip + n.
Proof.
  intros Hn Hmax Hpos. destruct (decide (skip <> 0 \/ bls = [])) as [Hnew|Hmerge].
  - rewrite appendBlock_new, sumZ_app by done. unfold blockSize. simpl. lia.
  - destruct bls as [|bl bls _] using rev_ind; [tauto|]. assert (skip = 0) as -> by lia.
    rewrite appendBlock_snoc by done. rewrite !sumZ_app in *. simpl in *.
    apply Forall_app in Hpos as [Hpos [Hbl _]%Forall_cons]. pose proof (sumZ_nonneg _ _ Hpos).
    unfold blockSize at 2 4. simpl. rewrite wrap64_id by (unfold in_int, int_min, int_max in *; lia). lia.
Qed.

Lemma appendBlock_wf skip n bls :
  0 <= skip -> 0 <= n -> 0 < skip + n -> sumZ dataLen bls + n <= int_max ->
  Forall (fun bl => 0 <= dataLen bl) bls ->
  Forall (fun bl => 0 <= gap bl /\ 0 < blockSize bl) bls ->
  Forall (fun bl => 0 <= gap bl /\ 0 < blockSize bl) (appendBlock skip n bls).
Proof.
  intros Hs Hn Hsn Hmax Hpos Hbls. destruct (decide (skip <> 0 \/ bls = [])) as [Hnew|Hmerge].
  - rewrite appendBlock_new by done. rewrite Forall_app, Forall_singleton. unfold blockSize. simpl.
    split; [done|lia].
  - destruct bls as [|bl bls _] using rev_ind; [tauto|].
    rewrite appendBlock_snoc by lia. rewrite !sumZ_app in *. simpl in *.
    rewrite !Forall_app, !Forall_singleton in *. destruct Hpos as [Hpos ?].
    pose proof (sumZ_nonneg _ _ Hpos). split; [tauto|]. unfold blockSize in *. simpl.
    rewrite wrap64_id by (unfold in_int, int_min, int_max in *; lia). lia.
Qed.

(** The part of a delivery that a pending discard leaves. *)
Lemma retained_cells owed sk data :
  0 <= owed -> 0 <= sk -> owed < sk + zlen data ->
  exists sk' data',
    (if owed <=? sk then Ret (sk - owed, data)
     else data' ← slice_from (owed - sk) data; Ret (0, data')) = Ret (sk', data') /\
    0 <= sk' /\ sk' + zlen data' = sk + zlen data - owed /\ zlen data' <= zlen data /\
    newCells sk' data' = drop (Z.to_nat owed) (newCells sk data).
Proof.
  intros Ho Hs Hlt. unfold newCells. destruct (Z.leb_spec owed sk).
  - eexists _, _. split; [done|]. split_and!; [lia..|].
    rewrite drop_app_le by (rewrite length_replicate; lia). rewrite drop_replicate.
    do 2 f_equal. lia.
  - rewrite slice_from_ok by lia. eexists _, _. split; [done|].
    unfold zlen in *. rewrite length_drop. split_and!; [lia..|].
    rewrite drop_app_ge by (rewrite length_replicate; lia). simpl.
    rewrite <- fmap_drop. do 2 f_equal. rewrite length_replicate. lia.
Qed.

Lemma stored_app c c' : stored (c ++ c') = stored c ++ stored c'.
Proof. apply omap_app. Qed.

Lemma stored_some d : stored (Some <$> d) = d.
Proof. induction d as [|x d IH]; csimpl; [done|]. unfold stored in *. simpl. by rewrite IH. Qed.

Lemma stored_newCells skip data : stored (newCells skip data) = data.
Proof.
  unfold newCells. rewrite stored_app, stored_some. by induction (Z.to_nat skip).
Qed.

Lemma stored_cellsOf l : forall d, Forall (fun bl => 0 <= dataLen bl) l -> sumZ dataLen l = zlen d ->
  stored (cellsOf l d) = d.
Proof.
  induction l as [|bl l IH]; intros d Hl Hs; [by rewrite (zlen_0_inv d)|].
  apply Forall_cons in Hl as [Hbl Hl]. pose proof (sumZ_nonneg _ _ Hl). cbn [cellsOf]. simpl in Hs.
  change (replicate _ None ++ (Some <$> ?x) ++ ?y) with (replicate (Z.to_nat (gap bl)) None ++ (Some <$> x) ++ y).
  rewrite app_assoc, stored_app. change (replicate _ _ ++ (Some <$> ?x)) with (newCells (gap bl) x).
  rewrite stored_newCells, IH; [apply take_drop|done|]. unfold zlen in *. rewrite length_drop. lia.
Qed.

Lemma stored_abs b : wf b -> stored (cells (abs b)) = buf b.
Proof. intros Hwf. apply stored_cellsOf; apply (wf_safe b Hwf). Qed.

Lemma Write_refines_aux skip data b :
  wf b -> delivery skip data -> blen b + Z.max 0 skip + zlen data <= int_max ->
  exists err b', Write skip data b = Ret (err, b') /\ wf b' /\ bcap b' = bcap b /\
    ((err = None /\ abs b' = s_write skip data (abs b)) \/
     (err = Some ErrShortWrite /\ b' = b /\ bcap b < zlen (buf b) + zlen data /\
        bcap b < zlen (stored (cells (s_write skip data (abs b)))))).
Proof.
  intros Hwf Hdel Hmax.
  destruct (Write_safe skip data b (wf_safe b Hwf) Hdel) as (err & b' & Heq & Hsafe' & Hcap').
  exists err, b'. split; [done|]. revert Heq. unfold Write.
  destruct Hdel as [Hskip Hdata]. destruct (wf_safe b Hwf) as [Hcap Hfit Hpos _ Hd _ _ Hdis Howed].
  pose proof (wf_discard b Hwf). pose proof (wf_len_range b Hwf). pose proof (zlen_nonneg data).
  pose proof (zlen_nonneg (buf b)). pose proof (newCells_length skip data) as Hnl.
  set (sk := if skip <? 0 then 0 else skip).
  assert (sk = Z.max 0 skip) as Hsk by (unfold sk; destruct (Z.ltb_spec skip 0); lia).
  assert (newCells sk data = newCells skip data) as Hnc
    by (unfold newCells; do 2 f_equal; lia).
  rewrite (wrap64_id (sk + _)) by bufint.
  destruct (Z.leb_spec (sk + zlen data) (discard b)).
  - rewrite (wrap64_id (discard b - sk)), (wrap64_id (_ - zlen data)) by bufint.
    intros [= <- <-]. split_and!; [|done|].
    + split; simpl; [done|apply Hwf|apply Hwf|lia].
    + left. split; [done|]. unfold abs, s_write. cbn [cells owed blocks buf discard set_discard].
      rewrite drop_ge, app_nil_r by lia. f_equal. lia.
  - rewrite (wrap64_id (sk - _)), (wrap64_id (discard b - sk)) by bufint.
    destruct (retained_cells (discard b) sk data) as (sk' & data' & -> & Hsk' & Hsum & Hle & Hret);
      [lia..|]. unfold mbind, outcome_bind. pose proof (zlen_nonneg data').
    rewrite (wrap64_id (zlen (buf b) + _)) by bufint.
    destruct (Z.ltb_spec (bcap b) (zlen (buf b) + zlen data')).
    { intros [= <- <-]. split_and!; [done..|]. right. split_and!; [done..|lia|].
      unfold s_write. simpl. rewrite <- Hnc, <- Hret, stored_app, stored_newCells, zlen_app.
      change (cellsOf _ _) with (cells (abs b)). by rewrite stored_abs. }
    rewrite (wrap64_id (sk' + _)), (wrap64_id (blen b + _)) by bufint.
    intros [= <- <-]. split_and!; [|done|].
    + split; simpl; [done| | |lia].
      * apply appendBlock_wf; try done; try lia; [bufint|apply Hwf].
      * rewrite sumZ_appendBlock by (done || bufint). rewrite (wf_len b Hwf). lia.
    + left. split; [done|]. unfold abs, s_write. cbn [cells owed blocks buf discard set_discard set_blen set_blocks set_buf].
      rewrite cellsOf_appendBlock by (done || bufint).
      rewrite Hret, Hnc. f_equal. lia.
Qed.
