(* ===== verification/History.v ===== *)
(** * Any sequence of calls on a Buffer

    Buffer.v and Stream.v treat one call at a time; here a buffer is used
    through any sequence of its exported methods, starting from [NewBuffer].
    For any arguments the buffer stays [safe]; with counts that fit an int the
    results are those of the abstract stream, step by step. *)
From S2P Require Import Prelude GoLib Buffer Stream.
Local Open Scope Z_scope.

(** ** Calls and results *)

Inductive call : Type :=
  | CallWrite (skip : Z) (data : bytes)
  | CallDiscard (n : Z)
  | CallReadN (n : Z)
  | CallPeekN (n : Z)
  | CallReadLine
  | CallIndexAny (chars : bytes)
  | CallLen
  | CallReset.

Inductive result : Type :=
  | ResErr (err : option error)
  | ResBytes (r : bytes * option error)
  | ResInt (r : Z * option error)
  | ResUnit.

Definition doCall (c : call) : GoM Buffer result :=
  match c with
  | CallWrite skip data => err ← Write skip data; mret (ResErr err)
  | CallDiscard n => Discard n;; mret ResUnit
  | CallReadN n => r ← ReadN n; mret (ResBytes r)
  | CallPeekN n => r ← PeekN n; mret (ResBytes r)
  | CallReadLine => r ← ReadLine; mret (ResBytes r)
  | CallIndexAny chars => r ← IndexAny chars; mret (ResInt r)
  | CallLen => n ← gets Len; mret (ResInt (n, None))
  | CallReset => modify Reset;; mret ResUnit
  end.

Fixpoint doCalls (cs : list call) : GoM Buffer (list result) :=
  match cs with
  | [] => mret []
  | c :: cs' => r ← doCall c; rs ← doCalls cs'; mret (r :: rs)
  end.

(** ** The specification, for a buffer of capacity [cap] *)

(** [IndexAny]: found in the available bytes, or not. *)
Inductive s_indexAny (chars : bytes) (s : stream) : Z * option error -> Prop :=
  | indexAny_found :
      0 <= GoLib.IndexAny (contig (cells s)) chars ->
      s_indexAny chars s (GoLib.IndexAny (contig (cells s)) chars, None)
  | indexAny_short :
      GoLib.IndexAny (contig (cells s)) chars = -1 -> cells s = Some <$> contig (cells s) ->
      s_indexAny chars s (-1, Some ErrShortRead)
  | indexAny_lost g :
      GoLib.IndexAny (contig (cells s)) chars = -1 -> gapAt (cells s) g ->
      s_indexAny chars s (-1, Some (ErrLostData g)).

Inductive s_call (cap : Z) (s : stream) : call -> result -> stream -> Prop :=
  | s_call_write skip data :
      zlen (stored (cells (s_write skip data s))) <= cap ->
      s_call cap s (CallWrite skip data) (ResErr None) (s_write skip data s)
  | s_call_write_full skip data :
      cap < zlen (stored (cells (s_write skip data s))) ->
      s_call cap s (CallWrite skip data) (ResErr (Some ErrShortWrite)) s
  | s_call_discard n : s_call cap s (CallDiscard n) ResUnit (s_discard n s)
  | s_call_readN n r s' : s_readN n s r s' -> s_call cap s (CallReadN n) (ResBytes r) s'
  | s_call_peekN n r s' : s_readN n s r s' -> s_call cap s (CallPeekN n) (ResBytes r) s
  | s_call_readLine r s' : s_readLine s r s' -> s_call cap s CallReadLine (ResBytes r) s'
  | s_call_indexAny chars r : s_indexAny chars s r -> s_call cap s (CallIndexAny chars) (ResInt r) s
  | s_call_len : s_call cap s CallLen (ResInt (zlen (cells s), None)) s
  | s_call_reset : s_call cap s CallReset ResUnit (mkStream [] 0).

Inductive s_calls (cap : Z) : stream -> list call -> list result -> stream -> Prop :=
  | s_calls_nil s : s_calls cap s [] [] s
  | s_calls_cons s c r s1 cs rs s2 :
      s_call cap s c r s1 -> s_calls cap s1 cs rs s2 -> s_calls cap s (c :: cs) (r :: rs) s2.

(** ** Admissible arguments *)

(** Any count that is an int; a negative one only for Discard. *)
Definition call_safe (c : call) : Prop :=
  match c with
  | CallWrite skip data => delivery skip data
  | CallDiscard n => in_int n
  | CallReadN n | CallPeekN n => 0 <= n <= int_max
  | _ => True
  end.

(** Counts are not negative. *)
Definition call_exact (c : call) : Prop :=
  call_safe c /\ match c with CallDiscard n => 0 <= n | _ => True end.

(** What a call may add to the length and to the debt of the stream. *)
Definition callSize (c : call) : Z :=
  match c with
  | CallWrite skip data => Z.max 0 skip + zlen data
  | CallDiscard n => n
  | _ => 0
  end.

(** ** Lemmas *)

Lemma doCall_safe c b : safe b -> call_safe c -> wp (doCall c) (fun _ b' => kept b b') b.
Proof.
  intros Hs Hc. destruct c; cbn [doCall]; simpl in Hc.
  - apply wp_bind. eapply wp_mono; [|by apply Write_safe]. intros ? ? ?. by apply wp_ret.
  - apply wp_bind. eapply wp_mono; [|by apply Discard_safe]. intros ? ? [? _]. by apply wp_ret.
  - apply wp_bind. eapply wp_mono; [|apply ReadN_safe; [done|lia|unfold in_int, int_min; lia]].
    intros ? ? [? _]. by apply wp_ret.
  - apply wp_bind. eapply wp_mono; [|apply PeekN_safe; [done|lia]]. intros ? ? [-> _]. by apply wp_ret.
  - apply wp_bind. eapply wp_mono; [|by apply ReadLine_safe]. intros ? ? [? _]. by apply wp_ret.
  - apply wp_bind. eapply wp_mono; [|by apply IndexAny_safe]. intros ? ? [-> _]. by apply wp_ret.
  - apply wp_bind, wp_gets. by apply wp_ret.
  - apply wp_bind, wp_modify, wp_ret. split; [by apply Reset_safe|done].
Qed.

Lemma doCalls_safe cs b : safe b -> Forall call_safe cs ->
  wp (doCalls cs) (fun rs b' => kept b b' /\ length rs = length cs) b.
Proof.
  intros Hs Hcs. revert b Hs. induction Hcs as [|c cs Hc Hcs IH]; intros b Hs; cbn [doCalls].
  { by apply wp_ret. }
  apply wp_bind. eapply wp_mono; [|by apply doCall_safe]. intros r b1 [Hs1 Hc1].
  apply wp_bind. eapply wp_mono; [|by apply IH]. intros rs b2 [[Hs2 Hc2] Hl]. apply wp_ret.
  split; [split; [done|congruence]|]. simpl. by rewrite Hl.
Qed.

Lemma IndexAny_refines_aux chars b : wf b ->
  exists r, IndexAny chars b = Ret (r, b) /\ s_indexAny chars (abs b) r.
Proof.
  intros Hwf. unfold IndexAny. destruct (contiguousAvailable b) as [avail g] eqn:Hc.
  destruct (wf_contiguous b Hwf avail g Hc) as (Hcontig & Ha & Hg & Hsum & Hgap & Hfull).
  destruct (indexAny_wf chars b avail g Hwf Hc) as (pos & -> & Hpos).
  pose proof (wf_avail_le b avail g Hwf Hc). unfold mbind, outcome_bind. rewrite Hpos.
  pose proof (IndexAny_range (contig (cells (abs b))) chars) as Hr.
  destruct (Z.ltb_spec (GoLib.IndexAny (contig (cells (abs b))) chars) 0) as [Hneg|Hnn].
  2:{ eexists. split; [done|]. by constructor. }
  assert (GoLib.IndexAny (contig (cells (abs b))) chars = -1) as E by (destruct Hr as [|[_ ?]]; lia).
  rewrite E. destruct (Z.ltb_spec avail (blen b)) as [Hlt|Hge].
  - eexists. split; [done|]. constructor; [done|]. by apply Hgap.
  - eexists. split; [done|]. constructor; [done|]. destruct (Hfull ltac:(lia)) as [Hl Hcells].
    rewrite Hcells at 1. rewrite Hcontig, take_ge; [done|]. unfold zlen in *. lia.
Qed.

Lemma wf_Reset b : wf b -> wf (Reset b).
Proof. intros Hwf. split; simpl; [by apply Reset_safe, Hwf|done..]. Qed.

(** Reading keeps length plus debt from growing. *)
Lemma s_discard_size n s : 0 <= n ->
  zlen (cells (s_discard n s)) + Z.of_nat (owed (s_discard n s)) <= zlen (cells s) + Z.of_nat (owed s) + n /\
  (n <= zlen (cells s) -> zlen (cells (s_discard n s)) + Z.of_nat (owed (s_discard n s)) <= zlen (cells s) + Z.of_nat (owed s)).
Proof. intros Hn. unfold s_discard, zlen. simpl. rewrite length_drop. lia. Qed.

Lemma contig_le c : (length (contig c) <= length c)%nat.
Proof. induction c as [|[x|] c IH]; simpl; lia. Qed.

Lemma gapAt_fits c g : gapAt c g -> zlen (contig c) + g <= zlen c.
Proof.
  intros [Hg E]. apply (f_equal length) in E. rewrite length_take, length_drop, length_replicate in E.
  pose proof (contig_le c). unfold zlen. lia.
Qed.

Lemma s_call_size cap s c r s' : s_call cap s c r s' -> 0 <= callSize c ->
  zlen (cells s') + Z.of_nat (owed s') <= zlen (cells s) + Z.of_nat (owed s) + callSize c.
Proof.
  pose proof (zlen_nonneg (cells s)) as H0.
  destruct 1 as [skip data Hfit|skip data Hfull|n|n r s' Hr|n r s' Hr|r s' Hr|chars r Hr| |]; simpl; intros Hn; try lia.
  - pose proof (newCells_length skip data). unfold s_write, zlen in *. simpl. rewrite length_app, length_drop. lia.
  - by apply s_discard_size.
  - pose proof (contig_le (cells s)). destruct Hr as [Hlt|Hle|g Hle Hlt Hgap]; [lia| |].
    + destruct (Z.le_gt_cases 0 n) as [Hn0|Hneg].
      * pose proof (s_discard_size n s Hn0). unfold zlen in *. lia.
      * unfold s_discard, zlen. simpl. rewrite length_drop. lia.
    + pose proof (gapAt_fits _ _ Hgap). destruct Hgap as [Hg _]. pose proof (zlen_nonneg (contig (cells s))).
      pose proof (s_discard_size (zlen (contig (cells s)) + g) s ltac:(lia)). lia.
  - destruct Hr as [line rest E Hline|Hc Hline|g Hline Hgap]; [|lia|].
    + pose proof (contig_le (cells s)) as Hl. rewrite E, length_app in Hl. simpl in Hl.
      pose proof (s_discard_size (zlen line + 1) s ltac:(pose proof (zlen_nonneg line); lia)). unfold zlen in *. lia.
    + pose proof (gapAt_fits _ _ Hgap). destruct Hgap as [Hg _]. pose proof (zlen_nonneg (contig (cells s))).
      pose proof (s_discard_size (zlen (contig (cells s)) + g) s ltac:(lia)). lia.
  - change (zlen []) with 0. lia.
Qed.

(** One call refines one step, as long as nothing overflows. *)
Lemma doCall_refines c b : wf b -> call_exact c ->
  zlen (cells (abs b)) + Z.of_nat (owed (abs b)) + callSize c <= int_max ->
  exists r b', doCall c b = Ret (r, b') /\ wf b' /\ bcap b' = bcap b /\
    s_call (bcap b) (abs b) c r (abs b').
Proof.
  intros Hwf [Hsafe Hex] Hmax. pose proof (wf_cells_length b Hwf) as Hcl. pose proof (wf_discard b Hwf) as Hd.
  change (cellsOf (blocks b) (buf b)) with (cells (abs b)) in Hcl.
  assert (Z.of_nat (owed (abs b)) = discard b) as Ho by (simpl; lia).
  pose proof (zlen_nonneg (cells (abs b))).
  destruct c as [skip data|n|n|n| |chars| |]; simpl in Hsafe, Hex; cbn [callSize] in Hmax;
    unfold doCall, mbind, gom_bind, mret, gom_ret, gets, modify.
  - destruct (Write_refines_aux skip data b Hwf Hsafe) as (err & b' & -> & Hwf' & Hcap' & Hor); [lia|].
    eexists _, _. split; [done|]. split_and!; [done..|].
    destruct Hor as [[-> Habs]|(-> & -> & _ & Hfull)].
    + rewrite Habs. constructor. rewrite <- Habs, stored_abs by done. rewrite <- Hcap'. apply (wf_safe b' Hwf').
    + by constructor.
  - destruct (Discard_refines_aux n b Hwf Hex) as (b' & -> & Hwf' & Habs & Hcap'); [lia|].
    eexists _, _. split; [done|]. split_and!; [done..|]. rewrite Habs. constructor.
  - destruct (ReadN_refines_aux n b Hwf) as (r & b' & -> & Hwf' & Hs & Hcap'); [lia|].
    eexists _, _. split; [done|]. split_and!; [done..|]. by constructor.
  - destruct (PeekN_refines_aux n b Hwf) as (r & s' & -> & Hs); [lia|].
    eexists _, _. split; [done|]. split_and!; [done..|]. by econstructor.
  - destruct (ReadLine_refines_aux b Hwf) as (r & b' & -> & Hwf' & Hs & Hcap').
    eexists _, _. split; [done|]. split_and!; [done..|]. by constructor.
  - destruct (IndexAny_refines_aux chars b Hwf) as (r & -> & Hs).
    eexists _, _. split; [done|]. split_and!; [done..|]. by constructor.
  - eexists _, _. split; [done|]. split_and!; [done..|]. unfold Len. rewrite <- Hcl. constructor.
  - eexists _, _. split; [done|]. split_and!; [by apply wf_Reset|done|]. constructor.
Qed.

Lemma doCalls_refines cs : forall b, wf b -> Forall call_exact cs ->
  zlen (cells (abs b)) + Z.of_nat (owed (abs b)) + sumZ callSize cs <= int_max ->
  exists rs b', doCalls cs b = Ret (rs, b') /\ wf b' /\ bcap b' = bcap b /\
    s_calls (bcap b) (abs b) cs rs (abs b').
Proof.
  induction cs as [|c cs IH]; intros b Hwf Hcs Hmax; cbn [doCalls].
  { eexists _, _. split; [done|]. split_and!; [done..|constructor]. }
  apply Forall_cons in Hcs as [Hc Hcs]. cbn [sumZ foldr] in Hmax. change (foldr _ 0 cs) with (sumZ callSize cs) in Hmax.
  assert (forall c, call_exact c -> 0 <= callSize c) as Hsz.
  { intros c' [Hs Hx]. destruct c'; simpl in *; try lia. pose proof (zlen_nonneg data). lia. }
  assert (0 <= sumZ callSize cs) by (apply sumZ_nonneg; eapply Forall_impl; [exact Hcs|exact Hsz]).
  destruct (doCall_refines c b Hwf Hc) as (r & b1 & E1 & Hwf1 & Hcap1 & Hs1); [lia|].
  pose proof (s_call_size _ _ _ _ _ Hs1 (Hsz c Hc)).
  destruct (IH b1 Hwf1 Hcs) as (rs & b2 & E2 & Hwf2 & Hcap2 & Hs2); [lia|].
  exists (r :: rs), b2. unfold mbind, gom_bind. rewrite E1, E2. split_and!; [done..|congruence|].
  rewrite Hcap1 in Hs2. by econstructor.
Qed.

(** ** Properties *)

(** C22: any sequence of calls on a new buffer returns without panic, and the
    buffer stays [safe], as long as deliveries are within bounds and the counts
    of ReadN and PeekN are not negative (the buffer slices with these unchecked, and
    would panic).  The count of Discard may be any int, negative and overflowing
    ones included: it comes from the network. *)
Theorem buffer_never_panics cap cs :
  0 <= cap <= big -> Forall call_safe cs ->
  exists rs b', doCalls cs (NewBuffer cap) = Ret (rs, b') /\ safe b' /\ bcap b' = cap /\
    length rs = length cs.
Proof.
  intros Hcap Hcs. destruct (doCalls_safe cs (NewBuffer cap)) as (rs & b' & E & [Hs Hc] & Hl);
    [by apply NewBuffer_safe|done|].
  by exists rs, b'.
Qed.

(** C3: a buffer implements the abstract stream.  For any sequence of calls on
    a new buffer whose counts are not negative and sum to at most the largest
    int, the results are those of a run of the specification, which ends in the
    stream that the buffer stands for. *)
Theorem buffer_refines_stream cap cs :
  0 <= cap <= big -> Forall call_exact cs -> sumZ callSize cs <= int_max ->
  exists rs b', doCalls cs (NewBuffer cap) = Ret (rs, b') /\
    s_calls cap (mkStream [] 0) cs rs (abs b') /\
    stored (cells (abs b')) = buf b' /\ zlen (cells (abs b')) = Len b'.
Proof.
  intros Hcap Hcs Hmax.
  assert (wf (NewBuffer cap)) as Hwf by (split; [by apply NewBuffer_safe|done..]).
  destruct (doCalls_refines cs (NewBuffer cap) Hwf Hcs) as (rs & b' & E & Hwf' & _ & Hs);
    [change (zlen (cells _)) with 0; simpl; lia|].
  exists rs, b'. split_and!; [done|done|by apply stored_abs|by apply wf_cells_length].
Qed.
