(* ===== verification/Reader.v ===== *)
(** * assembly/reader/reader.go: one direction of a conversation

    [Reader] wraps a [Buffer] with the closed, eof and sticky-error flags and
    adapts its errors to the io conventions. *)
From S2P Require Import Prelude GoLib Buffer Stream.
Local Open Scope Z_scope.

(** ** Data *)

(** The fields of tcpassembly.Reassembly the program uses: a run of stream
    bytes and the number of bytes known lost before it, -1 if unknown. *)
Record Reassembly := mkReassembly { rBytes : bytes; rSkip : Z }.

Record Reader := mkReader {
  rbuf : Buffer;
  closed : bool;
  eof : bool;
  rerr : option error
}.

Definition set_rbuf (x : Buffer) (r : Reader) : Reader := mkReader x (closed r) (eof r) (rerr r).
Definition set_closed (x : bool) (r : Reader) : Reader := mkReader (rbuf r) x (eof r) (rerr r).
Definition set_eof (x : bool) (r : Reader) : Reader := mkReader (rbuf r) (closed r) x (rerr r).
Definition set_rerr (x : option error) (r : Reader) : Reader :=
  mkReader (rbuf r) (closed r) (eof r) x.

Definition BufferSize : Z := 32 * 1024.

Definition New : Reader := mkReader (NewBuffer BufferSize) false false None.

(** ** Operations *)

(** A method of the embedded buffer. *)
Definition onBuf {A} (m : GoM Buffer A) : GoM Reader A := zoom rbuf set_rbuf m.

(** The loop of [Reassembled]: the first failed write is kept in [err]. *)
Fixpoint reassembleAll (rs : list Reassembly) : GoM Reader unit :=
  match rs with
  | [] => mret tt
  | r :: rs' =>
      err ← onBuf (Write (rSkip r) (rBytes r));
      match err with
      | Some e => modify (set_rerr (Some e))
      | None => reassembleAll rs'
      end
  end.

Definition Reassembled (rs : list Reassembly) : GoM Reader unit := fun r =>
  if closed r || bool_decide (rerr r <> None) then Ret (tt, r) else reassembleAll rs r.

Definition ReassemblyComplete : GoM Reader unit := modify (set_eof true).

Definition Reset : GoM Reader unit :=
  modify (fun r => set_rerr None (set_eof false (set_closed false (set_rbuf (Buffer.Reset (rbuf r)) r)))).

Definition Truncate : GoM Reader unit := modify (fun r => set_rbuf (Buffer.Reset (rbuf r)) r).

Definition Close : GoM Reader (option error) :=
  modify (fun r => set_rbuf (Buffer.Reset (rbuf r)) (set_closed true r));;
  mret None.

Definition Discard (n : Z) : GoM Reader (Z * option error) := fun r =>
  match rerr r with
  | Some e => Ret ((0, Some e), r)
  | None => (onBuf (Buffer.Discard n);; mret (n, None)) r
  end.

(** [if err == ErrShortRead && r.eof { err = io.ErrUnexpectedEOF }] *)
Definition eofErr (r : Reader) (err : option error) : option error :=
  if bool_decide (err = Some ErrShortRead) && eof r then Some ErrUnexpectedEOF else err.

(** The common shape of the reading methods: the sticky error first, then the
    buffer's method with its error adapted. *)
Definition guarded {A} (zero : A) (m : GoM Buffer (A * option error)) :
    GoM Reader (A * option error) := fun r =>
  match rerr r with
  | Some e => Ret ((zero, Some e), r)
  | None =>
      ('(out, err) ← onBuf m;
       err ← gets (fun r => eofErr r err);
       mret (out, err)) r
  end.

Definition ReadN (n : Z) : GoM Reader (bytes * option error) := guarded [] (Buffer.ReadN n).
Definition PeekN (n : Z) : GoM Reader (bytes * option error) := guarded [] (Buffer.PeekN n).
Definition ReadLine : GoM Reader (bytes * option error) := guarded [] Buffer.ReadLine.
Definition IndexAny (chars : bytes) : GoM Reader (Z * option error) :=
  guarded (-1) (Buffer.IndexAny chars).

(** [Read(p)]: the count and error, and the new contents of [p]. *)
Definition Read (p : bytes) : GoM Reader (Z * option error * bytes) :=
  '(out, err) ← ReadN (zlen p);
  let err := if bool_decide (err = Some ErrShortRead) then None else err in
  match err with
  | Some e => mret (0, Some e, p)
  | None => mret (zlen out, None, go_copy p out)
  end.

(** ** Lemmas *)

Lemma onBuf_eq {A} (m : GoM Buffer A) r a b' :
  m (rbuf r) = Ret (a, b') -> onBuf m r = Ret (a, set_rbuf b' r).
Proof. intros E. unfold onBuf, zoom. by rewrite E. Qed.

Definition writeAll (rs : list Reassembly) (s : stream) : stream :=
  foldl (fun s x => s_write (rSkip x) (rBytes x) s) s rs.

(** Bytes, lost or not, that a delivery adds at most. *)
Definition rSize (x : Reassembly) : Z := Z.max 0 (rSkip x) + zlen (rBytes x).

Lemma reassembleAll_spec rs : forall r, wf (rbuf r) -> rerr r = None ->
  Forall (fun x => delivery (rSkip x) (rBytes x)) rs ->
  zlen (cells (abs (rbuf r))) + sumZ rSize rs <= int_max ->
  exists r' don rest, reassembleAll rs r = Ret (tt, r') /\ rs = don ++ rest /\ wf (rbuf r') /\
    bcap (rbuf r') = bcap (rbuf r) /\ abs (rbuf r') = writeAll don (abs (rbuf r)) /\
    match rest with
    | [] => rerr r' = None
    | x :: _ => rerr r' = Some ErrShortWrite /\
        bcap (rbuf r) < zlen (stored (cells (s_write (rSkip x) (rBytes x) (abs (rbuf r')))))
    end.
Proof.
  induction rs as [|x rs IH]; intros r Hwf Herr Hrs Hmax; cbn [reassembleAll].
  { by exists r, [], []. }
  apply Forall_cons in Hrs as [Hx Hrs]. pose proof (wf_cells_length _ Hwf) as Hcl.
  cbn [sumZ foldr] in Hmax. change (foldr _ 0 rs) with (sumZ rSize rs) in Hmax.
  assert (0 <= sumZ rSize rs).
  { apply sumZ_nonneg, Forall_true. intros y. unfold rSize. pose proof (zlen_nonneg (rBytes y)). lia. }
  unfold rSize at 1 in Hmax.
  change (cellsOf _ _) with (cells (abs (rbuf r))) in Hcl.
  destruct (Write_refines_aux (rSkip x) (rBytes x) (rbuf r) Hwf Hx) as (err & b' & E & Hwf' & Hcap' & Hor); [lia|].
  unfold mbind, gom_bind. rewrite (onBuf_eq _ _ _ _ E).
  destruct Hor as [[-> Habs]|(-> & -> & _ & Hfull)].
  - destruct (IH (set_rbuf b' r) Hwf' Herr Hrs) as (r' & don & rest & E' & -> & Hwf2 & Hcap2 & Habs2 & Hrest).
    { cbn [rbuf set_rbuf]. rewrite Habs. unfold s_write. cbn [cells]. rewrite zlen_app.
      pose proof (newCells_length (rSkip x) (rBytes x)). unfold zlen in *. rewrite length_drop. lia. }
    simpl in *. rewrite Hcap' in *. rewrite E'. exists r', (x :: don), rest.
    split_and!; try done. by rewrite Habs2, Habs.
  - exists (set_rerr (Some ErrShortWrite) r), [], (x :: rs). split_and!; try done.
Qed.

(** ** Properties *)

(** Deliveries reach the stream in order, up to the first that does not
    fit; that one and the rest are dropped and the error is kept. *)
Theorem Reassembled_writes rs r :
  wf (rbuf r) -> closed r = false -> rerr r = None ->
  Forall (fun x => delivery (rSkip x) (rBytes x)) rs ->
  zlen (cells (abs (rbuf r))) + sumZ rSize rs <= int_max ->
  exists r' don rest, Reassembled rs r = Ret (tt, r') /\ rs = don ++ rest /\ wf (rbuf r') /\
    abs (rbuf r') = writeAll don (abs (rbuf r)) /\
    match rest with
    | [] => rerr r' = None
    | x :: _ => rerr r' = Some ErrShortWrite /\
        bcap (rbuf r) < zlen (stored (cells (s_write (rSkip x) (rBytes x) (abs (rbuf r')))))
    end.
Proof.
  intros Hwf Hcl Herr Hrs Hmax. unfold Reassembled. rewrite Hcl, Herr.
  destruct (reassembleAll_spec rs r Hwf Herr Hrs Hmax) as (r' & don & rest & E & -> & Hwf' & _ & Habs & Hrest).
  by exists r', don, rest.
Qed.

(** An error of a delivery is sticky: until [Reset], every method reports
    it and nothing changes; after [Reset] the reader is as good as new. *)
Theorem Reader_error_sticky r e rs n chars :
  rerr r = Some e ->
  Reassembled rs r = Ret (tt, r) /\ Discard n r = Ret ((0, Some e), r) /\
  ReadN n r = Ret (([], Some e), r) /\ PeekN n r = Ret (([], Some e), r) /\
  ReadLine r = Ret (([], Some e), r) /\ IndexAny chars r = Ret ((-1, Some e), r) /\
  Reset r = Ret (tt, mkReader (NewBuffer (bcap (rbuf r))) false false None).
Proof.
  intros He. unfold Reassembled, Discard, ReadN, PeekN, ReadLine, IndexAny, guarded. rewrite He.
  rewrite bool_decide_true by done. rewrite orb_true_r. by split_and!.
Qed.

(** At the end of the stream the reading methods turn a short read into an
    unexpected EOF. *)
Lemma guarded_eof {A} zero (m : GoM Buffer (A * option error)) r a err r' :
  eof r = true -> rerr r <> Some ErrShortRead -> guarded zero m r = Ret ((a, err), r') ->
  err <> Some ErrShortRead.
Proof.
  unfold guarded. intros He Hr. destruct (rerr r) as [e|].
  { intros [= <- <- <-]. done. }
  unfold mbind, gom_bind, onBuf, zoom. destruct (m (rbuf r)) as [[[out e] b']| | |]; try done.
  unfold gets, mret, gom_ret, eofErr. simpl. rewrite He, andb_true_r.
  case_bool_decide; intros E; simplify_eq; done.
Qed.

(** After ReassemblyComplete no reading method asks for more data. *)
Theorem Reader_eof_no_short_read r r1 n chars :
  rerr r <> Some ErrShortRead -> ReassemblyComplete r = Ret (tt, r1) ->
  (forall out err r', ReadN n r1 = Ret ((out, err), r') -> err <> Some ErrShortRead) /\
  (forall out err r', PeekN n r1 = Ret ((out, err), r') -> err <> Some ErrShortRead) /\
  (forall out err r', ReadLine r1 = Ret ((out, err), r') -> err <> Some ErrShortRead) /\
  (forall pos err r', IndexAny chars r1 = Ret ((pos, err), r') -> err <> Some ErrShortRead).
Proof.
  intros Hr [= <-]. split_and!; intros ? ? ?; by apply guarded_eof.
Qed.
