(* ===== verification/Model.v ===== *)
(** * protocol/model: events, sources and the protocol-independent Consumer

    The interface [ConsumerSource] is a type class; [reader.Reader] and
    [DummySource] are its implementations, and [Source] is a value of the
    interface type.  [SourceLaws] states what a protocol parser relies on. *)
From S2P Require Import Prelude GoLib Buffer Reader.
Local Open Scope Z_scope.

(** ** Events *)

Inductive EventType : Type := EventUnknown | EventGetHit | EventGetMiss.

Record Event := mkEvent { Type_ : EventType; Key : bytes; Size : Z }.

#[export] Instance EventType_eq_decision : EqDecision EventType.
Proof. solve_decision. Defined.
#[export] Instance Event_eq_decision : EqDecision Event.
Proof. solve_decision. Defined.

(** ** The interface *)

(** model.ConsumerSource (with the embedded Reader, Closer and Stream). *)
Class ConsumerSource (Src : Type) := {
  src_Discard : Z -> GoM Src (Z * option error);
  src_ReadN : Z -> GoM Src (bytes * option error);
  src_IndexAny : bytes -> GoM Src (Z * option error);
  src_PeekN : Z -> GoM Src (bytes * option error);
  src_ReadLine : GoM Src (bytes * option error);
  src_Reset : GoM Src unit;
  src_Truncate : GoM Src unit;
  src_Close : GoM Src (option error);
  src_Reassembled : list Reassembly -> GoM Src unit;
  src_ReassemblyComplete : GoM Src unit;
  (* the package variable eofSource, and the comparison with it *)
  eofSource : Src;
  isEofSource : Src -> bool;
  (* number of bytes buffered; only the fuel of loops depends on it *)
  src_buffered : Src -> nat
}.

(** What a parser relies on: calls return (no panic), keep the source's
    invariant and never add data, and successful reads consume data. *)
Class SourceLaws (Src : Type) `{ConsumerSource Src} := {
  src_inv : Src -> Prop;
  src_fresh : Src -> Prop;  (* as good as a new reader *)
  src_delivery : Reassembly -> Prop;
  src_Discard_law n s : src_inv s -> in_int n ->
    wp (src_Discard n) (fun _ s' => src_inv s' /\ (src_buffered s' <= src_buffered s)%nat) s;
  src_ReadN_law n s : src_inv s -> 0 < n -> in_int n ->
    wp (src_ReadN n) (fun r s' => src_inv s' /\ (src_buffered s' <= src_buffered s)%nat /\
      (r.2 = None -> zlen r.1 = n /\ (src_buffered s' < src_buffered s)%nat)) s;
  src_IndexAny_law chars s : src_inv s ->
    wp (src_IndexAny chars) (fun r s' => src_inv s' /\ src_buffered s' = src_buffered s /\
      (r.2 = None -> 0 <= r.1 < int_max)) s;
  src_PeekN_law n s : src_inv s -> 0 <= n ->
    wp (src_PeekN n) (fun r s' => src_inv s' /\ src_buffered s' = src_buffered s /\
      (r.2 = None -> zlen r.1 = n)) s;
  src_ReadLine_law s : src_inv s ->
    wp src_ReadLine (fun r s' => src_inv s' /\ (src_buffered s' <= src_buffered s)%nat /\
      (r.2 = None -> (src_buffered s' < src_buffered s)%nat)) s;
  src_Reset_law s : src_inv s ->
    wp src_Reset (fun _ s' => src_inv s' /\ src_buffered s' = 0%nat /\
      (isEofSource s = false -> src_fresh s')) s;
  src_Truncate_law s : src_inv s ->
    wp src_Truncate (fun _ s' => src_inv s' /\ src_buffered s' = 0%nat) s;
  src_Close_law s : src_inv s ->
    wp src_Close (fun _ s' => src_inv s' /\ src_buffered s' = 0%nat) s;
  src_Reassembled_law rs s : src_inv s -> Forall src_delivery rs ->
    wp (src_Reassembled rs) (fun _ s' => src_inv s') s;
  src_ReassemblyComplete_law s : src_inv s ->
    wp src_ReassemblyComplete (fun _ s' => src_inv s' /\ src_buffered s' = src_buffered s) s;
  src_eof_law : src_inv eofSource /\ src_buffered eofSource = 0%nat
}.

(** ** Implementations *)

(** dummy.go: the source that stands for a finished stream. *)
Inductive DummySource : Type := mkDummySource.

Definition Dummy_Reassembled (rs : list Reassembly) : GoM DummySource unit := mret tt.
Definition Dummy_ReassemblyComplete : GoM DummySource unit := mret tt.
Definition Dummy_Discard (n : Z) : GoM DummySource (Z * option error) := mret (0, None).
Definition Dummy_ReadN (n : Z) : GoM DummySource (bytes * option error) := mret ([], Some EOF).
Definition Dummy_IndexAny (chars : bytes) : GoM DummySource (Z * option error) := mret (-1, Some EOF).
Definition Dummy_PeekN (n : Z) : GoM DummySource (bytes * option error) := mret ([], Some EOF).
Definition Dummy_ReadLine : GoM DummySource (bytes * option error) := mret ([], Some EOF).
Definition Dummy_Read (p : bytes) : GoM DummySource (Z * option error * bytes) := mret (0, Some EOF, p).
Definition Dummy_Close : GoM DummySource (option error) := mret None.
Definition Dummy_Reset : GoM DummySource unit := mret tt.
Definition Dummy_Truncate : GoM DummySource unit := mret tt.

(** A value of the interface type ConsumerSource. *)
Inductive Source : Type := SrcReader (r : Reader) | SrcDummy (d : DummySource).

(** A method call through the interface. *)
Definition dispatch {A} (mr : GoM Reader A) (md : GoM DummySource A) : GoM Source A := fun s =>
  match s with
  | SrcReader r => '(a, r) ← mr r; Ret (a, SrcReader r)
  | SrcDummy d => '(a, d) ← md d; Ret (a, SrcDummy d)
  end.

#[export] Instance Source_ConsumerSource : ConsumerSource Source := {
  src_Discard n := dispatch (Reader.Discard n) (Dummy_Discard n);
  src_ReadN n := dispatch (Reader.ReadN n) (Dummy_ReadN n);
  src_IndexAny chars := dispatch (Reader.IndexAny chars) (Dummy_IndexAny chars);
  src_PeekN n := dispatch (Reader.PeekN n) (Dummy_PeekN n);
  src_ReadLine := dispatch Reader.ReadLine Dummy_ReadLine;
  src_Reset := dispatch Reader.Reset Dummy_Reset;
  src_Truncate := dispatch Reader.Truncate Dummy_Truncate;
  src_Close := dispatch Reader.Close Dummy_Close;
  src_Reassembled rs := dispatch (Reader.Reassembled rs) (Dummy_Reassembled rs);
  src_ReassemblyComplete := dispatch Reader.ReassemblyComplete Dummy_ReassemblyComplete;
  eofSource := SrcDummy mkDummySource;
  isEofSource s := match s with SrcDummy _ => true | SrcReader _ => false end;
  src_buffered s := match s with SrcReader r => length (buf (rbuf r)) | SrcDummy _ => 0%nat end
}.

(** ** The Consumer *)

(** The value of the field Run: the protocol's run method, or the no-op that
    Close installs. *)
Inductive RunFn : Type := RunProtocol | RunNothing.

(** [St] names the protocol's state functions and [P] is the state of the
    protocol consumer that embeds this one.  [handled] records the batches
    passed to Handler and [bufferPool] the readers returned to the pool. *)
Record Consumer (Src St P : Type) := mkConsumer {
  ClientReader : Src;
  ServerReader : Src;
  Run : RunFn;
  State : option St;
  eventBuf : list Event;
  proto : P;
  handled : list (list Event);
  bufferPool : list Src
}.
Arguments mkConsumer {Src St P}.
Arguments ClientReader {Src St P}.
Arguments ServerReader {Src St P}.
Arguments Run {Src St P}.
Arguments State {Src St P}.
Arguments eventBuf {Src St P}.
Arguments proto {Src St P}.
Arguments handled {Src St P}.
Arguments bufferPool {Src St P}.

(** The events reported so far: handed to Handler, or still in eventBuf. *)
Definition events {Src St P} (c : Consumer Src St P) : list Event :=
  concat (handled c) ++ eventBuf c.

(** cap(c.eventBuf) once it is allocated. *)
Definition eventCap : Z := 8.

Section consumer.
  Context {Src St P : Type} {HSrc : ConsumerSource Src}.
  Local Abbreviation C := (Consumer Src St P).

Definition set_ClientReader (x : Src) (c : C) : C :=
  mkConsumer x (ServerReader c) (Run c) (State c) (eventBuf c) (proto c) (handled c) (bufferPool c).
Definition set_ServerReader (x : Src) (c : C) : C :=
  mkConsumer (ClientReader c) x (Run c) (State c) (eventBuf c) (proto c) (handled c) (bufferPool c).
Definition set_Run (x : RunFn) (c : C) : C :=
  mkConsumer (ClientReader c) (ServerReader c) x (State c) (eventBuf c) (proto c) (handled c) (bufferPool c).
Definition set_State (x : option St) (c : C) : C :=
  mkConsumer (ClientReader c) (ServerReader c) (Run c) x (eventBuf c) (proto c) (handled c) (bufferPool c).
Definition set_eventBuf (x : list Event) (c : C) : C :=
  mkConsumer (ClientReader c) (ServerReader c) (Run c) (State c) x (proto c) (handled c) (bufferPool c).
Definition set_proto (x : P) (c : C) : C :=
  mkConsumer (ClientReader c) (ServerReader c) (Run c) (State c) (eventBuf c) x (handled c) (bufferPool c).
Definition add_handled (x : list Event) (c : C) : C :=
  mkConsumer (ClientReader c) (ServerReader c) (Run c) (State c) (eventBuf c) (proto c) (handled c ++ [x]) (bufferPool c).
Definition put_bufferPool (x : Src) (c : C) : C :=
  mkConsumer (ClientReader c) (ServerReader c) (Run c) (State c) (eventBuf c) (proto c) (handled c) (bufferPool c ++ [x]).

Definition set_pool (x : list Src) (c : C) : C :=
  mkConsumer (ClientReader c) (ServerReader c) (Run c) (State c) (eventBuf c) (proto c) (handled c) x.

(** A method of one of the two readers. *)
Definition client {A} (m : GoM Src A) : GoM C A := zoom ClientReader set_ClientReader m.
Definition server {A} (m : GoM Src A) : GoM C A := zoom ServerReader set_ServerReader m.

Definition FlushEvents : GoM C unit :=
  evts ← gets eventBuf;
  modify (add_handled evts);;
  modify (set_eventBuf []).

Definition AddEvent (evt : Event) : GoM C unit :=
  modify (fun c => set_eventBuf (eventBuf c ++ [evt]) c);;
  n ← gets (fun c => zlen (eventBuf c));
  if n =? eventCap then FlushEvents else mret tt.

(** Reset a reader, return it to the pool and put eofSource in its place. *)
Definition releaseClient : GoM C unit :=
  r ← gets ClientReader;
  if isEofSource r then mret tt
  else
    client src_Reset;;
    r ← gets ClientReader;
    modify (put_bufferPool r);;
    modify (set_ClientReader eofSource).

Definition releaseServer : GoM C unit :=
  r ← gets ServerReader;
  if isEofSource r then mret tt
  else
    server src_Reset;;
    r ← gets ServerReader;
    modify (put_bufferPool r);;
    modify (set_ServerReader eofSource).

Definition Close : GoM C unit :=
  releaseClient;; releaseServer;; modify (set_Run RunNothing).

(** ** Streams *)

(** [run] is the protocol's Run method. *)
Context (run : GoM C unit).

Definition callRun : GoM C unit :=
  f ← gets Run;
  match f with RunProtocol => run | RunNothing => mret tt end.

Fixpoint Client_Reassembled (rs : list Reassembly) : GoM C unit :=
  match rs with
  | [] => mret tt
  | r :: rs' =>
      client (src_Reassembled [r]);; callRun;; Client_Reassembled rs'
  end.

Definition Client_ReassemblyComplete : GoM C unit :=
  client src_ReassemblyComplete;; FlushEvents;; releaseClient.

Fixpoint Server_Reassembled (rs : list Reassembly) : GoM C unit :=
  match rs with
  | [] => mret tt
  | r :: rs' =>
      server (src_Reassembled [r]);; callRun;; Server_Reassembled rs'
  end.

Definition Server_ReassemblyComplete : GoM C unit :=
  server src_ReassemblyComplete;; FlushEvents;; releaseServer.

End consumer.

(** ** The pool of readers *)

(** [bufferPool.Get()], asserted to be a reader, with an arbitrary choice: an element
    of the pool, or a new reader when the pool yields none. *)
Definition poolGet (choice : option nat) (pool : list Source) : outcome (Reader * list Source) :=
  match choice ≫= (fun i => pool !! i) with
  | None => Ret (Reader.New, pool)
  | Some (SrcReader r) => Ret (r, delete (default 0%nat choice) pool)
  | Some (SrcDummy _) => Panic
  end.

Definition New {St P} (c1 c2 : option nat) (st : option St) (p : P) (pool : list Source) :
    outcome (Consumer Source St P) :=
  '(cr, pool) ← poolGet c1 pool;
  '(sr, pool) ← poolGet c2 pool;
  Ret (mkConsumer (SrcReader cr) (SrcReader sr) RunProtocol st [] p [] pool).

(** ** Lemmas: events *)

Section event_facts.
  Context {Src St P : Type} {HSrc : ConsumerSource Src}.
  Implicit Types c : Consumer Src St P.

(** [c'] differs from [c] only in its event bookkeeping. *)
Definition sameButEvents c c' : Prop :=
  ClientReader c' = ClientReader c /\ ServerReader c' = ServerReader c /\ Run c' = Run c /\
  State c' = State c /\ proto c' = proto c /\ bufferPool c' = bufferPool c.

Lemma FlushEvents_spec c :
  wp FlushEvents (fun _ c' => sameButEvents c c' /\ events c' = events c /\ eventBuf c' = []) c.
Proof.
  eexists tt, _. split; [done|]. split; [done|]. split; [|done].
  unfold events. simpl. rewrite concat_app. simpl. by rewrite !app_nil_r.
Qed.

Lemma AddEvent_spec evt c :
  zlen (eventBuf c) < eventCap ->
  wp (AddEvent evt) (fun _ c' => sameButEvents c c' /\ events c' = events c ++ [evt] /\
    zlen (eventBuf c') < eventCap) c.
Proof.
  intros Hlen. unfold AddEvent.
  apply wp_bind, wp_modify, wp_bind, wp_gets. cbn [eventBuf set_eventBuf].
  assert (events (set_eventBuf (eventBuf c ++ [evt]) c) = events c ++ [evt]) as Hev.
  { unfold events. simpl. by rewrite app_assoc. }
  destruct (Z.eqb_spec (zlen (eventBuf c ++ [evt])) eventCap) as [Heq|Hne].
  - eapply wp_mono; [|apply FlushEvents_spec]. intros _ c' (? & -> & ->). by split_and!.
  - apply wp_ret. split_and!; [done..|]. simpl. rewrite zlen_app in *. unfold zlen in *. simpl in *. lia.
Qed.

End event_facts.

(** ** The laws hold of Source *)

Definition source_inv (s : Source) : Prop :=
  match s with SrcReader r => safe (rbuf r) /\ bcap (rbuf r) = BufferSize | SrcDummy _ => True end.

Definition source_fresh (s : Source) : Prop := s = SrcReader Reader.New.

Definition reassembly_ok (r : Reassembly) : Prop := delivery (rSkip r) (rBytes r).

Lemma wp_dispatch_reader {A} (mr : GoM Reader A) md (Q : A -> Source -> Prop) r :
  wp mr (fun a r' => Q a (SrcReader r')) r -> wp (dispatch mr md) Q (SrcReader r).
Proof.
  intros (a & r' & E & HQ). exists a, (SrcReader r'). split; [|done].
  unfold dispatch, mbind, outcome_bind. by rewrite E.
Qed.

Lemma wp_dispatch_dummy {A} (mr : GoM Reader A) md (Q : A -> Source -> Prop) d :
  wp md (fun a d' => Q a (SrcDummy d')) d -> wp (dispatch mr md) Q (SrcDummy d).
Proof.
  intros (a & d' & E & HQ). exists a, (SrcDummy d'). split; [|done].
  unfold dispatch, mbind, outcome_bind. by rewrite E.
Qed.

Lemma eofErr_None r err : eofErr r err = None -> err = None.
Proof. unfold eofErr. by destruct (_ && _). Qed.

(** A guarded method either reports the sticky error or is the buffer's. *)
Lemma wp_guarded {A} zero (m : GoM Buffer (A * option error)) Q r :
  (forall e, rerr r = Some e -> Q (zero, Some e) r) ->
  wp m (fun res b' => Q (res.1, eofErr r res.2) (set_rbuf b' r)) (rbuf r) ->
  wp (guarded zero m) Q r.
Proof.
  intros Herr ([a err] & b' & E & HQ). unfold wp, guarded. destruct (rerr r) as [e|] eqn:He.
  - eexists _, _. split; [done|]. by apply Herr.
  - exists (a, eofErr r err), (set_rbuf b' r). split; [|done].
    unfold onBuf, zoom, mbind, gom_bind. by rewrite E.
Qed.

(** Every law is a lemma about Buffer seen through Reader and dispatch. *)
Ltac source_law Hs :=
  match goal with s : Source |- _ => destruct s as [r|[]] end;
  simpl in Hs;
  [apply wp_dispatch_reader | apply wp_dispatch_dummy];
  [| by (eexists _, _; split; [reflexivity|]; simpl; split_and?; done)].

Lemma Source_Discard_law n s : source_inv s -> in_int n ->
  wp (src_Discard n) (fun _ s' => source_inv s' /\ (src_buffered s' <= src_buffered s)%nat) s.
Proof.
  intros Hs Hn. source_law Hs. unfold wp, Reader.Discard. destruct (rerr r); [by eexists _, _|].
  destruct (Buffer.Discard_safe n (rbuf r) (proj1 Hs) Hn) as ([] & b' & E & [Hs' Hcap'] & Hz).
  unfold onBuf, zoom, mbind, gom_bind. rewrite E. eexists _, _. split; [done|].
  simpl. unfold zlen in Hz. rewrite Hcap'. split; [by split; [|apply Hs]|lia].
Qed.

Lemma Source_ReadN_law n s : source_inv s -> 0 < n -> in_int n ->
  wp (src_ReadN n) (fun r s' => source_inv s' /\ (src_buffered s' <= src_buffered s)%nat /\
    (r.2 = None -> zlen r.1 = n /\ (src_buffered s' < src_buffered s)%nat)) s.
Proof.
  intros Hs Hpos Hn. source_law Hs. apply wp_guarded; [by intros ? _|].
  eapply wp_mono; [|apply Buffer.ReadN_safe; [apply Hs|lia|done]].
  simpl. unfold zlen. intros [out err] b' ([Hs' Hcap'] & Hz & Hok). cbn [fst snd] in *.
  rewrite Hcap'. split_and!; [done|apply Hs|lia|].
  intros ->%eofErr_None. destruct (Hok eq_refl). simpl. lia.
Qed.

Lemma Source_IndexAny_law chars s : source_inv s ->
  wp (src_IndexAny chars) (fun r s' => source_inv s' /\ src_buffered s' = src_buffered s /\
    (r.2 = None -> 0 <= r.1 < int_max)) s.
Proof.
  intros Hs. source_law Hs. apply wp_guarded; [by intros ? _|].
  eapply wp_mono; [|by apply Buffer.IndexAny_safe, Hs].
  simpl. intros [pos err] b' [-> Hok]. cbn [fst snd] in *. split_and!; [apply Hs..|done|].
  intros ->%eofErr_None. specialize (Hok eq_refl). simpl in Hok.
  pose proof (safe_fit _ (proj1 Hs)). pose proof (safe_cap _ (proj1 Hs)). unfold big, int_max in *. simpl. lia.
Qed.

Lemma Source_PeekN_law n s : source_inv s -> 0 <= n ->
  wp (src_PeekN n) (fun r s' => source_inv s' /\ src_buffered s' = src_buffered s /\
    (r.2 = None -> zlen r.1 = n)) s.
Proof.
  intros Hs Hn. source_law Hs. apply wp_guarded; [by intros ? _|].
  eapply wp_mono; [|apply Buffer.PeekN_safe; [apply Hs|done]].
  simpl. intros [out err] b' [-> Hok]. cbn [fst snd] in *. split_and!; [apply Hs..|done|].
  intros ->%eofErr_None. by apply Hok.
Qed.

Lemma Source_ReadLine_law s : source_inv s ->
  wp src_ReadLine (fun r s' => source_inv s' /\ (src_buffered s' <= src_buffered s)%nat /\
    (r.2 = None -> (src_buffered s' < src_buffered s)%nat)) s.
Proof.
  intros Hs. source_law Hs. apply wp_guarded; [by intros ? _|].
  eapply wp_mono; [|by apply Buffer.ReadLine_safe, Hs].
  simpl. unfold zlen. intros [out err] b' ([Hs' Hcap'] & Hz & Hok). cbn [fst snd] in *.
  rewrite Hcap'. split_and!; [done|apply Hs|lia|].
  intros ->%eofErr_None. specialize (Hok eq_refl). lia.
Qed.

Lemma Source_Reset_law s : source_inv s ->
  wp src_Reset (fun _ s' => source_inv s' /\ src_buffered s' = 0%nat /\
    (isEofSource s = false -> source_fresh s')) s.
Proof.
  intros Hs. source_law Hs. eexists _, _. split; [done|]. split_and!; [|done|].
  - split; [by apply Reset_safe, Hs|apply Hs].
  - intros _. unfold source_fresh, Reader.New. simpl. rewrite Reset_buf. by rewrite (proj2 Hs).
Qed.

Lemma Source_Truncate_law s : source_inv s ->
  wp src_Truncate (fun _ s' => source_inv s' /\ src_buffered s' = 0%nat) s.
Proof.
  intros Hs. source_law Hs. eexists _, _. split; [done|]. split; [|done].
  split; [by apply Reset_safe, Hs|apply Hs].
Qed.

Lemma Source_Close_law s : source_inv s ->
  wp src_Close (fun _ s' => source_inv s' /\ src_buffered s' = 0%nat) s.
Proof.
  intros Hs. source_law Hs. eexists _, _. split; [done|]. split; [|done].
  split; [by apply Reset_safe, Hs|apply Hs].
Qed.

Lemma reassembleAll_safe rs r :
  source_inv (SrcReader r) -> Forall reassembly_ok rs ->
  wp (reassembleAll rs) (fun _ r' => source_inv (SrcReader r')) r.
Proof.
  intros Hs Hrs. revert r Hs. induction Hrs as [|a rs Ha Hrs IH]; intros r Hs; simpl.
  { by apply wp_ret. }
  apply wp_bind, wp_zoom. eapply wp_mono; [|by apply (Write_safe _ _ _ (proj1 Hs) Ha)].
  intros [e|] b' [Hs' Hcap']; [apply wp_modify | apply IH]; (split; [done|]); simpl; rewrite Hcap'; apply Hs.
Qed.

Lemma Source_Reassembled_law rs s : source_inv s -> Forall reassembly_ok rs ->
  wp (src_Reassembled rs) (fun _ s' => source_inv s') s.
Proof.
  intros Hs Hrs. source_law Hs. unfold wp, Reader.Reassembled.
  destruct (_ || _); [by eexists _, _|]. by apply reassembleAll_safe.
Qed.

Lemma Source_ReassemblyComplete_law s : source_inv s ->
  wp src_ReassemblyComplete (fun _ s' => source_inv s' /\ src_buffered s' = src_buffered s) s.
Proof. intros Hs. source_law Hs. by eexists _, _. Qed.

#[export] Instance Source_laws : SourceLaws Source := {
  src_inv := source_inv;
  src_fresh := source_fresh;
  src_delivery := reassembly_ok;
  src_Discard_law := Source_Discard_law;
  src_ReadN_law := Source_ReadN_law;
  src_IndexAny_law := Source_IndexAny_law;
  src_PeekN_law := Source_PeekN_law;
  src_ReadLine_law := Source_ReadLine_law;
  src_Reset_law := Source_Reset_law;
  src_Truncate_law := Source_Truncate_law;
  src_Close_law := Source_Close_law;
  src_Reassembled_law := Source_Reassembled_law;
  src_ReassemblyComplete_law := Source_ReassemblyComplete_law;
  src_eof_law := conj I eq_refl
}.

(** ** Properties *)

Section consumer_facts.
  Context {Src St P : Type} {HSrc : ConsumerSource Src} {HLaws : SourceLaws Src}.
  Implicit Types c : Consumer Src St P.

(** Add events one by one. *)
Fixpoint addEvents (es : list Event) : GoM (Consumer Src St P) unit :=
  match es with
  | [] => mret tt
  | e :: es' => AddEvent e;; addEvents es'
  end.

Lemma AddEvent_batch evt c : zlen (eventBuf c) < eventCap ->
  Forall (fun b => zlen b = eventCap) (handled c) ->
  wp (AddEvent evt) (fun _ c' => zlen (eventBuf c') < eventCap /\
    Forall (fun b => zlen b = eventCap) (handled c') /\ events c' = events c ++ [evt]) c.
Proof.
  intros Hl Hb. pose proof (AddEvent_spec evt c Hl) as Hwp.
  eapply wp_mono; [|apply (wp_and _ _ (fun _ c' => Forall (fun b => zlen b = eventCap) (handled c')) c Hwp)].
  { intros _ c' [(_ & Hev & Hl') Hb']. by split_and!. }
  unfold AddEvent. apply wp_bind, wp_modify, wp_bind, wp_gets. cbn [eventBuf set_eventBuf].
  destruct (Z.eqb_spec (zlen (eventBuf c ++ [evt])) eventCap) as [Hfull|]; [|by apply wp_ret].
  unfold FlushEvents. apply wp_bind, wp_gets, wp_bind, wp_modify, wp_modify. simpl.
  apply Forall_app. split; [done|]. by apply Forall_singleton.
Qed.

(** The handler receives the events in order, in batches of exactly eight,
    and fewer than eight are kept back. *)
Theorem AddEvent_batches es c :
  eventBuf c = [] -> handled c = [] ->
  exists c', addEvents es c = Ret (tt, c') /\ concat (handled c') ++ eventBuf c' = es /\
    Forall (fun b => zlen b = eventCap) (handled c') /\ zlen (eventBuf c') < eventCap.
Proof.
  intros Hb Hh.
  assert (forall es c, zlen (eventBuf c) < eventCap -> Forall (fun b => zlen b = eventCap) (handled c) ->
    wp (addEvents es) (fun _ c' => zlen (eventBuf c') < eventCap /\
      Forall (fun b => zlen b = eventCap) (handled c') /\ events c' = events c ++ es) c) as Hall.
  { clear. induction es as [|e es IH]; intros c Hl Hb; cbn [addEvents].
    - apply wp_ret. by rewrite app_nil_r.
    - apply wp_bind. eapply wp_mono; [|by apply AddEvent_batch]. intros _ c1 (Hl1 & Hb1 & Hev1).
      eapply wp_mono; [|by apply IH]. intros _ c2 (Hl2 & Hb2 & Hev2).
      split_and!; [done..|]. by rewrite Hev2, Hev1, <- app_assoc. }
  destruct (Hall es c) as ([] & c' & E & Hl & Hb' & Hev); [by rewrite Hb|by rewrite Hh|].
  exists c'. split_and!; [done| |done..]. unfold events in Hev. by rewrite Hh, Hb in Hev.
Qed.

End consumer_facts.

(** The readers that Close puts in the pool. *)
Definition released (s : Source) : list Source :=
  match s with SrcReader r => [SrcReader Reader.New] | SrcDummy _ => [] end.

Lemma reset_state r : source_inv (SrcReader r) ->
  set_rerr None (set_eof false (set_closed false (set_rbuf (Buffer.Reset (rbuf r)) r))) = Reader.New.
Proof.
  intros [_ Hc]. rewrite Reset_buf, Hc. done.
Qed.

(** Closing a consumer returns each of its readers to the pool once, reset
    to the state of a new one, and stops it for good; closing again changes
    nothing. *)
Theorem Close_releases {St P} (c : Consumer Source St P) :
  source_inv (ClientReader c) -> source_inv (ServerReader c) ->
  exists c', Close c = Ret (tt, c') /\ ClientReader c' = eofSource /\ ServerReader c' = eofSource /\
    Run c' = RunNothing /\ events c' = events c /\
    bufferPool c' = bufferPool c ++ released (ClientReader c) ++ released (ServerReader c) /\
    Close c' = Ret (tt, c').
Proof.
  intros Hc Hs. destruct c as [cr sr rn st eb pr hd bp]. simpl in *.
  unfold Close, releaseClient, releaseServer, mbind, gom_bind, gets, client, server, zoom, modify, dispatch.
  destruct cr as [cr|[]], sr as [sr|[]]; simpl; unfold dispatch, mbind, outcome_bind;
    (eexists; split; [reflexivity|]); simpl; split_and!; try done;
    rewrite ?reset_state by done; by rewrite <- ?app_assoc, ?app_nil_r.
Qed.
