(* ===== verification/McText.v ===== *)
(** * protocol/mctext/consumer.go: the memcached text protocol

    The state functions of the Go consumer are the constructors of [StateFn];
    [callState] is the call through the field State.  The loops of [run] and
    [handleGet] take fuel: [run] computes enough of it from the data that is
    buffered, which is what every iteration consumes.  Logging is left out: the
    program creates its consumers with a nil logger. *)
From Stdlib Require Import Strings.Byte.
From S2P Require Import Prelude GoLib Buffer Reader Model.
Local Open Scope Z_scope.

(** ** Data *)

Inductive StateFn : Type :=
  | PeekMagicByte | ReadCommand | ReadArgs | HandleGet | HandleSet | HandleQuit
  | HandleUnknown | DiscardResponse
  | ReturnEOF.  (* func() error { return io.EOF }, installed by handleQuit *)

#[export] Instance StateFn_eq_decision : EqDecision StateFn.
Proof. solve_decision. Defined.

(** The fields mctext.Consumer adds to model.Consumer. *)
Record Proto := mkProto { cmd : bytes; args : list bytes }.

Definition crlf : bytes := ["013"; "010"]%byte.

(** The regular expression [^[a-zA-Z]+$]. *)
Definition isAlpha (b : byte) : bool :=
  let v := byteZ b in ((65 <=? v) && (v <=? 90)) || ((97 <=? v) && (v <=? 122)).
Definition asciiRe (s : bytes) : bool := (0 <? zlen s) && forallb isAlpha s.

Definition commandState (cmd : bytes) : option StateFn :=
  if bool_decide (cmd ∈ [bs "get"; bs "gets"]) then Some HandleGet
  else if bool_decide (cmd ∈ [bs "set"; bs "add"; bs "replace"; bs "append"; bs "prepend"; bs "cas"])
  then Some HandleSet
  else if bool_decide (cmd = bs "quit") then Some HandleQuit
  else None.

Section mctext.
  Context {Src : Type} {HSrc : ConsumerSource Src}.
  Local Abbreviation C := (Consumer Src StateFn Proto).

(** ** Small steps *)

Definition setState (s : StateFn) : GoM C unit := modify (set_State (Some s)).
Definition set_cmd (x : bytes) (c : C) : C := set_proto (mkProto x (args (proto c))) c.
Definition set_args (x : list bytes) (c : C) : C := set_proto (mkProto (cmd (proto c)) x) c.
Definition lift {A} (o : outcome A) : GoM C A := fun c => a ← o; Ret (a, c).

(** [" \n"], the delimiters of a word. *)
Definition delims : bytes := [" "; "010"]%byte.

Definition addEvent (evt : Event) : GoM C unit := AddEvent evt.

(** ** State functions *)

Definition peekMagicByte : GoM C (option error) :=
  server src_Truncate;;
  '(firstByte, err) ← client (src_PeekN 1);
  match err with
  | Some (ErrLostData _) => client src_Truncate;; mret (Some ErrShortRead)
  | Some e => mret (Some e)
  | None =>
      b ← lift (index 0 firstByte);
      if bool_decide (b = Byte.x80) then Model.Close;; mret (Some EOF)
      else setState ReadCommand;; mret None
  end.

Definition readCommand : GoM C (option error) :=
  modify (set_args []);;
  server src_Truncate;;
  pos ←? client (src_IndexAny delims);
  cmd ←? client (src_ReadN (pos +! 1));
  let cmd := TrimRight cmd [" "; "013"; "010"]%byte in
  modify (set_cmd cmd);;
  if negb (asciiRe cmd) then mret (Some errProtocolDesync)
  else
    match commandState cmd with
    | Some _ => setState ReadArgs;; mret None
    | None => setState HandleUnknown;; mret None
    end.

Definition readArgs : GoM C (option error) :=
  server src_Truncate;;
  pos ←? client (src_IndexAny delims);
  word ←? client (src_ReadN (pos +! 1));
  arg ← lift (slice_to (zlen word -! 1) word);
  delim ← lift (index (zlen word -! 1) word);
  args ← gets (fun c => args (proto c));
  modify (set_args (args ++ [TrimRight arg ["013"%byte]]));;
  if bool_decide (delim = " "%byte) then mret None
  else
    cmd ← gets (fun c => cmd (proto c));
    modify (set_State (commandState cmd));;
    mret None.

Definition discardResponse : GoM C (option error) :=
  setState DiscardResponse;;
  line ←? server src_ReadLine;
  setState ReadCommand;;
  mret None.

(** The loop of [handleGet], one iteration per response line. *)
Fixpoint handleGetLoop (fuel : nat) : GoM C (option error) :=
  match fuel with
  | O => fun _ => OutOfFuel
  | S fuel =>
      line ←? server src_ReadLine;
      match Split line " "%byte with
      | value :: key :: flags :: size :: _ =>
          if bool_decide (value = bs "VALUE") then
            match Atoi size with
            | (_, Some e) => mret (Some e)
            | (size, None) =>
                addEvent (mkEvent EventGetHit key size);;
                _ ←? server (src_Discard (size +! zlen crlf));
                handleGetLoop fuel
            end
          else setState ReadCommand;; mret None
      | _ => setState ReadCommand;; mret None
      end
  end.

Definition handleGet : GoM C (option error) :=
  args ← gets (fun c => args (proto c));
  if zlen args <? 1 then discardResponse
  else
    n ← gets (fun c => src_buffered (ServerReader c));
    handleGetLoop (S n).

Definition handleSet : GoM C (option error) :=
  args ← gets (fun c => args (proto c));
  if zlen args <? 4 then discardResponse
  else
    arg ← lift (index 3 args);
    match Atoi arg with
    | (_, Some _) => discardResponse
    | (size, None) =>
        _ ←? client (src_Discard (size +! zlen crlf));
        discardResponse
    end.

Definition handleQuit : GoM C (option error) :=
  client src_Close;;
  server src_Close;;
  setState ReturnEOF;;
  mret (Some EOF).

Definition handleUnknown : GoM C (option error) := discardResponse.

(** [c.State()]. *)
Definition callState : GoM C (option error) :=
  s ← gets State;
  match s with
  | None => go_panic
  | Some PeekMagicByte => peekMagicByte
  | Some ReadCommand => readCommand
  | Some ReadArgs => readArgs
  | Some HandleGet => handleGet
  | Some HandleSet => handleSet
  | Some HandleQuit => handleQuit
  | Some HandleUnknown => handleUnknown
  | Some DiscardResponse => discardResponse
  | Some ReturnEOF => mret (Some EOF)
  end.

(** ** The run loop *)

Fixpoint runLoop (fuel : nat) : GoM C unit :=
  match fuel with
  | O => fun _ => OutOfFuel
  | S fuel =>
      err ← callState;
      match err with
      | None => runLoop fuel
      | Some ErrShortRead | Some EOF => mret tt
      | Some _ =>
          client src_Reset;; server src_Reset;; setState ReadCommand
      end
  end.

(** Bytes buffered on both sides. *)
Definition pending (c : C) : nat :=
  (src_buffered (ClientReader c) + src_buffered (ServerReader c))%nat.

Definition run : GoM C unit := fun c => runLoop (pending c + 2)%nat c.

End mctext.

(** ** The whole conversation *)

Definition NewConsumer (c1 c2 : option nat) (pool : list Source) :
    outcome (Consumer Source StateFn Proto) :=
  Model.New c1 c2 (Some PeekMagicByte) (mkProto [] []) pool.

(** What the TCP assembler does to a consumer. *)
Inductive input : Type :=
  | ClientData (rs : list Reassembly)
  | ServerData (rs : list Reassembly)
  | ClientDone
  | ServerDone.

Definition deliver (i : input) : GoM (Consumer Source StateFn Proto) unit :=
  match i with
  | ClientData rs => Client_Reassembled run rs
  | ServerData rs => Server_Reassembled run rs
  | ClientDone => Client_ReassemblyComplete
  | ServerDone => Server_ReassemblyComplete
  end.

Fixpoint conversation (ins : list input) : GoM (Consumer Source StateFn Proto) unit :=
  match ins with
  | [] => mret tt
  | i :: ins' => deliver i;; conversation ins'
  end.
