(* ===== verification/Progress.v ===== *)
(** * The protocol parser always returns

    For every source satisfying [SourceLaws] and every consumer in the
    invariant, [run] neither panics (no nil state is called, no slice is out of
    range) nor loops: each state function that returns nil consumes buffered
    data.  The proofs use the interface only. *)
From Stdlib Require Import Strings.Byte.
From S2P Require Import Prelude GoLib Buffer Reader Model McText.
Local Open Scope Z_scope.

Section progress.
  Context {Src : Type} {HSrc : ConsumerSource Src} {HLaws : SourceLaws Src}.
  Local Abbreviation C := (Consumer Src StateFn Proto).
  Implicit Types c : C.

(** ** The invariant *)

(** The state function is never nil, and readArgs only runs for a command
    that has a state of its own. *)
Definition state_ok c : Prop :=
  exists s, State c = Some s /\ (s = ReadArgs -> commandState (cmd (proto c)) <> None).

Record consumer_inv c : Prop := {
  inv_client : src_inv (ClientReader c);
  inv_server : src_inv (ServerReader c);
  inv_state : state_ok c;
  inv_events : zlen (eventBuf c) < eventCap;
  inv_pool : Forall src_fresh (bufferPool c)
}.

(** What every state function guarantees, from [c]: a nil return has consumed
    data. *)
Definition advances c (err : option error) (c' : C) : Prop :=
  consumer_inv c' /\ (pending c' <= pending c)%nat /\
  (err = None -> (pending c' < pending c)%nat /\ State c' <> Some PeekMagicByte).

Lemma advances_trans c c1 err c2 :
  (pending c1 <= pending c)%nat -> advances c1 err c2 -> advances c err c2.
Proof. unfold advances. intros ? (? & ? & Hn). split_and!; [done|lia|]. intros ?. destruct (Hn ltac:(done)). split; [lia|done]. Qed.

(** ** The small steps *)

Lemma wp_client {A} (m : GoM Src A) (Q : A -> C -> Prop) c :
  wp m (fun a s => Q a (set_ClientReader s c)) (ClientReader c) -> wp (client m) Q c.
Proof. apply wp_zoom. Qed.

Lemma wp_server {A} (m : GoM Src A) (Q : A -> C -> Prop) c :
  wp m (fun a s => Q a (set_ServerReader s c)) (ServerReader c) -> wp (server m) Q c.
Proof. apply wp_zoom. Qed.

Lemma wp_lift {A} (o : outcome A) a (Q : A -> C -> Prop) c :
  o = Ret a -> Q a c -> wp (lift o) Q c.
Proof. intros -> ?. by eexists _, _. Qed.

Lemma wp_law {A} (m : GoM Src A) (R Q : A -> Src -> Prop) s :
  wp m R s -> (forall a s', R a s' -> Q a s') -> wp m Q s.
Proof. intros ? ?. by eapply wp_mono. Qed.

(** Replacing a reader by one in the invariant, with no more data. *)
Lemma inv_set_client c s :
  consumer_inv c -> src_inv s -> consumer_inv (set_ClientReader s c).
Proof. intros [] ?. by split. Qed.

Lemma inv_set_server c s :
  consumer_inv c -> src_inv s -> consumer_inv (set_ServerReader s c).
Proof. intros [] ?. by split. Qed.

Lemma inv_setState c s :
  consumer_inv c -> s <> ReadArgs -> consumer_inv (set_State (Some s) c).
Proof. intros [] ?. split; simpl; try done. by exists s. Qed.

Lemma inv_set_args c l : consumer_inv c -> consumer_inv (set_args l c).
Proof. intros []. by split. Qed.

Hint Resolve inv_set_client inv_set_server inv_setState inv_set_args : go.

(** Arithmetic on buffered data. *)
Ltac pend := unfold pending in *; simpl in *; lia.

(** ** The state functions *)

Lemma discardResponse_advances c : consumer_inv c -> wp discardResponse (advances c) c.
Proof.
  intros Hc. unfold discardResponse. apply wp_bind, wp_modify, wp_bind_err, wp_server.
  eapply wp_law; [apply src_ReadLine_law, Hc|]. intros [line [e|]] s (Hs & Hle & Hlt); simpl.
  - split_and!; [by auto with go|pend|done].
  - apply wp_bind, wp_modify, wp_ret. specialize (Hlt eq_refl).
    split_and!; [by auto with go|pend|]. intros _. split; [pend|done].
Qed.

Lemma readWord_spec c (k : bytes -> GoM C (option error)) (Q : option error -> C -> Prop) :
  consumer_inv c ->
  (forall e s, src_inv s -> (src_buffered s <= src_buffered (ClientReader c))%nat ->
     Q (Some e) (set_ClientReader s c)) ->
  (forall word s, src_inv s -> (src_buffered s < src_buffered (ClientReader c))%nat ->
     0 < zlen word <= int_max -> wp (k word) Q (set_ClientReader s c)) ->
  wp (pos ←? client (src_IndexAny delims); word ←? client (src_ReadN (pos +! 1)); k word)%go Q c.
Proof.
  intros Hc Herr Hk. apply wp_bind_err, wp_client.
  eapply wp_law; [apply src_IndexAny_law, Hc|]. intros [pos [e|]] s (Hs & Heq & Hpos); simpl in *.
  { apply Herr; [done|lia]. }
  specialize (Hpos eq_refl). apply wp_bind_err, wp_client.
  rewrite wrap64_id by golia. simpl.
  eapply wp_law; [apply src_ReadN_law; [done|lia|golia]|].
  intros [word [e|]] s' (Hs' & Hle & Hlt); simpl in *.
  { change (set_ClientReader s' (set_ClientReader s c)) with (set_ClientReader s' c).
    apply Herr; [done|lia]. }
  change (set_ClientReader s' (set_ClientReader s c)) with (set_ClientReader s' c).
  destruct (Hlt eq_refl). apply Hk; [done|lia|lia].
Qed.

Lemma readCommand_advances c :
  consumer_inv c -> State c = Some ReadCommand -> wp readCommand (advances c) c.
Proof.
  intros Hc Hst. unfold readCommand. apply wp_bind, wp_modify, wp_bind, wp_server.
  eapply wp_law; [apply src_Truncate_law; apply Hc|]. intros _ s1 [Hs1 Hz1].
  apply readWord_spec; [by auto with go|..].
  - intros e s Hs Hle. split_and!; [by auto with go|pend|done].
  - intros word s Hs Hlt Hw. apply wp_bind, wp_modify.
    destruct (negb _); [|destruct (commandState _) eqn:Ecs]; [|apply wp_bind, wp_modify..]; apply wp_ret.
    + split_and!; [|pend|done]. destruct Hc. split; simpl; try done. by exists ReadCommand.
    + split_and!; [|pend|intros _; split; [pend|done]].
      destruct Hc. split; simpl; try done. exists ReadArgs. split; [done|]. intros _. simpl. congruence.
    + split_and!; [|pend|intros _; split; [pend|done]].
      destruct Hc. split; simpl; try done. by exists HandleUnknown.
Qed.

Lemma readArgs_advances c :
  consumer_inv c -> State c = Some ReadArgs -> wp readArgs (advances c) c.
Proof.
  intros Hc Hst. unfold readArgs. apply wp_bind, wp_server.
  eapply wp_law; [apply src_Truncate_law; apply Hc|]. intros _ s1 [Hs1 Hz1].
  apply readWord_spec; [by auto with go|..].
  - intros e s Hs Hle. split_and!; [by auto with go|pend|done].
  - intros word s Hs Hlt Hw. apply wp_bind. rewrite wrap64_id by golia.
    eapply wp_lift; [apply slice_to_ok; lia|]. apply wp_bind.
    destruct (lookup_lt_is_Some_2 word (Z.to_nat (zlen word - 1))) as [delim Hd];
      [unfold zlen in *; lia|].
    eapply wp_lift; [unfold index; by rewrite bool_decide_true, Hd by lia|].
    apply wp_bind, wp_gets, wp_bind, wp_modify.
    destruct (inv_state c Hc) as (st & Hst' & Hcmd). assert (st = ReadArgs) as -> by congruence.
    specialize (Hcmd eq_refl). case_bool_decide.
    + apply wp_ret. split_and!; [|pend|intros _; split; [pend|simpl; congruence]].
      destruct Hc. by split.
    + apply wp_bind, wp_gets, wp_bind, wp_modify, wp_ret. simpl.
      destruct (commandState (cmd (proto c))) as [st|] eqn:Ecs; [|done].
      assert (st <> PeekMagicByte /\ st <> ReadArgs) as [? ?].
      { unfold commandState in Ecs. repeat case_bool_decide; by simplify_eq. }
      split_and!; [|pend|intros _; split; [pend|simpl; congruence]].
      destruct Hc. split; simpl; try done. by exists st.
Qed.

Lemma releaseClient_inv c : consumer_inv c ->
  wp releaseClient (fun _ c' => consumer_inv c' /\ (pending c' <= pending c)%nat) c.
Proof.
  intros Hc. unfold releaseClient. destruct src_eof_law as [Heof Hz].
  apply wp_bind, wp_gets. destruct (isEofSource _) eqn:E; [by apply wp_ret|].
  apply wp_bind, wp_client. eapply wp_law; [apply src_Reset_law, Hc|]. intros _ s (Hs & Hsz & Hfresh).
  apply wp_bind, wp_gets, wp_bind, wp_modify, wp_modify. split; [|pend].
  destruct Hc. split; simpl; try done. apply Forall_app; auto.
Qed.

Lemma releaseServer_inv c : consumer_inv c ->
  wp releaseServer (fun _ c' => consumer_inv c' /\ (pending c' <= pending c)%nat) c.
Proof.
  intros Hc. unfold releaseServer. destruct src_eof_law as [Heof Hz].
  apply wp_bind, wp_gets. destruct (isEofSource _) eqn:E; [by apply wp_ret|].
  apply wp_bind, wp_server. eapply wp_law; [apply src_Reset_law, Hc|]. intros _ s (Hs & Hsz & Hfresh).
  apply wp_bind, wp_gets, wp_bind, wp_modify, wp_modify. split; [|pend].
  destruct Hc. split; simpl; try done. apply Forall_app; auto.
Qed.

Lemma Close_inv c : consumer_inv c ->
  wp Model.Close (fun _ c' => consumer_inv c' /\ (pending c' <= pending c)%nat) c.
Proof.
  intros Hc. unfold Model.Close. apply wp_bind.
  eapply wp_mono; [|by apply releaseClient_inv]. intros _ c1 [Hc1 Hp1]. apply wp_bind.
  eapply wp_mono; [|by apply releaseServer_inv]. intros _ c2 [Hc2 Hp2].
  apply wp_modify. split; [destruct Hc2; by split|pend].
Qed.

(** [peekMagicByte] consumes nothing, but leaves its state when it returns nil. *)
Lemma peekMagicByte_spec c : consumer_inv c ->
  wp peekMagicByte (fun err c' => consumer_inv c' /\ (pending c' <= pending c)%nat /\
    (err = None -> State c' = Some ReadCommand)) c.
Proof.
  intros Hc. unfold peekMagicByte. apply wp_bind, wp_server.
  eapply wp_law; [apply src_Truncate_law; apply Hc|]. intros _ s1 [Hs1 Hz1].
  apply wp_bind, wp_client. eapply wp_law; [apply src_PeekN_law; [apply Hc|lia]|].
  intros [first err] s (Hs & Hsz & Hlen). simpl in *.
  set (c1 := set_ClientReader s _). assert (consumer_inv c1) as Hc1 by (unfold c1; auto with go).
  assert (pending c1 <= pending c)%nat by (unfold c1; pend).
  destruct err as [e|].
  - assert (wp (mret (Some e)) (fun err c' => consumer_inv c' /\ (pending c' <= pending c)%nat /\
      (err = None -> State c' = Some ReadCommand)) c1) by by apply wp_ret.
    destruct e; try done. apply wp_bind, wp_client.
    eapply wp_law; [apply src_Truncate_law, Hc1|]. intros _ s2 [Hs2 Hz2]. apply wp_ret.
    split_and!; [by auto with go|pend|done].
  - specialize (Hlen eq_refl). destruct first as [|b first]; [done|].
    apply wp_bind. eapply wp_lift; [by unfold index; rewrite bool_decide_true|].
    case_bool_decide.
    + apply wp_bind. eapply wp_mono; [|by apply Close_inv]. intros _ c2 [Hc2 Hp2].
      apply wp_ret. split_and!; [done|lia|done].
    + apply wp_bind, wp_modify, wp_ret. split_and!; [by auto with go|pend|done].
Qed.

Lemma inv_sameButEvents c c' :
  consumer_inv c -> sameButEvents c c' -> zlen (eventBuf c') < eventCap ->
  consumer_inv c' /\ pending c' = pending c /\ State c' = State c.
Proof.
  intros [? ? (st & ? & ?) ?] (E1 & E2 & E3 & E4 & E5 & E6) ?.
  split_and!; [|unfold pending; congruence|done]. split; try congruence.
  exists st. split; [congruence|]. by rewrite E5.
Qed.

Lemma handleGetLoop_advances fuel c :
  consumer_inv c -> (src_buffered (ServerReader c) < fuel)%nat -> State c = Some HandleGet ->
  wp (handleGetLoop fuel) (advances c) c.
Proof.
  revert c. induction fuel as [|fuel IH]; intros c Hc Hfuel Hst; [lia|]. simpl.
  apply wp_bind_err, wp_server. eapply wp_law; [apply src_ReadLine_law, Hc|].
  intros [line [e|]] s (Hs & Hle & Hlt); simpl in *.
  { split_and!; [by auto with go|pend|done]. }
  specialize (Hlt eq_refl).
  assert (wp (setState ReadCommand;; mret None) (advances c) (set_ServerReader s c)) as Hother.
  { apply wp_bind, wp_modify, wp_ret. split_and!; [by auto with go|pend|]. intros _. split; [pend|done]. }
  destruct (Split line " "%byte) as [|value [|key [|flags [|size rest]]]]; try done.
  case_bool_decide; [|done].
  destruct (Atoi size) as [n [e|]] eqn:Esize.
  { apply wp_ret. split_and!; [by auto with go|pend|done]. }
  apply wp_bind. unfold addEvent. eapply wp_mono; [|apply AddEvent_spec, Hc].
  intros _ c1 (Hsame & _ & Hcap).
  destruct (inv_sameButEvents _ c1 (inv_set_server c s Hc Hs) Hsame Hcap) as (Hc1 & Hp1 & Hst1).
  assert (ServerReader c1 = s) as Hs1 by apply Hsame.
  unfold pending in Hp1. rewrite Hs1 in Hp1. simpl in Hp1.
  apply wp_bind_err, wp_server. eapply wp_law; [apply src_Discard_law; [apply Hc1|auto with go]|].
  intros [m [e|]] s2 (Hs2 & Hle2); simpl in *; rewrite Hs1 in Hle2.
  { split_and!; [by auto with go|pend|done]. }
  eapply wp_mono; [|apply IH; [by auto with go|simpl; lia|simpl; congruence]].
  intros err c2. apply advances_trans. pend.
Qed.

Lemma handleGet_advances c :
  consumer_inv c -> State c = Some HandleGet -> wp handleGet (advances c) c.
Proof.
  intros Hc Hst. unfold handleGet. apply wp_bind, wp_gets.
  destruct (Z.ltb_spec (zlen (args (proto c))) 1); [by apply discardResponse_advances|].
  apply wp_bind, wp_gets, handleGetLoop_advances; [done|lia|done].
Qed.

Lemma handleSet_advances c :
  consumer_inv c -> State c = Some HandleSet -> wp handleSet (advances c) c.
Proof.
  intros Hc Hst. unfold handleSet. apply wp_bind, wp_gets.
  destruct (Z.ltb_spec (zlen (args (proto c))) 4); [by apply discardResponse_advances|].
  destruct (lookup_lt_is_Some_2 (args (proto c)) (Z.to_nat 3)) as [arg Harg]; [unfold zlen in *; lia|].
  apply wp_bind. eapply wp_lift; [unfold index; rewrite bool_decide_true by lia; by rewrite Harg|].
  destruct (Atoi arg) as [n [e|]]; [by apply discardResponse_advances|].
  apply wp_bind_err, wp_client. eapply wp_law; [apply src_Discard_law; [apply Hc|auto with go]|].
  intros [m [e|]] s (Hs & Hle); simpl in *.
  { split_and!; [by auto with go|pend|done]. }
  eapply wp_mono; [|apply discardResponse_advances; auto with go].
  intros err c2. apply advances_trans. pend.
Qed.

Lemma handleQuit_advances c : consumer_inv c -> wp handleQuit (advances c) c.
Proof.
  intros Hc. unfold handleQuit. apply wp_bind, wp_client.
  eapply wp_law; [apply src_Close_law, Hc|]. intros _ s1 [Hs1 Hz1].
  apply wp_bind, wp_server. eapply wp_law; [apply src_Close_law, Hc|]. intros _ s2 [Hs2 Hz2].
  apply wp_bind, wp_modify, wp_ret. split_and!; [by auto with go|pend|done].
Qed.

(** ** The loop *)

Definition rank c : nat := if decide (State c = Some PeekMagicByte) then 1 else 0.

Lemma callState_decreases c : consumer_inv c ->
  wp callState (fun err c' => consumer_inv c' /\
    (err = None -> (pending c' + rank c' < pending c + rank c)%nat)) c.
Proof.
  intros Hc. destruct (inv_state c Hc) as (st & Hst & _). unfold callState.
  apply wp_bind, wp_gets. rewrite Hst.
  assert (forall m, wp m (advances c) c -> wp m (fun err c' => consumer_inv c' /\
    (err = None -> (pending c' + rank c' < pending c + rank c)%nat)) c) as Hadv.
  { intros m Hm. eapply wp_mono; [|exact Hm]. intros err c' (Hc' & _ & Hdec). split; [done|].
    intros ->. destruct (Hdec eq_refl). unfold rank. rewrite (decide_False (P := State c' = _)) by done. lia. }
  destruct st.
  - eapply wp_mono; [|by apply peekMagicByte_spec]. intros err c' (? & Hle & Hst'). split; [done|].
    intros Herr. unfold rank. rewrite (Hst' Herr), Hst, decide_False, decide_True by done. lia.
  - by apply Hadv, readCommand_advances.
  - by apply Hadv, readArgs_advances.
  - by apply Hadv, handleGet_advances.
  - by apply Hadv, handleSet_advances.
  - by apply Hadv, handleQuit_advances.
  - by apply Hadv, discardResponse_advances.
  - by apply Hadv, discardResponse_advances.
  - by apply wp_ret.
Qed.

Lemma runLoop_inv fuel c : consumer_inv c -> (pending c + rank c < fuel)%nat ->
  wp (runLoop fuel) (fun _ c' => consumer_inv c') c.
Proof.
  revert c. induction fuel as [|fuel IH]; intros c Hc Hfuel; [lia|]. simpl. apply wp_bind.
  eapply wp_mono; [|by apply callState_decreases]. intros err c1 [Hc1 Hdec].
  assert (wp (client src_Reset;; server src_Reset;; setState ReadCommand) (fun _ c' => consumer_inv c') c1)
    as Hresync.
  { apply wp_bind, wp_client. eapply wp_law; [apply src_Reset_law, Hc1|]. intros _ s1 [Hs1 _].
    apply wp_bind, wp_server. eapply wp_law; [apply src_Reset_law, Hc1|]. intros _ s2 [Hs2 _].
    apply wp_modify. auto with go. }
  destruct err as [e|]; [|apply IH; [done|specialize (Hdec eq_refl); lia]].
  destruct e; first [done | by apply wp_ret].
Qed.

Lemma run_inv c : consumer_inv c -> wp run (fun _ c' => consumer_inv c') c.
Proof.
  intros Hc. unfold wp, run. apply runLoop_inv; [done|]. unfold rank. case_decide; lia.
Qed.

(** ** Deliveries *)

Lemma callRun_inv c : consumer_inv c -> wp (callRun run) (fun _ c' => consumer_inv c') c.
Proof.
  intros Hc. apply wp_bind, wp_gets. destruct (Run c); [by apply run_inv|by apply wp_ret].
Qed.

Lemma Client_Reassembled_inv rs c : consumer_inv c -> Forall src_delivery rs ->
  wp (Client_Reassembled run rs) (fun _ c' => consumer_inv c') c.
Proof.
  intros Hc Hrs. revert c Hc. induction Hrs as [|r rs Hr Hrs IH]; intros c Hc; simpl.
  { by apply wp_ret. }
  apply wp_bind, wp_client.
  eapply wp_law; [apply src_Reassembled_law; [apply Hc|by apply Forall_singleton]|]. intros ? s Hs.
  apply wp_bind. eapply wp_mono; [|apply callRun_inv; auto with go]. intros ? c' Hc'. by apply IH.
Qed.

Lemma Server_Reassembled_inv rs c : consumer_inv c -> Forall src_delivery rs ->
  wp (Server_Reassembled run rs) (fun _ c' => consumer_inv c') c.
Proof.
  intros Hc Hrs. revert c Hc. induction Hrs as [|r rs Hr Hrs IH]; intros c Hc; simpl.
  { by apply wp_ret. }
  apply wp_bind, wp_server.
  eapply wp_law; [apply src_Reassembled_law; [apply Hc|by apply Forall_singleton]|]. intros ? s Hs.
  apply wp_bind. eapply wp_mono; [|apply callRun_inv; auto with go]. intros ? c' Hc'. by apply IH.
Qed.

Lemma FlushEvents_inv c : consumer_inv c -> wp FlushEvents (fun _ c' => consumer_inv c') c.
Proof.
  intros Hc. eapply wp_mono; [|apply FlushEvents_spec]. intros _ c' (Hsame & _ & Hempty).
  eapply inv_sameButEvents; [exact Hc|done|by rewrite Hempty].
Qed.

Lemma Client_ReassemblyComplete_inv c : consumer_inv c ->
  wp Client_ReassemblyComplete (fun _ c' => consumer_inv c') c.
Proof.
  intros Hc. apply wp_bind, wp_client.
  eapply wp_law; [apply src_ReassemblyComplete_law, Hc|]. intros _ s (Hs & _). apply wp_bind.
  eapply wp_mono; [|apply FlushEvents_inv; auto with go]. intros ? c' Hc'.
  eapply wp_mono; [|by apply releaseClient_inv]. by intros _ c'' [? _].
Qed.

Lemma Server_ReassemblyComplete_inv c : consumer_inv c ->
  wp Server_ReassemblyComplete (fun _ c' => consumer_inv c') c.
Proof.
  intros Hc. apply wp_bind, wp_server.
  eapply wp_law; [apply src_ReassemblyComplete_law, Hc|]. intros _ s (Hs & _). apply wp_bind.
  eapply wp_mono; [|apply FlushEvents_inv; auto with go]. intros ? c' Hc'.
  eapply wp_mono; [|by apply releaseServer_inv]. by intros _ c'' [? _].
Qed.

End progress.

(** ** Conversations over the program's own sources *)

Definition input_ok (i : input) : Prop :=
  match i with
  | ClientData rs | ServerData rs => Forall reassembly_ok rs
  | _ => True
  end.

Lemma conversation_inv ins c : consumer_inv c -> Forall input_ok ins ->
  wp (conversation ins) (fun _ c' => consumer_inv c') c.
Proof.
  intros Hc Hins. revert c Hc. induction Hins as [|i ins Hi Hins IH]; intros c Hc; simpl.
  { by apply wp_ret. }
  apply wp_bind. eapply wp_mono with (Q := fun _ c' => consumer_inv c'); [intros ? c' Hc'; by apply IH|].
  destruct i; simpl in *.
  - by apply Client_Reassembled_inv.
  - by apply Server_Reassembled_inv.
  - by apply Client_ReassemblyComplete_inv.
  - by apply Server_ReassemblyComplete_inv.
Qed.

Lemma New_reader_inv : source_inv (SrcReader Reader.New).
Proof. split; [|done]. by apply NewBuffer_safe. Qed.

Lemma poolGet_fresh choice pool : Forall source_fresh pool ->
  exists pool', poolGet choice pool = Ret (Reader.New, pool') /\ Forall source_fresh pool'.
Proof.
  intros Hp. unfold poolGet. destruct (choice ≫= _) as [s|] eqn:E; [|eauto].
  apply bind_Some in E as (i & -> & Hi). pose proof (Forall_lookup_1 _ _ _ _ Hp Hi) as ->.
  eexists. split; [done|]. by apply Forall_delete.
Qed.

Lemma NewConsumer_inv c1 c2 pool : Forall source_fresh pool ->
  exists c, NewConsumer c1 c2 pool = Ret c /\ consumer_inv c /\
    ClientReader c = SrcReader Reader.New /\ ServerReader c = SrcReader Reader.New /\
    State c = Some PeekMagicByte /\ Run c = RunProtocol /\ events c = [].
Proof.
  intros Hp. destruct (poolGet_fresh c1 pool Hp) as (p1 & E1 & Hp1).
  destruct (poolGet_fresh c2 p1 Hp1) as (p2 & E2 & Hp2).
  unfold NewConsumer, Model.New, mbind, outcome_bind. rewrite E1, E2.
  eexists. split; [done|]. split_and!; try done. split; simpl; try done; try apply New_reader_inv.
  by exists PeekMagicByte.
Qed.

(** ** Properties *)

(** C7: the consumer survives anything.  Whatever the assembler delivers to a
    new consumer, in any order and with any losses, every call returns: no nil
    state is called, nothing panics and no loop runs forever.  Afterwards the
    consumer still has a state, and every reader it gave back to the pool is as
    good as new. *)
Theorem conversation_total ins c1 c2 pool :
  Forall source_fresh pool -> Forall input_ok ins ->
  exists c c', NewConsumer c1 c2 pool = Ret c /\ conversation ins c = Ret (tt, c') /\
    is_Some (State c') /\ zlen (eventBuf c') < eventCap /\ Forall source_fresh (bufferPool c').
Proof.
  intros Hp Hins. destruct (NewConsumer_inv c1 c2 pool Hp) as (c & E & Hinv & _).
  destruct (conversation_inv ins c Hinv Hins) as ([] & c' & E' & [_ _ (s & Hs & _) Hev Hpool]).
  exists c, c'. by split_and!.
Qed.
