(* ===== verification/Transaction.v ===== *)
(** * Reading contiguous text: words, lines and responses

    What the methods of the readers do when data arrived without gaps, through the
    abstract stream of Stream.v ([holds]); the text of responses to get; and the
    proof that the get loop reports exactly one event per returned value, whatever
    the keys, flags and values and however the response is cut into TCP segments.
    Conversation.v builds on it for whole commands. *)
From Stdlib Require Import Strings.Byte.
From S2P Require Import Prelude GoLib Buffer Stream Reader Model McText Progress.
Local Open Scope Z_scope.

(** ** The text of a transaction *)

Definition SP : byte := " "%byte.
Definition CR : byte := "013"%byte.
Definition LF : byte := "010"%byte.

(** A word of the protocol: no space and no line end. *)
Definition word_ok (w : bytes) : Prop := Forall (fun b => b <> SP /\ b <> CR /\ b <> LF) w.

(** One value of a response; [icas] is the cas unique of a gets response. *)
Record item := mkItem { ikey : bytes; iflags : bytes; ivalue : bytes; icas : option bytes }.

Definition item_ok (it : item) : Prop :=
  word_ok (ikey it) /\ word_ok (iflags it) /\
  (forall c, icas it = Some c -> word_ok c).

Definition header (it : item) : bytes :=
  bs "VALUE" ++ SP :: ikey it ++ SP :: iflags it ++ SP :: Itoa (zlen (ivalue it)) ++
  match icas it with Some c => SP :: c | None => [] end.

Definition encode_item (it : item) : bytes :=
  header it ++ crlf ++ ivalue it ++ crlf.

(** [VALUE] blocks, then [END]. *)
Definition response (its : list item) : bytes :=
  concat (encode_item <$> its) ++ bs "END" ++ crlf.

Definition item_event (it : item) : Event :=
  mkEvent EventGetHit (ikey it) (zlen (ivalue it)).

(** Room for a segment next to an incomplete line. *)
Definition segment_max : Z := 16384.

Definition segment (data : bytes) : list Reassembly := [mkReassembly data 0].

(** ** Sources holding contiguous data *)

(** [s] is an open reader with unread bytes [d], owing [n] bytes of discard. *)
Definition holds (s : Source) (d : bytes) (n : nat) : Prop :=
  exists r, s = SrcReader r /\ rerr r = None /\ closed r = false /\ eof r = false /\
    wf (rbuf r) /\ bcap (rbuf r) = BufferSize /\ abs (rbuf r) = mkStream (Some <$> d) n.

Lemma holds_inv s d n : holds s d n -> source_inv s.
Proof. intros (r & -> & ? & ? & ? & [] & ? & ?). by split. Qed.

Lemma holds_new : holds (SrcReader Reader.New) [] 0.
Proof.
  exists Reader.New. split_and!; done.
Qed.

Lemma contig_some d : contig (Some <$> d) = d.
Proof. induction d; csimpl; congruence. Qed.

Lemma gapAt_some d g : ~ gapAt (Some <$> d) g.
Proof.
  intros [Hg H]. rewrite contig_some, drop_ge, take_nil in H by (by rewrite length_fmap).
  destruct (Z.to_nat g) eqn:E; [lia|done].
Qed.

Lemma some_fmap_inj (d d' : bytes) : Some <$> d = Some <$> d' -> d = d'.
Proof. apply list_fmap_eq_inj. congruence. Qed.

Lemma holds_set_rbuf r b d n :
  rerr r = None -> closed r = false -> eof r = false -> wf b -> bcap b = BufferSize ->
  abs b = mkStream (Some <$> d) n -> holds (SrcReader (set_rbuf b r)) d n.
Proof. intros. by exists (set_rbuf b r). Qed.

(** The length of the buffer is the length of the data held. *)
Lemma holds_zlen b d n : wf b -> abs b = mkStream (Some <$> d) n -> zlen (buf b) <= zlen d /\ blen b = zlen d.
Proof.
  intros Hwf Habs. destruct (contiguousAvailable b) as [a g] eqn:E.
  pose proof (wf_avail_le b a g Hwf E). pose proof (wf_cells_length b Hwf) as Hc.
  change (cellsOf (blocks b) (buf b)) with (cells (abs b)) in Hc. rewrite Habs in Hc. simpl in Hc.
  unfold zlen in *. rewrite length_fmap in Hc. lia.
Qed.

Lemma s_discard_some n d k :
  s_discard n (mkStream (Some <$> d) k) =
  mkStream (Some <$> drop (Z.to_nat n) d) (k + (Z.to_nat n - length d)).
Proof. unfold s_discard. simpl. by rewrite fmap_drop, length_fmap. Qed.

(** The text up to the first occurrence of a byte is unique. *)
Lemma split_unique (x : byte) p q p' q' :
  x ∉ p -> x ∉ p' -> p ++ x :: q = p' ++ x :: q' -> p = p' /\ q = q'.
Proof.
  revert p'. induction p as [|y p IH]; intros [|y' p']; simpl; intros Hp Hp' E;
    rewrite ?not_elem_of_cons in *; simplify_eq; [done|tauto|tauto|].
  destruct (IH p'); [tauto..|done|]. by subst.
Qed.

(** A buffer that holds [d] and owes [n]. *)
Definition bufHolds (b : Buffer) (d : bytes) (n : nat) : Prop :=
  wf b /\ bcap b = BufferSize /\ abs b = mkStream (Some <$> d) n.

(** The reading methods of an open reader are the buffer's. *)
Lemma wp_holds_guarded {A} zero (m : GoM Buffer (A * option error)) md s d n d' n'
    (Q : A * option error -> Prop) :
  holds s d n ->
  (forall b, bufHolds b d n -> wp m (fun res b' => bufHolds b' d' n' /\ Q res) b) ->
  wp (dispatch (guarded zero m) md) (fun res s' => holds s' d' n' /\ Q res) s.
Proof.
  intros (r & -> & Herr & Hcl & Heof & Hb) Hm. apply wp_dispatch_reader, wp_guarded; [congruence|].
  eapply wp_mono; [|by apply Hm]. intros [a err] b' [(Hwf' & Hcap' & Habs') HQ]. simpl.
  split; [by apply holds_set_rbuf|]. unfold eofErr. by rewrite Heof, andb_false_r.
Qed.

Lemma bufHolds_contiguous b d n avail g :
  bufHolds b d n -> contiguousAvailable b = (avail, g) ->
  contig (cells (abs b)) = d /\ blen b = zlen d /\ avail = zlen d.
Proof.
  intros (Hwf & _ & Habs) Hc. destruct (holds_zlen b d n Hwf Habs) as [_ Hl].
  destruct (wf_contiguous b Hwf avail g Hc) as (Hcontig & Ha & _ & _ & Hgap & Hfull).
  rewrite Habs in *. simpl in *. rewrite contig_some in *. split_and!; [done..|].
  destruct (decide (avail < blen b)) as [Hlt|]; [|lia].
  exfalso. eapply gapAt_some, Hgap, Hlt.
Qed.

Lemma holds_ReadLine_line s line rest n :
  holds s (line ++ LF :: rest) n -> LF ∉ line ->
  wp src_ReadLine (fun r s' => holds s' rest n /\ r = (trimCR line, None)) s.
Proof.
  intros Hs Hline. eapply wp_holds_guarded; [done|]. intros b (Hwf & Hcap & Habs).
  destruct (ReadLine_refines_aux b Hwf) as (res & b' & E & Hwf' & Hspec & Hcap').
  eexists _, _. split; [exact E|]. rewrite Habs in Hspec. remember (abs b') as st eqn:Est.
  destruct Hspec as [line' rest' Hsplit Hline'|Hc Hn|g Hn Hgap]; simpl in *;
    rewrite ?contig_some in *; [|set_solver|by apply gapAt_some in Hgap].
  destruct (split_unique _ _ _ _ _ Hline Hline' Hsplit) as [-> ->].
  split; [|done]. split_and!; [done|congruence|].
  rewrite <- Est, s_discard_some. unfold zlen. f_equal.
  - f_equal. replace (Z.to_nat (Z.of_nat (length line') + 1)) with (length line' + 1)%nat by lia.
    by rewrite drop_app_add.
  - rewrite length_app. simpl. lia.
Qed.

Lemma holds_ReadLine_short s d n :
  holds s d n -> LF ∉ d ->
  wp src_ReadLine (fun r s' => holds s' d n /\ r = ([], Some ErrShortRead)) s.
Proof.
  intros Hs Hd. eapply wp_holds_guarded; [done|]. intros b (Hwf & Hcap & Habs).
  destruct (ReadLine_refines_aux b Hwf) as (res & b' & E & Hwf' & Hspec & Hcap').
  eexists _, _. split; [exact E|]. rewrite Habs in Hspec. remember (abs b') as st eqn:Est.
  destruct Hspec as [line' rest' Hsplit Hline'|Hc Hn|g Hn Hgap]; simpl in *;
    rewrite ?contig_some in *; [set_solver| |by apply gapAt_some in Hgap].
  split; [|done]. split_and!; [done|congruence|done].
Qed.

Lemma holds_ReadN s w rest n :
  holds s (w ++ rest) n ->
  wp (src_ReadN (zlen w)) (fun r s' => holds s' rest n /\ r = (w, None)) s.
Proof.
  intros Hs. eapply wp_holds_guarded; [done|]. intros b (Hwf & Hcap & Habs).
  destruct (ReadN_refines_aux (zlen w) b Hwf (zlen_nonneg w)) as (res & b' & E & Hwf' & Hspec & Hcap').
  eexists _, _. split; [exact E|]. rewrite Habs in Hspec. remember (abs b') as st eqn:Est.
  destruct Hspec as [Hlt|Hle|g Hle Hlt Hgap]; simpl in *;
    rewrite ?contig_some in *; [|clear Hle|by apply gapAt_some in Hgap].
  { unfold zlen in Hlt. rewrite length_fmap, length_app in Hlt. lia. }
  unfold zlen. rewrite Nat2Z.id, take_app_length.
  split; [|done]. split_and!; [done|congruence|].
  rewrite <- Est, s_discard_some. unfold zlen. rewrite Nat2Z.id, drop_app_length, length_app.
  f_equal. lia.
Qed.

Lemma holds_PeekN1 s x rest n :
  holds s (x :: rest) n ->
  wp (src_PeekN 1) (fun r s' => holds s' (x :: rest) n /\ r = ([x], None)) s.
Proof.
  intros Hs. eapply wp_holds_guarded; [done|]. intros b (Hwf & Hcap & Habs).
  destruct (PeekN_refines_aux 1 b Hwf ltac:(lia)) as (res & st & E & Hspec).
  eexists _, _. split; [exact E|]. rewrite Habs in Hspec.
  destruct Hspec as [Hlt|Hle|g Hle Hlt Hgap]; simpl in *;
    rewrite ?contig_some in *; [|clear Hle|by apply gapAt_some in Hgap].
  { unfold zlen in Hlt. simpl in Hlt. lia. }
  split; [|done]. by split_and!.
Qed.

Lemma holds_IndexAny s d n chars :
  holds s d n ->
  wp (src_IndexAny chars) (fun r s' => holds s' d n /\
    r = (GoLib.IndexAny d chars,
         if GoLib.IndexAny d chars <? 0 then Some ErrShortRead else None)) s.
Proof.
  intros Hs. eapply wp_holds_guarded; [done|]. intros b Hb. pose proof Hb as (Hwf & _).
  unfold wp, Buffer.IndexAny. destruct (contiguousAvailable b) as [avail g] eqn:Hc.
  destruct (bufHolds_contiguous b d n avail g Hb Hc) as (Hcontig & Hlen & Ha).
  destruct (indexAny_wf chars b avail g Hwf Hc) as (pos & -> & ->). rewrite Hcontig.
  unfold mbind, outcome_bind. destruct (GoLib.IndexAny d chars <? 0); [|by eexists _, _].
  destruct (Z.ltb_spec avail (blen b)); [lia|by eexists _, _].
Qed.

Lemma holds_Discard s d n k :
  holds s d n -> 0 <= k -> Z.of_nat n + k <= int_max ->
  wp (src_Discard k) (fun r s' =>
    holds s' (drop (Z.to_nat k) d) (n + (Z.to_nat k - length d)) /\ r = (k, None)) s.
Proof.
  intros (r & -> & Herr & Hcl & Heof & Hwf & Hcap & Habs) Hk Hmax.
  apply wp_dispatch_reader. unfold wp, Reader.Discard. rewrite Herr.
  pose proof (wf_discard _ Hwf) as Hd0.
  assert (discard (rbuf r) = Z.of_nat n) as Hdn.
  { apply (f_equal owed) in Habs. simpl in Habs. lia. }
  destruct (Discard_refines_aux k (rbuf r) Hwf Hk) as (b' & E & Hwf' & Habs' & Hcap'); [lia|].
  unfold onBuf, zoom, mbind, gom_bind. rewrite E. eexists _, _. split; [done|]. split; [|done].
  apply holds_set_rbuf; try done; [congruence|]. by rewrite Habs', Habs, s_discard_some.
Qed.

Lemma holds_Truncate s d n :
  holds s d n -> wp src_Truncate (fun _ s' => holds s' [] 0) s.
Proof.
  intros (r & -> & Herr & Hcl & Heof & Hwf & Hcap & Habs). apply wp_dispatch_reader.
  eexists _, _. split; [done|]. apply holds_set_rbuf; try done.
  rewrite Reset_buf, Hcap. done.
Qed.

Lemma holds_Reset s d n :
  holds s d n -> wp src_Reset (fun _ s' => holds s' [] 0) s.
Proof.
  intros (r & -> & Herr & Hcl & Heof & Hwf & Hcap & Habs). apply wp_dispatch_reader.
  eexists _, _. split; [done|]. eexists. split; [done|]. split_and!; try done.
  simpl. by rewrite Reset_buf, Hcap.
Qed.

Lemma holds_Reassembled s d n data :
  holds s d n -> zlen d + zlen data <= BufferSize ->
  wp (src_Reassembled (segment data)) (fun _ s' =>
    holds s' (d ++ drop n data) (n - length data)) s.
Proof.
  intros (r & -> & Herr & Hcl & Heof & Hwf & Hcap & Habs) Hfit.
  apply wp_dispatch_reader. unfold wp, Reader.Reassembled. rewrite Hcl, Herr. simpl.
  destruct (holds_zlen _ _ _ Hwf Habs) as [Hz Hl].
  pose proof (zlen_nonneg data). pose proof (zlen_nonneg d).
  assert (BufferSize <= 32768) by (unfold BufferSize; lia).
  destruct (Write_refines_aux 0 data (rbuf r) Hwf) as (err & b' & E & Hwf' & Hcap' & Hor);
    [split; unfold big; lia|unfold int_max; lia|].
  destruct Hor as [[-> Habs']|(_ & _ & Hfull & _)]; [|lia].
  unfold onBuf, zoom, mbind, gom_bind. rewrite E. eexists _, _. split; [done|].
  apply holds_set_rbuf; try done; [congruence|]. rewrite Habs', Habs.
  unfold s_write, newCells. simpl. by rewrite length_fmap, fmap_app, fmap_drop.
Qed.

(** ** The text of a response *)

Lemma trimCR_line h : trimCR (h ++ [CR]) = h.
Proof.
  unfold trimCR. rewrite last_snoc, bool_decide_true by done.
  rewrite length_app, Nat.add_sub. apply take_app_length.
Qed.

Lemma digit_not_delim b : is_Some (digit_val b) -> b <> SP /\ b <> CR /\ b <> LF.
Proof. intros [d Hd]. split_and!; intros ->; by vm_compute in Hd. Qed.

Lemma Itoa_word n : 0 <= n -> word_ok (Itoa n).
Proof. intros Hn. eapply Forall_impl; [by apply Itoa_digits|]. apply digit_not_delim. Qed.

Lemma word_no_sep w : word_ok w -> Forall (fun b => b <> SP) w.
Proof. intros Hw. eapply Forall_impl; [exact Hw|]. simpl. tauto. Qed.

Lemma word_no_LF w : word_ok w -> LF ∉ w.
Proof. intros Hw Hin. unfold word_ok in Hw. rewrite Forall_forall in Hw. destruct (Hw _ Hin). tauto. Qed.

Lemma bs_word s : forallb (fun b => bool_decide (b <> SP /\ b <> CR /\ b <> LF)) (bs s) = true -> word_ok (bs s).
Proof.
  intros H. apply Forall_forall. intros b Hb. rewrite forallb_forall in H.
  apply list_elem_of_In, H in Hb. by apply bool_decide_eq_true in Hb.
Qed.

Lemma header_fields it : item_ok it -> exists rest,
  Split (header it) SP = bs "VALUE" :: ikey it :: iflags it :: Itoa (zlen (ivalue it)) :: rest.
Proof.
  intros (Hk & Hf & Hc). pose proof (Itoa_word (zlen (ivalue it)) (zlen_nonneg _)) as Hi.
  unfold header. rewrite Split_cons by (by apply word_no_sep, bs_word).
  rewrite !Split_cons by by apply word_no_sep.
  destruct (icas it) as [c|].
  - rewrite Split_cons by by apply word_no_sep. eauto.
  - rewrite app_nil_r, Split_clean by by apply word_no_sep. eauto.
Qed.

Lemma header_no_LF it : item_ok it -> LF ∉ header it ++ [CR].
Proof.
  intros (Hk & Hf & Hc).
  pose proof (word_no_LF _ (Itoa_word (zlen (ivalue it)) (zlen_nonneg _))).
  pose proof (word_no_LF _ Hk). pose proof (word_no_LF _ Hf).
  assert (LF ∉ bs "VALUE") by (by apply word_no_LF, bs_word).
  assert (LF ∉ match icas it with Some c => SP :: c | None => [] end).
  { destruct (icas it) as [c|]; [|apply not_elem_of_nil].
    apply not_elem_of_cons. split; [done|]. by apply word_no_LF, Hc. }
  unfold header. rewrite !not_elem_of_app, !not_elem_of_cons, !not_elem_of_app, !not_elem_of_cons,
    !not_elem_of_app, !not_elem_of_cons, !not_elem_of_app.
  split_and!; try done. apply not_elem_of_nil.
Qed.

Lemma response_cons it its :
  response (it :: its) = (header it ++ [CR]) ++ LF :: ivalue it ++ crlf ++ response its.
Proof.
  unfold response. rewrite fmap_cons. cbn [concat]. unfold encode_item at 1.
  generalize (header it) (ivalue it) (concat (encode_item <$> its)) (bs "END" ++ crlf).
  intros h v r e. rewrite <- !app_assoc. reflexivity.
Qed.

Lemma response_cons_zlen it its :
  zlen (ivalue it) + 2 <= zlen (response (it :: its)) /\
  zlen (response its) <= zlen (response (it :: its)).
Proof.
  rewrite response_cons. change (zlen [CR]) with 1. repeat rewrite ?zlen_app, ?zlen_cons.
  pose proof (zlen_nonneg (header it)). pose proof (zlen_nonneg (ivalue it)).
  pose proof (zlen_nonneg (response its)). change (zlen crlf) with 2. change (zlen []) with 0. lia.
Qed.

Lemma response_nil : response [] = (bs "END" ++ [CR]) ++ LF :: [].
Proof. done. Qed.

(** A text without line end is no longer than the line it begins. *)
Lemma line_prefix (d x line y : bytes) :
  d ++ x = line ++ LF :: y -> LF ∉ d -> (length d <= length line)%nat.
Proof.
  revert line. induction d as [|b d IH]; intros line E Hd; simpl in *; [lia|].
  rewrite not_elem_of_cons in Hd. destruct line as [|c line]; simpl in *; injection E as Eb E.
  - subst. tauto.
  - apply IH in E; [lia|tauto].
Qed.

(** A text with a line end contains the first line of what it begins. *)
Lemma first_line (d x line y : bytes) :
  d ++ x = line ++ LF :: y -> LF ∈ d -> LF ∉ line -> exists q, d = line ++ LF :: q /\ q ++ x = y.
Proof.
  intros E (p & q & -> & Hp)%list_elem_of_split_l Hline.
  rewrite <- app_assoc in E. simpl in E.
  destruct (split_unique _ _ _ _ _ Hp Hline E) as [-> <-]. by exists q.
Qed.

(** ** The get loop *)

(** The server side, with [T] still to come, has [its] left to deliver. *)
Definition awaiting (s : Source) (T : bytes) (its : list item) : Prop :=
  exists d n, holds s d n /\ d ++ drop n T = response its /\ (n <= length T)%nat /\
    (d <> [] -> n = 0%nat) /\ LF ∉ d.

(** The part of a consumer that reading a response leaves alone. *)
Definition sameSession (c c' : Consumer Source StateFn Proto) : Prop :=
  ClientReader c' = ClientReader c /\ Run c' = Run c /\ proto c' = proto c /\
  zlen (eventBuf c') < eventCap.

(** Where the loop may stop: in the middle of a response, or after its end. *)
Definition loopPost c T its (err : option error) (c' : Consumer Source StateFn Proto) : Prop :=
  sameSession c c' /\
  ((err = Some ErrShortRead /\ State c' = State c /\ exists its1 its2, its = its1 ++ its2 /\
      awaiting (ServerReader c') T its2 /\ events c' = events c ++ (item_event <$> its1)) \/
   (err = None /\ State c' = Some ReadCommand /\ T = [] /\
      (exists n, holds (ServerReader c') [] n) /\
      events c' = events c ++ (item_event <$> its))).

Lemma loopPost_more c c1 T it its err c' :
  sameSession c c1 -> State c1 = State c -> events c1 = events c ++ [item_event it] ->
  loopPost c1 T its err c' -> loopPost c T (it :: its) err c'.
Proof.
  intros (E1 & E2 & E3 & _) Est Eev ((F1 & F2 & F3 & F4) & Hor). split; [by split_and!; congruence|].
  destruct Hor as [(-> & Hst & its1 & its2 & -> & Haw & Hev)|(-> & Hst & HT & Hh & Hev)].
  - left. split_and!; [done|congruence|]. exists (it :: its1), its2. split_and!; [done..|].
    rewrite Hev, Eev, <- app_assoc. done.
  - right. split_and!; [done..|]. rewrite Hev, Eev, <- app_assoc. done.
Qed.

Lemma server_ReadLine_line (c : Consumer Source StateFn Proto) line rest n :
  holds (ServerReader c) (line ++ LF :: rest) n -> LF ∉ line ->
  wp (server src_ReadLine) (fun r c' => exists s, c' = set_ServerReader s c /\ holds s rest n /\
    r = (trimCR line, None) /\ (src_buffered s < src_buffered (ServerReader c))%nat) c.
Proof.
  intros Hh Hline. apply wp_server.
  pose proof (wp_and _ _ _ _ (holds_ReadLine_line _ _ _ _ Hh Hline)
    (src_ReadLine_law _ (holds_inv _ _ _ Hh))) as Hwp.
  eapply wp_mono; [|exact Hwp]. intros r s [[? ->] (_ & _ & Hlt)]. eauto 10.
Qed.

Lemma server_Discard (c : Consumer Source StateFn Proto) d n k :
  holds (ServerReader c) d n -> 0 <= k -> Z.of_nat n + k <= int_max ->
  wp (server (src_Discard k)) (fun r c' => exists s, c' = set_ServerReader s c /\
    holds s (drop (Z.to_nat k) d) (n + (Z.to_nat k - length d)) /\ r = (k, None) /\
    (src_buffered s <= src_buffered (ServerReader c))%nat) c.
Proof.
  intros Hh Hk Hmax. apply wp_server.
  assert (in_int k) as Hin by golia.
  pose proof (wp_and _ _ _ _ (holds_Discard _ _ _ _ Hh Hk Hmax)
    (src_Discard_law k _ (holds_inv _ _ _ Hh) Hin)) as Hwp.
  eapply wp_mono; [|exact Hwp]. intros r s [[? ->] (_ & Hle)]. eauto 10.
Qed.

(** The discard of a value keeps the alignment with what is still to come. *)
Lemma skip_value (q T v y : bytes) n :
  (q <> [] -> n = 0%nat) -> (n <= length T)%nat -> q ++ drop n T = v ++ y ->
  let k := length v in
  drop k q ++ drop (n + (k - length q)) T = y /\ (n + (k - length q) <= length T)%nat /\
  (drop k q <> [] -> (n + (k - length q) = 0)%nat).
Proof.
  intros Hn0 Hn E k.
  assert (length q + (length T - n) = length v + length y)%nat as Hl.
  { apply (f_equal length) in E. rewrite !length_app, length_drop in E. lia. }
  split_and!.
  - rewrite <- (drop_drop T), <- drop_app, E. apply drop_app_length.
  - unfold k. lia.
  - intros Hne. assert (k < length q)%nat.
    { destruct (decide (length q <= k)%nat) as [Hle|]; [|lia]. by rewrite drop_ge in Hne. }
    rewrite Hn0; [lia|]. intros ->. simpl in *. lia.
Qed.

(** No line end in what is held: the loop stops and waits. *)
Lemma handleGetLoop_wait its fuel c T d n :
  zlen (eventBuf c) < eventCap -> holds (ServerReader c) d n -> d ++ drop n T = response its ->
  (n <= length T)%nat -> (d <> [] -> n = 0%nat) -> LF ∉ d ->
  wp (handleGetLoop (S fuel)) (loopPost c T its) c.
Proof.
  intros Hev Hh E Hn Hn0 Hd. apply wp_bind_err, wp_server.
  eapply wp_mono; [|by apply holds_ReadLine_short]. intros r s [Hs ->].
  split; [by split_and!|]. left. split_and!; [done..|]. exists [], its.
  split_and!; [done| |by rewrite app_nil_r]. by exists d, n.
Qed.

(** The line [END] ends the response. *)
Lemma handleGetLoop_end fuel c T d n :
  zlen (eventBuf c) < eventCap -> holds (ServerReader c) d n -> d ++ drop n T = response [] ->
  (d <> [] -> n = 0%nat) -> LF ∈ d ->
  wp (handleGetLoop (S fuel)) (loopPost c T []) c.
Proof.
  intros Hev Hh E Hn0 Hd. rewrite response_nil in E.
  assert (LF ∉ bs "END" ++ [CR]) as Hend by (eapply (bool_decide_unpack (LF ∉ bs "END" ++ [CR])); exact I).
  destruct (first_line _ _ _ _ E Hd Hend) as (q & -> & [-> HT]%app_nil).
  rewrite Hn0 in HT, Hh by (by destruct (bs "END")). rewrite drop_0 in HT. subst T.
  apply wp_bind_err. eapply wp_mono; [|by apply server_ReadLine_line].
  intros r c' (s & -> & Hs & -> & _). cbn [fst snd]. rewrite trimCR_line.
  apply wp_bind, wp_modify, wp_ret. split; [by split_and!|]. right.
  split_and!; [done..|by eexists|by rewrite app_nil_r].
Qed.

(** One value: an event, and its bytes are skipped. *)
Lemma handleGetLoop_item it its fuel c T d n (Q : option error -> Consumer Source StateFn Proto -> Prop) :
  item_ok it -> zlen (response (it :: its)) <= big ->
  zlen (eventBuf c) < eventCap -> holds (ServerReader c) d n ->
  d ++ drop n T = response (it :: its) -> (n <= length T)%nat -> (d <> [] -> n = 0%nat) ->
  LF ∈ d ->
  (forall c1 d1 n1, sameSession c c1 -> State c1 = State c -> events c1 = events c ++ [item_event it] ->
     (src_buffered (ServerReader c1) < src_buffered (ServerReader c))%nat ->
     holds (ServerReader c1) d1 n1 -> d1 ++ drop n1 T = response its -> (n1 <= length T)%nat ->
     (d1 <> [] -> n1 = 0%nat) -> wp (handleGetLoop fuel) Q c1) ->
  wp (handleGetLoop (S fuel)) Q c.
Proof.
  intros Hit Hbig Hev Hh E Hn Hn0 Hd Hk. pose proof (header_no_LF it Hit) as Hline.
  rewrite response_cons in E.
  destruct (first_line _ _ _ _ E Hd Hline) as (q & -> & Eq).
  rewrite Hn0 in Eq, Hh by (by destruct (header it)). clear Hn0.
  rewrite app_assoc in Eq.
  destruct (skip_value q T (ivalue it ++ crlf) (response its) 0) as (E' & Hn' & Hn0');
    [done|lia|done|].
  assert (zlen (ivalue it) + 2 <= big) as Hsize by (pose proof (response_cons_zlen it its); lia).
  pose proof (zlen_nonneg (ivalue it)).
  apply wp_bind_err. eapply wp_mono; [|by apply server_ReadLine_line].
  intros r c' (s & -> & Hs & -> & Hlt). cbn [fst snd]. rewrite trimCR_line.
  destruct (header_fields it Hit) as [rest Hfields]. unfold SP in Hfields. rewrite Hfields.
  rewrite bool_decide_true by done. rewrite Atoi_Itoa by (unfold big, int_max in *; lia).
  apply wp_bind. eapply wp_mono; [|by apply AddEvent_spec].
  intros _ c1 ((E1 & E2 & E3 & E4 & E5 & E6) & Hev1 & Hcap1).
  assert (zlen (ivalue it) +! zlen crlf = zlen (ivalue it ++ crlf)) as ->.
  { rewrite zlen_app. change (zlen crlf) with 2. apply wrap64_id. unfold big, in_int, int_min, int_max in *. lia. }
  apply wp_bind_err. eapply wp_mono; [|apply (server_Discard c1 q 0)];
    [|by rewrite E2|auto with go|rewrite zlen_app; change (zlen crlf) with 2; unfold big, int_max in *; lia].
  intros r c2 (s2 & -> & Hs2 & -> & Hle2). cbn [fst snd].
  unfold zlen in Hs2. rewrite Nat2Z.id in Hs2. rewrite E2 in Hle2. simpl in Hle2.
  eapply Hk; simpl; try done. by eapply Nat.le_lt_trans.
Qed.

Lemma handleGetLoop_response its fuel c T d n :
  Forall item_ok its -> zlen (response its) <= big ->
  (src_buffered (ServerReader c) < fuel)%nat -> zlen (eventBuf c) < eventCap ->
  holds (ServerReader c) d n -> d ++ drop n T = response its -> (n <= length T)%nat ->
  (d <> [] -> n = 0%nat) ->
  wp (handleGetLoop fuel) (loopPost c T its) c.
Proof.
  revert fuel c d n. induction its as [|it its IH]; intros fuel c d n Hits Hbig Hfuel Hev Hh E Hn Hn0;
    (destruct fuel as [|fuel]; [lia|]); (destruct (decide (LF ∈ d)) as [Hd|Hd];
    [|by eapply handleGetLoop_wait]).
  - by eapply handleGetLoop_end.
  - apply Forall_cons in Hits as [Hit Hits]. eapply handleGetLoop_item; try done.
    intros c1 d1 n1 Hsame Hst Hev1 Hlt Hh1 E1 Hn1 Hn01.
    eapply wp_mono; [|eapply (IH fuel c1 d1 n1); try done].
    + intros err c'. by apply loopPost_more.
    + pose proof (response_cons_zlen it its). lia.
    + lia.
    + apply Hsame.
Qed.

(** ** One transaction *)

Local Abbreviation K := (Consumer Source StateFn Proto).

(** Between requests: nothing buffered on either side. *)
Record idle (c : K) : Prop := {
  idle_state : State c = Some PeekMagicByte \/ State c = Some ReadCommand;
  idle_run : Run c = RunProtocol;
  idle_client : holds (ClientReader c) [] 0;
  idle_server : holds (ServerReader c) [] 0;
  idle_events : zlen (eventBuf c) < eventCap
}.

(** In the middle of a get whose server side has [its] left, in [T] to come. *)
Record getting (c : K) (T : bytes) (its : list item) : Prop := {
  getting_state : State c = Some HandleGet;
  getting_args : 1 <= zlen (args (proto c));
  getting_run : Run c = RunProtocol;
  getting_client : holds (ClientReader c) [] 0;
  getting_server : awaiting (ServerReader c) T its;
  getting_events : zlen (eventBuf c) < eventCap
}.

(** Reading a request: what is buffered from the client, and no server data. *)
Record requesting (c : K) (st : StateFn) (d : bytes) : Prop := {
  requesting_state : State c = Some st;
  requesting_run : Run c = RunProtocol;
  requesting_client : holds (ClientReader c) d 0;
  requesting_server : holds (ServerReader c) [] 0;
  requesting_events : zlen (eventBuf c) < eventCap
}.

Lemma holds_buffered s d n : holds s d n -> src_buffered s = length d.
Proof.
  intros (r & -> & _ & _ & _ & Hb). simpl.
  destruct (contiguousAvailable (rbuf r)) as [avail g] eqn:Hc.
  destruct (bufHolds_contiguous _ d n avail g Hb Hc) as (_ & Hl & Ha).
  destruct Hb as (Hwf & _ & Habs).
  destruct (wf_contiguous _ Hwf avail g Hc) as (_ & _ & _ & _ & _ & Hfull).
  destruct (Hfull ltac:(lia)) as [_ Hcells]. rewrite Habs in Hcells. simpl in Hcells.
  apply some_fmap_inj in Hcells. by subst.
Qed.

(** A word ended by a delimiter is read whole, delimiter included. *)
Lemma readWord_holds (c : K) w x rest (k : bytes -> GoM K (option error)) Q :
  holds (ClientReader c) (w ++ x :: rest) 0 -> Forall (fun b => b ∉ delims) w -> x ∈ delims ->
  zlen w < int_max ->
  (forall s, holds s rest 0 -> wp (k (w ++ [x])) Q (set_ClientReader s c)) ->
  wp (pos ←? client (src_IndexAny delims); word ←? client (src_ReadN (pos +! 1)); k word)%go Q c.
Proof.
  intros Hh Hw Hx Hmax Hk. pose proof (zlen_nonneg w).
  apply wp_bind_err, wp_client. eapply wp_mono; [|by apply holds_IndexAny].
  intros r s [Hs ->]. cbn [fst snd]. rewrite IndexAny_app by done.
  destruct (Z.ltb_spec (zlen w) 0); [lia|].
  apply wp_bind_err, wp_client. rewrite wrap64_id by (unfold in_int, int_min; lia). simpl.
  replace (zlen w + 1) with (zlen (w ++ [x])) by (rewrite zlen_app; done).
  eapply wp_mono; [|apply (holds_ReadN s (w ++ [x]) rest 0); by rewrite <- app_assoc].
  intros r s' [Hs' ->]. cbn [fst snd]. by apply Hk.
Qed.

(** With nothing buffered from the client, reading a command waits. *)
Lemma readCommand_waits (c : K) d n :
  Run c = RunProtocol -> State c = Some ReadCommand -> holds (ClientReader c) [] 0 ->
  holds (ServerReader c) d n -> zlen (eventBuf c) < eventCap ->
  wp readCommand (fun err c' => err = Some ErrShortRead /\ (idle c' /\ State c' = Some ReadCommand) /\
    events c' = events c) c.
Proof.
  intros Hrun Hst Hcl Hsv Hev. apply wp_bind, wp_modify, wp_bind, wp_server.
  eapply wp_mono; [|by eapply holds_Truncate]. intros ? s1 Hs1.
  apply wp_bind_err, wp_client. eapply wp_mono; [|by apply holds_IndexAny].
  intros r s [Hs ->]. simpl. split; [done|]. split; [|done]. split; [|done]. split; simpl; auto.
Qed.

(** Unfold one call of a state function by the run loop. *)
Lemma runLoop_step fuel (c : K) st (m : GoM K (option error)) Q :
  State c = Some st -> (callState : GoM K _) c = m c ->
  wp m (fun err c' => match err with
                      | None => wp (runLoop fuel) Q c'
                      | Some ErrShortRead | Some EOF => Q tt c'
                      | Some _ => False
                      end) c ->
  wp (runLoop (S fuel)) Q c.
Proof.
  intros _ Hcall Hm. cbn [runLoop]. apply wp_bind.
  destruct Hm as (err & c' & E & HQ). exists err, c'. split; [by rewrite Hcall|].
  destruct err as [[]|]; try done; by apply wp_ret.
Qed.

(** The rest of a response reaches the loop through [run]. *)
Lemma run_get (c : K) T its d n :
  State c = Some HandleGet -> 1 <= zlen (args (proto c)) -> Run c = RunProtocol ->
  holds (ClientReader c) [] 0 -> zlen (eventBuf c) < eventCap ->
  Forall item_ok its -> zlen (response its) <= big ->
  holds (ServerReader c) d n -> d ++ drop n T = response its -> (n <= length T)%nat ->
  (d <> [] -> n = 0%nat) ->
  wp run (fun _ c' =>
    (exists its1 its2, its = its1 ++ its2 /\ getting c' T its2 /\
       events c' = events c ++ (item_event <$> its1)) \/
    (T = [] /\ (idle c' /\ State c' = Some ReadCommand) /\ events c' = events c ++ (item_event <$> its))) c.
Proof.
  intros Hst Hargs Hrun Hcl Hev Hits Hbig Hh E Hn Hn0. unfold wp, run. rewrite Nat.add_comm.
  apply (runLoop_step _ c HandleGet handleGet); [done|by unfold callState, mbind, gom_bind, gets; rewrite Hst|].
  unfold handleGet. apply wp_bind, wp_gets.
  destruct (Z.ltb_spec (zlen (args (proto c))) 1); [lia|]. apply wp_bind, wp_gets.
  eapply wp_mono; [|by eapply handleGetLoop_response; [..|exact Hh|exact E|done|done]; auto].
  intros err c' [(E1 & E2 & E3 & Hev')
    [(-> & Hst' & its1 & its2 & -> & Haw & Hevs)|(-> & Hst' & -> & [k Hsv] & Hevs)]].
  - left. exists its1, its2. split_and!; [done| |done].
    split; [congruence|by rewrite E3|congruence|by rewrite E1|done|done].
  - apply (runLoop_step _ c' ReadCommand readCommand);
      [done|by unfold callState, mbind, gom_bind, gets; rewrite Hst'|].
    eapply wp_mono; [|eapply readCommand_waits; [congruence|done|by rewrite E1|done|done]].
    intros err c2 (-> & Hidle & Hev2). right. split; [done|]. split; [done|congruence].
Qed.

(** A conversation of one consumer among others: the shared pool of readers may
    change between its calls. *)
Fixpoint conversed (ins : list input) (Q : K -> Prop) (c : K) : Prop :=
  match ins with
  | [] => Q c
  | i :: ins => forall pool, wp (deliver i) (fun _ c' => conversed ins Q c') (set_pool pool c)
  end.

Lemma conversed_mono ins (Q Q' : K -> Prop) c : (forall c', Q c' -> Q' c') ->
  conversed ins Q c -> conversed ins Q' c.
Proof.
  intros HQ. revert c. induction ins as [|i ins IH]; intros c; simpl; [apply HQ|]. intros H pool.
  eapply wp_mono; [|apply H]. intros ? c'. apply IH.
Qed.

Lemma conversed_app ins1 ins2 (Q : K -> Prop) c :
  conversed ins1 (conversed ins2 Q) c -> conversed (ins1 ++ ins2) Q c.
Proof.
  revert c. induction ins1 as [|i ins1 IH]; intros c H; simpl in *; [done|]. intros pool.
  eapply wp_mono; [|apply H]. intros ? c'. apply IH.
Qed.

Lemma set_pool_same (c : K) : set_pool (bufferPool c) c = c.
Proof. by destruct c. Qed.

Lemma conversed_conversation ins (Q : K -> Prop) c : conversed ins Q c ->
  wp (conversation ins) (fun _ c' => Q c') c.
Proof.
  revert c. induction ins as [|i ins IH]; intros c H; simpl in *; [by apply wp_ret|]. apply wp_bind.
  specialize (H (bufferPool c)). rewrite set_pool_same in H. eapply wp_mono; [|exact H].
  intros ? c'. apply IH.
Qed.

Lemma idle_pool pool (c : K) : idle c -> idle (set_pool pool c).
Proof. by intros []; split. Qed.

Lemma getting_pool pool (c : K) T its : getting c T its -> getting (set_pool pool c) T its.
Proof. by intros []; split. Qed.

Lemma awaiting_room d x its :
  Forall (fun it => zlen (header it) < segment_max - 2) its -> LF ∉ d -> d ++ x = response its ->
  zlen d < segment_max.
Proof.
  intros Hh Hd E. destruct its as [|it its].
  - rewrite response_nil in E. apply line_prefix in E; [|done]. simpl in E.
    unfold zlen, segment_max. lia.
  - apply Forall_cons in Hh as [Hh _]. rewrite response_cons in E. apply line_prefix in E; [|done].
    rewrite length_app in E. change (length [CR]) with 1%nat in E. unfold zlen, segment_max in *. lia.
Qed.

(** One segment of the response. *)
Lemma server_segment (c : K) seg T its :
  getting c (seg ++ T) its -> zlen seg <= segment_max -> Forall item_ok its ->
  Forall (fun it => zlen (header it) < segment_max - 2) its -> zlen (response its) <= big ->
  wp (deliver (ServerData (segment seg))) (fun _ c' =>
    (exists its1 its2, its = its1 ++ its2 /\ getting c' T its2 /\
       events c' = events c ++ (item_event <$> its1)) \/
    (T = [] /\ (idle c' /\ State c' = Some ReadCommand) /\ events c' = events c ++ (item_event <$> its))) c.
Proof.
  intros [Hst Hargs Hrun Hcl (d & n & Hh & E & Hn & Hn0 & Hd) Hev] Hseg Hits Hhd Hbig.
  pose proof (awaiting_room d _ its Hhd Hd E). rewrite length_app in Hn.
  apply wp_bind, wp_server. eapply wp_mono; [|apply (holds_Reassembled _ d n seg); [done|]];
    [|unfold BufferSize, segment_max in *; lia].
  intros ? s Hs. apply wp_bind, wp_bind, wp_gets. simpl. rewrite Hrun.
  simpl in Hs. set (c1 := set_ServerReader s c).
  eapply wp_mono; [|eapply (run_get c1 T its _ _ Hst Hargs Hrun Hcl Hev Hits Hbig Hs)].
  { intros ? c' Hpost. by apply wp_ret. }
  - rewrite <- app_assoc, <- drop_app. exact E.
  - lia.
  - intros Hne. destruct (decide (n < length seg)%nat) as [|Hge]; [lia|].
    rewrite drop_ge, app_nil_r in Hne by lia. rewrite Hn0 by done. lia.
Qed.

(** ** Requests *)

Lemma response_has_LF its : LF ∈ response its.
Proof. unfold response. apply elem_of_app. right. apply elem_of_app. right. by apply (bool_decide_unpack (LF ∈ crlf)). Qed.

Lemma word_no_delims w : word_ok w -> Forall (fun b => b ∉ delims) w.
Proof.
  intros Hw. eapply Forall_impl; [exact Hw|]. simpl. intros b (? & ? & ?).
  unfold delims. rewrite !not_elem_of_cons. split_and!; [done..|apply not_elem_of_nil].
Qed.

Lemma word_TrimRight w cut : word_ok w -> (forall b, b ∈ cut -> b = SP \/ b = CR \/ b = LF) ->
  TrimRight w cut = w.
Proof.
  intros Hw Hcut. apply TrimRight_clean. eapply Forall_impl; [exact Hw|].
  simpl. intros b (? & ? & ?) Hb%Hcut. destruct Hb as [?|[?|?]]; congruence.
Qed.

(** [c'] continues [c] without new events. *)
Definition quiet (c c' : K) : Prop := events c' = events c.

(** [readArgs] consumes one word and moves on at the end of the line. *)
Lemma readArgs_word (c : K) w x rest st :
  requesting c ReadArgs (w ++ x :: rest) -> Forall (fun b => b ∉ delims) w -> x ∈ delims ->
  zlen w < int_max -> commandState (cmd (proto c)) = Some st ->
  wp readArgs (fun err c' => err = None /\ quiet c c' /\
    requesting c' (if bool_decide (x = SP) then ReadArgs else st) rest /\
    cmd (proto c') = cmd (proto c) /\
    args (proto c') = args (proto c) ++ [TrimRight w [CR]]) c.
Proof.
  intros [Hst Hrun Hcl Hsv Hev] Hw Hx Hmax Hcmd. apply wp_bind, wp_server.
  eapply wp_mono; [|by eapply holds_Truncate]. intros ? s1 Hs1.
  eapply readWord_holds; [exact Hcl|done..|]. intros s Hs.
  assert (0 < zlen (w ++ [x])) by (rewrite zlen_app, zlen_cons; pose proof (zlen_nonneg w); unfold zlen; simpl; lia).
  assert (zlen (w ++ [x]) -! 1 = zlen w) as Hlen.
  { rewrite zlen_app. change (zlen [x]) with 1. rewrite wrap64_id; [lia|].
    pose proof (zlen_nonneg w). unfold in_int, int_min. lia. }
  apply wp_bind. rewrite Hlen. eapply wp_lift; [apply slice_to_ok; rewrite zlen_app; change (zlen [x]) with 1; pose proof (zlen_nonneg w); lia|].
  apply wp_bind. eapply wp_lift.
  { unfold index. rewrite bool_decide_true by apply zlen_nonneg. unfold zlen. rewrite Nat2Z.id.
    by rewrite list_lookup_middle. }
  unfold zlen. rewrite Nat2Z.id, take_app_length.
  apply wp_bind, wp_gets, wp_bind, wp_modify. fold SP. case_bool_decide.
  - by apply wp_ret.
  - apply wp_bind, wp_gets, wp_bind, wp_modify, wp_ret. simpl.
    by rewrite Hcmd.
Qed.

Lemma callState_eq (c : K) st (m : GoM K (option error)) :
  State c = Some st ->
  (match st with
   | PeekMagicByte => peekMagicByte | ReadCommand => readCommand | ReadArgs => readArgs
   | HandleGet => handleGet | HandleSet => handleSet | HandleQuit => handleQuit
   | HandleUnknown => handleUnknown | DiscardResponse => discardResponse
   | ReturnEOF => mret (Some EOF)
   end) = m -> callState c = m c.
Proof. intros Hst <-. unfold callState, mbind, gom_bind, gets. rewrite Hst. by destruct st. Qed.

(** With no server data yet, a get starts waiting. *)
Lemma runLoop_get_starts fuel (c : K) its :
  requesting c HandleGet [] -> 1 <= zlen (args (proto c)) ->
  wp (runLoop (S fuel)) (fun _ c' => getting c' (response its) its /\ quiet c c') c.
Proof.
  intros [Hst Hrun Hcl Hsv Hev] Hargs.
  eapply runLoop_step; [exact Hst|by eapply callState_eq|]. apply wp_bind, wp_gets.
  destruct (Z.ltb_spec (zlen (args (proto c))) 1); [lia|].
  apply wp_bind, wp_gets, wp_bind_err, wp_server.
  eapply wp_mono; [|apply holds_ReadLine_short; [exact Hsv|apply not_elem_of_nil]].
  intros r s [Hs ->]. split; [|done]. split; simpl; try done.
  exists [], 0%nat. split_and!; [done..|lia|done|apply not_elem_of_nil].
Qed.

(** [peekMagicByte] on a text request. *)
Lemma peekMagicByte_text (c : K) b rest :
  requesting c PeekMagicByte (b :: rest) -> b <> Byte.x80 ->
  wp peekMagicByte (fun err c' => err = None /\ quiet c c' /\ requesting c' ReadCommand (b :: rest)) c.
Proof.
  intros [Hst Hrun Hcl Hsv Hev] Hb. apply wp_bind, wp_server.
  eapply wp_mono; [|by eapply holds_Truncate]. intros ? s1 Hs1.
  apply wp_bind, wp_client. eapply wp_mono; [|by eapply holds_PeekN1].
  intros r s [Hs ->]. cbn [fst snd]. apply wp_bind. eapply wp_lift; [done|].
  rewrite bool_decide_false by done. by apply wp_bind, wp_modify, wp_ret.
Qed.

(** ** Binary conversations and desynchronisation *)

(** A consumer that Close has stopped. *)
Definition ignored (c : K) : Prop :=
  Run c = RunNothing /\ ClientReader c = eofSource /\ ServerReader c = eofSource.

Lemma deliver_ignored i (c : K) : ignored c ->
  wp (deliver i) (fun _ c' => ignored c' /\ events c' = events c) c.
Proof.
  intros Hig. destruct i as [rs|rs| |]; simpl.
  - revert c Hig. induction rs as [|r rs IH]; intros c Hig; simpl; [by apply wp_ret|].
    destruct c as [cr sr rn st eb pr hd bp]. destruct Hig as (Hr & Hc & Hs). simpl in *. subst.
    apply wp_bind, wp_client. eexists tt, _. split; [done|]. apply wp_bind, wp_bind, wp_gets. simpl.
    apply wp_ret. by apply IH.
  - revert c Hig. induction rs as [|r rs IH]; intros c Hig; simpl; [by apply wp_ret|].
    destruct c as [cr sr rn st eb pr hd bp]. destruct Hig as (Hr & Hc & Hs). simpl in *. subst.
    apply wp_bind, wp_server. eexists tt, _. split; [done|]. apply wp_bind, wp_bind, wp_gets. simpl.
    apply wp_ret. by apply IH.
  - destruct c as [cr sr rn st eb pr hd bp]. destruct Hig as (Hr & Hc & Hs). simpl in *. subst.
    apply wp_bind, wp_client. eexists tt, _. split; [done|]. apply wp_bind.
    eapply wp_mono; [|apply FlushEvents_spec].
    intros ? c1 ((Ec & Es & Er & _ & _ & _) & Hev & _). simpl in *. apply wp_bind, wp_gets. rewrite Ec. simpl.
    apply wp_ret. by split_and!.
  - destruct c as [cr sr rn st eb pr hd bp]. destruct Hig as (Hr & Hc & Hs). simpl in *. subst.
    apply wp_bind, wp_server. eexists tt, _. split; [done|]. apply wp_bind.
    eapply wp_mono; [|apply FlushEvents_spec].
    intros ? c1 ((Ec & Es & Er & _ & _ & _) & Hev & _). simpl in *. apply wp_bind, wp_gets. rewrite Es. simpl.
    apply wp_ret. by split_and!.
Qed.

Lemma conversation_ignored ins (c : K) : ignored c ->
  wp (conversation ins) (fun _ c' => events c' = events c) c.
Proof.
  revert c. induction ins as [|i ins IH]; intros c Hig; simpl; [by apply wp_ret|].
  apply wp_bind. eapply wp_mono; [|by apply deliver_ignored]. intros ? c1 [Hig1 Hev1].
  eapply wp_mono; [|by apply IH]. intros ? c2 Hev2. congruence.
Qed.

(** Close stops the consumer. *)
Lemma Close_ignored (c : K) : wp Model.Close (fun _ c' => ignored c' /\ events c' = events c) c.
Proof.
  destruct c as [cr sr rn st eb pr hd bp].
  unfold wp, Model.Close, releaseClient, releaseServer, mbind, gom_bind, gets, client, server, zoom, modify.
  destruct cr as [cr|[]], sr as [sr|[]]; simpl; unfold dispatch, mbind, outcome_bind; simpl;
    (eexists tt, _; split; [reflexivity|]; by split_and!).
Qed.

(** Reading from an open reader that holds the whole of a first segment. *)
Lemma first_segment (c : K) data Q :
  holds (ClientReader c) [] 0 -> zlen data <= BufferSize -> Run c = RunProtocol ->
  (forall s, holds s data 0 -> wp run Q (set_ClientReader s c)) ->
  wp (deliver (ClientData (segment data))) Q c.
Proof.
  intros Hcl Hfit Hrun Hk. apply wp_bind, wp_client.
  eapply wp_mono; [|apply (holds_Reassembled _ [] 0 data Hcl); change (zlen []) with 0; lia].
  intros ? s Hs. simpl in Hs. rewrite drop_0 in Hs. apply wp_bind, wp_bind, wp_gets. simpl. rewrite Hrun.
  eapply wp_mono; [|by apply Hk]. intros [] c' HQ. by apply wp_ret.
Qed.

(** A conversation that starts with the magic byte of the binary protocol
    is ignored: both readers go back to the pool, and no event is ever
    reported, whatever follows. *)
Theorem binary_ignored data ins c1 c2 pool :
  Forall source_fresh pool -> zlen (Byte.x80 :: data) <= BufferSize ->
  exists c c', NewConsumer c1 c2 pool = Ret c /\
    conversation (ClientData (segment (Byte.x80 :: data)) :: ins) c = Ret (tt, c') /\ events c' = [].
Proof.
  intros Hpool Hfit. destruct (NewConsumer_inv c1 c2 pool Hpool) as (c & E & Hinv & Hcl & Hsv & Hst & Hrun & Hev).
  assert (wp (conversation (ClientData (segment (Byte.x80 :: data)) :: ins)) (fun _ c' => events c' = []) c)
    as ([] & c' & E' & Hev'); [|by exists c, c'].
  cbn [conversation]. apply wp_bind. apply first_segment; [rewrite Hcl; apply holds_new|done|done|].
  intros s Hs. unfold wp, run. rewrite Nat.add_comm. cbn [Nat.add].
  apply (runLoop_step _ (set_ClientReader s c) PeekMagicByte peekMagicByte); [done|by eapply callState_eq|].
  apply wp_bind, wp_server. eapply wp_mono; [|eapply holds_Truncate; simpl; rewrite Hsv; apply holds_new].
  intros ? s1 Hs1. apply wp_bind, wp_client. eapply wp_mono; [|by eapply holds_PeekN1].
  intros r s2 [Hs2 ->]. cbn [fst snd]. apply wp_bind. eapply wp_lift; [done|].
  rewrite bool_decide_true by done. apply wp_bind. eapply wp_mono; [|apply Close_ignored].
  intros ? c3 [Hig Hev3]. apply wp_ret.
  eapply wp_mono; [|by apply conversation_ignored]. intros ? c4 ->. rewrite Hev3. exact Hev.
Qed.

(** ** Resynchronisation *)

(** Both readers are open, whatever they hold or owe, and the events are [evs]. *)
Definition reading (evs : list Event) (c : K) : Prop :=
  events c = evs /\ (exists d n, holds (ClientReader c) d n) /\ exists d n, holds (ServerReader c) d n.

(** Waiting for a command with nothing buffered on either side. *)
Definition resynced (evs : list Event) (c : K) : Prop :=
  State c = Some ReadCommand /\ holds (ClientReader c) [] 0 /\ holds (ServerReader c) [] 0 /\ events c = evs.

(** What the client or the server has sent is not the protocol: a first word that
    is not a command name (not only letters), or a VALUE line without a number as
    its size. *)
Inductive desynced (c : K) : Prop :=
  | desynced_command w x rest ds n :
      State c = Some ReadCommand ->
      holds (ClientReader c) (w ++ x :: rest) 0 -> holds (ServerReader c) ds n ->
      Forall (fun b => b ∉ delims) w -> x ∈ delims -> zlen w < int_max ->
      asciiRe (TrimRight (w ++ [x]) [" "; "013"; "010"]%byte) = false -> desynced c
  | desynced_value dc nc line rest n key flags size more :
      State c = Some HandleGet -> 1 <= zlen (args (proto c)) ->
      holds (ClientReader c) dc nc -> holds (ServerReader c) (line ++ LF :: rest) n -> LF ∉ line ->
      Split (trimCR line) SP = bs "VALUE" :: key :: flags :: size :: more ->
      (Atoi size).2 <> None -> desynced c.

Lemma Atoi_err s : (Atoi s).2 = None \/ (Atoi s).2 = Some ErrNum.
Proof. unfold Atoi. repeat (case_match; simpl; auto). Qed.

Lemma run_resyncs (c : K) st h : State c = Some st -> callState c = h c ->
  wp h (fun err c' => (err = Some errProtocolDesync \/ err = Some ErrNum) /\ reading (events c) c') c ->
  wp run (fun _ => resynced (events c)) c.
Proof.
  intros Hst Hc Hh. unfold wp, run. rewrite Nat.add_comm. cbn [Nat.add runLoop]. apply wp_bind.
  unfold wp at 1. rewrite Hc.
  change (wp h (fun err c' => wp (match err with
    | None => runLoop (S (pending c))
    | Some ErrShortRead | Some EOF => mret tt
    | Some _ => client src_Reset;; server src_Reset;; setState ReadCommand
    end) (fun _ => resynced (events c)) c') c).
  eapply wp_mono; [|exact Hh]. intros err c1 (Herr & Hev & (dc & nc & Hcl) & ds & n & Hsv).
  assert (wp (client src_Reset;; server src_Reset;; setState ReadCommand) (fun _ => resynced (events c)) c1) as Hreset.
  { apply wp_bind, wp_client. eapply wp_mono; [|apply (holds_Reset _ _ _ Hcl)]. intros ? s2 Hs2.
    apply wp_bind, wp_server. eapply wp_mono; [|apply (holds_Reset _ _ _ Hsv)]. intros ? s3 Hs3.
    apply wp_modify. by split_and!. }
  by destruct Herr as [-> | ->].
Qed.

Lemma readCommand_desync (c : K) w x rest ds n :
  holds (ClientReader c) (w ++ x :: rest) 0 -> holds (ServerReader c) ds n ->
  Forall (fun b => b ∉ delims) w -> x ∈ delims -> zlen w < int_max ->
  asciiRe (TrimRight (w ++ [x]) [" "; "013"; "010"]%byte) = false ->
  wp readCommand (fun err c' => err = Some errProtocolDesync /\ reading (events c) c') c.
Proof.
  intros Hcl Hsv Hw Hx Hmax Hre. apply wp_bind, wp_modify, wp_bind, wp_server.
  eapply wp_mono; [|by eapply holds_Truncate]. intros ? s1 Hs1.
  eapply readWord_holds; [exact Hcl|done..|]. intros s Hs.
  apply wp_bind, wp_modify. rewrite Hre. cbn [negb]. apply wp_ret. split; [done|].
  split; [done|]. split; [by exists rest, 0%nat|by exists [], 0%nat].
Qed.

Lemma handleGet_desync (c : K) dc nc line rest n key flags size more :
  1 <= zlen (args (proto c)) ->
  holds (ClientReader c) dc nc -> holds (ServerReader c) (line ++ LF :: rest) n -> LF ∉ line ->
  Split (trimCR line) SP = bs "VALUE" :: key :: flags :: size :: more -> (Atoi size).2 <> None ->
  wp handleGet (fun err c' => err = Some ErrNum /\ reading (events c) c') c.
Proof.
  intros Hargs Hcl Hsv Hline Hsplit Hsize. unfold handleGet. apply wp_bind, wp_gets.
  destruct (Z.ltb_spec (zlen (args (proto c))) 1); [lia|]. apply wp_bind, wp_gets. cbn [handleGetLoop].
  apply wp_bind_err, wp_server. eapply wp_mono; [|by apply holds_ReadLine_line].
  intros r s [Hs ->]. cbn [fst snd]. unfold SP in Hsplit. rewrite Hsplit, bool_decide_true by done.
  destruct (Atoi_err size) as [|Herr]; [done|]. destruct (Atoi size) as [z [e|]]; [|done].
  simpl in Herr. injection Herr as ->. apply wp_ret. split; [done|]. split; [done|]. split; [by exists dc, nc|by exists rest, n].
Qed.

(** C28: resynchronisation.  While a command is waited for (and nothing of the client
    is still to be skipped), a first word that is not a command name (not only
    letters), and while the answer to a get is waited for, a first line that is a
    VALUE line without a number as its size, makes the consumer drop everything
    buffered on both sides, whatever that is, and wait for the next command, without
    an event. *)
Theorem desync_resyncs (c : K) : desynced c -> exists c', run c = Ret (tt, c') /\ resynced (events c) c'.
Proof.
  intros Hd. assert (wp run (fun _ => resynced (events c)) c) as ([] & c' & E & H); [|by exists c'].
  destruct Hd as [w x rest ds n Hst Hcl Hsv Hw Hx Hmax Hre|dc nc line rest n key flags size more Hst Hargs Hcl Hsv Hl Hsp Hsz].
  - apply (run_resyncs c ReadCommand readCommand); [done|by eapply callState_eq|].
    eapply wp_mono; [|by eapply readCommand_desync]. intros ? ? [? ?]. by split; [left|].
  - apply (run_resyncs c HandleGet handleGet); [done|by eapply callState_eq|].
    eapply wp_mono; [|by eapply handleGet_desync]. intros ? ? [? ?]. by split; [right|].
Qed.
