(* ===== verification/Deliveries.v ===== *)
(** * What the assembler may add: empty and joined deliveries

    The data of a stream does not arrive as one call per segment.  The assembler
    delivers an empty reassembly for a SYN, a FIN and a retransmission, and joins
    what is contiguous into one call.  [delivered] relates the segments of a
    conversation to the calls that carry them; a consumer that is [steady] between
    its segments does not see the difference, and neither does one whose client or
    server has already finished. *)
From Stdlib Require Import Strings.Byte.
From S2P Require Import Prelude GoLib Buffer Stream Reader Model McText Progress Transaction.
Local Open Scope Z_scope.

Local Abbreviation K := (Consumer Source StateFn Proto).

(** ** The calls *)

(** The calls of a direction: the client's, or the server's. *)
Definition dataOf (fromServer : bool) (rs : list Reassembly) : input :=
  if fromServer then ServerData rs else ClientData rs.
Definition doneOf (fromServer : bool) : input := if fromServer then ServerDone else ClientDone.

(** Reassemblies without data. *)
Definition noData (rs : list Reassembly) : Prop := Forall (eq (mkReassembly [] 0)) rs.

(** Calls without data, of either direction, between the others. *)
Inductive noisy : list input -> list input -> Prop :=
  | noisy_nil : noisy [] []
  | noisy_keep i ins ins' : noisy ins ins' -> noisy (i :: ins) (i :: ins')
  | noisy_empty fromServer rs ins ins' : noData rs -> noisy ins ins' ->
      noisy ins (dataOf fromServer rs :: ins').

(** Calls of one direction joined. *)
Inductive joined : list input -> list input -> Prop :=
  | joined_nil : joined [] []
  | joined_keep i ins ins' : joined ins ins' -> joined (i :: ins) (i :: ins')
  | joined_two fromServer rs1 rs2 ins ins' :
      joined ins (dataOf fromServer rs1 :: dataOf fromServer rs2 :: ins') ->
      joined ins (dataOf fromServer (rs1 ++ rs2) :: ins').

Definition delivered (ins ins' : list input) : Prop :=
  exists mid, noisy ins mid /\ joined mid ins'.

Lemma noisy_refl ins : noisy ins ins.
Proof. induction ins; by constructor. Qed.

Lemma joined_refl ins : joined ins ins.
Proof. induction ins; by constructor. Qed.

Lemma delivered_refl ins : delivered ins ins.
Proof. exists ins. split; [apply noisy_refl|apply joined_refl]. Qed.

Lemma noisy_app ins1 ins2 ins' : noisy (ins1 ++ ins2) ins' ->
  exists a b, ins' = a ++ b /\ noisy ins1 a /\ noisy ins2 b.
Proof.
  intros H. remember (ins1 ++ ins2) as ins eqn:E. revert ins1 E.
  induction H as [|i ins ins' H IH|srv rs ins ins' Hrs H IH]; intros ins1 E.
  - symmetry in E. apply app_nil in E as [-> ->]. exists [], []. by repeat constructor.
  - destruct ins1 as [|j ins1]; simplify_eq/=.
    + exists [], (i :: ins'). by repeat constructor.
    + destruct (IH ins1 eq_refl) as (a & b & -> & ? & ?). exists (j :: a), b. by repeat constructor.
  - destruct (IH ins1 E) as (a & b & -> & ? & ?). exists (dataOf srv rs :: a), b. by repeat constructor.
Qed.

Lemma noisy_app_2 ins1 ins2 a b : noisy ins1 a -> noisy ins2 b -> noisy (ins1 ++ ins2) (a ++ b).
Proof. intros Ha Hb. induction Ha; [done|..]; by constructor. Qed.

(** Nothing out of bounds is added. *)
Lemma noData_ok rs : noData rs -> Forall reassembly_ok rs.
Proof. intros H. eapply Forall_impl; [exact H|]. intros r <-. unfold reassembly_ok, delivery, big, zlen. simpl. lia. Qed.

Lemma dataOf_ok srv rs : input_ok (dataOf srv rs) = Forall reassembly_ok rs.
Proof. by destruct srv. Qed.

Lemma delivered_ok ins ins' : delivered ins ins' -> Forall input_ok ins -> Forall input_ok ins'.
Proof.
  intros (mid & Hn & Hj) Hok.
  assert (Forall input_ok mid) as Hmid.
  { clear Hj. induction Hn as [|i ins mid _ IH|srv rs ins mid Hrs _ IH]; [done|..].
    - apply Forall_cons in Hok as [? ?]. constructor; [done|by apply IH].
    - constructor; [|by apply IH]. rewrite dataOf_ok. by apply noData_ok. }
  clear Hn Hok. induction Hj as [|i mid ins' _ IH|srv rs1 rs2 mid ins' _ IH]; [done|..].
  - apply Forall_cons in Hmid as [? ?]. constructor; [done|by apply IH].
  - specialize (IH Hmid). rewrite !Forall_cons, !dataOf_ok in IH.
    rewrite Forall_cons, dataOf_ok, Forall_app. tauto.
Qed.

(** ** Joined calls *)

(** A call with several reassemblies is several calls. *)
Lemma deliver_app srv rs1 rs2 (Q : unit -> K -> Prop) c :
  wp (deliver (dataOf srv rs1)) (fun _ => wp (deliver (dataOf srv rs2)) Q) c ->
  wp (deliver (dataOf srv (rs1 ++ rs2))) Q c.
Proof.
  revert c. induction rs1 as [|r rs1 IH]; intros c H.
  - by destruct srv, H as ([] & c' & [= <-] & H).
  - destruct srv; apply wp_bind; (eapply wp_mono; [|exact (wp_bind_inv _ _ _ _ H)]); intros ? c1 H1;
      apply wp_bind; (eapply wp_mono; [|exact (wp_bind_inv _ _ _ _ H1)]); intros ? c2; apply IH.
Qed.

Lemma conversed_joined ins ins' Q (c : K) : joined ins ins' -> conversed ins Q c -> conversed ins' Q c.
Proof.
  intros H. revert c. induction H as [|i ins ins' _ IH|srv rs1 rs2 ins ins' _ IH]; intros c H; [done|..].
  - intros pool. eapply wp_mono; [|apply H]. intros ? c'. apply IH.
  - intros pool. apply deliver_app. eapply wp_mono; [|apply (IH c H pool)].
    intros ? c1 H1. specialize (H1 (bufferPool c1)). rewrite set_pool_same in H1. by eapply wp_mono; [|exact H1].
Qed.

(** ** Consumers that ignore empty calls *)

(** [P] is kept, and nothing is reported, when a call brings no data. *)
Definition steady (P : K -> Prop) : Prop :=
  forall c pool srv rs, P c -> noData rs ->
    wp (deliver (dataOf srv rs)) (fun _ c' => P c' /\ quiet c c') (set_pool pool c).

(** [Q] holds after [ins], whatever empty calls come between. *)
Definition settles (ins : list input) (Q : K -> Prop) (c : K) : Prop :=
  forall ins', noisy ins ins' -> conversed ins' Q c.

Lemma settles_mono ins (Q Q' : K -> Prop) c : (forall c', Q c' -> Q' c') -> settles ins Q c -> settles ins Q' c.
Proof. intros HQ H ins' Hn. eapply conversed_mono; [exact HQ|by apply H]. Qed.

Lemma settles_app ins1 ins2 Q c : settles ins1 (settles ins2 Q) c -> settles (ins1 ++ ins2) Q c.
Proof.
  intros H ins' (a & b & -> & Ha & Hb)%noisy_app. apply conversed_app.
  eapply conversed_mono; [|by apply H]. intros c' H'. by apply H'.
Qed.

Lemma settles_delivered ins ins' Q c : settles ins Q c -> delivered ins ins' -> conversed ins' Q c.
Proof. intros H (mid & Hn & Hj). eapply conversed_joined; [exact Hj|by apply H]. Qed.

Lemma quiet_trans (c c1 c2 : K) : quiet c c1 -> quiet c1 c2 -> quiet c c2.
Proof. unfold quiet. congruence. Qed.

Lemma settles_nil (P Q : K -> Prop) c : steady P -> P c -> (forall c', P c' -> quiet c c' -> Q c') ->
  settles [] Q c.
Proof.
  intros Hs Hc HQ ins' Hn. cut (forall c1, P c1 -> quiet c c1 -> conversed ins' Q c1); [intros H; by apply H|].
  clear Hc. remember [] as ins eqn:E. induction Hn as [| |srv rs ins ins' Hrs _ IH]; intros c1 Hc1 Hq; [by apply HQ|done|].
  intros pool. eapply wp_mono; [|by apply Hs]. intros _ c2 [? ?]. apply IH; [done..|]. by eapply quiet_trans.
Qed.

Lemma settles_cons i ins (P Q : K -> Prop) c : steady P -> P c ->
  (forall c' pool, P c' -> quiet c c' -> wp (deliver i) (fun _ => settles ins Q) (set_pool pool c')) ->
  settles (i :: ins) Q c.
Proof.
  intros Hs Hc HQ ins' Hn. cut (forall c1, P c1 -> quiet c c1 -> conversed ins' Q c1); [intros H; by apply H|].
  clear Hc. remember (i :: ins) as l eqn:E. induction Hn as [|j l l' Hn _|srv rs l l' Hrs _ IH]; intros c1 Hc1 Hq; [done|..].
  - simplify_eq. intros pool. eapply wp_mono; [|by apply HQ]. intros ? c2 H. by apply H.
  - intros pool. eapply wp_mono; [|by apply Hs]. intros _ c2 [? ?]. apply IH; [done..|]. by eapply quiet_trans.
Qed.

(** [P] holds when the consumer [c] runs again, its readers holding what they hold. *)
Definition resting (P : K -> Prop) (c : K) : Prop :=
  Run c = RunProtocol /\ exists dc nc ds ns, holds (ClientReader c) dc nc /\ holds (ServerReader c) ds ns /\
    forall s1 s2, holds s1 dc nc -> holds s2 ds ns ->
      wp run (fun _ c' => P c' /\ quiet c c') (set_ServerReader s2 (set_ClientReader s1 c)).

Definition rests (P : K -> Prop) : Prop := forall c, P c -> resting P c.

Lemma resting_mono (P P' : K -> Prop) c : (forall c', P c' -> P' c') -> resting P c -> resting P' c.
Proof.
  intros HP (Hrun & dc & nc & ds & ns & Hcl & Hsv & Hk). split; [done|]. exists dc, nc, ds, ns.
  split_and!; [done..|]. intros s1 s2 Hs1 Hs2. eapply wp_mono; [|by apply Hk]. intros ? c' [? ?]. auto.
Qed.

Lemma holds_fits s d n : holds s d n -> zlen d <= BufferSize.
Proof.
  intros Hs. pose proof (holds_buffered _ _ _ Hs) as Hb. destruct Hs as (r & -> & _ & _ & _ & [Hsafe _ _ _] & Hcap & _).
  cbn in Hb. destruct Hsafe. unfold zlen in *. rewrite Hcap in *. lia.
Qed.

Lemma holds_empty s d n (Q : unit -> Source -> Prop) : holds s d n ->
  (forall s', holds s' d n -> Q tt s') -> wp (src_Reassembled (segment [])) Q s.
Proof.
  intros Hs HQ. pose proof (holds_fits _ _ _ Hs).
  eapply wp_mono; [|apply (holds_Reassembled s d n []); [done|change (zlen []) with 0; lia]].
  intros [] s' Hs'. simpl in Hs'. rewrite drop_nil, app_nil_r, Nat.sub_0_r in Hs'. by apply HQ.
Qed.

Lemma set_ServerReader_same (c : K) : set_ServerReader (ServerReader c) c = c.
Proof. by destruct c. Qed.

Lemma set_ClientReader_same (c : K) : set_ClientReader (ClientReader c) c = c.
Proof. by destruct c. Qed.

(** One empty reassembly, then the rest of the call. *)
Lemma rests_step (P : K -> Prop) srv rs c (Q : unit -> K -> Prop) : rests P -> P c ->
  (forall c', P c' -> quiet c c' -> wp (deliver (dataOf srv rs)) Q c') ->
  wp (deliver (dataOf srv (mkReassembly [] 0 :: rs))) Q c.
Proof.
  intros HP Hc HQ. destruct (HP c Hc) as (Hrun & dc & nc & ds & ns & Hcl & Hsv & Hk).
  destruct srv; apply wp_bind; [apply wp_server|apply wp_client];
    (eapply holds_empty; [done..|]); intros s Hs; apply wp_bind, wp_bind, wp_gets;
    cbn [Run set_ServerReader set_ClientReader]; rewrite Hrun;
    [specialize (Hk _ s Hcl Hs); rewrite set_ClientReader_same in Hk|specialize (Hk s (ServerReader c) Hs Hsv)];
    (eapply wp_mono; [|exact Hk]); intros [] c' [Hc' Hq]; by apply HQ.
Qed.

Lemma rests_steady (P : K -> Prop) : (forall c pool, P c -> P (set_pool pool c)) -> rests P -> steady P.
Proof.
  intros Hpool HP c pool srv rs Hc Hrs. apply (Hpool c pool) in Hc.
  change (quiet c) with (quiet (set_pool pool c)). revert Hc. generalize (set_pool pool c). clear c pool.
  induction Hrs as [|r rs <- _ IH]; intros c Hc; [by destruct srv; apply wp_ret|].
  apply rests_step with P; [done..|]. intros c1 Hc1 Hq1. eapply wp_mono; [|by apply IH].
  intros _ c2 [? ?]. split; [done|]. by eapply quiet_trans.
Qed.

(** Between commands nothing happens. *)
Lemma holds_PeekN1_short s n : holds s [] n ->
  wp (src_PeekN 1) (fun r s' => holds s' [] n /\ r = ([], Some ErrShortRead)) s.
Proof.
  intros Hs. eapply wp_holds_guarded; [done|]. intros b (Hwf & Hcap & Habs).
  destruct (PeekN_refines_aux 1 b Hwf ltac:(lia)) as (res & st & E & Hspec).
  eexists _, _. split; [exact E|]. rewrite Habs in Hspec.
  destruct Hspec as [Hlt|Hle|g Hle Hlt Hgap]; simpl in *;
    rewrite ?contig_some in *; [|by unfold zlen in *; simpl in *; lia|by apply (gapAt_some [] g) in Hgap].
  split; [|done]. by split_and!.
Qed.

Lemma run_step (c : K) st (m : GoM K (option error)) e (Q : unit -> K -> Prop) : State c = Some st ->
  (callState : GoM K _) c = m c -> e = ErrShortRead \/ e = EOF ->
  wp m (fun err c' => err = Some e /\ Q tt c') c -> wp run Q c.
Proof.
  intros Hst Hcs He Hm. unfold wp, run. rewrite Nat.add_comm. cbn [Nat.add].
  eapply runLoop_step; [exact Hst|exact Hcs|]. eapply wp_mono; [|exact Hm].
  intros err c' [-> HQ]. by destruct He as [-> | ->].
Qed.

Lemma idle_rests st : rests (fun c => idle c /\ State c = Some st).
Proof.
  intros c [[Hor Hrun Hcl Hsv Hev] Hst]. split; [done|]. exists [], 0%nat, [], 0%nat. split_and!; [done..|].
  intros s1 s2 Hs1 Hs2. destruct Hor as [Hst'|Hst']; rewrite Hst' in Hst; simplify_eq.
  - apply (run_step _ PeekMagicByte peekMagicByte ErrShortRead); [done|by eapply callState_eq|by left|].
    apply wp_bind, wp_server. eapply wp_mono; [|by eapply holds_Truncate]. intros ? s Hs.
    apply wp_bind, wp_client. eapply wp_mono; [|by eapply holds_PeekN1_short]. intros r s' [Hs' ->].
    apply wp_ret. split; [done|]. split; [|done]. split; [|done]. split; simpl; auto.
  - apply (run_step _ ReadCommand readCommand ErrShortRead); [done|by eapply callState_eq|by left|].
    eapply wp_mono; [|by eapply (readCommand_waits _ [] 0)]. intros err c' (-> & [? ?] & Hev'). by split_and!.
Qed.

Lemma idle_steady st : steady (fun c => idle c /\ State c = Some st).
Proof.
  apply rests_steady; [|apply idle_rests]. intros c pool [? ?]. split; [by apply idle_pool|done].
Qed.

Lemma idle_steady_any : steady idle.
Proof.
  intros c pool srv rs Hc Hrs. assert (exists st, State c = Some st) as [st Hst] by (destruct (idle_state c Hc); eauto).
  eapply wp_mono; [|by apply (idle_steady st c)]. by intros ? c' [[? _] ?].
Qed.

(** ** The end of the streams *)

Definition readerOf (fromServer : bool) (c : K) : Source :=
  if fromServer then ServerReader c else ClientReader c.

(** One direction has finished, between commands; the other may still be called. *)
Record halfDone (fromServer : bool) (c : K) : Prop := {
  half_state : State c = Some PeekMagicByte \/ State c = Some ReadCommand;
  half_run : Run c = RunProtocol;
  half_done : readerOf fromServer c = eofSource;
  half_other : holds (readerOf (negb fromServer) c) [] 0
}.

(** A released reader is replaced by [eofSource]. *)
Lemma releaseClient_spec (c : K) s : ClientReader c = s -> source_inv s ->
  wp releaseClient (fun _ c' => events c' = events c /\ eventBuf c' = eventBuf c /\ ClientReader c' = eofSource /\
    ServerReader c' = ServerReader c /\ State c' = State c /\ Run c' = Run c) c.
Proof.
  intros <- Hc. unfold releaseClient. apply wp_bind, wp_gets. destruct (isEofSource _) eqn:E.
  { apply wp_ret. split_and!; try done. by destruct (ClientReader c) as [|[]]. }
  apply wp_bind, wp_client. eapply wp_law; [by apply src_Reset_law|]. intros _ s _.
  apply wp_bind, wp_gets, wp_bind, wp_modify, wp_modify. by split_and!.
Qed.

Lemma releaseServer_spec (c : K) s : ServerReader c = s -> source_inv s ->
  wp releaseServer (fun _ c' => events c' = events c /\ eventBuf c' = eventBuf c /\ ServerReader c' = eofSource /\
    ClientReader c' = ClientReader c /\ State c' = State c /\ Run c' = Run c) c.
Proof.
  intros <- Hc. unfold releaseServer. apply wp_bind, wp_gets. destruct (isEofSource _) eqn:E.
  { apply wp_ret. split_and!; try done. by destruct (ServerReader c) as [|[]]. }
  apply wp_bind, wp_server. eapply wp_law; [by apply src_Reset_law|]. intros _ s _.
  apply wp_bind, wp_gets, wp_bind, wp_modify, wp_modify. by split_and!.
Qed.

(** Completion hands the events over and gives the reader back. *)
Lemma done_spec srv (c : K) : source_inv (readerOf srv c) ->
  wp (deliver (doneOf srv)) (fun _ c' => events c' = events c /\ eventBuf c' = [] /\ readerOf srv c' = eofSource /\
    readerOf (negb srv) c' = readerOf (negb srv) c /\ State c' = State c /\ Run c' = Run c) c.
Proof.
  intros Hc. destruct srv; cbn in *; apply wp_bind; [apply wp_server|apply wp_client];
    (eapply wp_law; [by apply src_ReassemblyComplete_law|]); intros _ s (Hs & _); apply wp_bind;
    (eapply wp_mono; [|apply FlushEvents_spec]); intros _ c1 ((Ec & Es & Er & Est & _) & Hev & Hb).
  - eapply wp_mono; [|apply (releaseServer_spec c1 s); [by rewrite Es|done]].
    intros _ c2 (-> & -> & -> & -> & -> & ->). by rewrite Hev, Hb, Ec, Er, Est.
  - eapply wp_mono; [|apply (releaseClient_spec c1 s); [by rewrite Ec|done]].
    intros _ c2 (-> & -> & -> & -> & -> & ->). by rewrite Hev, Hb, Es, Er, Est.
Qed.

Lemma idle_done srv (c : K) : idle c ->
  wp (deliver (doneOf srv)) (fun _ c' => halfDone srv c' /\ quiet c c') c.
Proof.
  intros [Hst Hrun Hcl Hsv Hev].
  eapply wp_mono; [|apply done_spec; destruct srv; [by eapply holds_inv|by eapply holds_inv]].
  intros _ c' (He & _ & Hr & Ho & Es & Er). split; [|done].
  split; [by rewrite Es|by rewrite Er|done|by rewrite Ho; destruct srv].
Qed.

(** A consumer with one reader left runs in vain. *)
Lemma halfDone_run srv (c : K) : halfDone srv c ->
  wp run (fun _ c' => halfDone srv c' /\ quiet c c') c.
Proof.
  intros [Hst Hrun Hd Ho]. destruct c as [cr sr rn st eb pr hd bp], srv; cbn in *; subst; destruct Hst as [-> | ->].
  - apply (run_step _ PeekMagicByte peekMagicByte ErrShortRead); [done|by eapply callState_eq|by left|].
    apply wp_bind, wp_server. eexists _, _. split; [done|]. apply wp_bind, wp_client.
    eapply wp_mono; [|by eapply holds_PeekN1_short]. intros r s' [Hs' ->].
    apply wp_ret. split; [done|]. split; [|done]. split; simpl; auto.
  - apply (run_step _ ReadCommand readCommand ErrShortRead); [done|by eapply callState_eq|by left|].
    apply wp_bind, wp_modify, wp_bind, wp_server. eexists _, _. split; [done|]. apply wp_bind_err, wp_client.
    eapply wp_mono; [|by apply holds_IndexAny]. intros r s' [Hs' ->].
    split; [done|]. split; [|done]. split; simpl; auto.
  - apply (run_step _ PeekMagicByte peekMagicByte EOF); [done|by eapply callState_eq|by right|].
    apply wp_bind, wp_server. eapply wp_mono; [|by eapply holds_Truncate]. intros ? s Hs.
    apply wp_bind, wp_client. eexists _, _. split; [done|].
    apply wp_ret. split; [done|]. split; [|done]. split; simpl; auto.
  - apply (run_step _ ReadCommand readCommand EOF); [done|by eapply callState_eq|by right|].
    apply wp_bind, wp_modify, wp_bind, wp_server. eapply wp_mono; [|by eapply holds_Truncate]. intros ? s Hs.
    apply wp_bind_err, wp_client. eexists _, _. split; [done|].
    split; [done|]. split; [|done]. split; simpl; auto.
Qed.

Lemma halfDone_empty srv rs (c : K) pool : halfDone srv c -> noData rs ->
  wp (deliver (dataOf (negb srv) rs)) (fun _ c' => halfDone srv c' /\ quiet c c') (set_pool pool c).
Proof.
  intros Hc Hrs. assert (halfDone srv (set_pool pool c)) as Hc1 by (by destruct srv, Hc; split).
  change (quiet c) with (quiet (set_pool pool c)). revert Hc1. generalize (set_pool pool c). clear c pool Hc.
  induction Hrs as [|r rs <- _ IH]; intros c Hc; [by destruct srv; apply wp_ret|].
  assert (forall s, holds s [] 0 ->
    halfDone srv (if srv then set_ClientReader s c else set_ServerReader s c)) as Hset
    by (intros s Hs; by destruct srv, Hc; split).
  destruct Hc as [_ Hrun _ Ho]. destruct srv; apply wp_bind; [apply wp_client|apply wp_server];
    (eapply holds_empty; [exact Ho|]); intros s Hs; apply wp_bind, wp_bind, wp_gets;
    cbn [Run set_ServerReader set_ClientReader]; rewrite Hrun;
    (eapply wp_mono; [|by apply halfDone_run, Hset]); intros [] c1 [Hc1 Hq1];
    (eapply wp_mono; [|by apply IH]); intros _ c2 [? ?]; (split; [done|]); by eapply quiet_trans.
Qed.

(** The calls of a whole connection: those that carry the data, then one
    direction completes, then the other. *)
Definition completed (body ins : list input) : Prop :=
  exists first tail, Forall noData tail /\
    ins = body ++ doneOf first :: (dataOf (negb first) <$> tail) ++ [doneOf (negb first)].

(** The consumer has handed exactly [evs] over. *)
Definition handedOver (evs : list Event) (c : K) : Prop := concat (handled c) = evs /\ eventBuf c = [].

Lemma half_finishes srv tail evs (c : K) : Forall noData tail -> halfDone srv c -> events c = evs ->
  conversed ((dataOf (negb srv) <$> tail) ++ [doneOf (negb srv)]) (handedOver evs) c.
Proof.
  intros Ht. revert c. induction Ht as [|rs tail Hrs _ IH]; intros c Hc Hev pool.
  - eapply wp_mono; [|apply done_spec; destruct srv, Hc; by eapply holds_inv].
    intros _ c' (He & Hb & _). split; [|done]. unfold events in He at 1. by rewrite Hb, app_nil_r in He; rewrite He.
  - eapply wp_mono; [|by apply halfDone_empty]. intros _ c' [? ?]. apply IH; [done|]. unfold quiet in *. congruence.
Qed.

Lemma completed_handedOver body ins evs (c : K) : completed body ins ->
  conversed body (fun c' => idle c' /\ events c' = evs) c -> conversed ins (handedOver evs) c.
Proof.
  intros (first & tail & Ht & ->) Hb. apply conversed_app. eapply conversed_mono; [|exact Hb].
  intros c1 [Hidle Hev] pool. eapply wp_mono; [|by apply idle_done, idle_pool].
  intros _ c2 [? Hq]. apply half_finishes; [done..|]. unfold quiet in Hq. by rewrite Hq.
Qed.

Lemma completed_ok body ins : completed body ins -> Forall input_ok body -> Forall input_ok ins.
Proof.
  intros (first & tail & Ht & ->) Hb. apply Forall_app. split; [done|]. constructor; [by destruct first|].
  apply Forall_app. split; [|repeat constructor; by destruct first]. apply Forall_fmap.
  eapply Forall_impl; [exact Ht|]. intros rs Hrs. cbn. rewrite dataOf_ok. by apply noData_ok.
Qed.
