(* ===== verification/Conversation.v ===== *)
(** * What the parser reports for whole conversations

    A conversation is a sequence of commands: retrievals (get, gets), storage
    commands (set, add, replace, append, prepend, cas) with their data block, and
    commands the parser does not know, without arguments.  The texts are those
    clients and servers exchange, each direction cut into TCP segments in any
    way.  The consumer reports one event per returned value and none for the rest,
    and it is between commands again at the end of each. *)
From Stdlib Require Import Strings.Byte.
From S2P Require Import Prelude GoLib Buffer Stream Reader Model McText Progress Transaction Deliveries.
Local Open Scope Z_scope.

(** ** The text of a command *)

(** [reply] is what the server answers to a command other than a retrieval. *)
Inductive command : Type :=
  | Retrieve (gets : bool) (keys : list bytes) (its : list item)
  | Store (verb key flags exptime : bytes) (more : list bytes) (value reply : bytes)
  | Other (name reply : bytes).

Definition nameOf (q : command) : bytes :=
  match q with
  | Retrieve gets _ _ => if gets then bs "gets" else bs "get"
  | Store verb _ _ _ _ _ _ => verb
  | Other name _ => name
  end.

Definition argsOf (q : command) : list bytes :=
  match q with
  | Retrieve _ keys _ => keys
  | Store _ key flags exptime more value _ => key :: flags :: exptime :: Itoa (zlen value) :: more
  | Other _ _ => []
  end.

(** What follows the line of the command. *)
Definition payload (q : command) : bytes :=
  match q with Store _ _ _ _ _ value _ => value ++ crlf | _ => [] end.

(** The rest of the line after a word, and what follows it. *)
Definition lineRest (ws : list bytes) (rest : bytes) : bytes :=
  concat ((fun w => SP :: w) <$> ws) ++ crlf ++ rest.

Definition request (q : command) : bytes := nameOf q ++ lineRest (argsOf q) (payload q).

Definition answer (q : command) : bytes :=
  match q with
  | Retrieve _ _ its => response its
  | Store _ _ _ _ _ _ reply | Other _ reply => reply
  end.

Definition commandEvents (q : command) : list Event :=
  match q with Retrieve _ _ its => item_event <$> its | _ => [] end.

(** A reply is at least one line, and may be more. *)
Definition reply_ok (r : bytes) : Prop :=
  exists line rest, r = line ++ LF :: rest /\ (LF ∉ line) /\ zlen line < segment_max.

(** The words of a line fit a buffer next to a segment; an unknown command has a
    name of letters. *)
Definition command_ok (q : command) : Prop :=
  Forall (fun w => word_ok w /\ zlen w < segment_max - 1) (nameOf q :: argsOf q) /\
  match q with
  | Retrieve _ keys its => keys <> [] /\ Forall item_ok its /\
      Forall (fun it => zlen (header it) < segment_max - 2) its /\ zlen (response its) <= big
  | Store verb _ _ _ _ value reply => asciiRe verb = true /\ commandState verb = Some HandleSet /\
      zlen value <= big /\ reply_ok reply
  | Other name reply => asciiRe name = true /\ commandState name = None /\ reply_ok reply
  end.

(** A command and the segments of its two directions. *)
Record transaction := mkTx {
  tx_command : command;
  tx_asked : list bytes;
  tx_answered : list bytes
}.

Definition segments_of (segs : list bytes) (text : bytes) : Prop :=
  concat segs = text /\ Forall (fun s => s <> [] /\ zlen s <= segment_max) segs.

Record tx_ok (t : transaction) : Prop := {
  tx_command_ok : command_ok (tx_command t);
  tx_asked_ok : segments_of (tx_asked t) (request (tx_command t));
  tx_answered_ok : segments_of (tx_answered t) (answer (tx_command t))
}.

Definition tx_inputs (t : transaction) : list input :=
  ((fun s => ClientData (segment s)) <$> tx_asked t) ++
  ((fun s => ServerData (segment s)) <$> tx_answered t).

Definition tx_events (t : transaction) : list Event := commandEvents (tx_command t).

(** ** Lemmas: words and lines *)

Local Abbreviation K := (Consumer Source StateFn Proto).
Local Abbreviation clean := (Forall (fun b => b ∉ delims)).

Lemma lineRest_nil rest : lineRest [] rest = CR :: LF :: rest.
Proof. done. Qed.

Lemma lineRest_cons w ws rest : lineRest (w :: ws) rest = SP :: w ++ lineRest ws rest.
Proof. unfold lineRest. rewrite fmap_cons. cbn [concat]. by rewrite <- app_assoc. Qed.

Lemma delim_SP : SP ∈ delims.
Proof. by apply (bool_decide_unpack (SP ∈ delims)). Qed.

Lemma delim_LF : LF ∈ delims.
Proof. by apply (bool_decide_unpack (LF ∈ delims)). Qed.

Lemma clean_CR w : word_ok w -> clean (w ++ [CR]).
Proof.
  intros Hw. apply Forall_app. split; [by apply word_no_delims|]. repeat constructor.
  by apply (bool_decide_unpack (CR ∉ delims)).
Qed.

Lemma clean_no_LF d : clean d -> LF ∉ d.
Proof. intros Hd Hin. rewrite Forall_forall in Hd. by destruct (Hd _ Hin delim_LF). Qed.

(** What is buffered of a text is part of its first word, or begins with it. *)
Lemma first_word (d T w y : bytes) x : d ++ T = w ++ x :: y -> clean w -> x ∈ delims ->
  (clean d /\ (length d <= length w)%nat) \/ exists r, d = w ++ x :: r /\ r ++ T = y.
Proof.
  revert d. induction w as [|b w IH]; intros [|c d] E Hw Hx; simpl in E.
  - left. split; [constructor|simpl; lia].
  - injection E as -> <-. right. by exists d.
  - left. split; [constructor|simpl; lia].
  - apply Forall_cons in Hw as [Hb Hw]. injection E as -> E.
    destruct (IH d E Hw Hx) as [[Hd Hl]|(r & -> & Er)].
    + left. split; [by constructor|simpl; lia].
    + right. by exists r.
Qed.

Lemma isAlpha_word b : isAlpha b = true -> b <> SP /\ b <> CR /\ b <> LF.
Proof. intros H. split_and!; intros ->; discriminate H. Qed.

Lemma letters_word w : asciiRe w = true -> word_ok w /\ w <> [] /\ head w <> Some Byte.x80.
Proof.
  unfold asciiRe. intros [H0 H]%andb_true_iff. rewrite forallb_forall in H. split_and!.
  - apply Forall_forall. intros b Hb%list_elem_of_In. by apply isAlpha_word, H.
  - by intros ->.
  - destruct w as [|b w]; [done|]. intros [= ->]. by specialize (H Byte.x80 (or_introl eq_refl)).
Qed.

(** The state that the line of a command leads to. *)
Definition handlerOf (q : command) : StateFn :=
  match q with Retrieve _ _ _ => HandleGet | Store _ _ _ _ _ _ _ => HandleSet | Other _ _ => HandleUnknown end.

Lemma nameOf_ok q : command_ok q -> asciiRe (nameOf q) = true /\
  commandState (nameOf q) = match q with Other _ _ => None | _ => Some (handlerOf q) end.
Proof. intros [_ H]. destruct q as [[]| |]; [done..|by destruct H as (? & ? & _)|by destruct H as (? & ? & _)]. Qed.

Lemma argsOf_cons q : command_ok q -> match q with Other _ _ => argsOf q = [] | _ => argsOf q <> [] end.
Proof. intros [_ H]. by destruct q; destruct H. Qed.

(** ** The states of a command *)

(** Waiting for the reply line: [n] bytes of the data block are still to be
    skipped, [d] is the part of the line at hand. *)
Record discarding (c : K) (n : nat) (d : bytes) : Prop := {
  discarding_state : State c = Some DiscardResponse;
  discarding_run : Run c = RunProtocol;
  discarding_client : holds (ClientReader c) [] n;
  discarding_server : holds (ServerReader c) d 0;
  discarding_events : zlen (eventBuf c) < eventCap
}.

(** The line of [q] was read; [T] is still to come from the client. *)
Definition answering (q : command) (T : bytes) (c : K) : Prop :=
  match q with
  | Retrieve _ _ its => T = [] /\ getting c (response its) its
  | _ => discarding c (length T) []
  end.

(** [readArgs] is at the word [k] of the line of [q]. *)
Record readingArgs (q : command) (T d : bytes) (k : bytes) (ks : list bytes) (c : K) : Prop := {
  ra_requesting : requesting c ReadArgs d;
  ra_cmd : cmd (proto c) = nameOf q;
  ra_args : argsOf q = args (proto c) ++ k :: ks;
  ra_text : d ++ T = k ++ lineRest ks (payload q)
}.

(** The consumer waits for [T], the rest of the request of [q]. *)
Inductive asking (q : command) (T : bytes) (c : K) : Prop :=
  | asking_first : requesting c PeekMagicByte [] -> T = request q -> asking q T c
  | asking_command d : requesting c ReadCommand d -> d ++ T = request q -> clean d ->
      zlen d < segment_max -> asking q T c
  | asking_args d k ks : readingArgs q T d k ks c -> clean d -> zlen d < segment_max -> asking q T c
  | asked : answering q T c -> asking q T c.

Definition askedPost (q : command) (T : bytes) (c c' : K) : Prop := asking q T c' /\ quiet c c'.

Lemma askedPost_trans q T c c1 c' : quiet c c1 -> askedPost q T c1 c' -> askedPost q T c c'.
Proof. intros Hq [? Hq']. split; [done|]. unfold quiet in *. congruence. Qed.

(** ** Lemmas: waiting *)

Lemma client_IndexAny_short (c : K) st d k Q : requesting c st d -> clean d ->
  (forall s, holds s d 0 -> Q (Some ErrShortRead) (set_ClientReader s c)) ->
  wp (pos ←? client (src_IndexAny delims); k pos)%go Q c.
Proof.
  intros Hreq Hd HQ. apply wp_bind_err, wp_client.
  eapply wp_mono; [|apply holds_IndexAny, Hreq]. intros r s [Hs ->]. cbn [fst snd].
  rewrite IndexAny_none by done. simpl. by apply HQ.
Qed.

Lemma readCommand_short (c : K) d : requesting c ReadCommand d -> clean d ->
  wp readCommand (fun err c' => err = Some ErrShortRead /\ quiet c c' /\ requesting c' ReadCommand d) c.
Proof.
  intros [Hst Hrun Hcl Hsv Hev] Hd. apply wp_bind, wp_modify, wp_bind, wp_server.
  eapply wp_mono; [|by eapply holds_Truncate]. intros ? s1 Hs1.
  apply (client_IndexAny_short _ ReadCommand d); [by split|done|]. intros s Hs. by split_and!.
Qed.

Lemma readArgs_short (c : K) d : requesting c ReadArgs d -> clean d ->
  wp readArgs (fun err c' => err = Some ErrShortRead /\ quiet c c' /\ requesting c' ReadArgs d /\
    proto c' = proto c) c.
Proof.
  intros [Hst Hrun Hcl Hsv Hev] Hd. apply wp_bind, wp_server.
  eapply wp_mono; [|by eapply holds_Truncate]. intros ? s1 Hs1.
  apply (client_IndexAny_short _ ReadArgs d); [by split|done|]. intros s Hs. by split_and!.
Qed.

(** No server data: the reply line is waited for. *)
Lemma discardResponse_short (c : K) n d st : State c = Some st -> Run c = RunProtocol ->
  holds (ClientReader c) [] n -> holds (ServerReader c) d 0 -> zlen (eventBuf c) < eventCap ->
  LF ∉ d ->
  wp discardResponse (fun err c' => err = Some ErrShortRead /\ quiet c c' /\ discarding c' n d) c.
Proof.
  intros Hst Hrun Hcl Hsv Hev Hd. apply wp_bind, wp_modify, wp_bind_err, wp_server.
  eapply wp_mono; [|apply holds_ReadLine_short; [exact Hsv|exact Hd]].
  intros r s [Hs ->]. split_and!; [done..|]. by split.
Qed.

(** ** Lemmas: the line of a command *)

(** The size of the data block is the fourth word. *)
Lemma Store_size verb key flags exptime more value reply (args : list bytes) :
  args = argsOf (Store verb key flags exptime more value reply) ->
  (zlen args <? 4) = false /\ index 3 args = Ret (Itoa (zlen value)).
Proof.
  intros ->. split; [|done]. apply Z.ltb_ge. unfold zlen. cbn [argsOf length]. lia.
Qed.

(** The line is read: the handler of the command starts to wait for the reply. *)
Lemma handler_starts fuel q (c : K) r T : command_ok q -> requesting c (handlerOf q) r ->
  args (proto c) = argsOf q -> r ++ T = payload q ->
  wp (runLoop (S fuel)) (fun _ c' => askedPost q T c c') c.
Proof.
  intros Hok Hreq Hargs E. pose proof (argsOf_cons q Hok) as Hne. destruct Hok as [_ Hok].
  pose proof Hreq as [Hst Hrun Hcl Hsv Hev].
  destruct q as [g keys its|verb key flags exptime more value reply|name reply]; simpl in *.
  - apply app_nil in E as [-> ->].
    eapply wp_mono; [|apply (runLoop_get_starts fuel c its Hreq)].
    + intros _ c' [? ?]. split; [by apply asked|done].
    + rewrite Hargs. destruct keys; [done|]. unfold zlen. simpl. lia.
  - destruct Hok as (_ & _ & Hbig & _). pose proof (zlen_nonneg value).
    destruct (Store_size verb key flags exptime more value reply _ Hargs) as [Hlen Hidx].
    eapply runLoop_step; [exact Hst|by eapply callState_eq|].
    apply wp_bind, wp_gets. rewrite Hlen. apply wp_bind. eapply wp_lift; [exact Hidx|].
    rewrite Atoi_Itoa by (unfold big, int_max in *; lia).
    assert (zlen value +! zlen crlf = zlen (value ++ crlf)) as ->.
    { rewrite zlen_app. change (zlen crlf) with 2. apply wrap64_id. unfold big, in_int, int_min, int_max in *. lia. }
    apply wp_bind_err, wp_client. rewrite <- E.
    eapply wp_mono; [|apply (holds_Discard _ r 0 (zlen (r ++ T)) Hcl); [apply zlen_nonneg|]].
    2:{ rewrite E, zlen_app. change (zlen crlf) with 2. unfold big, int_max in *. lia. }
    intros ? s [Hs ->]. cbn [fst snd]. unfold zlen in Hs. rewrite Nat2Z.id, length_app in Hs.
    rewrite drop_ge in Hs by lia. replace (0 + _)%nat with (length T) in Hs by lia.
    eapply wp_mono; [|eapply (discardResponse_short _ (length T) [] HandleSet); try done; apply not_elem_of_nil].
    intros err c' (-> & Hq & Hd). split; [by apply asked|done].
  - apply app_nil in E as [-> ->].
    eapply runLoop_step; [exact Hst|by eapply callState_eq|]. unfold handleUnknown.
    eapply wp_mono; [|eapply (discardResponse_short c 0 [] HandleUnknown); try done; apply not_elem_of_nil].
    intros err c' (-> & Hq & Hd). split; [by apply asked|done].
Qed.

Lemma trim_CR k : word_ok k -> TrimRight k [CR] = k.
Proof. intros Hk. apply word_TrimRight; [done|]. intros b ->%list_elem_of_singleton. tauto. Qed.

(** A word of the line and the byte that ends it. *)
Lemma lineRest_split k ks rest : word_ok k -> exists w x y, k ++ lineRest ks rest = w ++ x :: y /\
  clean w /\ x ∈ delims /\ (length w <= length k + 1)%nat /\ TrimRight w [CR] = k /\
  match ks with [] => w = k ++ [CR] /\ x = LF /\ y = rest
  | k2 :: ks => w = k /\ x = SP /\ y = k2 ++ lineRest ks rest end.
Proof.
  intros Hk. destruct ks as [|k2 ks].
  - exists (k ++ [CR]), LF, rest. rewrite lineRest_nil, <- app_assoc.
    split_and!; [done|by apply clean_CR|by apply delim_LF|rewrite length_app; simpl; lia| |done..].
    rewrite TrimRight_cut by (by apply list_elem_of_singleton). by apply trim_CR.
  - exists k, SP, (k2 ++ lineRest ks rest). rewrite lineRest_cons.
    split_and!; [done|by apply word_no_delims|by apply delim_SP|lia| |done..].
    by apply trim_CR.
Qed.

Lemma trim_delims k : word_ok k ->
  TrimRight (k ++ [SP]) [" "; "013"; "010"]%byte = k /\
  TrimRight ((k ++ [CR]) ++ [LF]) [" "; "013"; "010"]%byte = k.
Proof.
  intros Hk. assert (TrimRight k [" "; "013"; "010"]%byte = k) as E.
  { apply word_TrimRight; [done|]. intros b. rewrite !elem_of_cons. intros [?|[?|[?|?%elem_of_nil]]]; auto. done. }
  rewrite !TrimRight_cut; [done|by apply (bool_decide_unpack (_ ∈ _))..].
Qed.

(** [readCommand] consumes the name of a command. *)
Lemma readCommand_word (c : K) w x rest name :
  requesting c ReadCommand (w ++ x :: rest) -> clean w -> x ∈ delims -> zlen w < int_max ->
  TrimRight (w ++ [x]) [" "; "013"; "010"]%byte = name -> asciiRe name = true ->
  wp readCommand (fun err c' => err = None /\ quiet c c' /\
    requesting c' (match commandState name with Some _ => ReadArgs | None => HandleUnknown end) rest /\
    cmd (proto c') = name /\ args (proto c') = []) c.
Proof.
  intros [Hst Hrun Hcl Hsv Hev] Hw Hx Hmax Htrim Hre.
  apply wp_bind, wp_modify, wp_bind, wp_server.
  eapply wp_mono; [|by eapply holds_Truncate]. intros ? s1 Hs1.
  eapply readWord_holds; [exact Hcl|done..|]. intros s Hs. rewrite Htrim.
  apply wp_bind, wp_modify. rewrite Hre. cbn [negb].
  destruct (commandState name); by apply wp_bind, wp_modify, wp_ret.
Qed.

Lemma word_small (w k : bytes) : zlen k < segment_max - 1 -> (length w <= length k + 1)%nat ->
  zlen w < segment_max.
Proof. unfold zlen. lia. Qed.

(** Where the words of a line lead. *)
Definition nextWord q T r (ks : list bytes) (c : K) : Prop :=
  match ks with
  | [] => requesting c (handlerOf q) r /\ args (proto c) = argsOf q /\ r ++ T = payload q
  | k :: ks => readingArgs q T r k ks c
  end.

(** One call of [readArgs]: it waits for the rest of the word, or takes it. *)
Lemma readArgs_step q T d k ks (c : K) : command_ok q -> readingArgs q T d k ks c ->
  wp readArgs (fun err c' => quiet c c' /\ ((err = Some ErrShortRead /\ asking q T c') \/
    (err = None /\ exists r, (length r < length d)%nat /\ nextWord q T r ks c'))) c.
Proof.
  intros Hok [Hreq Hcmd Hargs E]. pose proof (proj1 Hok) as Hws. apply Forall_cons in Hws as [_ Hws].
  rewrite Hargs in Hws. apply Forall_app in Hws as [_ [[Hk Hsmall] _]%Forall_cons].
  assert (commandState (cmd (proto c)) = Some (handlerOf q)) as Hcs.
  { rewrite Hcmd, (proj2 (nameOf_ok q Hok)). destruct q; [done..|by destruct (args (proto c))]. }
  destruct (lineRest_split k ks (payload q) Hk) as (w & x & y & Etext & Hw & Hx & Hl & Htrim & Hcase).
  rewrite Etext in E. pose proof (word_small w k Hsmall Hl) as Hmax.
  destruct (first_word d T w y x E Hw Hx) as [[Hd Hdl]|(r & -> & Er)].
  - eapply wp_mono; [|by apply readArgs_short]. intros err c' (-> & Hq & Hreq' & Hp). split; [done|]. left.
    split; [done|]. eapply (asking_args _ _ _ d k ks); [|done|unfold zlen in *; lia].
    split; [done|by rewrite Hp|by rewrite Hp|by rewrite E].
  - eapply wp_mono; [|apply (readArgs_word c w x r (handlerOf q)); try done; unfold segment_max, int_max in *; lia].
    intros err c' (-> & Hq & Hreq' & Hcmd' & Hargs'). rewrite Htrim in Hargs'. split; [done|]. right.
    split; [done|]. exists r. split; [rewrite length_app; simpl; lia|].
    destruct ks as [|k2 ks]; destruct Hcase as (-> & -> & ->).
    + split_and!; [exact Hreq'|by rewrite Hargs', Hargs|done].
    + split; [exact Hreq'|congruence|by rewrite Hargs', Hargs, <- app_assoc|done].
Qed.

Lemma args_run q ks : command_ok q -> forall fuel (c : K) T d k, readingArgs q T d k ks c ->
  (length d < fuel)%nat -> wp (runLoop fuel) (fun _ c' => askedPost q T c c') c.
Proof.
  intros Hok. induction ks as [|k2 ks IH]; intros [|fuel] c T d k Hra Hfuel; [lia| |lia|];
    (eapply runLoop_step; [apply Hra|by eapply callState_eq; [apply Hra|]|]);
    (eapply wp_mono; [|by eapply readArgs_step]);
    intros err c1 [Hq [[-> Hask]|(-> & r & Hl & Hnext)]]; try done.
  - destruct fuel as [|fuel]; [lia|]. destruct Hnext as (Hreq & Hargs & E).
    eapply wp_mono; [|by eapply handler_starts]. intros ? c2. by apply askedPost_trans.
  - eapply wp_mono; [|eapply IH; [exact Hnext|lia]]. intros ? c2. by apply askedPost_trans.
Qed.

(** Reading the name of the command, then its arguments. *)
Lemma command_run q fuel (c : K) T d : command_ok q -> requesting c ReadCommand d ->
  d ++ T = request q -> (length d < fuel)%nat ->
  wp (runLoop fuel) (fun _ c' => askedPost q T c c') c.
Proof.
  intros Hok Hreq E Hfuel. pose proof (proj1 Hok) as Hws. apply Forall_cons in Hws as [[Hname Hsmall] _].
  destruct (nameOf_ok q Hok) as [Hre Hcs]. destruct fuel as [|fuel]; [lia|].
  destruct (lineRest_split (nameOf q) (argsOf q) (payload q) Hname) as (w & x & y & Etext & Hw & Hx & Hl & _ & Hcase).
  unfold request in E. rewrite Etext in E. pose proof (word_small w _ Hsmall Hl) as Hmax.
  eapply runLoop_step; [apply Hreq|by eapply callState_eq; [apply Hreq|]|].
  destruct (first_word d T w y x E Hw Hx) as [[Hd Hdl]|(r & -> & Er)].
  - eapply wp_mono; [|by apply readCommand_short]. intros err c' (-> & Hq & Hreq'). split; [|done].
    eapply (asking_command _ _ _ d); [done|unfold request; by rewrite Etext|done|unfold zlen in *; lia].
  - destruct (trim_delims _ Hname) as [Htsp Htlf]. rewrite length_app in Hfuel. simpl in Hfuel.
    eapply wp_mono; [|apply (readCommand_word c w x r (nameOf q)); try done].
    + intros err c' (-> & Hq & Hreq' & Hcmd & Hargs).
      eapply wp_mono; [intros ? c2; by apply askedPost_trans|].
      rewrite Hcs in Hreq'. pose proof (argsOf_cons q Hok) as Hne.
      destruct (argsOf q) as [|k ks] eqn:Eargs; destruct Hcase as (-> & -> & ->).
      * destruct fuel as [|fuel]; [lia|]. destruct q; [done..|].
        by eapply handler_starts.
      * eapply (args_run q ks Hok _ _ _ r k); [split|lia]; [by destruct q|done|by rewrite Hargs, Eargs|done].
    + unfold segment_max, int_max in *. lia.
    + destruct (argsOf q); by destruct Hcase as (-> & -> & _).
Qed.

(** ** Lemmas: the request in segments *)

(** Any bytes buffered from the client are enough fuel to read them. *)
Lemma run_fuel (c : K) st d : requesting c st d -> run c = runLoop (S (S (length d))) c.
Proof.
  intros [_ _ Hcl Hsv _]. unfold run, pending.
  rewrite (holds_buffered _ _ _ Hcl), (holds_buffered _ _ _ Hsv). f_equal. simpl. lia.
Qed.

Lemma request_head q T seg : command_ok q -> seg ++ T = request q -> seg <> [] ->
  exists b rest, seg = b :: rest /\ b <> Byte.x80.
Proof.
  intros Hok E Hne. destruct (letters_word _ (proj1 (nameOf_ok q Hok))) as (_ & Hn & Hh).
  destruct seg as [|b rest]; [done|]. exists b, rest. split; [done|]. intros ->.
  unfold request in E. destruct (nameOf q); [done|]. injection E as <- _. by apply Hh.
Qed.

(** More of the request arrives at a consumer that is reading it. *)
Lemma client_data (c : K) st d seg T q : requesting c st d -> zlen d < segment_max -> zlen seg <= segment_max ->
  (forall s, holds s (d ++ seg) 0 ->
     requesting (set_ClientReader s c) st (d ++ seg) ->
     wp (runLoop (S (S (length (d ++ seg))))) (fun _ c' => askedPost q T c c') (set_ClientReader s c)) ->
  wp (deliver (ClientData (segment seg))) (fun _ c' => askedPost q T c c') c.
Proof.
  intros [Hst Hrun Hcl Hsv Hev] Hd Hseg Hk. apply wp_bind, wp_client.
  eapply wp_mono; [|apply (holds_Reassembled _ d 0 seg Hcl)]; [|unfold BufferSize, segment_max in *; lia].
  intros ? s Hs. simpl in Hs. rewrite drop_0 in Hs. apply wp_bind, wp_bind, wp_gets. simpl. rewrite Hrun.
  assert (requesting (set_ClientReader s c) st (d ++ seg)) as Hreq by (by split).
  unfold wp at 1. rewrite (run_fuel _ _ _ Hreq).
  eapply wp_mono; [|by apply Hk]. intros [] c' HQ. by apply wp_ret.
Qed.

(** A consumer that waits for the reply skips what is left of the data block. *)
Lemma client_skipped (c : K) seg T : discarding c (length (seg ++ T)) [] -> zlen seg <= segment_max ->
  wp (deliver (ClientData (segment seg))) (fun _ c' => discarding c' (length T) [] /\ quiet c c') c.
Proof.
  intros [Hst Hrun Hcl Hsv Hev] Hseg. rewrite length_app in Hcl. apply wp_bind, wp_client.
  eapply wp_mono; [|apply (holds_Reassembled _ [] _ seg Hcl)];
    [|change (zlen []) with 0; unfold BufferSize, segment_max in *; lia].
  intros ? s Hs. rewrite drop_ge in Hs by lia. replace (_ - _)%nat with (length T) in Hs by lia.
  apply wp_bind, wp_bind, wp_gets. simpl. rewrite Hrun.
  unfold wp, run. rewrite Nat.add_comm. cbn [Nat.add].
  eapply runLoop_step; [exact Hst|by eapply callState_eq|].
  eapply wp_mono; [|eapply (discardResponse_short _ (length T) [] DiscardResponse); try done; apply not_elem_of_nil].
  intros err c' (-> & Hq & Hd). by apply wp_ret.
Qed.

Lemma client_segment q T seg (c : K) : command_ok q -> asking q (seg ++ T) c -> seg <> [] ->
  zlen seg <= segment_max ->
  wp (deliver (ClientData (segment seg))) (fun _ c' => askedPost q T c c') c.
Proof.
  intros Hok Hask Hne Hseg. destruct Hask as [Hreq E|d Hreq E Hd Hmax|d k ks [Hreq Hcmd Hargs E] Hd Hmax|Hans].
  - apply (client_data c PeekMagicByte []); [done|done|done|]. intros s _ Hreq'. cbn [app] in *.
    destruct (request_head q T seg Hok E Hne) as (b & rest & -> & Hb).
    eapply runLoop_step; [apply Hreq'|by eapply callState_eq; [apply Hreq'|]|].
    eapply wp_mono; [|by eapply peekMagicByte_text]. intros err c1 (-> & Hq & Hreq1).
    eapply wp_mono; [|eapply command_run; [exact Hok|exact Hreq1|exact E|lia]].
    intros ? c2. by apply askedPost_trans.
  - eapply client_data; [done..|]. intros s _ Hreq'.
    eapply wp_mono; [|eapply (command_run q); [done..|by rewrite <- app_assoc|lia]].
    intros ? c'. by apply askedPost_trans.
  - eapply client_data; [done..|]. intros s _ Hreq'.
    eapply wp_mono; [|eapply (args_run q ks Hok); [split; [done..|by rewrite <- app_assoc]|lia]].
    intros ? c'. by apply askedPost_trans.
  - destruct q as [g keys its|verb key flags exptime more value reply|name reply]; cbn [answering] in Hans.
    + destruct Hans as [[? _]%app_nil _]. done.
    + eapply wp_mono; [|by apply client_skipped]. intros ? c' [? ?]. split; [by apply asked|done].
    + eapply wp_mono; [|by apply client_skipped]. intros ? c' [? ?]. split; [by apply asked|done].
Qed.

(** The request has been read once all of it has arrived. *)
Lemma request_has_LF q : LF ∈ request q.
Proof.
  unfold request, lineRest. rewrite !elem_of_app. right. right. left.
  by apply (bool_decide_unpack (LF ∈ crlf)).
Qed.

Lemma asking_done q (c : K) : asking q [] c -> answering q [] c.
Proof.
  intros [_ E|d _ E Hd _|d k ks [_ _ _ E] Hd _|Hans]; [..|done]; exfalso.
  - pose proof (request_has_LF q) as H. rewrite <- E in H. by apply not_elem_of_nil in H.
  - apply clean_no_LF in Hd. rewrite app_nil_r in E. apply Hd. rewrite E. apply request_has_LF.
  - apply clean_no_LF in Hd. rewrite app_nil_r in E. apply Hd. rewrite E. unfold lineRest.
    rewrite !elem_of_app. right. right. left. by apply (bool_decide_unpack (LF ∈ crlf)).
Qed.

Lemma asking_pool pool q T (c : K) : asking q T c -> asking q T (set_pool pool c).
Proof.
  intros [[] E|d [] E Hd Hmax|d k ks [[] ? ? ?] Hd Hmax|Hans].
  - by apply asking_first.
  - by apply (asking_command _ _ _ d).
  - by apply (asking_args _ _ _ d k ks).
  - apply asked. destruct q; [destruct Hans; split; [done|by apply getting_pool]|by destruct Hans..].
Qed.

(** ** Lemmas: empty calls *)

Lemma requesting_reread (c : K) st d s1 s2 : requesting c st d -> holds s1 d 0 -> holds s2 [] 0 ->
  requesting (set_ServerReader s2 (set_ClientReader s1 c)) st d.
Proof. by intros []; split. Qed.

Lemma discarding_rests n d : LF ∉ d -> rests (fun c => discarding c n d).
Proof.
  intros Hd c [Hst Hrun Hcl Hsv Hev]. split; [done|]. exists [], n, d, 0%nat. split_and!; [done..|].
  intros s1 s2 Hs1 Hs2. apply (run_step _ DiscardResponse discardResponse ErrShortRead);
    [done|by eapply callState_eq|by left|].
  eapply wp_mono; [|by eapply (discardResponse_short _ n d DiscardResponse)]. intros err c' (-> & ? & ?). by split_and!.
Qed.

Lemma getting_rests T its : rests (fun c => getting c T its).
Proof.
  intros c [Hst Hargs Hrun Hcl (d & n & Hh & E & Hn & Hn0 & Hd) Hev]. split; [done|].
  exists [], 0%nat, d, n. split_and!; [done..|]. intros s1 s2 Hs1 Hs2.
  apply (run_step _ HandleGet handleGet ErrShortRead); [done|by eapply callState_eq|by left|].
  apply wp_bind, wp_gets. cbn [proto set_ServerReader set_ClientReader].
  destruct (Z.ltb_spec (zlen (args (proto c))) 1); [lia|]. apply wp_bind, wp_gets, wp_bind_err, wp_server.
  eapply wp_mono; [|by apply holds_ReadLine_short]. intros r s [Hs ->]. cbn [fst snd].
  split; [done|]. split; [|done]. split; try done. by exists d, n.
Qed.

Lemma asking_rests q T : rests (asking q T).
Proof.
  intros c [Hreq E|d Hreq E Hd Hmax|d k ks [Hreq Hcmd Hargs E] Hd Hmax|Hans].
  - apply (resting_mono (fun c => idle c /\ State c = Some PeekMagicByte)).
    + intros c' [[_ ? ? ? ?] ?]. by apply asking_first.
    + apply idle_rests. destruct Hreq. split; [|done]. by split; [left|..].
  - split; [apply Hreq|]. exists d, 0%nat, [], 0%nat. split_and!; [apply Hreq..|]. intros s1 s2 Hs1 Hs2.
    pose proof (requesting_reread c _ d s1 s2 Hreq Hs1 Hs2) as Hreq1.
    apply (run_step _ ReadCommand readCommand ErrShortRead); [apply Hreq1|by eapply callState_eq; [apply Hreq1|]|by left|].
    eapply wp_mono; [|by apply readCommand_short]. intros err c' (-> & ? & ?). split_and!; [done| |done].
    by apply (asking_command _ _ _ d).
  - split; [apply Hreq|]. exists d, 0%nat, [], 0%nat. split_and!; [apply Hreq..|]. intros s1 s2 Hs1 Hs2.
    pose proof (requesting_reread c _ d s1 s2 Hreq Hs1 Hs2) as Hreq1.
    apply (run_step _ ReadArgs readArgs ErrShortRead); [apply Hreq1|by eapply callState_eq; [apply Hreq1|]|by left|].
    eapply wp_mono; [|by apply readArgs_short]. intros err c' (-> & ? & ? & Hp). split_and!; [done| |done].
    apply (asking_args _ _ _ d k ks); [|done..]. split; [done|by rewrite Hp..|done].
  - destruct q as [g keys its|verb key flags exptime more value reply|name reply]; cbn [answering] in Hans.
    + destruct Hans as [-> Hg]. apply (resting_mono (fun c => getting c (response its) its)); [|by apply getting_rests].
      intros c' Hg'. by apply asked.
    + apply (resting_mono (fun c => discarding c (length T) [])); [|apply discarding_rests; [apply not_elem_of_nil|done]].
      intros c' Hd. by apply asked.
    + apply (resting_mono (fun c => discarding c (length T) [])); [|apply discarding_rests; [apply not_elem_of_nil|done]].
      intros c' Hd. by apply asked.
Qed.

Lemma discarding_pool pool n d (c : K) : discarding c n d -> discarding (set_pool pool c) n d.
Proof. by intros []; split. Qed.

Lemma asking_steady q T : steady (asking q T).
Proof. apply rests_steady; [|apply asking_rests]. intros c pool. apply asking_pool. Qed.

Lemma getting_steady T its : steady (fun c => getting c T its).
Proof. apply rests_steady; [|apply getting_rests]. intros c pool. apply getting_pool. Qed.

Lemma discarding_steady n d : LF ∉ d -> steady (fun c => discarding c n d).
Proof. intros Hd. apply rests_steady; [|by apply discarding_rests]. intros c pool. apply discarding_pool. Qed.

Lemma client_segments q segs (c : K) : command_ok q -> asking q (concat segs) c ->
  Forall (fun s => s <> [] /\ zlen s <= segment_max) segs ->
  settles ((fun s => ClientData (segment s)) <$> segs) (fun c' => answering q [] c' /\ quiet c c') c.
Proof.
  intros Hok Hask Hsegs. revert c Hask. induction Hsegs as [|seg segs [Hne Hseg] Hsegs IH]; intros c Hask.
  - eapply settles_nil; [apply asking_steady|exact Hask|]. intros c' Hask' Hq. split; [by apply asking_done|done].
  - eapply settles_cons; [apply asking_steady|exact Hask|]. intros c1 pool Hask1 Hq1.
    eapply wp_mono; [|apply (client_segment q (concat segs)); [done|by apply asking_pool|done..]].
    intros _ c2 [Hask2 Hq2]. eapply settles_mono; [|by apply IH].
    intros c3 [? Hq3]. split; [done|]. unfold quiet in *. by rewrite Hq3, Hq2.
Qed.

Lemma idle_asks q (c : K) : idle c -> asking q (request q) c.
Proof.
  intros [[Hst|Hst] Hrun Hcl Hsv Hev].
  - by apply asking_first.
  - by apply (asking_command q _ c []).
Qed.

(** ** Lemmas: the reply in segments *)

(** Between commands, server data is dropped. *)
Lemma idle_server_segment (c : K) seg : idle c -> State c = Some ReadCommand -> zlen seg <= segment_max ->
  wp (deliver (ServerData (segment seg))) (fun _ c' => (idle c' /\ State c' = Some ReadCommand) /\ quiet c c') c.
Proof.
  intros [_ Hrun Hcl Hsv Hev] Hst Hseg. apply wp_bind, wp_server.
  eapply wp_mono; [|apply (holds_Reassembled _ [] 0 seg Hsv)];
    [|change (zlen []) with 0; unfold BufferSize, segment_max in *; lia].
  intros ? s Hs. apply wp_bind, wp_bind, wp_gets. simpl. rewrite Hrun.
  unfold wp, run. rewrite Nat.add_comm. cbn [Nat.add].
  eapply runLoop_step; [exact Hst|by eapply callState_eq|].
  eapply wp_mono; [|by apply (readCommand_waits _ ([] ++ drop 0 seg) 0)].
  intros err c' (-> & Hidle & Hq). by apply wp_ret.
Qed.

Lemma idle_server_segments segs (c : K) : idle c -> State c = Some ReadCommand ->
  Forall (fun s => s <> [] /\ zlen s <= segment_max) segs ->
  settles ((fun s => ServerData (segment s)) <$> segs) (fun c' => idle c' /\ quiet c c') c.
Proof.
  intros Hidle Hst Hsegs. revert c Hidle Hst.
  induction Hsegs as [|seg segs [_ Hseg] Hsegs IH]; intros c Hidle Hst.
  - eapply settles_nil; [apply (idle_steady ReadCommand)|done|]. by intros c' [? _] ?.
  - eapply settles_cons; [apply (idle_steady ReadCommand)|done|]. intros c1 pool [Hidle1 Hst1] Hq1.
    eapply wp_mono; [|by apply idle_server_segment; [by apply idle_pool|..]].
    intros _ c2 [[Hidle2 Hst2] Hq2]. eapply settles_mono; [|by apply IH].
    intros c3 [? Hq3]. split; [done|]. unfold quiet in *. by rewrite Hq3, Hq2.
Qed.

(** A piece of the reply line, or the end of it. *)
Lemma reply_segment (c : K) d seg : discarding c 0 d -> zlen d < segment_max -> zlen seg <= segment_max ->
  wp (deliver (ServerData (segment seg))) (fun _ c' => quiet c c' /\
    (((LF ∉ d ++ seg) /\ discarding c' 0 (d ++ seg)) \/
     ((LF ∈ d ++ seg) /\ idle c' /\ State c' = Some ReadCommand))) c.
Proof.
  intros [Hst Hrun Hcl Hsv Hev] Hd Hseg. apply wp_bind, wp_server.
  eapply wp_mono; [|apply (holds_Reassembled _ d 0 seg Hsv)]; [|unfold BufferSize, segment_max in *; lia].
  intros ? s Hs. simpl in Hs. rewrite drop_0 in Hs. apply wp_bind, wp_bind, wp_gets. simpl. rewrite Hrun.
  unfold wp, run. rewrite Nat.add_comm. cbn [Nat.add].
  eapply runLoop_step; [exact Hst|by eapply callState_eq|].
  destruct (decide (LF ∈ d ++ seg)) as [Hin|Hout].
  - destruct (list_elem_of_split_l _ _ Hin) as (line & more & Eline & Hline). rewrite Eline in Hs.
    apply wp_bind, wp_modify. apply wp_bind_err.
    eapply wp_mono; [|apply (server_ReadLine_line _ line more 0); [exact Hs|done]].
    intros r c1 (s1 & -> & Hs1 & -> & _). cbn [fst snd]. apply wp_bind, wp_modify, wp_ret.
    set (c1 := set_State _ _).
    apply (runLoop_step _ c1 ReadCommand readCommand); [done|by eapply callState_eq|].
    eapply wp_mono; [|apply (readCommand_waits c1 more 0); simpl; try done]. intros err c2 (-> & Hidle & Hev2).
    apply wp_ret. split; [exact Hev2|]. by right.
  - eapply wp_mono; [|by eapply (discardResponse_short _ 0 (d ++ seg) DiscardResponse)].
    intros err c' (-> & Hq & Hd'). apply wp_ret. split; [done|]. by left.
Qed.

Lemma reply_segments segs (c : K) d reply : reply_ok reply -> discarding c 0 d -> LF ∉ d ->
  d ++ concat segs = reply -> Forall (fun s => s <> [] /\ zlen s <= segment_max) segs ->
  settles ((fun s => ServerData (segment s)) <$> segs) (fun c' => idle c' /\ quiet c c') c.
Proof.
  intros (line & rest & -> & Hline & Hmax) Hdis Hd E Hsegs. revert c d Hdis Hd E.
  induction Hsegs as [|seg segs [Hne Hseg] Hsegs IH]; intros c d Hdis Hd E.
  - cbn [concat] in E. rewrite app_nil_r in E. subst d. destruct Hd. rewrite elem_of_app, elem_of_cons. tauto.
  - cbn [concat] in E. pose proof (line_prefix _ _ _ _ E Hd) as Hl.
    eapply settles_cons; [by apply discarding_steady|exact Hdis|]. intros c1 pool Hdis1 Hq1.
    eapply wp_mono; [|apply (reply_segment (set_pool pool c1) d seg); [by apply discarding_pool|unfold zlen in *; lia|done]].
    intros _ c2 [Hq2 [[Hout Hdis2]|(_ & Hidle & Hst)]].
    + eapply settles_mono; [|apply (IH c2 (d ++ seg)); [done..|by rewrite <- app_assoc]].
      intros c3 [? Hq3]. split; [done|]. unfold quiet in *. by rewrite Hq3, Hq2.
    + eapply settles_mono; [|by apply idle_server_segments].
      intros c3 [? Hq3]. split; [done|]. unfold quiet in *. by rewrite Hq3, Hq2.
Qed.

Lemma getting_segments segs (c : K) its :
  getting c (concat segs) its -> Forall (fun s => s <> [] /\ zlen s <= segment_max) segs ->
  Forall item_ok its -> Forall (fun it => zlen (header it) < segment_max - 2) its ->
  zlen (response its) <= big ->
  settles ((fun s => ServerData (segment s)) <$> segs) (fun c' =>
    idle c' /\ events c' = events c ++ (item_event <$> its)) c.
Proof.
  revert c its. induction segs as [|seg segs IH]; intros c its Hg Hsegs Hits Hhd Hbig.
  - destruct (getting_server _ _ _ Hg) as (d & n & _ & E & _ & _ & Hd).
    cbn [concat] in E. rewrite drop_nil, app_nil_r in E. subst d. by destruct (Hd (response_has_LF its)).
  - apply Forall_cons in Hsegs as [[Hne Hseg] Hsegs].
    cbn [concat] in Hg. eapply settles_cons; [apply getting_steady|exact Hg|]. intros c1 pool Hg1 Hq1.
    eapply wp_mono; [|apply (server_segment _ seg (concat segs) its (getting_pool pool _ _ _ Hg1)); done].
    change (events (set_pool pool c1)) with (events c1). rewrite Hq1.
    intros _ c' [(its1 & its2 & -> & Hg' & Hev')|(HT & [Hidle Hst] & Hev')].
    + apply Forall_app in Hits as [? ?]. apply Forall_app in Hhd as [? ?].
      eapply settles_mono; [|apply (IH c' its2); try done].
      * intros c'' [? Hev'']. split; [done|]. by rewrite Hev'', Hev', fmap_app, app_assoc.
      * unfold response in *. rewrite fmap_app, concat_app, <- app_assoc, zlen_app in Hbig.
        pose proof (zlen_nonneg (concat (encode_item <$> its1))). lia.
    + eapply settles_mono; [|by apply idle_server_segments]. intros c3 [? Hq3]. split; [done|].
      by rewrite Hq3, Hev'.
Qed.

(** The reply of the server ends the command. *)
Lemma server_segments q segs (c : K) : command_ok q -> answering q [] c -> concat segs = answer q ->
  Forall (fun s => s <> [] /\ zlen s <= segment_max) segs ->
  settles ((fun s => ServerData (segment s)) <$> segs) (fun c' =>
    idle c' /\ events c' = events c ++ commandEvents q) c.
Proof.
  intros [_ Hok] Hans E Hsegs.
  destruct q as [g keys its|verb key flags exptime more value reply|name reply]; cbn [answering answer commandEvents] in *.
  - destruct Hok as (_ & Hits & Hhd & Hbig). destruct Hans as [_ Hg]. rewrite <- E in Hg.
    by apply getting_segments.
  - destruct Hok as (_ & _ & _ & Hr). rewrite app_nil_r.
    eapply reply_segments; [exact Hr|exact Hans|apply not_elem_of_nil|done|done].
  - destruct Hok as (_ & _ & Hr). rewrite app_nil_r.
    eapply reply_segments; [exact Hr|exact Hans|apply not_elem_of_nil|done|done].
Qed.

(** ** Conversations *)

(** A transaction turns an idle consumer into an idle one, its events added. *)
Lemma transaction_idle t (c : K) : tx_ok t -> idle c ->
  settles (tx_inputs t) (fun c' => idle c' /\ events c' = events c ++ tx_events t) c.
Proof.
  intros [Hok [Hasked Hasked_fit] [Hanswered Hanswered_fit]] Hidle. unfold tx_inputs.
  apply settles_app. eapply settles_mono; [|apply (client_segments (tx_command t)); [done| |done]].
  2:{ rewrite Hasked. by apply idle_asks. }
  intros c1 [Hans Hq]. eapply settles_mono; [|by eapply server_segments].
  intros c2 [? Hev]. split; [done|]. unfold quiet, tx_events in *. congruence.
Qed.

Lemma transactions_idle ts (c : K) : Forall tx_ok ts -> idle c ->
  settles (concat (tx_inputs <$> ts)) (fun c' =>
    idle c' /\ events c' = events c ++ concat (tx_events <$> ts)) c.
Proof.
  intros Hts. revert c. induction Hts as [|t ts Ht Hts IH]; intros c Hidle.
  { eapply settles_nil; [apply idle_steady_any|exact Hidle|]. intros c' ? ?. by rewrite app_nil_r. }
  rewrite !fmap_cons. cbn [concat]. apply settles_app. eapply settles_mono; [|by apply transaction_idle].
  intros c1 [Hidle1 Hev1]. eapply settles_mono; [|by apply IH].
  intros c2 [? Hev2]. split; [done|]. by rewrite Hev2, Hev1, <- app_assoc.
Qed.

(** C2: what is reported.  A new consumer is given any sequence of commands and
    their answers: retrievals of one or more keys with the values they return,
    storage commands with their data blocks (all of them answered), and unknown commands without arguments.  Each direction of a
    transaction is cut into segments that are not empty and no longer than 16384
    bytes (a longer one can find no room for its bytes behind an incomplete line in
    the buffer of 32768 bytes, and is refused); the words of a command are shorter
    than 16383 bytes, the VALUE lines than 16382, the first line of any other reply
    than 16384; an answer or a data block has at most 2^60 bytes.  The segments of a
    command are delivered before those of its answer, one by one or several in one
    call, with empty calls (for a SYN, a FIN or a retransmission) anywhere between
    them.  The consumer then ends without panic and has reported exactly one
    get-hit event per value returned by the retrievals, with its key and size, in
    order. *)
Theorem get_conversation ts ins c1 c2 pool :
  Forall tx_ok ts -> delivered (concat (tx_inputs <$> ts)) ins -> Forall source_fresh pool ->
  exists c c', NewConsumer c1 c2 pool = Ret c /\
    conversation ins c = Ret (tt, c') /\
    events c' = concat (tx_events <$> ts).
Proof.
  intros Hts Hins Hpool. destruct (NewConsumer_inv c1 c2 pool Hpool) as (c & E & Hinv & Hcl & Hsv & Hst & Hrun & Hev).
  assert (idle c) as Hidle.
  { split; [by left|done|rewrite Hcl; apply holds_new|rewrite Hsv; apply holds_new|apply Hinv]. }
  destruct (conversed_conversation _ _ _ (settles_delivered _ _ _ _ (transactions_idle ts c Hts Hidle) Hins)) as ([] & c' & E' & _ & Hev').
  exists c, c'. by rewrite Hev', Hev.
Qed.
