(* ===== verification/Hotlist.v ===== *)
(** * hotlist: counting items and reporting the heaviest

    [perfectHotlist] of perfect.go is a finite map of counts.  [orderedTop] of
    hotlist.go ranges over that map, in an order that Go leaves open, and calls
    [sort.Sort]: the order is an argument, and the sort an implementation of
    the interface [SortPkg], which states what package sort documents.  The
    class [HotList] is the Go interface, with the laws that the analysis
    workers rely on. *)
From S2P Require Import Prelude.
Local Open Scope Z_scope.

(** ** Package sort *)

(** What [sort.Sort] requires of [Less]. *)
Definition strictWeak {A} (less : A -> A -> bool) : Prop :=
  (forall a b, less a b = true -> less b a = false) /\
  (forall a b c, less b a = false -> less c b = false -> less c a = false).

(** [sort.Sort] permutes its argument into an order in which no element is
    less than an earlier one; ties are in no specified order. *)
Class SortPkg := {
  sort_Sort {A} (less : A -> A -> bool) (l : list A) : list A;
  sort_Sort_perm {A} (less : A -> A -> bool) (l : list A) : sort_Sort less l ≡ₚ l;
  sort_Sort_sorted {A} (less : A -> A -> bool) (l : list A) :
    strictWeak less -> StronglySorted (fun a b => less b a = false) (sort_Sort less l)
}.

(** ** Items *)

(** The interface Item; the keys of a Go map are comparable. *)
Class Item (A : Type) `{Countable A} := Weight : A -> Z.

(** type itemCount, the implementation of Entry. *)
Record itemCount (A : Type) := mkItemCount { item : A; count : Z; totalWeight : Z }.
Arguments mkItemCount {A}.
Arguments item {A}.
Arguments count {A}.
Arguments totalWeight {A}.

(** [descByTotalWeight.Less]. *)
Definition descByTotalWeight {A} (i j : itemCount A) : bool := totalWeight j <? totalWeight i.

(** ** The interface HotList *)

(** [l] is the first [k] entries of the counts [m] by descending weight. *)
Record topOf {A} `{Item A} (m : gmap A Z) (k : Z) (l : list (itemCount A)) : Prop := {
  top_length : zlen l = Z.min k (Z.of_nat (size m));
  top_nodup : NoDup (item <$> l);
  top_counts : Forall (fun e => m !! item e = Some (count e) /\
                         totalWeight e = Weight (item e) *! count e) l;
  top_sorted : StronglySorted (fun a b => totalWeight b <= totalWeight a) l;
  top_heaviest : forall x c, m !! x = Some c -> x ∉ (item <$> l) ->
                 Forall (fun e => Weight x *! c <= totalWeight e) l
}.

(** A hot list [H] of items [A]; [hl_counts] is the abstraction the laws are
    about, and [order] the order in which a map is ranged over. *)
Class HotList (H A : Type) `{Item A} := {
  hl_New : H;
  hl_AddWeighted : A -> H -> H;
  hl_AddNWeighted : A -> Z -> H -> H;
  hl_Reset : H -> H;
  hl_Top : list (A * Z) -> Z -> H -> outcome (list (itemCount A));
  hl_counts : H -> gmap A Z;
  hl_New_law : hl_counts hl_New = ∅;
  hl_AddNWeighted_law x n h :
    hl_counts (hl_AddNWeighted x n h) = <[x := default 0 (hl_counts h !! x) +! n]> (hl_counts h);
  hl_AddWeighted_law x h : hl_AddWeighted x h = hl_AddNWeighted x 1 h;
  hl_Reset_law h : hl_counts (hl_Reset h) = ∅;
  hl_Top_law order k h : order ≡ₚ map_to_list (hl_counts h) -> 0 <= k ->
    exists l, hl_Top order k h = Ret l /\ topOf (hl_counts h) k l
}.

(** ** perfect.go *)

Section perfect.
  Context {A : Type} `{HItem : Item A} `{HSort : SortPkg}.

Local Abbreviation perfectHotlist := (gmap A Z).

Definition NewPerfect : perfectHotlist := ∅.

(** [hl[x] += n]. *)
Definition AddNWeighted (x : A) (n : Z) (hl : perfectHotlist) : perfectHotlist :=
  <[x := default 0 (hl !! x) +! n]> hl.

Definition AddWeighted (x : A) (hl : perfectHotlist) : perfectHotlist := AddNWeighted x 1 hl.

(** [for k := range hl { delete(hl, k) }]. *)
Definition Reset (hl : perfectHotlist) : perfectHotlist :=
  foldl (fun m k => delete k m) hl (map_to_list hl).*1.

(** [order] is the order in which the map [unordered] is ranged over. *)
Definition orderedTop (order : list (A * Z)) (k : Z) (unordered : gmap A Z) :
    outcome (list (itemCount A)) :=
  let len := Z.of_nat (size unordered) in
  let k := if len <? k then len else k in
  let ordered := (fun '(it, c) => mkItemCount it c (Weight it *! c)) <$> order in
  let entries := sort_Sort descByTotalWeight ordered in
  slice_to k entries.

Definition Top (order : list (A * Z)) (k : Z) (hl : perfectHotlist) : outcome (list (itemCount A)) :=
  orderedTop order k hl.

(** ** Histories *)

(** The operations that change a hot list. *)
Inductive hl_op : Type := OpAddN (x : A) (n : Z) | OpReset.

Definition hl_apply (hl : perfectHotlist) (op : hl_op) : perfectHotlist :=
  match op with OpAddN x n => AddNWeighted x n hl | OpReset => Reset hl end.

(** The amounts added to [x] since the last reset, the latest first. *)
Fixpoint hl_added (x : A) (ops : list hl_op) (acc : list Z) : list Z :=
  match ops with
  | [] => acc
  | OpReset :: ops' => hl_added x ops' []
  | OpAddN y n :: ops' => hl_added x ops' (if decide (x = y) then n :: acc else acc)
  end.

(** ** Lemmas *)

Lemma descByTotalWeight_strict : strictWeak (descByTotalWeight (A := A)).
Proof. split; unfold descByTotalWeight; intros; repeat (zcase || done); lia. Qed.

Lemma sorted_desc (l : list (itemCount A)) :
  StronglySorted (fun a b => totalWeight b <= totalWeight a) (sort_Sort descByTotalWeight l).
Proof.
  pose proof (sort_Sort_sorted _ l descByTotalWeight_strict) as Hs.
  induction Hs as [|a l' Hs IH Ha]; constructor; [done|].
  eapply Forall_impl; [exact Ha|]. unfold descByTotalWeight. intros b ?. by apply Z.ltb_ge.
Qed.

Lemma Reset_empty (hl : gmap A Z) : Reset hl = (∅ : gmap A Z).
Proof.
  unfold Reset. apply map_eq. intros x. rewrite lookup_empty.
  assert (forall l (m : gmap A Z), (x ∈ l \/ m !! x = None) -> foldl (fun m k => delete k m) m l !! x = None) as Hdel.
  { induction l as [|y l IH]; simpl; intros m Hor.
    - destruct Hor as [H0|]; [by apply elem_of_nil in H0|done].
    - apply IH. rewrite lookup_delete_None, elem_of_cons in *.
      destruct Hor as [[->|?]|?]; auto. }
  apply Hdel. destruct (hl !! x) as [c|] eqn:E; [left|by right].
  apply list_elem_of_fmap. exists (x, c). split; [done|]. by apply elem_of_map_to_list.
Qed.

Lemma perm_items order (hl : gmap A Z) : order ≡ₚ map_to_list hl -> NoDup order.*1 /\
  (forall x c, (x, c) ∈ order <-> hl !! x = Some c) /\ zlen order = Z.of_nat (size hl).
Proof.
  intros Hp. split_and!.
  - rewrite Hp. apply NoDup_fst_map_to_list.
  - intros x c. rewrite Hp. apply elem_of_map_to_list.
  - unfold zlen. by rewrite Hp, length_map_to_list.
Qed.

(** Every entry that the sort leaves comes from the map. *)
Lemma sorted_entries order (hl : gmap A Z) l :
  order ≡ₚ map_to_list hl ->
  l = sort_Sort descByTotalWeight ((fun '(it, c) => mkItemCount it c (Weight it *! c)) <$> order) ->
  zlen l = Z.of_nat (size hl) /\ NoDup (item <$> l) /\
  (forall e, e ∈ l <-> hl !! item e = Some (count e) /\ totalWeight e = Weight (item e) *! count e).
Proof.
  intros Hp ->. destruct (perm_items order hl Hp) as (Hnd & Hin & Hlen). split_and!.
  - unfold zlen in *. by rewrite sort_Sort_perm, length_fmap.
  - rewrite sort_Sort_perm, <- list_fmap_compose.
    rewrite (list_fmap_ext _ fst order); [done|]. by intros i [].
  - intros [it c w]. rewrite sort_Sort_perm, list_elem_of_fmap. simpl. split.
    + intros ([it' c'] & [= -> -> ->] & Hx). by rewrite <- Hin.
    + intros [Hx ->]. exists (it, c). by rewrite Hin.
Qed.

Lemma Top_topOf order k (hl : gmap A Z) : order ≡ₚ map_to_list hl -> 0 <= k ->
  exists l, Top order k hl = Ret l /\ topOf hl k l.
Proof.
  intros Hp Hk. unfold Top, orderedTop. cbv zeta.
  set (l := sort_Sort _ _). destruct (sorted_entries order hl l Hp eq_refl) as (Hlen & Hnd & Hin).
  set (k' := if _ <? k then _ else k).
  assert (k' = Z.min k (Z.of_nat (size hl))) as Hk'.
  { unfold k'. destruct (Z.ltb_spec (Z.of_nat (size hl)) k); lia. }
  rewrite slice_to_ok by lia. eexists. split; [done|].
  assert (StronglySorted (fun a b => totalWeight b <= totalWeight a) l) as Hs by apply sorted_desc.
  pose proof (take_drop (Z.to_nat k') l) as Hsplit. rewrite <- Hsplit in Hs, Hnd.
  apply StronglySorted_app in Hs as (Hcross & Hs & _). rewrite fmap_app in Hnd.
  apply NoDup_app in Hnd as (Hnd & _ & _).
  split; [|done| |done|].
  - unfold zlen in *. rewrite length_take. lia.
  - apply Forall_forall. intros e He. apply Hin. rewrite <- Hsplit. apply elem_of_app. by left.
  - intros x c Hx Hni. apply Forall_forall. intros e He.
    assert (mkItemCount x c (Weight x *! c) ∈ l) as Hxl by by apply Hin.
    rewrite <- Hsplit in Hxl. apply elem_of_app in Hxl as [Hxl|Hxl].
    + destruct Hni. apply list_elem_of_fmap. by exists (mkItemCount x c (Weight x *! c)).
    + apply (Hcross _ _ He Hxl).
Qed.

#[export] Instance perfect_HotList : HotList perfectHotlist A := {
  hl_New := NewPerfect;
  hl_AddWeighted := AddWeighted;
  hl_AddNWeighted := AddNWeighted;
  hl_Reset := Reset;
  hl_Top := Top;
  hl_counts := id;
  hl_New_law := eq_refl;
  hl_AddNWeighted_law x n h := eq_refl;
  hl_AddWeighted_law x h := eq_refl;
  hl_Reset_law := Reset_empty;
  hl_Top_law := Top_topOf
}.

End perfect.

(** A sort that meets the contract, for concrete runs. *)
Definition notAfter {A} (less : A -> A -> bool) (a b : A) : Prop := less b a = false.

#[global] Instance notAfter_decision {A} (less : A -> A -> bool) a b : Decision (notAfter less a b).
Proof. unfold notAfter. apply _. Defined.

Lemma notAfter_sorted {A} (less : A -> A -> bool) l :
  strictWeak less -> StronglySorted (notAfter less) (merge_sort (notAfter less) l).
Proof.
  intros [Hasym Htrans]. apply StronglySorted_merge_sort.
  - intros a b c Hab Hbc. by apply (Htrans a b c).
  - intros a b. unfold notAfter. destruct (less b a) eqn:E; [right; by apply Hasym|by left].
Qed.

Definition mergeSortPkg : SortPkg := {|
  sort_Sort A less l := merge_sort (notAfter less) l;
  sort_Sort_perm A less l := merge_sort_Permutation (notAfter less) l;
  sort_Sort_sorted A less l := notAfter_sorted less l
|}.

(** ** Properties *)

Section perfect_facts.
  Context {A : Type} `{HItem : Item A} {HSort : SortPkg}.

Lemma hl_added_acc (x : A) ops acc (m : gmap A Z) :
  m !! x = match acc with [] => None | _ => Some (wrap64 (sumZ id acc)) end ->
  (foldl hl_apply m ops : gmap A Z) !! x =
  match hl_added x ops acc with [] => None | ns => Some (wrap64 (sumZ id ns)) end.
Proof.
  revert acc m. induction ops as [|[y n|] ops IH]; intros acc m Hm;
    cbn [hl_added foldl hl_apply].
  - by destruct acc.
  - apply IH. unfold AddNWeighted. destruct (decide (x = y)) as [<-|Hne].
    + rewrite lookup_insert_eq, Hm. destruct acc as [|a acc]; [by rewrite Z.add_comm|].
      cbn [default from_option]. unfold id at 1. rewrite wrap64_wrap_l. do 2 f_equal. simpl. lia.
    + by rewrite lookup_insert_ne.
  - apply IH. by rewrite (Reset_empty m).
Qed.

(** After any history of additions and resets, the count of an item is the
    wrapped sum of the amounts added since the last reset, and an item is
    present exactly when there was one. *)
Theorem hotlist_counts (x : A) ops :
  (foldl hl_apply NewPerfect ops : gmap A Z) !! x =
  match hl_added x ops [] with [] => None | ns => Some (wrap64 (sumZ id ns)) end.
Proof. by apply hl_added_acc. Qed.

(** C20: [Top k] panics exactly on a negative [k]; otherwise it returns the
    [min k size] heaviest entries, by descending total weight, without
    duplicates and with their counts. *)
Theorem Top_correct order k (hl : gmap A Z) :
  order ≡ₚ map_to_list hl ->
  (k < 0 -> Top order k hl = Panic) /\
  (0 <= k -> exists l, Top order k hl = Ret l /\ topOf hl k l).
Proof.
  intros Hp. split; [|by apply Top_topOf]. intros Hk. unfold Top, orderedTop. cbv zeta.
  destruct (Z.ltb_spec (Z.of_nat (size hl)) k); [lia|].
  unfold slice_to. rewrite bool_decide_false by lia. done.
Qed.

End perfect_facts.

(** Whatever the order of the map iteration and whatever package sort does
    with ties, the weights reported by [Top] are the same. *)
Theorem Top_weights_unique {A} `{Item A} (S1 S2 : SortPkg) order1 order2 k (hl : gmap A Z) l1 l2 :
  order1 ≡ₚ map_to_list hl -> order2 ≡ₚ map_to_list hl ->
  Top (HSort := S1) order1 k hl = Ret l1 -> Top (HSort := S2) order2 k hl = Ret l2 ->
  totalWeight <$> l1 = totalWeight <$> l2.
Proof.
  intros Hp1 Hp2. unfold Top, orderedTop. cbv zeta. set (k' := if _ <? _ then _ else _).
  set (mk := fun '(it, c) => mkItemCount it c (Weight it *! c)).
  assert (totalWeight <$> sort_Sort (SortPkg := S1) descByTotalWeight (mk <$> order1) =
          totalWeight <$> sort_Sort (SortPkg := S2) descByTotalWeight (mk <$> order2)) as E.
  { apply (StronglySorted_unique_strong Z.ge); [lia| | |].
    - apply (StronglySorted_fmap _ (fun a b => totalWeight b <= totalWeight a)); [intros; lia|].
      apply sorted_desc.
    - apply (StronglySorted_fmap _ (fun a b => totalWeight b <= totalWeight a)); [intros; lia|].
      apply sorted_desc.
    - by rewrite !sort_Sort_perm, Hp1, Hp2. }
  unfold slice_to. intros H1 H2. do 2 case_bool_decide; simplify_eq.
  by rewrite !fmap_take, E.
Qed.
