(* ===== verification/Analysis.v ===== *)
(** * analysis: sharded counting of events, and the report

    A [Pool] hashes every key to one of its workers (pool.go), filters events
    with a regular expression (filter.go), queues batches of [keyInfo] to the
    workers (worker.go) and merges their hot lists into a report (report.go).
    The workers are reached only through the interface [HotList].

    Each worker goroutine is a state ([hl], the buffered channel [kisChan]) and
    the receive step [loopRecv] of its [select]; requests on the unbuffered
    channels topRequest and resetRequest are served at once, between two
    receives, which is what the rendezvous amounts to.  Package regexp is the
    parameter [RegexpPkg].  Timestamps are an argument. *)
From Stdlib Require Import Strings.Byte.
From S2P Require Import Prelude GoLib Buffer Reader Model Hotlist.
Local Open Scope Z_scope.

(** ** Data *)

(** Package regexp. *)
Class RegexpPkg := {
  regexp : Type;
  Compile : bytes -> regexp + error;
  MatchString : regexp -> bytes -> bool
}.

Record keyInfo := mkKeyInfo { name : bytes; size_ : Z }.

#[export] Instance keyInfo_eq_decision : EqDecision keyInfo.
Proof. solve_decision. Defined.

#[export] Program Instance keyInfo_countable : Countable keyInfo :=
  inj_countable' (fun ki => (name ki, size_ ki)) (fun p => mkKeyInfo p.1 p.2) _.
Next Obligation. by intros []. Qed.

(** [keyInfo.Weight]. *)
#[export] Instance keyInfo_Item : Item keyInfo := size_.

Record KeyReport := mkKeyReport {
  Name : bytes;
  ReportedSize : Z;
  RequestsEstimate : Z;
  TrafficEstimate : Z
}.

Record ReportT := mkReport { Timestamp : Z; Keys : list KeyReport }.

(** Capacity of the channel kisChan. *)
Definition kisCap : Z := 1024.

Section analysis.
  Context {H : Type} {HHot : HotList H keyInfo} {HRe : RegexpPkg} {HSort : SortPkg}.

Record worker := mkWorker {
  hl : H;
  kisChan : list (list keyInfo);
  kisClosed : bool;
  loopDone : bool            (* the goroutine has returned *)
}.

Record Pool := mkPool {
  reportSize : Z;
  workers : list worker;
  filter_ : option regexp;
  EventsHandled : Z;
  EventsDropped : Z
}.

Definition set_hl (x : H) (w : worker) : worker := mkWorker x (kisChan w) (kisClosed w) (loopDone w).
Definition set_kisChan (x : list (list keyInfo)) (w : worker) : worker :=
  mkWorker (hl w) x (kisClosed w) (loopDone w).
Definition set_workers (x : list worker) (p : Pool) : Pool :=
  mkPool (reportSize p) x (filter_ p) (EventsHandled p) (EventsDropped p).
Definition set_filter (x : option regexp) (p : Pool) : Pool :=
  mkPool (reportSize p) (workers p) x (EventsHandled p) (EventsDropped p).

(** ** worker.go *)

Definition newWorker : worker := mkWorker hl_New [] false false.

Definition zeroKeyInfo : keyInfo := mkKeyInfo [] 0.

(** [kis[:n]] of a slice that [make] zeroed: longer than before, it uncovers
    zero values. *)
Definition reslice (n : nat) (kis : list keyInfo) : list keyInfo :=
  take n kis ++ replicate (n - length kis) zeroKeyInfo.

(** The copying loop of [handleEvents], from index [i]. *)
Fixpoint copyEvents (i : nat) (evts : list Event) (kis : list keyInfo) : list keyInfo :=
  match evts with
  | [] => kis
  | evt :: evts' =>
      copyEvents (S i) evts'
        (if bool_decide (Type_ evt = EventGetHit)
         then <[i := mkKeyInfo (Key evt) (Size evt)]> (reslice (S i) kis)
         else kis)
  end.

Definition worker_handleEvents (evts : list Event) : GoM worker (option error) := fun w =>
  let kis := copyEvents 0 evts [] in
  if kisClosed w then Panic
  else if zlen (kisChan w) <? kisCap then Ret (None, set_kisChan (kisChan w ++ [kis]) w)
  else Ret (Some errQueueFull, w).

(** [top(k)], served by the loop; [order] is the order of a map iteration. *)
Definition top (order : list (keyInfo * Z)) (k : Z) : GoM worker (list (itemCount keyInfo)) := fun w =>
  if loopDone w then Blocked else l ← hl_Top order k (hl w); Ret (l, w).

Definition reset : GoM worker unit := fun w =>
  if loopDone w then Blocked else Ret (tt, set_hl (hl_Reset (hl w)) w).

Definition close : GoM worker unit := fun w =>
  if kisClosed w then Panic else Ret (tt, mkWorker (hl w) (kisChan w) true (loopDone w)).

(** The loop receives from kisChan: a batch is counted; a closed and drained
    channel ends the loop; an open and empty one gives nothing to receive. *)
Definition loopRecv (w : worker) : option worker :=
  if loopDone w then None
  else match kisChan w with
       | kis :: rest =>
           Some (set_kisChan rest (set_hl (foldl (fun h ki => hl_AddWeighted ki h) (hl w) kis) w))
       | [] => if kisClosed w then Some (mkWorker (hl w) [] true true) else None
       end.

(** ** filter.go *)

Definition filterEvents (rs : list Event) (f : option regexp) : list Event :=
  match f with
  | None => rs
  | Some re => List.filter (fun r => MatchString re (Key r)) rs
  end.

Definition setPattern (pattern : bytes) (f : option regexp) : option regexp * option error :=
  if bool_decide (pattern <> []) then
    match Compile pattern with
    | inl r => (Some r, None)
    | inr err => (f, Some err)
    end
  else (None, None).

(** ** pool.go *)

Definition addHandled (n : Z) (p : Pool) : Pool :=
  mkPool (reportSize p) (workers p) (filter_ p) (EventsHandled p +! n) (EventsDropped p).
Definition addDropped (n : Z) (p : Pool) : Pool :=
  mkPool (reportSize p) (workers p) (filter_ p) (EventsHandled p) (EventsDropped p +! n).

Definition New (numWorkers reportSize : Z) : outcome Pool :=
  if numWorkers <? 0 then Panic
  else Ret (mkPool reportSize (replicate (Z.to_nat numWorkers) newWorker) None 0 0).

(** [hash % uint64(len(p.workers))], which panics without workers. *)
Definition keySlot (key : bytes) (n : Z) : outcome Z :=
  if n =? 0 then Panic else Ret (wrap64 (fnv1a key mod n)).

Fixpoint partitionLoop (evts : list Event) (perWorkerEvents : list (list Event)) :
    outcome (list (list Event)) :=
  match evts with
  | [] => Ret perWorkerEvents
  | e :: evts' =>
      slot ← keySlot (Key e) (zlen perWorkerEvents);
      l ← index slot perWorkerEvents;
      partitionLoop evts' (<[Z.to_nat slot := l ++ [e]]> perWorkerEvents)
  end.

Definition partitionEvents (evts : list Event) (p : Pool) : outcome (list (list Event)) :=
  partitionLoop evts (replicate (length (workers p)) []).

(** A method of [p.workers[i]]. *)
Definition onWorker {A} (i : nat) (m : GoM worker A) : GoM Pool A := fun p =>
  match workers p !! i with
  | None => Panic
  | Some w => '(a, w) ← m w; Ret (a, set_workers (<[i := w]> (workers p)) p)
  end.

(** The loop of [HandleEvents], from worker [i]. *)
Fixpoint sendLoop (i : nat) (perWorkerEvents : list (list Event)) : GoM Pool unit :=
  match perWorkerEvents with
  | [] => mret tt
  | events :: rest =>
      (if 0 <? zlen events then
         err ← onWorker i (worker_handleEvents events);
         if bool_decide (err = Some errQueueFull) then modify (addDropped (zlen events))
         else modify (addHandled (zlen events))
       else mret tt);;
      sendLoop (S i) rest
  end.

Definition HandleEvents (evts : list Event) : GoM Pool unit := fun p =>
  perWorkerEvents ← partitionEvents (filterEvents evts (filter_ p)) p;
  sendLoop 0 perWorkerEvents p.

(** [for _, w := range p.workers { w.reset() }], for the workers in [is_]. *)
Fixpoint resetLoop (is_ : list nat) : GoM Pool unit :=
  match is_ with
  | [] => mret tt
  | i :: rest => onWorker i reset;; resetLoop rest
  end.

Definition Reset : GoM Pool unit := fun p => resetLoop (seq 0 (length (workers p))) p.

Definition SetFilterPattern (pattern : bytes) : GoM Pool (option error) := fun p =>
  match setPattern pattern (filter_ p) with
  | (f, Some err) => Ret (Some err, set_filter f p)
  | (f, None) => (Reset;; mret None) (set_filter f p)
  end.

Definition Stats (p : Pool) : Z * Z := (EventsHandled p, EventsDropped p).

(** ** report.go *)

(** [Report.Less]. *)
Definition reportLess (i j : KeyReport) : bool := TrafficEstimate j <? TrafficEstimate i.

Definition keyReport (e : itemCount keyInfo) : KeyReport :=
  let ki := item e in
  mkKeyReport (name ki) (size_ ki) (count e) (count e *! size_ ki).

(** The loop of [Report] over the workers from [i]; [orders] has the order of
    the map iteration of each. *)
Fixpoint reportLoop (shouldReset : bool) (i : nat) (orders : list (list (keyInfo * Z))) :
    GoM Pool (list (itemCount keyInfo)) :=
  match orders with
  | [] => mret []
  | order :: rest =>
      k ← gets reportSize;
      workerEntries ← onWorker i (top order k);
      (if shouldReset then onWorker i reset else mret tt);;
      allEntries ← reportLoop shouldReset (S i) rest;
      mret (workerEntries ++ allEntries)
  end.

Definition Report (now : Z) (orders : list (list (keyInfo * Z))) (shouldReset : bool) :
    GoM Pool ReportT := fun p =>
  if reportSize p *! zlen (workers p) <? 0 then Panic
  else
    '(allEntries, p) ← reportLoop shouldReset 0 orders p;
    Ret (mkReport now (sort_Sort reportLess (keyReport <$> allEntries)), p).

(** ** Runs *)

(** Batches arrive from the protocol parsers while workers receive. *)
Inductive action : Type := Handle (evts : list Event) | Work (i : nat).

Definition act (a : action) : GoM Pool unit := fun p =>
  match a with
  | Handle evts => HandleEvents evts p
  | Work i =>
      match workers p !! i ≫= loopRecv with
      | Some w => Ret (tt, set_workers (<[i := w]> (workers p)) p)
      | None => Ret (tt, p)
      end
  end.

Fixpoint run (acts : list action) : GoM Pool unit :=
  match acts with
  | [] => mret tt
  | a :: acts' => act a;; run acts'
  end.

(** The events of a run. *)
Definition offered (acts : list action) : list Event :=
  concat ((fun a => match a with Handle evts => evts | Work _ => [] end) <$> acts).

(** ** What is counted *)

Definition isHit (e : Event) : bool := bool_decide (Type_ e = EventGetHit).

Definition kiOf (e : Event) : keyInfo :=
  if isHit e then mkKeyInfo (Key e) (Size e) else zeroKeyInfo.

(** The events up to and including the last hit. *)
Fixpoint uptoLastHit (evts : list Event) : list Event :=
  match evts with
  | [] => []
  | e :: es => match uptoLastHit es with
               | [] => if isHit e then [e] else []
               | l => e :: l
               end
  end.

(** Occurrences of [x] in [l], and the counts after adding every item of [l]. *)
Definition occ (x : keyInfo) (l : list keyInfo) : Z := zlen (filter (fun y => y = x) l).

Definition countsOf (l : list keyInfo) : gmap keyInfo Z :=
  foldl (fun m x => <[x := default 0 (m !! x) +! 1]> m) ∅ l.

(** Worker [w] has been given the items [l]: some are counted, the rest queued. *)
Definition worker_given (w : worker) (l : list keyInfo) : Prop :=
  exists done, l = done ++ concat (kisChan w) /\ hl_counts (hl w) = countsOf done.

(** A running worker, its queue within the channel's capacity. *)
Definition worker_ok (w : worker) : Prop :=
  kisClosed w = false /\ loopDone w = false /\ zlen (kisChan w) <= kisCap.

(** The worker a key belongs to, of [n]. *)
Definition slotOf (n : Z) (key : bytes) : Z := fnv1a key mod n.

Definition shard (n i : Z) (evts : list Event) : list Event :=
  List.filter (fun e => slotOf n (Key e) =? i) evts.

(** All workers run, and the counters have not wrapped. *)
Record pool_ok (p : Pool) : Prop := {
  ok_workers : Forall worker_ok (workers p);
  ok_handled : 0 <= EventsHandled p;
  ok_dropped : 0 <= EventsDropped p
}.

(** If nothing was dropped, worker [i] was given the items [given i]. *)
Definition pool_given (p : Pool) (given : nat -> list keyInfo) : Prop :=
  EventsDropped p = 0 ->
  forall i w, workers p !! i = Some w -> worker_given w (given i).

(** [p'] has the workers, filter and report size of [p] in number and value. *)
Definition samePool (p p' : Pool) : Prop :=
  reportSize p' = reportSize p /\ length (workers p') = length (workers p) /\ filter_ p' = filter_ p.

(** The report line of item [x] among the observed items [l]. *)
Definition lineOf (l : list keyInfo) (x : keyInfo) : KeyReport :=
  mkKeyReport (name x) (size_ x) (occ x l) (occ x l *! size_ x).

(** ** Lemmas: batches *)

Lemma copyEvents_spec evts : forall i kis, (length kis <= i)%nat ->
  copyEvents i evts kis =
    match uptoLastHit evts with
    | [] => kis
    | l => kis ++ replicate (i - length kis) zeroKeyInfo ++ (kiOf <$> l)
    end.
Proof.
  induction evts as [|e es IH]; intros i kis Hlen; [done|]. cbn [copyEvents uptoLastHit].
  unfold isHit. case_bool_decide as Hhit.
  - assert (<[i := mkKeyInfo (Key e) (Size e)]> (reslice (S i) kis) =
      (kis ++ replicate (i - length kis) zeroKeyInfo) ++ [kiOf e]) as ->.
    { unfold reslice. rewrite take_ge by lia.
      replace (S i - length kis)%nat with ((i - length kis) + 1)%nat by lia.
      rewrite replicate_add, app_assoc. simpl.
      replace i with (length (kis ++ replicate (i - length kis) zeroKeyInfo)) at 1
        by (rewrite length_app, length_replicate; lia).
      rewrite insert_middle. unfold kiOf, isHit. by rewrite bool_decide_true. }
    assert (length ((kis ++ replicate (i - length kis) zeroKeyInfo) ++ [kiOf e]) = S i) as Hl
      by (rewrite !length_app, length_replicate; simpl; lia).
    rewrite IH by lia. destruct (uptoLastHit es) as [|e' l]; [by rewrite <- app_assoc|].
    rewrite Hl, Nat.sub_diag. simpl. by rewrite <- !app_assoc.
  - rewrite IH by lia. destruct (uptoLastHit es) as [|e' l] eqn:E; [done|].
    replace (S i - length kis)%nat with ((i - length kis) + 1)%nat by lia.
    rewrite replicate_add, <- app_assoc. do 2 f_equal. simpl. f_equal.
    unfold kiOf, isHit. by rewrite bool_decide_false.
Qed.

Lemma uptoLastHit_all evts : Forall (fun e => isHit e = true) evts -> uptoLastHit evts = evts.
Proof. induction 1 as [|e es He Hes IH]; simpl; [done|]. rewrite IH, He. by destruct es. Qed.

Lemma copyEvents_hits evts : Forall (fun e => isHit e = true) evts ->
  copyEvents 0 evts [] = kiOf <$> evts.
Proof.
  intros Hh. rewrite copyEvents_spec by done. rewrite uptoLastHit_all by done. by destruct evts.
Qed.

(** ** Lemmas: counts *)

Lemma occ_app x l l' : occ x (l ++ l') = occ x l + occ x l'.
Proof. unfold occ. by rewrite filter_app, zlen_app. Qed.

Lemma occ_single x y : occ x [y] = if decide (x = y) then 1 else 0.
Proof. unfold occ. cbn. destruct (decide (y = x)) as [->|]; destruct (decide _); done. Qed.

Lemma occ_nonneg x l : 0 <= occ x l <= zlen l.
Proof. unfold occ, zlen. pose proof (length_filter (fun y => y = x) l). lia. Qed.

Lemma occ_elem x l : 0 < occ x l <-> x ∈ l.
Proof.
  unfold occ. split.
  - intros Hpos. destruct (filter (fun y => y = x) l) as [|y l'] eqn:E; [done|].
    assert (y ∈ filter (fun y => y = x) l) as Hy by (rewrite E; left).
    apply list_elem_of_filter in Hy as [-> ?]. done.
  - intros Hx. assert (x ∈ filter (fun y => y = x) l) as Hf by by apply list_elem_of_filter.
    destruct (filter _ l); [by apply elem_of_nil in Hf|]. rewrite zlen_cons. pose proof (zlen_nonneg l0). lia.
Qed.

Lemma countsOf_lookup l x : zlen l <= int_max ->
  countsOf l !! x = if bool_decide (x ∈ l) then Some (occ x l) else None.
Proof.
  unfold countsOf. induction l as [|y l IH] using rev_ind; intros Hmax; [done|].
  rewrite zlen_app in Hmax. change (zlen [y]) with 1 in Hmax.
  rewrite foldl_app. simpl. rewrite occ_app, occ_single. pose proof (occ_nonneg x l).
  assert (x ∈ l ++ [y] <-> x ∈ l \/ x = y) as Hin
    by (rewrite elem_of_app, list_elem_of_singleton; done).
  destruct (decide (x = y)) as [->|Hne].
  - rewrite lookup_insert_eq, IH by lia. rewrite (bool_decide_true (y ∈ l ++ [y])) by tauto.
    case_bool_decide as Hl; simpl.
    + f_equal. apply wrap64_id. unfold in_int, int_min. lia.
    + rewrite <- occ_elem in Hl. f_equal. rewrite wrap64_id by done. lia.
  - rewrite lookup_insert_ne, IH by (done || lia).
    rewrite Z.add_0_r. rewrite (bool_decide_ext (x ∈ l ++ [y]) (x ∈ l)); [done|tauto].
Qed.

Lemma hl_fold_counts kis (h : H) :
  hl_counts (foldl (fun h ki => hl_AddWeighted ki h) h kis) =
  foldl (fun m x => <[x := default 0 (m !! x) +! 1]> m) (hl_counts h) kis.
Proof.
  revert h. induction kis as [|ki kis IH]; intros h; simpl; [done|].
  by rewrite IH, hl_AddWeighted_law, hl_AddNWeighted_law.
Qed.

(** ** Lemmas: workers *)

Lemma loopRecv_given w w' l : loopRecv w = Some w' -> worker_ok w ->
  worker_ok w' /\ (worker_given w l -> worker_given w' l).
Proof.
  unfold loopRecv, worker_ok. intros E (Hc & Hd & Hq). rewrite Hd in E.
  destruct (kisChan w) as [|kis rest] eqn:Ek; [by rewrite Hc in E|]. injection E as <-.
  rewrite zlen_cons in Hq. split; [split_and!; simpl; done || lia|].
  intros (done & -> & Hcounts). exists (done ++ kis). simpl. rewrite Ek. simpl.
  split; [by rewrite app_assoc|]. rewrite hl_fold_counts, Hcounts. unfold countsOf. by rewrite foldl_app.
Qed.

Local Abbreviation hits evts := (Forall (fun e => isHit e = true) evts).

Lemma handleEvents_given evts w : worker_ok w ->
  wp (worker_handleEvents evts) (fun err w' => worker_ok w' /\
    ((err = None /\ (hits evts -> forall l, worker_given w l -> worker_given w' (l ++ (kiOf <$> evts)))) \/
     (err = Some errQueueFull /\ w' = w))) w.
Proof.
  intros (Hc & Hd & Hq). unfold wp, worker_handleEvents. rewrite Hc.
  destruct (Z.ltb_spec (zlen (kisChan w)) kisCap).
  - eexists _, _. split; [done|]. split.
    + split_and!; simpl; [done..|]. rewrite zlen_app. change (zlen [copyEvents 0 evts []]) with 1. lia.
    + left. split; [done|]. intros Hh l (done & -> & Hcounts). exists done. simpl. split; [|done].
      rewrite copyEvents_hits by done. rewrite concat_app, app_assoc. cbn [concat]. by rewrite app_nil_r.
  - eexists _, _. split; [done|]. split; [done|]. by right.
Qed.

(** ** Lemmas: partitioning *)

Lemma slotOf_range n key : 0 < n -> 0 <= slotOf n key < n.
Proof. intros. by apply Z.mod_pos_bound. Qed.

Lemma keySlot_ok n key : 0 < n <= int_max -> keySlot key n = Ret (slotOf n key).
Proof.
  intros Hn. unfold keySlot. destruct (Z.eqb_spec n 0); [lia|].
  pose proof (slotOf_range n key). rewrite wrap64_id; [done|].
  unfold slotOf, in_int, int_min in *. lia.
Qed.

Lemma partitionLoop_spec evts per : 0 < zlen per <= int_max ->
  exists per', partitionLoop evts per = Ret per' /\ length per' = length per /\
    (forall i l, per !! i = Some l -> per' !! i = Some (l ++ shard (zlen per) (Z.of_nat i) evts)).
Proof.
  revert per. induction evts as [|e evts IH]; intros per Hn; cbn [partitionLoop].
  { exists per. split_and!; [done..|]. intros i l. by rewrite app_nil_r. }
  rewrite keySlot_ok by done. pose proof (slotOf_range (zlen per) (Key e) ltac:(lia)) as Hs.
  set (s := slotOf (zlen per) (Key e)) in *.
  destruct (lookup_lt_is_Some_2 per (Z.to_nat s)) as [l Hl]; [unfold zlen in *; lia|].
  unfold mbind, outcome_bind, index. rewrite bool_decide_true, Hl by lia.
  set (per1 := <[Z.to_nat s := l ++ [e]]> per).
  assert (zlen per1 = zlen per) as Hlen by (unfold zlen, per1; by rewrite length_insert).
  destruct (IH per1) as (per' & -> & Hl' & Hp'); [by rewrite Hlen|].
  exists per'. split_and!; [done|by rewrite Hl'; unfold per1; rewrite length_insert|].
  intros i li Hi. rewrite Hlen in Hp'. unfold shard. cbn [List.filter]. fold s.
  destruct (Z.eqb_spec s (Z.of_nat i)) as [Heq|Hne].
  - assert (Z.to_nat s = i) as E by lia. subst per1. rewrite E in *.
    assert (li = l) as -> by congruence.
    rewrite (Hp' i (l ++ [e])); [by rewrite <- app_assoc|].
    apply list_lookup_insert_eq. by eapply lookup_lt_Some.
  - apply Hp'. unfold per1. rewrite list_lookup_insert_ne by lia. done.
Qed.

Lemma partitionEvents_spec evts p : 0 < zlen (workers p) <= int_max ->
  exists per, partitionEvents evts p = Ret per /\ length per = length (workers p) /\
    (forall i, (i < length (workers p))%nat ->
       per !! i = Some (shard (zlen (workers p)) (Z.of_nat i) evts)).
Proof.
  intros Hn. unfold partitionEvents.
  assert (zlen (replicate (length (workers p)) (@nil Event)) = zlen (workers p)) as Hl
    by (unfold zlen; by rewrite length_replicate).
  destruct (partitionLoop_spec evts (replicate (length (workers p)) [])) as (per & E & Hlen & Hper);
    [by rewrite Hl|].
  exists per. rewrite length_replicate in Hlen. split_and!; [done..|]. intros i Hi.
  rewrite (Hper i []); [by rewrite Hl|]. by apply lookup_replicate_2.
Qed.

(** No event is lost or duplicated by the partition. *)
Lemma shard_sum n evts : 0 < n -> forall m, 0 <= m <= n ->
  sumZ (fun i => zlen (shard n (Z.of_nat i) evts)) (seq 0 (Z.to_nat m)) =
  zlen (List.filter (fun e => slotOf n (Key e) <? m) evts).
Proof.
  intros Hn m [Hm0 Hm]. revert Hm. pattern m. apply natlike_ind; [| |done]; clear m Hm0.
  { intros _. induction evts as [|e es IH]; [done|]. cbn [List.filter].
    pose proof (slotOf_range n (Key e) Hn). by destruct (Z.ltb_spec (slotOf n (Key e)) 0); [lia|]. }
  intros m Hm IH Hlt. rewrite Z2Nat.inj_succ, seq_S, sumZ_app, IH by lia. simpl. rewrite Z2Nat.id, Z.add_0_r by lia.
  clear IH. unfold shard. induction evts as [|e es IH]; [done|]. cbn [List.filter].
  destruct (Z.ltb_spec (slotOf n (Key e)) m), (Z.eqb_spec (slotOf n (Key e)) m),
    (Z.ltb_spec (slotOf n (Key e)) (Z.succ m)); try lia; rewrite ?zlen_cons; lia.
Qed.

(** ** Lemmas: HandleEvents *)

Lemma set_worker_ok p i w : pool_ok p -> worker_ok w ->
  pool_ok (set_workers (<[i := w]> (workers p)) p).
Proof. intros [Hw ? ?] Hok. split; simpl; [by apply Forall_insert|done..]. Qed.

(** One send: the batch is accepted or dropped, and counted as such. *)
Lemma send_spec i events p given :
  pool_ok p -> (i < length (workers p))%nat -> EventsHandled p + EventsDropped p + zlen events <= int_max ->
  wp (if 0 <? zlen events then
        err ← onWorker i (worker_handleEvents events);
        if bool_decide (err = Some errQueueFull) then modify (addDropped (zlen events))
        else modify (addHandled (zlen events))
      else mret tt)
    (fun _ p' => pool_ok p' /\ samePool p p' /\
      EventsHandled p' + EventsDropped p' = EventsHandled p + EventsDropped p + zlen events /\
      (hits events -> pool_given p given ->
       pool_given p' (fun j => given j ++ if decide (j = i) then kiOf <$> events else []))) p.
Proof.
  intros Hok Hi Hmax. destruct (Z.ltb_spec 0 (zlen events)) as [Hpos|Hz].
  2:{ assert (events = []) as -> by (apply zlen_0_inv; pose proof (zlen_nonneg events); lia).
      apply wp_ret. change (zlen []) with 0. split_and!; [done..|lia|].
      intros _ Hg Hd j w Hw. destruct (decide (j = i)); simpl; rewrite app_nil_r; by apply Hg. }
  destruct (lookup_lt_is_Some_2 _ _ Hi) as [w Hw].
  pose proof (Forall_lookup_1 _ _ _ _ (ok_workers _ Hok) Hw) as Hwok.
  destruct Hok as [Hws Hh0 Hd0].
  destruct (handleEvents_given events w Hwok) as (err & w' & E & Hwok' & Hor).
  apply wp_bind. eexists _, _. unfold onWorker. rewrite Hw. unfold mbind, outcome_bind. rewrite E.
  split; [done|]. destruct Hor as [[-> Hgiven]|[-> ->]].
  - rewrite bool_decide_false by done. apply wp_modify.
    assert (EventsHandled p +! zlen events = EventsHandled p + zlen events) as Hnw
      by (apply wrap64_id; unfold in_int, int_min; lia).
    split_and!; [split; simpl; [by apply Forall_insert|rewrite Hnw; lia|done]|unfold samePool; simpl; by rewrite length_insert|simpl; rewrite Hnw; lia|].
    intros Hh Hg Hd j wj. simpl in *. destruct (decide (j = i)) as [->|Hne].
    + rewrite list_lookup_insert_eq by done. intros [= <-]. apply Hgiven; [done|]. by apply Hg.
    + rewrite list_lookup_insert_ne by done. rewrite app_nil_r. by apply Hg.
  - rewrite bool_decide_true by done. apply wp_modify. rewrite list_insert_id by done.
    assert (EventsDropped p +! zlen events = EventsDropped p + zlen events) as Hnw
      by (apply wrap64_id; unfold in_int, int_min; lia).
    split_and!; [split; simpl; [done..|rewrite Hnw; lia]|done|simpl; rewrite Hnw; lia|].
    intros _ _ Hd. simpl in Hd. rewrite Hnw in Hd. lia.
Qed.

Lemma samePool_trans p1 p2 p3 : samePool p1 p2 -> samePool p2 p3 -> samePool p1 p3.
Proof. unfold samePool. intros (? & ? & ?) (? & ? & ?). split_and!; congruence. Qed.

Lemma pool_given_ext p g g' : (forall i, g i = g' i) -> pool_given p g -> pool_given p g'.
Proof. intros E Hg Hd i w Hw. rewrite <- E. by apply Hg. Qed.

(** What the send loop gives worker [j] when it starts at worker [i]. *)
Definition sent (i : nat) (per : list (list Event)) (j : nat) : list keyInfo :=
  if decide (i <= j)%nat then kiOf <$> default [] (per !! (j - i)%nat) else [].

Lemma sent_cons i events per j :
  sent i (events :: per) j = (if decide (j = i) then kiOf <$> events else []) ++ sent (S i) per j.
Proof.
  unfold sent. destruct (decide (j = i)) as [->|Hne].
  - rewrite decide_True, Nat.sub_diag, decide_False by lia. simpl. by rewrite app_nil_r.
  - destruct (decide (i <= j)%nat), (decide (S i <= j)%nat); try lia; [|done].
    by replace (j - i)%nat with (S (j - S i)) by lia.
Qed.

Lemma sendLoop_spec per : forall i p given,
  pool_ok p -> (i + length per = length (workers p))%nat ->
  EventsHandled p + EventsDropped p + sumZ zlen per <= int_max ->
  wp (sendLoop i per) (fun _ p' => pool_ok p' /\ samePool p p' /\
    EventsHandled p' + EventsDropped p' = EventsHandled p + EventsDropped p + sumZ zlen per /\
    (Forall (fun evts => hits evts) per -> pool_given p given -> pool_given p' (fun j => given j ++ sent i per j))) p.
Proof.
  induction per as [|events per IH]; intros i p given Hok Hlen Hmax; cbn [sendLoop sumZ foldr] in *.
  { apply wp_ret. split_and!; [done..|lia|]. intros _ Hg. eapply pool_given_ext; [|exact Hg]. intros j.
    unfold sent. destruct (decide _); simpl; by rewrite app_nil_r. }
  simpl in Hlen.
  assert (0 <= sumZ zlen per) by (apply sumZ_nonneg, Forall_true; auto with go).
  unfold sumZ in *. apply wp_bind. eapply wp_mono; [|apply (send_spec i events p given); auto; lia].
  intros _ p1 (Hok1 & Hsame1 & Hsum1 & Hg1).
  eapply wp_mono; [|eapply (IH (S i) p1); [done|destruct Hsame1 as (_ & -> & _); lia|lia]].
  intros _ p2 (Hok2 & Hsame2 & Hsum2 & Hg2).
  split_and!; [done|by eapply samePool_trans|lia|].
  intros [Hh1 Hh]%Forall_cons Hg. eapply pool_given_ext; [|exact (Hg2 Hh (Hg1 Hh1 Hg))]. intros j. by rewrite sent_cons, app_assoc.
Qed.

Lemma sumZ_lookup (per : list (list Event)) n : length per = n ->
  sumZ zlen per = sumZ (fun i => zlen (default [] (per !! i))) (seq 0 n).
Proof.
  intros <-. induction per as [|l per IH] using rev_ind; [done|].
  rewrite length_app, Nat.add_1_r, seq_S, !sumZ_app. simpl. f_equal.
  - rewrite IH. apply sumZ_ext. intros i Hi. apply elem_of_seq in Hi.
    by rewrite lookup_app_l by lia.
  - by rewrite list_lookup_middle.
Qed.

Lemma filterEvents_hits evts f : Forall (fun e => isHit e = true) evts ->
  Forall (fun e => isHit e = true) (filterEvents evts f).
Proof. destruct f; [|done]. apply Forall_List_filter. Qed.

Lemma HandleEvents_spec evts p given :
  pool_ok p -> 0 < zlen (workers p) <= int_max ->
  EventsHandled p + EventsDropped p + zlen (filterEvents evts (filter_ p)) <= int_max ->
  wp (HandleEvents evts) (fun _ p' => pool_ok p' /\ samePool p p' /\
    EventsHandled p' + EventsDropped p' =
      EventsHandled p + EventsDropped p + zlen (filterEvents evts (filter_ p)) /\
    (hits evts -> pool_given p given -> pool_given p' (fun j => given j ++
      (kiOf <$> shard (zlen (workers p)) (Z.of_nat j) (filterEvents evts (filter_ p)))))) p.
Proof.
  intros Hok Hn Hmax.
  set (fe := filterEvents evts (filter_ p)) in *.
  destruct (partitionEvents_spec fe p Hn) as (per & E & Hlen & Hper).
  assert (sumZ zlen per = zlen fe) as Hsum.
  { rewrite (sumZ_lookup per _ Hlen).
    replace (length (workers p)) with (Z.to_nat (zlen (workers p))) in * by (unfold zlen; lia).
    rewrite (sumZ_ext _ (fun i => zlen (shard (zlen (workers p)) (Z.of_nat i) fe))).
    - rewrite shard_sum by lia. f_equal. apply List_filter_all.
      intros e. apply Z.ltb_lt, slotOf_range. lia.
    - intros i Hi. apply elem_of_seq in Hi. by rewrite Hper by lia. }
  assert (hits evts -> Forall (fun evts => hits evts) per) as Hhp.
  { intros Hh. apply (filterEvents_hits _ (filter_ p)) in Hh. apply Forall_lookup. intros i l Hi. rewrite Hper in Hi by (rewrite <- Hlen; by eapply lookup_lt_Some).
    injection Hi as <-. by apply Forall_List_filter. }
  destruct (sendLoop_spec per 0 p given Hok) as (a & p' & E' & Hok' & Hsame & Hs & Hg'); [done|lia|].
  exists a, p'. split; [unfold HandleEvents; fold fe; unfold mbind, outcome_bind; by rewrite E|].
  split_and!; [done..|lia|]. intros Hh Hg Hd j w Hw. specialize (Hg' (Hhp Hh) Hg Hd j w Hw).
  unfold sent in Hg'. rewrite decide_True, Nat.sub_0_r, Hper in Hg'; [done| |lia].
  destruct Hsame as (_ & Hl & _). rewrite <- Hl. by eapply lookup_lt_Some.
Qed.

(** ** Lemmas: runs *)

(** The pool after a run that offered [evts], any events, to a pool that had counted
    [b] before. *)
Record counts_inv (n k : Z) (f : option regexp) (b : Z) (evts : list Event) (p : Pool) : Prop := {
  counts_ok : pool_ok p;
  counts_workers : zlen (workers p) = n;
  counts_size : reportSize p = k;
  counts_filter : filter_ p = f;
  counts_total : EventsHandled p + EventsDropped p = b + zlen (filterEvents evts f)
}.

(** The pool after a run that offered the hits [evts] to a new pool. *)
Record run_inv (n k : Z) (f : option regexp) (evts : list Event) (p : Pool) : Prop := {
  run_ok : pool_ok p;
  run_workers : zlen (workers p) = n;
  run_size : reportSize p = k;
  run_filter : filter_ p = f;
  run_count : EventsHandled p + EventsDropped p = zlen (filterEvents evts f);
  run_given : pool_given p (fun j => kiOf <$> shard n (Z.of_nat j) (filterEvents evts f))
}.

Lemma filterEvents_app e1 e2 f : filterEvents (e1 ++ e2) f = filterEvents e1 f ++ filterEvents e2 f.
Proof. destruct f; [apply List.filter_app|done]. Qed.

Lemma filterEvents_zlen evts f : zlen (filterEvents evts f) <= zlen evts.
Proof.
  destruct f as [re|]; [|done]. unfold filterEvents, zlen.
  pose proof (List.filter_length_le (fun r => MatchString re (Key r)) evts). lia.
Qed.

Lemma act_counts n k f b evts a p :
  0 < n <= int_max -> counts_inv n k f b evts p -> b + zlen (evts ++ offered [a]) <= int_max ->
  wp (act a) (fun _ p' => counts_inv n k f b (evts ++ offered [a]) p') p.
Proof.
  intros Hn [Hok Hw Hk Hf Hc] Hmax. destruct a as [new|i]; unfold offered in *; cbn in Hmax |- *.
  - rewrite app_nil_r in *. pose proof (filterEvents_zlen (evts ++ new) f) as Hl.
    rewrite filterEvents_app, zlen_app in Hl.
    destruct (HandleEvents_spec new p (fun _ => []) Hok) as (a & p' & E & Hok' & (Hk' & Hw' & Hf') & Hc' & _);
      [lia|rewrite Hf; lia|].
    exists a, p'. split; [done|]. split; [done|unfold zlen in *; lia|congruence|congruence|].
    rewrite filterEvents_app, zlen_app, Hc', Hf. lia.
  - rewrite app_nil_r. unfold wp, act.
    destruct (workers p !! i) as [w|] eqn:Hi; [|by eexists _, _].
    simpl. destruct (loopRecv w) as [w'|] eqn:Er; [|by eexists _, _].
    destruct (loopRecv_given w w' [] Er (Forall_lookup_1 _ _ _ _ (ok_workers _ Hok) Hi)) as [Hok' _].
    eexists _, _. split; [done|]. split; simpl; try done; [by apply set_worker_ok|]. unfold zlen in *. by rewrite length_insert.
Qed.

Lemma act_inv n k f evts a p :
  0 < n <= int_max -> run_inv n k f evts p -> Forall (fun e => isHit e = true) (offered [a]) ->
  zlen (evts ++ offered [a]) <= int_max ->
  wp (act a) (fun _ p' => run_inv n k f (evts ++ offered [a]) p') p.
Proof.
  intros Hn [Hok Hw Hk Hf Hc Hg] Hh Hmax. destruct a as [new|i]; unfold offered in *; cbn in Hh, Hmax |- *.
  - rewrite app_nil_r in *. pose proof (filterEvents_zlen (evts ++ new) f) as Hl.
    rewrite filterEvents_app, zlen_app in Hl.
    destruct (HandleEvents_spec new p (fun j => kiOf <$> shard n (Z.of_nat j) (filterEvents evts f)) Hok)
      as (a & p' & E & Hok' & (Hk' & Hw' & Hf') & Hc' & Hg'); [lia|rewrite Hf; lia|]. specialize (Hg' Hh Hg).
    exists a, p'. split; [done|]. split; [done|unfold zlen in *; lia|congruence|congruence|rewrite filterEvents_app, zlen_app; congruence|].
    eapply pool_given_ext; [|exact Hg']. intros j. cbn beta.
    by rewrite Hw, Hf, filterEvents_app; unfold shard; rewrite List.filter_app, fmap_app.
  - rewrite app_nil_r. unfold wp, act.
    destruct (workers p !! i) as [w|] eqn:Hi; [|by eexists _, _].
    simpl. destruct (loopRecv w) as [w'|] eqn:Er; [|by eexists _, _].
    destruct (loopRecv_given w w' [] Er (Forall_lookup_1 _ _ _ _ (ok_workers _ Hok) Hi)) as [Hok' _].
    eexists _, _. split; [done|]. split; simpl; try done.
    + by apply set_worker_ok.
    + unfold zlen in *. by rewrite length_insert.
    + intros Hd j wj. simpl. destruct (decide (j = i)) as [->|Hne].
      * rewrite list_lookup_insert_eq by (by eapply lookup_lt_Some). intros [= <-].
        eapply (loopRecv_given w w' _ Er); [by eapply Forall_lookup_1; [apply Hok|]|by apply Hg].
      * rewrite list_lookup_insert_ne by done. by apply Hg.
Qed.

Lemma offered_cons a acts : offered (a :: acts) = offered [a] ++ offered acts.
Proof. unfold offered. simpl. by rewrite app_nil_r. Qed.

Lemma run_inv_run n k f acts : forall evts p,
  0 < n <= int_max -> run_inv n k f evts p -> Forall (fun e => isHit e = true) (offered acts) ->
  zlen (evts ++ offered acts) <= int_max ->
  wp (run acts) (fun _ p' => run_inv n k f (evts ++ offered acts) p') p.
Proof.
  induction acts as [|a acts IH]; intros evts p Hn Hinv Hh Hmax; cbn [run].
  { apply wp_ret. by rewrite app_nil_r. }
  rewrite offered_cons, app_assoc in *. apply Forall_app in Hh as [Hh1 Hh].
  assert (zlen (evts ++ offered [a]) <= int_max)
    by (rewrite zlen_app in Hmax; pose proof (zlen_nonneg (offered acts)); lia).
  apply wp_bind. eapply wp_mono; [|by apply (act_inv n k f evts a p)].
  intros ? p' Hinv'. by apply IH.
Qed.

Lemma counts_run n k f b acts : forall evts p,
  0 < n <= int_max -> counts_inv n k f b evts p -> b + zlen (evts ++ offered acts) <= int_max ->
  wp (run acts) (fun _ p' => counts_inv n k f b (evts ++ offered acts) p') p.
Proof.
  induction acts as [|a acts IH]; intros evts p Hn Hinv Hmax; cbn [run].
  { apply wp_ret. by rewrite app_nil_r. }
  rewrite offered_cons, app_assoc in *.
  assert (b + zlen (evts ++ offered [a]) <= int_max)
    by (rewrite zlen_app in Hmax; pose proof (zlen_nonneg (offered acts)); lia).
  apply wp_bind. eapply wp_mono; [|by apply (act_counts n k f b evts a p)].
  intros ? p' Hinv'. by apply IH.
Qed.

(** A well formed pool, before a run. *)
Lemma counts_start (p : Pool) : pool_ok p ->
  counts_inv (zlen (workers p)) (reportSize p) (filter_ p) (EventsHandled p + EventsDropped p) [] p.
Proof. intros Hok. split; [done..|]. destruct (filter_ p); cbn; change (zlen []) with 0; lia. Qed.

Lemma New_inv n k f : 0 <= n -> exists p,
  New n k = Ret p /\ run_inv n k f [] (set_filter f p).
Proof.
  intros Hn. unfold New. destruct (Z.ltb_spec n 0); [lia|]. eexists. split; [done|]. split; simpl; try done.
  - split; [|done..]. by apply Forall_replicate.
  - unfold zlen. rewrite length_replicate. lia.
  - by destruct f.
  - intros _ i w Hi. apply lookup_replicate in Hi as [-> _]. exists []. simpl.
    split; [|apply hl_New_law]. by destruct f.
Qed.

(** ** Lemmas: reports *)

Definition iterates (order : list (keyInfo * Z)) (w : worker) : Prop :=
  order ≡ₚ map_to_list (hl_counts (hl w)).

Definition resetW (w : worker) : worker := set_hl (hl_Reset (hl w)) w.

Lemma reportLoop_spec b orders : forall p i,
  Forall2 iterates orders (drop i (workers p)) -> Forall worker_ok (workers p) -> 0 <= reportSize p ->
  wp (reportLoop b i orders) (fun entries p' => exists ess, entries = concat ess /\
    Forall2 (fun es w => topOf (hl_counts (hl w)) (reportSize p) es) ess (drop i (workers p)) /\
    p' = set_workers (take i (workers p) ++
           (if b then resetW <$> drop i (workers p) else drop i (workers p))) p) p.
Proof.
  induction orders as [|order orders IH]; intros p i Ho Hok Hk; cbn [reportLoop].
  - apply Forall2_nil_inv_l in Ho. rewrite Ho. apply wp_ret. exists []. split_and!; [done..|].
    assert ((if b then resetW <$> [] else []) = []) as -> by by destruct b.
    rewrite <- Ho, take_drop. by destruct p.
  - destruct (drop i (workers p)) as [|w ws] eqn:Ew; [by apply Forall2_nil_inv_r in Ho|].
    apply Forall2_cons in Ho as [Horder Ho].
    assert (workers p !! i = Some w) as Hi by (by rewrite <- (Nat.add_0_r i), <- lookup_drop, Ew).
    pose proof (Forall_lookup_1 _ _ _ _ Hok Hi) as (Hc & Hd & Hq).
    destruct (hl_Top_law order (reportSize p) (hl w) Horder Hk) as (es & Etop & Hes).
    apply wp_bind, wp_gets, wp_bind. unfold onWorker at 1.
    exists es, p. split.
    { rewrite Hi. unfold top. rewrite Hd. unfold mbind, outcome_bind. rewrite Etop.
      rewrite list_insert_id by done. by destruct p. }
    set (w' := if b then resetW w else w).
    set (p1 := set_workers (<[i := w']> (workers p)) p).
    assert (drop (S i) (workers p) = ws) as Ews by (by rewrite <- Nat.add_1_r, <- drop_drop, Ew).
    assert (drop (S i) (workers p1) = ws) as Ews1
      by (simpl; rewrite drop_insert_lt by lia; done).
    assert (take (S i) (workers p1) = take i (workers p) ++ [w']) as Et.
    { simpl. rewrite (take_S_r _ i w'); [|apply list_lookup_insert_eq; by eapply lookup_lt_Some].
      by rewrite take_insert_ge by lia. }
    apply wp_bind. exists tt, p1. split.
    { unfold p1, w'. destruct b.
      - unfold onWorker, reset. rewrite Hi, Hd. done.
      - rewrite list_insert_id by done. by destruct p. }
    apply wp_bind. eapply wp_mono; [|apply (IH p1 (S i))].
    + intros entries p2 (ess & -> & Hess & ->). apply wp_ret. exists (es :: ess).
      rewrite Ews1 in *. split_and!; [done|by constructor|].
      unfold p1. simpl in Et |- *. rewrite Et, <- app_assoc. simpl.
      unfold w', set_workers. by destruct b.
    + by rewrite Ews1.
    + simpl. apply Forall_insert; [done|]. unfold w', worker_ok. by destruct b.
    + done.
Qed.

(** A top that is large enough is the whole map. *)
Lemma topOf_all (m : gmap keyInfo Z) k es : topOf m k es -> Z.of_nat (size m) <= k ->
  forall x, x ∈ (item <$> es) <-> is_Some (m !! x).
Proof.
  intros [Hlen Hnd Hcounts _ _] Hk x. rewrite Forall_forall in Hcounts.
  assert (item <$> es ≡ₚ (map_to_list m).*1) as Hp.
  { apply submseteq_length_Permutation.
    - apply NoDup_submseteq; [done|]. intros y (e & -> & He)%list_elem_of_fmap.
      destruct (Hcounts e He) as [Hy _]. apply list_elem_of_fmap. exists (item e, count e).
      split; [done|]. by apply elem_of_map_to_list.
    - rewrite !length_fmap, length_map_to_list. unfold zlen in Hlen. lia. }
  rewrite Hp, list_elem_of_fmap. split.
  - intros ([y c] & -> & Hy%elem_of_map_to_list). by exists c.
  - intros [c Hc]. exists (x, c). split; [done|]. by apply elem_of_map_to_list.
Qed.

Lemma kiOf_shard n i evts : Forall (fun e => isHit e = true) evts ->
  kiOf <$> shard n i evts = List.filter (fun x => slotOf n (name x) =? i) (kiOf <$> evts).
Proof.
  unfold shard. induction 1 as [|e es He Hes IH]; [done|]. cbn [List.filter]. rewrite fmap_cons.
  cbn [List.filter]. assert (name (kiOf e) = Key e) as -> by (unfold kiOf; by rewrite He).
  destruct (_ =? i); by rewrite ?fmap_cons, IH.
Qed.

Lemma occ_filter g x l : g x = true -> occ x (List.filter g l) = occ x l.
Proof.
  intros Hg. induction l as [|y l IH]; [done|]. rewrite (occ_app x [y] l : occ x (y :: l) = _).
  cbn [List.filter]. destruct (g y) eqn:E.
  - by rewrite (occ_app x [y] (List.filter g l) : occ x (y :: _) = _), IH.
  - rewrite occ_single, IH. destruct (decide (x = y)) as [->|]; [congruence|done].
Qed.

(** Every line of the report of a drained pool is the line of an item. *)
Lemma drained_entries n k f evts p i w es :
  run_inv n k f evts p -> Forall (fun e => isHit e = true) evts -> zlen evts <= int_max ->
  EventsDropped p = 0 -> workers p !! i = Some w -> kisChan w = [] ->
  let l := kiOf <$> filterEvents evts f in
  Z.of_nat (length (remove_dups l)) <= k -> topOf (hl_counts (hl w)) k es ->
  (forall x, x ∈ (item <$> es) <-> x ∈ l /\ slotOf n (name x) = Z.of_nat i) /\
  Forall (fun e => keyReport e = lineOf l (item e)) es.
Proof.
  intros [Hok Hw Hk Hf Hc Hg] Hh Hmax Hd Hi Hq l Hsize Htop.
  destruct (Hg Hd i w Hi) as (don & Hdone & Hcounts). rewrite Hq in Hdone. simpl in Hdone.
  rewrite app_nil_r in Hdone. subst don. rewrite kiOf_shard in Hcounts by by apply filterEvents_hits.
  fold l in Hcounts. set (li := List.filter _ l) in Hcounts.
  assert (forall x, x ∈ li <-> x ∈ l /\ slotOf n (name x) = Z.of_nat i) as Hin.
  { intros x. unfold li. rewrite List_filter_elem, Z.eqb_eq. done. }
  assert (zlen li <= int_max) as Hlen.
  { unfold li, zlen. pose proof (List.filter_length_le (fun x => slotOf n (name x) =? Z.of_nat i) l).
    unfold l in *. rewrite length_fmap in *. pose proof (filterEvents_zlen evts f). unfold zlen in *. lia. }
  rewrite Hcounts in Htop.
  assert (forall x, is_Some (countsOf li !! x) <-> x ∈ li) as Hdom.
  { intros x. rewrite countsOf_lookup by done. case_bool_decide; [by split; eauto|].
    split; [by intros []|done]. }
  assert (Z.of_nat (size (countsOf li)) <= k) as Hle.
  { etrans; [|exact Hsize]. rewrite <- length_map_to_list, <- (length_fmap fst). apply inj_le.
    apply submseteq_length, NoDup_submseteq; [apply NoDup_fst_map_to_list|].
    intros x ([y c] & -> & Hy%elem_of_map_to_list)%list_elem_of_fmap.
    apply elem_of_remove_dups, Hin, Hdom. by exists c. }
  split.
  - intros x. by rewrite (topOf_all _ _ _ Htop Hle), Hdom, Hin.
  - eapply Forall_impl; [apply (top_counts _ _ _ Htop)|]. intros e [He _].
    rewrite countsOf_lookup in He by done. case_bool_decide as Hel; [|done]. injection He as He.
    apply Hin in Hel as [_ Hslot]. unfold li in He. rewrite occ_filter in He by by apply Z.eqb_eq.
    unfold keyReport, lineOf. by rewrite He.
Qed.

Lemma reportLess_strict : strictWeak reportLess.
Proof. split; unfold reportLess; intros; repeat (zcase || done); lia. Qed.

Lemma report_sorted l : StronglySorted (fun a b => TrafficEstimate b <= TrafficEstimate a) (sort_Sort reportLess l).
Proof.
  pose proof (sort_Sort_sorted _ l reportLess_strict) as Hs.
  induction Hs as [|a l' Hs IH Ha]; constructor; [done|].
  eapply Forall_impl; [exact Ha|]. unfold reportLess. intros b ?. by apply Z.ltb_ge.
Qed.

Lemma Report_spec b now orders p :
  Forall2 iterates orders (workers p) -> Forall worker_ok (workers p) ->
  0 <= reportSize p -> 0 <= reportSize p * zlen (workers p) <= int_max ->
  wp (Report now orders b) (fun rep p' => exists ess, 
    Keys rep = sort_Sort reportLess (keyReport <$> concat ess) /\ Timestamp rep = now /\
    Forall2 (fun es w => topOf (hl_counts (hl w)) (reportSize p) es) ess (workers p) /\
    p' = set_workers (if b then resetW <$> workers p else workers p) p) p.
Proof.
  intros Ho Hok Hk Hkn. unfold wp, Report.
  rewrite wrap64_id by (unfold in_int, int_min; lia). destruct (Z.ltb_spec (reportSize p * zlen (workers p)) 0); [lia|].
  destruct (reportLoop_spec b orders p 0) as (entries & p' & E & ess & -> & Hess & ->); [done..|].
  rewrite drop_0 in Hess. unfold mbind, outcome_bind. rewrite E. eexists _, _. split; [done|].
  exists ess. by destruct b.
Qed.

(** ** Properties *)

(** The entries of a drained pool that dropped nothing, turned into lines. *)
Lemma exact_keys n k f evts p ess :
  0 < n -> run_inv n k f evts p -> Forall (fun e => isHit e = true) evts -> zlen evts <= int_max ->
  EventsDropped p = 0 -> Forall (fun w => kisChan w = []) (workers p) ->
  Forall2 (fun es w => topOf (hl_counts (hl w)) k es) ess (workers p) ->
  let l := kiOf <$> filterEvents evts f in
  Z.of_nat (length (remove_dups l)) <= k ->
  keyReport <$> concat ess ≡ₚ lineOf l <$> remove_dups l.
Proof.
  intros Hn Hinv Hh Hmax Hd Hq Hess l Hsize. pose proof (run_workers _ _ _ _ _ Hinv) as Hw.
  assert (forall i es, ess !! i = Some es ->
    (forall x, x ∈ (item <$> es) <-> x ∈ l /\ slotOf n (name x) = Z.of_nat i) /\
    Forall (fun e => keyReport e = lineOf l (item e)) es /\ NoDup (item <$> es)) as Hes.
  { intros i es Hi. destruct (Forall2_lookup_l _ _ _ _ _ Hess Hi) as (w & Hwi & Htop).
    pose proof (Forall_lookup_1 _ _ _ _ Hq Hwi) as Hqw.
    destruct (drained_entries n k f evts p i w es Hinv Hh Hmax Hd Hwi Hqw Hsize Htop) as [Hx Hl].
    split_and!; [done..|apply Htop]. }
  assert (keyReport <$> concat ess = lineOf l <$> (item <$> concat ess)) as ->.
  { rewrite <- list_fmap_compose. apply list_fmap_ext. intros j e He.
    apply list_elem_of_lookup_2 in He. apply elem_of_concat in He as (es & He & (i & Hi)%list_elem_of_lookup_1).
    destruct (Hes i es Hi) as (_ & Hl & _). rewrite Forall_forall in Hl. by apply Hl. }
  f_equiv. rewrite fmap_concat. apply NoDup_Permutation.
  - apply (NoDup_concat_keyed (fun x => Z.to_nat (slotOf n (name x))) _ 0).
    intros i xs Hi. rewrite list_lookup_fmap in Hi. apply fmap_Some in Hi as (es & Hi & ->).
    destruct (Hes i es Hi) as (Hx & _ & Hnd). split; [done|]. apply Forall_forall.
    intros x [_ Hslot]%Hx. lia.
  - apply NoDup_remove_dups.
  - intros x. rewrite elem_of_remove_dups, elem_of_concat. split.
    + intros (xs & Hx & Hxs). apply list_elem_of_fmap in Hxs as (es & -> & (i & Hi)%list_elem_of_lookup_1).
      by apply (Hes i es Hi).
    + intros Hx. pose proof (slotOf_range n (name x) ltac:(lia)) as Hs.
      destruct (lookup_lt_is_Some_2 ess (Z.to_nat (slotOf n (name x)))) as [es Hi].
      { rewrite (Forall2_length _ _ _ Hess). unfold zlen in Hw. lia. }
      exists (item <$> es). split; [apply (Hes _ _ Hi); split; [done|lia]|].
      apply list_elem_of_fmap. exists es. split; [done|]. by eapply list_elem_of_lookup_2.
Qed.

Lemma report_exact_run n k f acts now :
  0 < n <= int_max -> 0 <= k -> k * n <= int_max ->
  Forall (fun e => isHit e = true) (offered acts) -> zlen (offered acts) <= int_max ->
  exists p0 p, New n k = Ret p0 /\ run acts (set_filter f p0) = Ret (tt, p) /\
    forall orders, EventsDropped p = 0 -> Forall (fun w => kisChan w = []) (workers p) ->
      Forall2 iterates orders (workers p) ->
      let l := kiOf <$> filterEvents (offered acts) f in
      Z.of_nat (length (remove_dups l)) <= k ->
      exists rep, Report now orders false p = Ret (rep, p) /\
        Keys rep ≡ₚ lineOf l <$> remove_dups l /\
        StronglySorted (fun a b => TrafficEstimate b <= TrafficEstimate a) (Keys rep).
Proof.
  intros Hn Hk Hkn Hh Hmax. destruct (New_inv n k f) as (p0 & E0 & Hinv0); [lia|].
  destruct (run_inv_run n k f acts [] _ Hn Hinv0 Hh Hmax) as ([] & p & E & Hinv).
  exists p0, p. split_and!; [done..|]. intros orders Hd Hq Ho l Hsize.
  pose proof Hinv as [Hok Hw Hrk Hf Hc _].
  destruct (Report_spec false now orders p Ho (ok_workers _ Hok)) as (rep & p' & Er & ess & HK & _ & Hess & ->);
    [lia|rewrite Hw, Hrk; lia|].
  assert (set_workers (workers p) p = p) as Hp by (by destruct p). rewrite Hp in Er.
  exists rep. rewrite HK. split_and!; [done| |apply report_sorted]. rewrite sort_Sort_perm.
  eapply exact_keys; try done; [lia|]. by rewrite Hrk in Hess.
Qed.


(** The report is exact when calls are made one at a time.  However batches of hits interleave with the
    workers' receives, the pool never panics or blocks; once its queues are
    drained with nothing dropped, the report has exactly one line per distinct
    (key, size) that passes the filter, with its exact count, in descending
    order of traffic. *)
Theorem report_exact n k f acts now :
  0 < n <= int_max -> 0 <= k -> k * n <= int_max ->
  Forall (fun e => isHit e = true) (offered acts) -> zlen (offered acts) <= int_max ->
  exists p0 p, New n k = Ret p0 /\ run acts (set_filter f p0) = Ret (tt, p) /\
    forall orders, EventsDropped p = 0 -> Forall (fun w => kisChan w = []) (workers p) ->
      Forall2 iterates orders (workers p) ->
      let l := kiOf <$> filterEvents (offered acts) f in
      Z.of_nat (length (remove_dups l)) <= k ->
      exists rep, Report now orders false p = Ret (rep, p) /\
        Keys rep ≡ₚ lineOf l <$> remove_dups l /\
        StronglySorted (fun a b => TrafficEstimate b <= TrafficEstimate a) (Keys rep).
Proof. apply report_exact_run. Qed.

(** Every event is accounted for.  In any run of hits the pool never panics
    or blocks, the counters of handled and dropped events sum to the number of
    events that passed the filter, and no queue exceeds its capacity. *)
Theorem events_accounted n k f acts :
  0 < n <= int_max -> Forall (fun e => isHit e = true) (offered acts) ->
  zlen (offered acts) <= int_max ->
  exists p0 p, New n k = Ret p0 /\ run acts (set_filter f p0) = Ret (tt, p) /\
    EventsHandled p + EventsDropped p = zlen (filterEvents (offered acts) f) /\
    Forall (fun w => zlen (kisChan w) <= kisCap) (workers p).
Proof.
  intros Hn Hh Hmax. destruct (New_inv n k f) as (p0 & E0 & Hinv0); [lia|].
  destruct (run_inv_run n k f acts [] _ Hn Hinv0 Hh Hmax) as ([] & p & E & [Hok _ _ _ Hc _]).
  exists p0, p. split_and!; [done..|]. eapply Forall_impl; [apply Hok|]. by intros w (_ & _ & ?).
Qed.

(** The partition sends every event to the worker that its key hashes to,
    and keeps the order of the events of each worker. *)
Theorem partitionEvents_shards evts p :
  0 < zlen (workers p) <= int_max ->
  exists per, partitionEvents evts p = Ret per /\ length per = length (workers p) /\
    forall i, (i < length (workers p))%nat ->
      per !! i = Some (shard (zlen (workers p)) (Z.of_nat i) evts).
Proof. apply partitionEvents_spec. Qed.

(** A batch of any events reaches an open queue with room as the items of
    the hits, in order; an event that is not a hit but precedes one leaves a
    zero item in its place.  A full queue refuses the batch, and a closed one
    panics. *)
Theorem worker_handleEvents_batch evts w :
  worker_handleEvents evts w =
    if kisClosed w then Panic
    else if zlen (kisChan w) <? kisCap
    then Ret (None, set_kisChan (kisChan w ++ [kiOf <$> uptoLastHit evts]) w)
    else Ret (Some errQueueFull, w).
Proof.
  unfold worker_handleEvents. rewrite copyEvents_spec by done. by destruct (uptoLastHit evts).
Qed.

(** Resetting every worker. *)
Lemma resetLoop_spec : forall done todo p, workers p = done ++ todo -> Forall worker_ok todo ->
  resetLoop (seq (length done) (length todo)) p = Ret (tt, set_workers (done ++ (resetW <$> todo)) p).
Proof.
  intros don todo. revert don. induction todo as [|w todo IH]; intros don p Hw Hok; cbn [length seq resetLoop].
  { simpl. rewrite app_nil_r in *. rewrite <- Hw. by destruct p. }
  apply Forall_cons in Hok as [(Hc & Hd & Hq) Hok]. unfold mbind, gom_bind, onWorker.
  rewrite Hw, list_lookup_middle by done. unfold reset at 1. rewrite Hd. unfold mbind, outcome_bind.
  rewrite insert_middle. change (set_hl _ w) with (resetW w).
  replace (S (length don)) with (length (don ++ [resetW w])) by (rewrite length_app; simpl; lia).
  rewrite IH; simpl; [|by rewrite <- app_assoc|done]. by rewrite <- app_assoc.
Qed.

(** A pattern that does not compile changes nothing.  One that does
    replaces the filter (the empty pattern removes it) and empties every hot
    list, leaving the queues and the counters. *)
Theorem SetFilterPattern_spec pattern p :
  pool_ok p ->
  SetFilterPattern pattern p =
    match (if bool_decide (pattern = []) then inl None
           else match Compile pattern with inl r => inl (Some r) | inr e => inr e end) with
    | inr e => Ret (Some e, p)
    | inl f => Ret (None, set_filter f (set_workers (resetW <$> workers p) p))
    end.
Proof.
  intros Hok. unfold SetFilterPattern, setPattern.
  assert (forall f, Reset (set_filter f p) = Ret (tt, set_filter f (set_workers (resetW <$> workers p) p))) as HR.
  { intros f. apply (resetLoop_spec [] (workers p) (set_filter f p)); [done|apply Hok]. }
  destruct pattern as [|b pattern].
  - simpl. unfold mbind, gom_bind. by rewrite HR.
  - rewrite bool_decide_true, bool_decide_false by done. destruct (Compile _) as [r|e].
    + unfold mbind, gom_bind. by rewrite HR.
    + by destruct p.
Qed.

(** A report with reset returns the heaviest entries of every worker and
    leaves all hot lists empty, without touching what is queued. *)
Theorem Report_resets now orders p :
  pool_ok p -> Forall2 iterates orders (workers p) ->
  0 <= reportSize p -> 0 <= reportSize p * zlen (workers p) <= int_max ->
  exists rep p', Report now orders true p = Ret (rep, p') /\
    zlen (Keys rep) = sumZ (fun w => Z.min (reportSize p) (Z.of_nat (size (hl_counts (hl w))))) (workers p) /\
    Forall (fun w => hl_counts (hl w) = ∅) (workers p') /\
    kisChan <$> workers p' = kisChan <$> workers p.
Proof.
  intros Hok Ho Hk Hkn.
  destruct (Report_spec true now orders p Ho (ok_workers _ Hok) Hk Hkn) as (rep & p' & E & ess & HK & _ & Hess & ->).
  exists rep, (set_workers (resetW <$> workers p) p). split_and!; [done| | |].
  - rewrite HK. unfold zlen. rewrite sort_Sort_perm, length_fmap. clear -Hess.
    induction Hess as [|es w ess ws Hes Hess IH]; [done|]. simpl. rewrite length_app.
    pose proof (top_length _ _ _ Hes). unfold zlen in *. lia.
  - simpl. apply Forall_fmap, Forall_true. intros w. apply hl_Reset_law.
  - simpl. by rewrite <- list_fmap_compose.
Qed.

End analysis.
