(* ===== verification/Callers.v ===== *)
(** * analysis: the pool under concurrent callers

    Analysis.v has the operations of the pool as one goroutine sees them.  Here
    they are called from several goroutines at once: [callerStep] is one step of
    a caller, up to its next operation on a channel, the filter or the counters,
    and [workerRecv] a receive of a worker.  The channels topRequest, topReply
    and resetRequest are unbuffered, so a step on them is a step of both sides:
    a worker that has taken a request for its top entries waits in [replies]
    until they are fetched. *)
From Stdlib Require Import Strings.Byte.
From S2P Require Import Prelude GoLib Buffer Reader Model Hotlist Analysis.
Local Open Scope Z_scope.

(** ** Definitions *)

(** What a goroutine calls. *)
Inductive task : Type :=
  | CallHandleEvents (evts : list Event)
  | CallReport (shouldReset : bool)
  | CallReset
  | CallSetFilterPattern (pattern : bytes).

Section callers.
  Context {H : Type} {HHot : HotList H keyInfo} {HRe : RegexpPkg} {HSort : SortPkg}.
  (* the order in which a map iteration finds the entries of a hot list, and the
     time, at each step *)
  Context (iteration : nat -> H -> list (keyInfo * Z)) (clock : nat -> Z).

Local Abbreviation entries := (list (itemCount keyInfo)).

(** Where a caller is: before its first step; in the loop of HandleEvents, at
    worker [i] or at the counters; in the loop of Report, at [w.topRequest <- k],
    at [<-w.topReply] or in [w.reset()]; in the loop of Reset; or past its end. *)
Inductive caller : Type :=
  | Starting (t : task)
  | Sending (i : nat) (perWorkerEvents : list (list Event))
  | Counting (dropped : bool) (n : Z) (i : nat) (perWorkerEvents : list (list Event))
  | Asking (shouldReset : bool) (i : nat) (allEntries : entries)
  | Awaiting (shouldReset : bool) (i : nat) (allEntries : entries)
  | Clearing (i : nat) (allEntries : entries)
  | Resetting (i : nat)
  | Finished (rep : option ReportT) (err : option error).

Record Conc := mkConc {
  pool : @Pool H HRe;
  replies : list (option entries);
  callers : list caller
}.

Definition set_pool_ (p : Pool) (s : Conc) : Conc := mkConc p (replies s) (callers s).
Definition set_replies (r : list (option entries)) (s : Conc) : Conc := mkConc (pool s) r (callers s).
Definition set_caller (j : nat) (c : caller) (s : Conc) : Conc :=
  mkConc (pool s) (replies s) (<[j := c]> (callers s)).

Definition start (p : Pool) (tasks : list task) : Conc :=
  mkConc p (replicate (length (workers p)) None) (Starting <$> tasks).

(** Worker [i] is at [w.topReply <- w.hl.Top(k)], and not at its select. *)
Definition busy (i : nat) (s : Conc) : bool :=
  match replies s !! i with Some (Some _) => true | _ => false end.

(** The end of Report, with its merged entries. *)
Definition mergeEntries (t : nat) (allEntries : entries) : ReportT :=
  mkReport (clock t) (sort_Sort reportLess (keyReport <$> allEntries)).

(** One step of HandleEvents, of Report and of Reset and SetFilterPattern, at
    time [t]: the caller's next state. *)
Definition handleStep (c : caller) : GoM Conc caller := fun s =>
  let p := pool s in
  match c with
  | Starting (CallHandleEvents evts) =>
      perWorkerEvents ← partitionEvents (filterEvents evts (filter_ p)) p;
      Ret (Sending 0 perWorkerEvents, s)
  | Sending i [] => Ret (Finished None None, s)
  | Sending i (events :: rest) =>
      if 0 <? zlen events then
        '(err, p) ← onWorker i (worker_handleEvents events) p;
        Ret (Counting (bool_decide (err = Some errQueueFull)) (zlen events) (S i) rest, set_pool_ p s)
      else Ret (Sending (S i) rest, s)
  | Counting dropped n i rest =>
      Ret (Sending i rest, set_pool_ (if dropped then addDropped n p else addHandled n p) s)
  | _ => Blocked
  end.

Definition reportStep (t : nat) (c : caller) : GoM Conc caller := fun s =>
  let p := pool s in
  match c with
  | Starting (CallReport b) =>
      if reportSize p *! zlen (workers p) <? 0 then Panic else Ret (Asking b 0 [], s)
  | Asking b i es =>
      match workers p !! i with
      | None => Ret (Finished (Some (mergeEntries t es)) None, s)
      | Some w =>
          if busy i s then Blocked
          else
            '(l, p) ← onWorker i (top (iteration t (hl w)) (reportSize p)) p;
            Ret (Awaiting b i es, set_replies (<[i := Some l]> (replies s)) (set_pool_ p s))
      end
  | Awaiting b i es =>
      match replies s !! i with
      | Some (Some l) =>
          Ret (if b then Clearing i (es ++ l) else Asking b (S i) (es ++ l),
               set_replies (<[i := None]> (replies s)) s)
      | _ => Blocked
      end
  | Clearing i es =>
      if busy i s then Blocked
      else '(_, p) ← onWorker i reset p; Ret (Asking true (S i) es, set_pool_ p s)
  | _ => Blocked
  end.

Definition resetStep (c : caller) : GoM Conc caller := fun s =>
  let p := pool s in
  match c with
  | Starting CallReset => Ret (Resetting 0, s)
  | Starting (CallSetFilterPattern pattern) =>
      match setPattern pattern (filter_ p) with
      | (f, Some err) => Ret (Finished None (Some err), set_pool_ (set_filter f p) s)
      | (f, None) => Ret (Resetting 0, set_pool_ (set_filter f p) s)
      end
  | Resetting i =>
      match workers p !! i with
      | None => Ret (Finished None None, s)
      | Some _ =>
          if busy i s then Blocked
          else '(_, p) ← onWorker i reset p; Ret (Resetting (S i), set_pool_ p s)
      end
  | _ => Blocked
  end.

Definition callerStep (t : nat) (c : caller) : GoM Conc caller :=
  match c with
  | Starting (CallHandleEvents _) | Sending _ _ | Counting _ _ _ _ => handleStep c
  | Starting (CallReport _) | Asking _ _ _ | Awaiting _ _ _ | Clearing _ _ => reportStep t c
  | Starting CallReset | Starting (CallSetFilterPattern _) | Resetting _ => resetStep c
  | Finished _ _ => fun _ => Blocked
  end.

(** A receive of worker [i] from kisChan. *)
Definition workerRecv (i : nat) : GoM Conc unit := fun s =>
  if busy i s then Blocked
  else match workers (pool s) !! i ≫= loopRecv with
       | Some w => Ret (tt, set_pool_ (set_workers (<[i := w]> (workers (pool s))) (pool s)) s)
       | None => Blocked
       end.

(** A step of caller [j] at time [t], or a receive of worker [i]. *)
Inductive goStep : Type := StepCaller (j t : nat) | RecvWorker (i : nat).

Definition go (a : goStep) : GoM Conc unit := fun s =>
  match a with
  | StepCaller j t =>
      match callers s !! j with
      | None => Blocked
      | Some c => '(c, s) ← callerStep t c s; Ret (tt, set_caller j c s)
      end
  | RecvWorker i => workerRecv i s
  end.

Fixpoint goAll (acts : list goStep) : GoM Conc unit :=
  match acts with
  | [] => mret tt
  | a :: acts => go a;; goAll acts
  end.

Definition finished (c : caller) : bool := match c with Finished _ _ => true | _ => false end.
Definition allFinished (s : Conc) : bool := forallb finished (callers s).
End callers.

(** ** The invariant *)

Section facts.
Context {H : Type} {HHot : HotList H keyInfo} {HRe : RegexpPkg} {HSort : SortPkg}.
Context (iteration : nat -> H -> list (keyInfo * Z)) (clock : nat -> Z).
Context (iteration_ok : forall t h, iteration t h ≡ₚ map_to_list (hl_counts h)).
Local Abbreviation Conc := (@Conc H HRe).
Local Abbreviation go := (go iteration clock).
Local Abbreviation goAll := (goAll iteration clock).
Local Abbreviation callerStep := (callerStep iteration clock).

(** A caller waits at [<-w.topReply] of worker [i]. *)
Definition awaits (i : nat) (c : caller) : Z :=
  match c with Awaiting _ i' _ => if decide (i' = i) then 1 else 0 | _ => 0 end.

(** Callers visit the [n] workers in order, HandleEvents with a batch for each. *)
Definition caller_ok (n : nat) (c : caller) : Prop :=
  match c with
  | Sending i per | Counting _ _ i per => (i + length per = n)%nat
  | Asking _ i _ | Resetting i => (i <= n)%nat
  | Awaiting _ i _ | Clearing i _ => (i < n)%nat
  | Starting _ | Finished _ _ => True
  end.

Record conc_ok (n k : Z) (s : Conc) : Prop := {
  cc_workers : Forall worker_ok (workers (pool s));
  cc_size : zlen (workers (pool s)) = n /\ reportSize (pool s) = k;
  cc_replies : length (replies s) = length (workers (pool s));
  cc_callers : Forall (caller_ok (length (workers (pool s)))) (callers s);
  cc_waiting i : sumZ (awaits i) (callers s) = if busy i s then 1 else 0
}.

(** ** Termination: how many steps are left *)

Definition callerLeft (n : nat) (c : caller) : Z :=
  match c with
  | Starting (CallHandleEvents _) => 3 * Z.of_nat n + 2
  | Starting (CallReport _) => 3 * Z.of_nat n + 2
  | Starting _ => Z.of_nat n + 2
  | Sending _ per => 3 * zlen per + 1
  | Counting _ _ _ per => 3 * zlen per + 2
  | Asking _ i _ => 3 * (Z.of_nat n - Z.of_nat i) + 1
  | Awaiting _ i _ => 3 * (Z.of_nat n - Z.of_nat i)
  | Clearing i _ => 3 * (Z.of_nat n - Z.of_nat i) - 1
  | Resetting i => Z.of_nat n - Z.of_nat i + 1
  | Finished _ _ => 0
  end.

Definition left_ (s : Conc) : Z :=
  sumZ (callerLeft (length (workers (pool s)))) (callers s) + sumZ (fun w => zlen (kisChan w)) (workers (pool s)).

(** ** Lemmas: one step *)

(** A caller moves from [c] to [c'], and the pool and the replies with it. *)
Lemma conc_update n k s j c c' p' r' : conc_ok n k s -> callers s !! j = Some c ->
  Forall worker_ok (workers p') -> length (workers p') = length (workers (pool s)) ->
  reportSize p' = reportSize (pool s) -> length r' = length (replies s) ->
  caller_ok (length (workers (pool s))) c' ->
  (forall i, awaits i c' + (if busy i s then 1 else 0) =
             awaits i c + (if busy i (mkConc p' r' (callers s)) then 1 else 0)) ->
  sumZ (fun w => zlen (kisChan w)) (workers p') + callerLeft (length (workers (pool s))) c' <
    sumZ (fun w => zlen (kisChan w)) (workers (pool s)) + callerLeft (length (workers (pool s))) c ->
  conc_ok n k (set_caller j c' (mkConc p' r' (callers s))) /\
  left_ (set_caller j c' (mkConc p' r' (callers s))) < left_ s.
Proof.
  intros [Hw [Hn Hk] Hr Hc Hwait] Hj Hw' Hl' Hk' Hr' Hc' Hb Hleft. split.
  - split; simpl; [done|unfold zlen in *; by rewrite Hl', Hk'|congruence|rewrite Hl'; by apply Forall_insert|].
    intros i. rewrite (sumZ_insert _ _ _ _ _ Hj), Hwait. specialize (Hb i). unfold busy in *. simpl in *. lia.
  - unfold left_. simpl. rewrite Hl', (sumZ_insert _ _ _ _ _ Hj). lia.
Qed.

(** The same when nobody starts or stops waiting for a reply. *)
Lemma conc_update_plain n k s j c c' p' : conc_ok n k s -> callers s !! j = Some c ->
  Forall worker_ok (workers p') -> length (workers p') = length (workers (pool s)) ->
  reportSize p' = reportSize (pool s) -> caller_ok (length (workers (pool s))) c' ->
  (forall i, awaits i c' = 0 /\ awaits i c = 0) ->
  sumZ (fun w => zlen (kisChan w)) (workers p') + callerLeft (length (workers (pool s))) c' <
    sumZ (fun w => zlen (kisChan w)) (workers (pool s)) + callerLeft (length (workers (pool s))) c ->
  conc_ok n k (set_caller j c' (set_pool_ p' s)) /\ left_ (set_caller j c' (set_pool_ p' s)) < left_ s.
Proof.
  intros Hok Hj ? ? ? ? Ha ?. apply (conc_update n k s j c c' p' (replies s) Hok Hj); try done.
  intros i. destruct (Ha i) as [-> ->]. done.
Qed.

Lemma conc_step_same n k s j c c' : conc_ok n k s -> callers s !! j = Some c ->
  caller_ok (length (workers (pool s))) c' -> (forall i, awaits i c' = 0 /\ awaits i c = 0) ->
  callerLeft (length (workers (pool s))) c' < callerLeft (length (workers (pool s))) c ->
  conc_ok n k (set_caller j c' s) /\ left_ (set_caller j c' s) < left_ s.
Proof.
  intros Hok Hj ? ? ?. assert (s = set_pool_ (pool s) s) as E by (by destruct s). rewrite E at 1 3.
  apply (conc_update_plain n k s j c); try done; [apply Hok|lia].
Qed.

Lemma onWorker_eq {A} i (m : GoM worker A) (p : @Pool H HRe) w a w' : workers p !! i = Some w -> m w = Ret (a, w') ->
  onWorker i m p = Ret (a, set_workers (<[i := w']> (workers p)) p).
Proof. intros Hi E. unfold onWorker. rewrite Hi. unfold mbind, outcome_bind. by rewrite E. Qed.

(** Replacing a worker, its queue having grown by [d]. *)
Lemma queue_insert (ws : list (@worker H)) i w w' d : ws !! i = Some w -> zlen (kisChan w') = zlen (kisChan w) + d ->
  sumZ (fun w => zlen (kisChan w)) (<[i := w']> ws) = sumZ (fun w => zlen (kisChan w)) ws + d.
Proof. intros Hi E. rewrite (sumZ_insert _ _ _ _ _ Hi), E. lia. Qed.

(** A batch sent: the queue of its worker grows by at most one. *)
Lemma handleEvents_sends evts (w : @worker H) : worker_ok w -> exists err w', worker_handleEvents evts w = Ret (err, w') /\
  worker_ok w' /\ zlen (kisChan w') <= zlen (kisChan w) + 1.
Proof.
  intros (Hc & Hd & Hq). unfold worker_handleEvents. rewrite Hc.
  destruct (Z.ltb_spec (zlen (kisChan w)) kisCap); eexists _, _; (split; [done|]).
  - unfold worker_ok. simpl. rewrite zlen_app. change (zlen [copyEvents 0 evts []]) with 1. split_and!; done || lia.
  - split; [done|lia].
Qed.

Lemma send_step n k s j i events rest : conc_ok n k s -> callers s !! j = Some (Sending i (events :: rest)) ->
  exists err p', onWorker i (worker_handleEvents events) (pool s) = Ret (err, p') /\
    let c' := Counting (bool_decide (err = Some errQueueFull)) (zlen events) (S i) rest in
    conc_ok n k (set_caller j c' (set_pool_ p' s)) /\ left_ (set_caller j c' (set_pool_ p' s)) < left_ s.
Proof.
  intros Hok Hj. pose proof (Forall_lookup_1 _ _ _ _ (cc_callers _ _ _ Hok) Hj) as Hc. simpl in Hc.
  destruct (lookup_lt_is_Some_2 (workers (pool s)) i) as [w Hi]; [lia|].
  pose proof (Forall_lookup_1 _ _ _ _ (cc_workers _ _ _ Hok) Hi) as Hw.
  destruct (handleEvents_sends events w Hw) as (err & w' & E & Hw' & Hq).
  exists err, (set_workers (<[i := w']> (workers (pool s))) (pool s)). split; [by apply (onWorker_eq i _ _ w)|].
  apply (conc_update_plain n k s j (Sending i (events :: rest))); simpl; try done.
  - apply Forall_insert; [apply Hok|done].
  - by rewrite length_insert.
  - lia.
  - rewrite (queue_insert _ _ _ w' (zlen (kisChan w') - zlen (kisChan w)) Hi), zlen_cons by lia. lia.
Qed.

(** What a caller waits for before its request is taken. *)
Definition requests (c : caller) : option nat :=
  match c with Asking _ i _ | Clearing i _ | Resetting i => Some i | _ => None end.

Lemma busy_insert i i' r (s : Conc) : (i < length (replies s))%nat ->
  busy i' (set_replies (<[i := r]> (replies s)) s) = if decide (i' = i) then bool_decide (is_Some r) else busy i' s.
Proof.
  intros Hi. unfold busy. simpl. destruct (decide (i' = i)) as [->|Hne].
  - rewrite list_lookup_insert_eq by done. by destruct r.
  - by rewrite list_lookup_insert_ne.
Qed.

Lemma reset_ok (w : @worker H) : worker_ok w -> reset w = Ret (tt, resetW w) /\ worker_ok (resetW w).
Proof. intros (Hc & Hd & Hq). unfold reset. by rewrite Hd. Qed.

Lemma partition_step n k s evts : 0 < n <= int_max -> conc_ok n k s ->
  exists per, partitionEvents (filterEvents evts (filter_ (pool s))) (pool s) = Ret per /\
    length per = length (workers (pool s)).
Proof.
  intros Hn Hok. destruct (cc_size _ _ _ Hok) as [Hs _].
  destruct (partitionEvents_spec (filterEvents evts (filter_ (pool s))) (pool s)) as (per & E & Hl & _); [lia|].
  by exists per.
Qed.

(** A reset request is served by worker [i]. *)
Lemma reset_step n k s j i c c' : conc_ok n k s -> callers s !! j = Some c -> (i < length (workers (pool s)))%nat ->
  caller_ok (length (workers (pool s))) c' -> (forall i', awaits i' c' = 0 /\ awaits i' c = 0) ->
  callerLeft (length (workers (pool s))) c' < callerLeft (length (workers (pool s))) c ->
  exists p', onWorker i reset (pool s) = Ret (tt, p') /\
    conc_ok n k (set_caller j c' (set_pool_ p' s)) /\ left_ (set_caller j c' (set_pool_ p' s)) < left_ s.
Proof.
  intros Hok Hj Hi Hc' Ha Hl. destruct (lookup_lt_is_Some_2 _ _ Hi) as [w Hw].
  destruct (reset_ok w (Forall_lookup_1 _ _ _ _ (cc_workers _ _ _ Hok) Hw)) as [E Hw'].
  eexists. split; [by apply (onWorker_eq i _ _ w)|].
  apply (conc_update_plain n k s j c); simpl; try done.
  - apply Forall_insert; [apply Hok|done].
  - by rewrite length_insert.
  - rewrite (queue_insert _ _ _ (resetW w) 0 Hw) by (simpl; lia). lia.
Qed.

(** A request for the top entries is taken by worker [i]. *)
Lemma top_step n k s j t b i es : 0 <= k -> conc_ok n k s -> callers s !! j = Some (Asking b i es) ->
  busy i s = false -> (i < length (workers (pool s)))%nat ->
  exists w l, workers (pool s) !! i = Some w /\ topOf (hl_counts (hl w)) k l /\
    onWorker i (top (iteration t (hl w)) (reportSize (pool s))) (pool s) = Ret (l, pool s) /\
    let s' := set_caller j (Awaiting b i es) (set_replies (<[i := Some l]> (replies s)) (set_pool_ (pool s) s)) in
    conc_ok n k s' /\ left_ s' < left_ s.
Proof.
  intros Hk Hok Hj Hb Hi. destruct (lookup_lt_is_Some_2 _ _ Hi) as [w Hw].
  pose proof (Forall_lookup_1 _ _ _ _ (cc_workers _ _ _ Hok) Hw) as (_ & Hd & _).
  destruct (cc_size _ _ _ Hok) as [_ Hsize]. subst k.
  destruct (hl_Top_law (iteration t (hl w)) (reportSize (pool s)) (hl w) (iteration_ok t _) Hk) as (l & El & Htop).
  exists w, l. do 2 (split; [done|]). split.
  { erewrite onWorker_eq; [|exact Hw|unfold top; rewrite Hd; unfold mbind, outcome_bind; by rewrite El].
    rewrite list_insert_id by done. by destruct (pool s). }
  apply (conc_update _ _ s j (Asking b i es) (Awaiting b i es) (pool s) (<[i := Some l]> (replies s))); simpl; try done.
  - apply Hok.
  - by rewrite length_insert.
  - intros i'. change (mkConc (pool s) (<[i:=Some l]> (replies s)) (callers s)) with (set_replies (<[i:=Some l]> (replies s)) s).
    rewrite busy_insert by (rewrite (cc_replies _ _ _ Hok); lia). destruct (decide (i = i')) as [->|].
    + by rewrite decide_True, Hb by done.
    + rewrite decide_False by done. lia.
  - lia.
Qed.

(** A caller that waits for a reply gets it. *)
Lemma await_step n k s j b i es : conc_ok n k s -> callers s !! j = Some (Awaiting b i es) ->
  exists l, replies s !! i = Some (Some l) /\
    let c' := if b then Clearing i (es ++ l) else Asking b (S i) (es ++ l) in
    let s' := set_caller j c' (set_replies (<[i := None]> (replies s)) s) in
    conc_ok n k s' /\ left_ s' < left_ s.
Proof.
  intros Hok Hj. pose proof (Forall_lookup_1 _ _ _ _ (cc_callers _ _ _ Hok) Hj) as Hi. simpl in Hi.
  assert (busy i s = true) as Hb.
  { pose proof (cc_waiting _ _ _ Hok i) as Hw. pose proof (sumZ_elem (awaits i) _ _ _ Hj) as Hge.
    simpl in Hge. rewrite decide_True in Hge by done. destruct (busy i s); [done|].
    assert (Forall (fun c => 0 <= awaits i c) (callers s))
      by (apply Forall_true; intros []; simpl; try destruct (decide _); lia).
    specialize (Hge ltac:(done)). lia. }
  assert (exists l, replies s !! i = Some (Some l)) as [l El].
  { unfold busy in Hb. destruct (replies s !! i) as [[l|]|]; try done. by exists l. }
  exists l. split; [done|]. intros c' s'.
  apply (conc_update n k s j (Awaiting b i es) c' (pool s)); try done.
  - apply Hok.
  - by rewrite length_insert.
  - unfold c'. destruct b; simpl; lia.
  - intros i'. change (mkConc (pool s) (<[i:=None]> (replies s)) (callers s)) with (set_replies (<[i:=None]> (replies s)) s).
    rewrite busy_insert by (rewrite (cc_replies _ _ _ Hok); lia).
    assert (awaits i' c' = 0) as -> by (unfold c'; by destruct b). simpl.
    destruct (decide (i' = i)) as [->|].
    + by rewrite decide_True, Hb by done.
    + rewrite decide_False by congruence. lia.
  - unfold c'. destruct b; simpl; lia.
Qed.

(** ** Lemmas: every step *)

(** A step of a caller returns, or its request is not taken yet. *)
Lemma caller_steps n k s j t c : 0 < n <= int_max -> 0 <= k -> k * n <= int_max -> conc_ok n k s ->
  callers s !! j = Some c ->
  (callerStep t c s = Blocked /\
     (finished c = true \/ exists i, requests c = Some i /\ busy i s = true)) \/
  exists c' s', callerStep t c s = Ret (c', s') /\ conc_ok n k (set_caller j c' s') /\
    left_ (set_caller j c' s') < left_ s.
Proof.
  intros Hn Hk Hkn Hok Hj. destruct (cc_size _ _ _ Hok) as [Hs Hsize].
  pose proof (Forall_lookup_1 _ _ _ _ (cc_callers _ _ _ Hok) Hj) as Hc.
  destruct c as [[evts|b| |pat]|i [|events rest]|dropped m i rest|b i es|b i es|i es|i|rep err]; simpl in Hc.
  - right. destruct (partition_step n k s evts Hn Hok) as (per & E & Hl).
    eexists _, s. simpl. unfold mbind, outcome_bind. rewrite E. split; [done|].
    apply (conc_step_same n k s j _ _ Hok Hj); simpl; [lia|done|unfold zlen; rewrite Hl; lia].
  - right. eexists _, s. simpl. rewrite Hsize, Hs, wrap64_id by (unfold in_int, int_min; nia).
    destruct (Z.ltb_spec (k * n) 0); [nia|]. split; [done|].
    apply (conc_step_same n k s j _ _ Hok Hj); simpl; [lia|done|lia].
  - right. eexists _, s. split; [done|]. apply (conc_step_same n k s j _ _ Hok Hj); simpl; [lia|done|lia].
  - right. simpl. destruct (setPattern pat (filter_ (pool s))) as [f [err|]]; (eexists _, _; split; [done|]);
      apply (conc_update_plain n k s j _ _ _ Hok Hj); simpl; done || apply Hok || lia.
  - right. eexists _, s. split; [done|]. apply (conc_step_same n k s j _ _ Hok Hj); simpl; [done|done|unfold zlen; simpl; lia].
  - right. simpl. destruct (0 <? zlen events).
    + destruct (send_step n k s j i events rest Hok Hj) as (err & p' & E & ?).
      eexists _, _. unfold mbind, outcome_bind. by rewrite E.
    + eexists _, s. split; [done|]. apply (conc_step_same n k s j _ _ Hok Hj); simpl; [lia|done|rewrite zlen_cons; lia].
  - right. eexists _, _. split; [done|].
    apply (conc_update_plain n k s j _ _ _ Hok Hj); destruct dropped; simpl; done || apply Hok || lia.
  - simpl. destruct (workers (pool s) !! i) as [w|] eqn:Hi.
    + destruct (busy i s) eqn:Hb; [left; split; [done|right; by exists i]|right].
      destruct (top_step n k s j t b i es Hk Hok Hj Hb) as (w' & l & Hw & _ & E & ?); [by eapply lookup_lt_Some|].
      rewrite Hi in Hw. injection Hw as <-. eexists _, _. unfold mbind, outcome_bind. by rewrite E.
    + right. eexists _, s. split; [done|]. apply lookup_ge_None_1 in Hi.
      apply (conc_step_same n k s j _ _ Hok Hj); simpl; [done|done|lia].
  - right. destruct (await_step n k s j b i es Hok Hj) as (l & El & ?). eexists _, _. simpl. by rewrite El.
  - simpl. destruct (busy i s) eqn:Hb; [left; split; [done|right; by exists i]|right].
    destruct (reset_step n k s j i _ (Asking true (S i) es) Hok Hj Hc) as (p' & E & ?); simpl; [lia|done|lia|].
    eexists _, _. unfold mbind, outcome_bind. by rewrite E.
  - simpl. destruct (workers (pool s) !! i) as [w|] eqn:Hi.
    + destruct (busy i s) eqn:Hb; [left; split; [done|right; by exists i]|right].
      apply lookup_lt_Some in Hi.
      destruct (reset_step n k s j i _ (Resetting (S i)) Hok Hj Hi) as (p' & E & ?); simpl; [lia|done|lia|].
      eexists _, _. unfold mbind, outcome_bind. by rewrite E.
    + right. eexists _, s. split; [done|]. apply lookup_ge_None_1 in Hi.
      apply (conc_step_same n k s j _ _ Hok Hj); simpl; [done|done|lia].
  - left. split; [done|by left].
Qed.

Lemma recv_steps n k s i : conc_ok n k s ->
  workerRecv i s = Blocked \/
  exists s', workerRecv i s = Ret (tt, s') /\ conc_ok n k s' /\ left_ s' < left_ s.
Proof.
  intros Hok. unfold workerRecv. destruct (busy i s) eqn:Hb; [by left|].
  destruct (workers (pool s) !! i) as [w|] eqn:Hi; [|by left]. simpl.
  destruct (loopRecv w) as [w'|] eqn:E; [right|by left].
  pose proof (Forall_lookup_1 _ _ _ _ (cc_workers _ _ _ Hok) Hi) as Hw.
  destruct (loopRecv_given w w' [] E Hw) as [Hw' _].
  assert (zlen (kisChan w') = zlen (kisChan w) + -1) as Hq.
  { destruct Hw as (Hcl & Hd & _). unfold loopRecv in E. rewrite Hd in E.
    destruct (kisChan w) as [|kis rest]; [by rewrite Hcl in E|]. injection E as <-. rewrite zlen_cons. simpl. lia. }
  eexists. split; [done|]. destruct Hok as [Hws Hs Hr Hc Hwait]. split.
  - split; simpl; [by apply Forall_insert|unfold zlen; by rewrite length_insert|by rewrite length_insert|
      by rewrite length_insert|done].
  - unfold left_. simpl. rewrite length_insert, (queue_insert _ _ _ _ _ Hi Hq). lia.
Qed.

Lemma go_steps n k s a : 0 < n <= int_max -> 0 <= k -> k * n <= int_max -> conc_ok n k s ->
  go a s = Blocked \/ exists s', go a s = Ret (tt, s') /\ conc_ok n k s' /\ left_ s' < left_ s.
Proof.
  intros Hn Hk Hkn Hok. destruct a as [j t|i]; [|by apply recv_steps]. simpl.
  destruct (callers s !! j) as [c|] eqn:Hj; [|by left].
  destruct (caller_steps n k s j t c Hn Hk Hkn Hok Hj) as [[E _]|(c' & s' & E & Hok' & Hl)];
    unfold mbind, outcome_bind; rewrite E; [by left|]. right. by exists (set_caller j c' s').
Qed.

Lemma goAll_steps n k acts : 0 < n <= int_max -> 0 <= k -> k * n <= int_max -> forall s s', conc_ok n k s ->
  goAll acts s = Ret (tt, s') -> conc_ok n k s' /\ zlen acts + left_ s' <= left_ s.
Proof.
  intros Hn Hk Hkn. induction acts as [|a acts IH]; intros s s' Hok; cbn [Callers.goAll].
  { intros [= ->]. change (zlen []) with 0. split; [done|lia]. }
  unfold mbind, gom_bind. destruct (go_steps n k s a Hn Hk Hkn Hok) as [->|(s1 & -> & Hok1 & Hl1)]; [done|].
  intros E. destruct (IH s1 s' Hok1 E) as [? Hl]. split; [done|]. rewrite zlen_cons. lia.
Qed.

Lemma callerLeft_nonneg m c : caller_ok m c -> 0 <= callerLeft m c.
Proof.
  destruct c as [[]|? per|? ? ? per|??? |??? |?? |? |]; simpl; intros; try lia; pose proof (zlen_nonneg per); lia.
Qed.

Lemma left_nonneg n k s : conc_ok n k s -> 0 <= left_ s.
Proof.
  intros [_ _ _ Hc _]. unfold left_. apply Z.add_nonneg_nonneg; apply sumZ_nonneg.
  - eapply Forall_impl; [exact Hc|]. apply callerLeft_nonneg.
  - apply Forall_true. intros w. apply zlen_nonneg.
Qed.

(** No deadlock: while a call is not finished, some caller can go on. *)
Lemma some_caller_steps n k s : 0 < n <= int_max -> 0 <= k -> k * n <= int_max -> conc_ok n k s ->
  allFinished s = false -> forall t, exists j s', go (StepCaller j t) s = Ret (tt, s').
Proof.
  intros Hn Hk Hkn Hok Hfin t.
  assert (exists j c, callers s !! j = Some c /\ finished c = false) as (j & c & Hj & Hc).
  { unfold allFinished in Hfin. clear Hok. induction (callers s) as [|c cs IH]; [done|]. simpl in Hfin.
    destruct (finished c) eqn:E; [|by exists 0%nat, c]. destruct (IH Hfin) as (j & c' & ? & ?). by exists (S j), c'. }
  destruct (caller_steps n k s j t c Hn Hk Hkn Hok Hj) as [[_ [Hf|(i & _ & Hb)]]|(c' & s' & E & _)].
  - congruence.
  - assert (exists j' b es, callers s !! j' = Some (Awaiting b i es)) as (j' & b & es & Hj').
    { pose proof (cc_waiting _ _ _ Hok i) as Hw. rewrite Hb in Hw. clear -Hw.
      induction (callers s) as [|c' cs IH]; [done|].
      destruct c' as [| | | |b i' es| | |]; try (destruct (IH Hw) as (j' & b' & es' & ?); by exists (S j'), b', es').
      cbn in Hw. destruct (decide (i' = i)) as [->|]; [by exists 0%nat, b, es|].
      destruct (IH Hw) as (j' & b' & es' & ?). by exists (S j'), b', es'. }
    destruct (await_step n k s j' b i es Hok Hj') as (l & El & _).
    exists j'. eexists. simpl. rewrite Hj'. simpl. by rewrite El.
  - exists j. eexists. simpl. rewrite Hj. unfold mbind, outcome_bind. by rewrite E.
Qed.

Lemma start_ok n k p tasks : Forall worker_ok (workers p) -> zlen (workers p) = n -> reportSize p = k ->
  conc_ok n k (start p tasks).
Proof.
  intros Hw Hn Hk. split; simpl; try done.
  - by rewrite length_replicate.
  - by apply Forall_fmap, Forall_true.
  - intros i. unfold busy. simpl.
    assert (match replicate (length (workers p)) (@None (list (itemCount keyInfo))) !! i with
      Some (Some _) => true | _ => false end = false) as ->.
    { destruct (replicate _ _ !! i) as [[]|] eqn:E; try done. by apply lookup_replicate in E as [? _]. }
    clear. induction tasks as [|[] tasks IH]; done.
Qed.

(** The batches that wait in the queues. *)
Definition queued (p : @Pool H HRe) : Z := sumZ (fun w => zlen (kisChan w)) (workers p).

Lemma start_left n p tasks : zlen (workers p) = n ->
  left_ (start p tasks) <= (3 * n + 2) * zlen tasks + queued p.
Proof.
  intros Hn. unfold left_, queued. simpl. apply Z.add_le_mono_r.
  subst n. unfold zlen at 1. set (m := length (workers p)).
  assert (forall x, callerLeft m (Starting x) <= 3 * Z.of_nat m + 2) as Hx by (intros []; simpl; lia).
  induction tasks as [|x tasks IH]; [change (zlen []) with 0; rewrite Z.mul_0_r; done|].
  rewrite zlen_cons, Z.mul_add_distr_l, Z.mul_1_r, fmap_cons.
  specialize (Hx x). unfold sumZ in *. cbn [foldr]. lia.
Qed.

(** Whatever has happened, all calls can be run to their ends. *)
Lemma all_finish n k s (t : nat) : 0 < n <= int_max -> 0 <= k -> k * n <= int_max -> conc_ok n k s ->
  exists acts s', goAll acts s = Ret (tt, s') /\ allFinished s' = true.
Proof.
  intros Hn Hk Hkn Hok. remember (Z.to_nat (left_ s)) as m eqn:Em. revert s Em Hok.
  induction m as [m IH] using lt_wf_ind. intros s -> Hok.
  destruct (allFinished s) eqn:Hf; [by exists [], s|].
  destruct (some_caller_steps n k s Hn Hk Hkn Hok Hf t) as (j & s1 & E).
  destruct (go_steps n k s (StepCaller j t) Hn Hk Hkn Hok) as [E'|(s1' & E' & Hok' & Hl)]; [congruence|].
  assert (s1' = s1) as -> by congruence. pose proof (left_nonneg n k s1 Hok').
  destruct (IH (Z.to_nat (left_ s1))) with (s := s1) as (acts & s' & Ea & Hs'); [lia|done..|].
  exists (StepCaller j t :: acts), s'. split; [|done]. cbn [Callers.goAll]. unfold mbind, gom_bind. by rewrite E.
Qed.

End facts.
