(* ===== verification/Concurrent.v ===== *)
(** * analysis: what concurrent callers do to the pool

    Callers.v has the calls of the pool as steps of goroutines.  Here they are
    compared with Analysis.v, where a call is one step: however calls of
    HandleEvents interleave, at every channel and counter, the pool ends as if
    the batches that were sent had been handled one after the other; and calls of
    Report that run at once on a pool at rest each return the exact report. *)
From Stdlib Require Import Strings.Byte.
From S2P Require Import Prelude GoLib Buffer Reader Model Hotlist Analysis Callers.
Local Open Scope Z_scope.

Section concurrent.
Context {H : Type} {HHot : HotList H keyInfo} {HRe : RegexpPkg} {HSort : SortPkg}.
Context (iteration : nat -> H -> list (keyInfo * Z)) (clock : nat -> Z).
Context (iteration_ok : forall t h, iteration t h ≡ₚ map_to_list (hl_counts h)).
Local Abbreviation Conc := (@Conc H HRe).
Local Abbreviation Pool := (@Pool H HRe).
Local Abbreviation go := (go iteration clock).
Local Abbreviation goAll := (goAll iteration clock).
Local Abbreviation callerStep := (callerStep iteration clock).

(** ** The relation between the two *)

(** What a call of HandleEvents has not sent yet. *)
Definition unsent (f : option regexp) (c : caller) : list Event :=
  match c with
  | Starting (CallHandleEvents evts) => filterEvents evts f
  | Sending _ per | Counting _ _ _ per => concat per
  | _ => []
  end.

(** What it has sent ([dropped] or not), and not counted. *)
Definition uncounted (dropped : bool) (c : caller) : Z :=
  match c with Counting d n _ _ => if Bool.eqb d dropped then n else 0 | _ => 0 end.

(** The pool once the callers have counted what they have sent. *)
Definition settled (s : Conc) : Pool :=
  let p := pool s in
  mkPool (reportSize p) (workers p) (filter_ p)
    (EventsHandled p + sumZ (uncounted false) (callers s))
    (EventsDropped p + sumZ (uncounted true) (callers s)).

(** Events that pass the filter and belong to worker [i] of [n]. *)
Definition belong (n : Z) (f : option regexp) (i : Z) (events : list Event) : Prop :=
  Forall (fun e => slotOf n (Key e) = i /\ filterEvents [e] f = [e]) events.

(** A call of HandleEvents, its batches from worker [i] on. *)
Definition handle_ok (n : Z) (f : option regexp) (c : caller) : Prop :=
  let batches i per := Z.of_nat i + zlen per = n /\
    forall j events, per !! j = Some events -> belong n f (Z.of_nat (i + j)) events in
  match c with
  | Starting (CallHandleEvents _) | Finished None None => True
  | Sending i per => batches i per
  | Counting _ m i per => 0 <= m /\ batches i per
  | _ => False
  end.

Record handles_sim (n k : Z) (f : option regexp) (evts : list Event) (p0 : Pool) (acts : list action) (s : Conc) : Prop := {
  hs_run : run acts p0 = Ret (tt, settled s);
  hs_events : offered acts ++ concat (unsent f <$> callers s) ≡ₚ evts;
  hs_callers : Forall (handle_ok n f) (callers s);
  hs_counters : 0 <= EventsHandled (pool s) /\ 0 <= EventsDropped (pool s)
}.

(** ** Lemmas: a batch for one worker *)

Lemma passes_filter f events : Forall (fun e => filterEvents [e] f = [e]) events -> filterEvents events f = events.
Proof. induction 1 as [|e es He _ IH]; [by destruct f|]. by rewrite (filterEvents_app [e] es), He, IH. Qed.

Lemma belong_filter n f i events : belong n f i events -> filterEvents events f = events.
Proof. intros Hb. apply passes_filter. eapply Forall_impl; [exact Hb|]. by intros e [_ ?]. Qed.

Lemma belong_shard n f i j events : belong n f i events -> shard n j events = if decide (i = j) then events else [].
Proof.
  intros Hb. unfold shard. induction Hb as [|e es [He _] _ IH]; [by destruct (decide _)|]. cbn [List.filter]. rewrite IH, He.
  destruct (Z.eqb_spec i j), (decide (i = j)); congruence.
Qed.

Lemma filterEvents_passes evts f : Forall (fun e => filterEvents [e] f = [e]) (filterEvents evts f).
Proof.
  destruct f as [re|]; [|by apply Forall_true]. apply Forall_forall. intros e He.
  apply List_filter_elem in He as [_ He]. simpl. by rewrite He.
Qed.

Lemma shards_belong n f i evts : belong n f i (shard n i (filterEvents evts f)).
Proof.
  apply Forall_forall. intros e [He Hs]%List_filter_elem. split; [by apply Z.eqb_eq|].
  pose proof (filterEvents_passes evts f) as Hp. rewrite Forall_forall in Hp. by apply Hp.
Qed.

(** The loop of HandleEvents skips workers without a batch. *)
Lemma sendLoop_empties m : forall i per (p : Pool), sendLoop i (replicate m [] ++ per) p = sendLoop (i + m) per p.
Proof.
  induction m as [|m IH]; intros i per p; [by rewrite Nat.add_0_r|]. cbn [replicate app sendLoop].
  change (0 <? zlen []) with false. unfold mbind, gom_bind. cbn. rewrite IH. by replace (i + S m)%nat with (S i + m)%nat by lia.
Qed.

Definition sendOne (i : nat) (events : list Event) : GoM Pool unit :=
  err ← onWorker i (worker_handleEvents events);
  if bool_decide (err = Some errQueueFull) then modify (addDropped (zlen events))
  else modify (addHandled (zlen events)).

Lemma HandleEvents_one i events (p : Pool) : 0 < zlen (workers p) <= int_max -> (i < length (workers p))%nat ->
  events <> [] -> belong (zlen (workers p)) (filter_ p) (Z.of_nat i) events ->
  HandleEvents events p = sendOne i events p.
Proof.
  intros Hn Hi Hne Hb. unfold HandleEvents. rewrite (belong_filter _ _ _ _ Hb).
  destruct (partitionEvents_spec events p Hn) as (per & E & Hl & Hper).
  assert (per = replicate i [] ++ events :: replicate (length (workers p) - S i) [] ++ []) as Hp.
  { apply list_eq_same_length with (n := length (workers p)); [|by rewrite Hl|].
    { rewrite app_nil_r, length_app. cbn [length]. rewrite !length_replicate. lia. }
    intros j x y Hj Hx. rewrite Hper in Hx by done. injection Hx as <-.
    rewrite (belong_shard _ _ _ _ _ Hb). destruct (decide (Z.of_nat i = Z.of_nat j)) as [Hij|Hij].
    - apply Nat2Z.inj in Hij as <-. rewrite list_lookup_middle by (by rewrite length_replicate). by intros [= ->].
    - rewrite app_nil_r. intros [Hy|[Hle Hy]]%lookup_app_Some; [by apply lookup_replicate in Hy as [-> _]|].
      apply lookup_cons_Some in Hy as [[Hy _]|[_ Hy]]; [|by apply lookup_replicate in Hy as [-> _]].
      rewrite length_replicate in *. lia. }
  unfold mbind at 1, outcome_bind. rewrite E, Hp, sendLoop_empties. cbn [app sendLoop].
  destruct (Z.ltb_spec 0 (zlen events)) as [|Hz].
  2:{ destruct events; [done|]. rewrite zlen_cons in Hz. pose proof (zlen_nonneg events). lia. }
  change ((sendOne i events;; sendLoop (S i) (replicate (length (workers p) - S i) [] ++ [])) p = sendOne i events p).
  unfold mbind, gom_bind. destruct (sendOne i events p) as [[[] p']| | |]; try done. by rewrite sendLoop_empties.
Qed.

(** The partition keeps every event. *)
Lemma partitionLoop_perm evts : forall per per', partitionLoop evts per = Ret per' -> concat per' ≡ₚ concat per ++ evts.
Proof.
  induction evts as [|e evts IH]; intros per per'; cbn [partitionLoop].
  { intros [= ->]. by rewrite app_nil_r. }
  unfold mbind, outcome_bind, index. destruct (keySlot _ _) as [slot| | |]; try done.
  case_bool_decide; [|done]. destruct (per !! Z.to_nat slot) as [l|] eqn:El; [|done].
  intros E. rewrite (IH _ _ E). change (e :: evts) with ([e] ++ evts). rewrite app_assoc. apply Permutation_app_tail.
  rewrite <- (take_drop_middle _ _ _ El) at 2. rewrite insert_take_drop by (by eapply lookup_lt_Some).
  rewrite !concat_app. cbn [concat]. rewrite <- !app_assoc. do 2 apply Permutation_app_head. apply Permutation_app_comm.
Qed.

(** ** Lemmas: one step of the simulation *)

Lemma run_app a1 a2 (p : Pool) : run (a1 ++ a2) p = (run a1;; run a2) p.
Proof.
  revert p. induction a1 as [|a a1 IH]; intros p; [done|]. cbn [app run]. unfold mbind, gom_bind in *.
  destruct (act a p) as [[[] p1]| | |]; try done.
Qed.

Lemma offered_app a1 a2 : offered (a1 ++ a2) = offered a1 ++ offered a2.
Proof. unfold offered. by rewrite fmap_app, concat_app. Qed.

(** The callers but the one at [j]. *)
Lemma callers_split (g : caller -> list Event) cs j c : cs !! j = Some c ->
  exists R, concat (g <$> cs) ≡ₚ g c ++ R /\ forall c', concat (g <$> <[j := c']> cs) ≡ₚ g c' ++ R.
Proof.
  intros Hj. exists (concat (g <$> take j cs) ++ concat (g <$> drop (S j) cs)). split.
  - rewrite <- (take_drop_middle _ _ _ Hj) at 1. rewrite fmap_app, concat_app. cbn [fmap list_fmap concat].
    rewrite !app_assoc. apply Permutation_app_tail, Permutation_app_comm.
  - intros c'. rewrite insert_take_drop by (by eapply lookup_lt_Some). rewrite fmap_app, concat_app.
    cbn [fmap list_fmap concat]. rewrite !app_assoc. apply Permutation_app_tail, Permutation_app_comm.
Qed.

Section simulation.
Context (n k : Z) (f : option regexp) (evts : list Event) (p0 : Pool).
Context (b : Z) (n_ok : 0 < n <= int_max) (evts_ok : b + zlen evts <= int_max).
Context (p0_ok : counts_inv n k f b [] p0).
Local Abbreviation sim := (handles_sim n k f evts p0).

Lemma settled_inv acts s : sim acts s -> counts_inv n k f b (offered acts) (settled s) /\
  b + (zlen (offered acts) + zlen (concat (unsent f <$> callers s))) <= int_max.
Proof.
  intros [Hr He _ _]. assert (b + zlen (offered acts ++ concat (unsent f <$> callers s)) <= int_max) as Hl
    by (unfold zlen in *; by rewrite He).
  rewrite zlen_app in Hl. split; [|done]. pose proof (zlen_nonneg (concat (unsent f <$> callers s))).
  destruct (counts_run n k f b acts [] p0 n_ok p0_ok) as ([] & p & E & Hinv); [simpl; lia|].
  rewrite Hr in E. injection E as <-. done.
Qed.

(** The caller at [j] moves, and the atomic calls follow with [extra]. *)
Lemma sim_update acts extra s j c c' p' : sim acts s -> callers s !! j = Some c -> handle_ok n f c' ->
  0 <= EventsHandled p' /\ 0 <= EventsDropped p' -> unsent f c ≡ₚ offered extra ++ unsent f c' ->
  run extra (settled s) = Ret (tt, settled (set_caller j c' (set_pool_ p' s))) ->
  sim (acts ++ extra) (set_caller j c' (set_pool_ p' s)).
Proof.
  intros [Hr He Hc _] Hj Hc' Hp' Hu Hx. split; simpl; [| |by apply Forall_insert|done].
  - rewrite run_app. unfold mbind, gom_bind. by rewrite Hr.
  - destruct (callers_split (unsent f) _ _ _ Hj) as (R & HR & HR'). rewrite <- He, HR, HR', Hu, offered_app.
    by rewrite <- !app_assoc.
Qed.

(** A step that the atomic calls do not see. *)
Lemma sim_stutter acts s j c c' p' : sim acts s -> callers s !! j = Some c -> handle_ok n f c' ->
  0 <= EventsHandled p' /\ 0 <= EventsDropped p' -> unsent f c ≡ₚ unsent f c' ->
  settled (set_caller j c' (set_pool_ p' s)) = settled s ->
  sim acts (set_caller j c' (set_pool_ p' s)).
Proof.
  intros ? ? ? ? ? Hset. rewrite <- (app_nil_r acts). eapply sim_update; [done..| |]; simpl; [done|].
  by rewrite Hset.
Qed.

Lemma settled_caller s j c c' p' : callers s !! j = Some c ->
  settled (set_caller j c' (set_pool_ p' s)) =
  mkPool (reportSize p') (workers p') (filter_ p')
    (EventsHandled p' + (sumZ (uncounted false) (callers s) - uncounted false c + uncounted false c'))
    (EventsDropped p' + (sumZ (uncounted true) (callers s) - uncounted true c + uncounted true c')).
Proof. intros Hj. unfold settled. simpl. by rewrite !(sumZ_insert _ _ _ _ _ Hj). Qed.

Lemma settled_same s j c c' : callers s !! j = Some c ->
  (forall d, uncounted d c' = uncounted d c) -> settled (set_caller j c' (set_pool_ (pool s) s)) = settled s.
Proof. intros Hj Hu. rewrite (settled_caller _ _ _ _ _ Hj), !Hu. unfold settled. f_equal; lia. Qed.

Lemma uncounted_callers acts s d : sim acts s -> Forall (fun c => 0 <= uncounted d c) (callers s).
Proof.
  intros [_ _ Hc _]. eapply Forall_impl; [exact Hc|].
  intros [[]| |d' m ? ?| | | | |]; simpl; try done. intros [? _]. destruct (Bool.eqb d' d); lia.
Qed.

(** Counting what was sent. *)
Lemma sim_count acts s j d m i per : sim acts s -> callers s !! j = Some (Counting d m i per) ->
  sim acts (set_caller j (Sending i per) (set_pool_ (if d then addDropped m (pool s) else addHandled m (pool s)) s)).
Proof.
  intros Hsim Hj. pose proof (Forall_lookup_1 _ _ _ _ (hs_callers _ _ _ _ _ _ _ Hsim) Hj) as [Hm Hper].
  destruct (settled_inv _ _ Hsim) as [[[_ Hh Hd] _ _ _ Hcount] Hl]. simpl in Hh, Hd, Hcount.
  pose proof (hs_counters _ _ _ _ _ _ _ Hsim) as [Hh0 Hd0].
  pose proof (filterEvents_zlen (offered acts) f) as Hfl.
  pose proof (zlen_nonneg (concat (unsent f <$> callers s))).
  pose proof (uncounted_callers _ _ d Hsim) as Hc. pose proof (sumZ_elem (uncounted d) _ _ _ Hj Hc) as Hmd.
  pose proof (sumZ_nonneg _ _ (uncounted_callers _ _ false Hsim)).
  pose proof (sumZ_nonneg _ _ (uncounted_callers _ _ true Hsim)).
  simpl in Hmd. rewrite Bool.eqb_reflx in Hmd.
  apply (sim_stutter acts s j _ (Sending i per) _ Hsim Hj); simpl; try done.
  - destruct d; simpl; rewrite wrap64_id by (unfold in_int, int_min; lia); lia.
  - rewrite (settled_caller _ _ _ _ _ Hj). unfold settled. destruct d; simpl;
      rewrite wrap64_id by (unfold in_int, int_min; lia); f_equal; lia.
Qed.

(** The batches after the first. *)
Lemma handle_ok_tail i events rest : handle_ok n f (Sending i (events :: rest)) ->
  handle_ok n f (Sending (S i) rest) /\ belong n f (Z.of_nat i) events /\ Z.of_nat i < n.
Proof.
  intros [Hl Hb]. rewrite zlen_cons in Hl. pose proof (zlen_nonneg rest). split_and!.
  - split; [lia|]. intros j ev Hj. specialize (Hb (S j) ev Hj). by replace (S i + j)%nat with (i + S j)%nat by lia.
  - specialize (Hb 0%nat events eq_refl). by rewrite Nat.add_0_r in Hb.
  - lia.
Qed.

(** A batch sent. *)
Lemma sim_send acts s j i events rest err p' : sim acts s ->
  callers s !! j = Some (Sending i (events :: rest)) -> 0 < zlen events ->
  onWorker i (worker_handleEvents events) (pool s) = Ret (err, p') ->
  sim (acts ++ [Handle events])
    (set_caller j (Counting (bool_decide (err = Some errQueueFull)) (zlen events) (S i) rest) (set_pool_ p' s)).
Proof.
  intros Hsim Hj Hpos E. pose proof (Forall_lookup_1 _ _ _ _ (hs_callers _ _ _ _ _ _ _ Hsim) Hj) as Hc.
  destruct (handle_ok_tail _ _ _ Hc) as (Hrest & Hb & Hi).
  destruct (settled_inv _ _ Hsim) as [[[Hws Hh Hd] Hn _ Hf Hcount] Hl]. simpl in Hws, Hh, Hd, Hn, Hf, Hcount.
  destruct (lookup_lt_is_Some_2 (workers (pool s)) i) as [w Hw]; [unfold zlen in Hn; lia|].
  destruct (handleEvents_sends events w (Forall_lookup_1 _ _ _ _ Hws Hw)) as (err' & w' & Es & _).
  rewrite (onWorker_eq i _ _ _ _ _ Hw Es) in E. injection E as -> <-.
  assert (b + (zlen (offered acts) + zlen events) <= int_max) as Hmax.
  { destruct (callers_split (unsent f) _ _ _ Hj) as (R & HR & _).
    assert (zlen (concat (unsent f <$> callers s)) = zlen (unsent f (Sending i (events :: rest)) ++ R)) as Ez
      by (unfold zlen; by rewrite HR).
    cbn [unsent concat] in Ez. rewrite !zlen_app in Ez. pose proof (zlen_nonneg R). pose proof (zlen_nonneg (concat rest)). lia. }
  pose proof (filterEvents_zlen (offered acts) f) as Hfl.
  apply (sim_update acts [Handle events] s j _ _ _ Hsim Hj).
  - split; [lia|]. apply Hrest.
  - apply Hsim.
  - unfold offered. simpl. by rewrite !app_nil_r.
  - cbn [run act]. unfold mbind at 1, gom_bind at 1.
    change (act (Handle events) (settled s)) with (HandleEvents events (settled s)).
    rewrite (HandleEvents_one i); cbn [settled workers filter_];
      [|by rewrite Hn|by eapply lookup_lt_Some|by intros ->|by rewrite Hn, Hf].
    unfold sendOne, mbind, gom_bind. rewrite (onWorker_eq i _ (settled s) _ _ _ Hw Es).
    rewrite (settled_caller _ _ _ _ _ Hj). destruct (bool_decide _); unfold modify, settled, mret, gom_ret, addDropped, addHandled; simpl;
       rewrite wrap64_id by (unfold in_int, int_min; lia); do 3 f_equal; lia.
Qed.

(** The first step: the filter is read and the batches are made. *)
Lemma sim_partition acts s j bt per : sim acts s -> callers s !! j = Some (Starting (CallHandleEvents bt)) ->
  partitionEvents (filterEvents bt (filter_ (pool s))) (pool s) = Ret per ->
  sim acts (set_caller j (Sending 0 per) (set_pool_ (pool s) s)).
Proof.
  intros Hsim Hj E. destruct (settled_inv _ _ Hsim) as [[_ Hn _ Hf _] _]. simpl in Hn, Hf. rewrite Hf in E.
  apply (sim_stutter acts s j _ _ _ Hsim Hj); [|apply Hsim| |by apply (settled_same _ _ _ _ Hj)].
  - destruct (partitionEvents_spec (filterEvents bt f) (pool s)) as (per' & E' & Hl & Hper); [by rewrite Hn|].
    assert (per' = per) as -> by congruence. split; [unfold zlen in *; simpl; lia|].
    intros i ev Hi. rewrite Hper in Hi by (rewrite <- Hl; by eapply lookup_lt_Some). injection Hi as <-.
    rewrite Hn. apply shards_belong.
  - simpl. rewrite (partitionLoop_perm _ _ _ E). clear. by induction (workers (pool s)).
Qed.

(** A receive of a worker is the same step. *)
Lemma sim_recv acts s i s' : sim acts s -> workerRecv i s = Ret (tt, s') -> sim (acts ++ [Work i]) s'.
Proof.
  intros [Hr He Hc Hp]. unfold workerRecv. destruct (busy i s); [done|].
  destruct (workers (pool s) !! i ≫= loopRecv) as [w|] eqn:E; [|done]. intros [= <-].
  split; simpl; [| |done..].
  - rewrite run_app. unfold mbind, gom_bind. rewrite Hr. cbn [run]. unfold mbind, gom_bind, act.
    change (workers (settled s)) with (workers (pool s)). by rewrite E.
  - rewrite offered_app. unfold offered at 2. simpl. by rewrite app_nil_r.
Qed.

Lemma set_pool_id (s : Conc) : set_pool_ (pool s) s = s.
Proof. by destruct s. Qed.

Lemma sim_go acts s a s' : sim acts s -> go a s = Ret (tt, s') -> exists acts', sim acts' s'.
Proof.
  intros Hsim. destruct a as [j t|i]; [|by eauto using sim_recv]. cbn [Callers.go].
  destruct (callers s !! j) as [c|] eqn:Hj; [|done].
  pose proof (Forall_lookup_1 _ _ _ _ (hs_callers _ _ _ _ _ _ _ Hsim) Hj) as Hc.
  destruct c as [[bt| | |]|i [|events rest]|d m i rest| | | | |[] []]; try done; cbn [Callers.callerStep handleStep reportStep resetStep];
    unfold mbind, outcome_bind.
  - destruct (partitionEvents _ _) as [per| | |] eqn:E; try done. intros [= <-].
    exists acts. rewrite <- (set_pool_id s) at 1. by eapply sim_partition.
  - intros [= <-]. exists acts. rewrite <- (set_pool_id s) at 1.
    apply (sim_stutter acts s j _ _ _ Hsim Hj); [done|apply Hsim|done|by apply (settled_same _ _ _ _ Hj)].
  - destruct (Z.ltb_spec 0 (zlen events)) as [Hpos|Hz].
    + destruct (onWorker _ _ _) as [[err p']| | |] eqn:E; try done. intros [= <-].
      eexists. by eapply sim_send.
    + intros [= <-]. exists acts. rewrite <- (set_pool_id s) at 1.
      assert (events = []) as -> by (apply zlen_0_inv; pose proof (zlen_nonneg events); lia).
      apply (sim_stutter acts s j _ _ _ Hsim Hj); [by apply (handle_ok_tail i [])|apply Hsim|done|by apply (settled_same _ _ _ _ Hj)].
  - intros [= <-]. exists acts. by apply sim_count.
Qed.

Lemma sim_goAll gacts : forall acts s s', sim acts s -> goAll gacts s = Ret (tt, s') -> exists acts', sim acts' s'.
Proof.
  induction gacts as [|a gacts IH]; intros acts s s' Hsim; cbn [Callers.goAll]; [intros [= <-]; by exists acts|].
  unfold mbind, gom_bind. destruct (go a s) as [[[] s1]| | |] eqn:E; try done.
  destruct (sim_go _ _ _ _ Hsim E) as [acts1 ?]. by eauto.
Qed.

(** Every call is finished: nothing is unsent or uncounted. *)
Lemma sim_finished acts s : sim acts s -> allFinished s = true ->
  run acts p0 = Ret (tt, pool s) /\ offered acts ≡ₚ evts /\ counts_inv n k f b (offered acts) (pool s).
Proof.
  intros Hsim Hfin. pose proof Hsim as [Hr He _ _]. destruct (settled_inv _ _ Hsim) as [Hinv _].
  assert (Forall (fun c => finished c = true) (callers s)) as Hf.
  { clear -Hfin. unfold allFinished in Hfin. induction (callers s) as [|c cs IH]; constructor; simpl in Hfin; by destruct (finished c); auto. }
  assert (settled s = pool s) as Es.
  { unfold settled. assert (forall d, sumZ (uncounted d) (callers s) = 0) as Hz.
    { intros d. clear -Hf. induction Hf as [|[] ? ? ? IH]; try done. }
    rewrite !Hz, !Z.add_0_r. by destruct (pool s). }
  rewrite Es in *. split_and!; [done| |done]. rewrite <- He.
  assert (concat (unsent f <$> callers s) = []) as ->; [|by rewrite app_nil_r].
  clear -Hf. induction Hf as [|[] ? ? ? IH]; try done.
Qed.

End simulation.

Lemma sim_start n k f b (p0 : Pool) batches : counts_inv n k f b [] p0 ->
  handles_sim n k f (filterEvents (concat batches) f) p0 [] (start p0 (CallHandleEvents <$> batches)).
Proof.
  intros [[_ Hh Hd] _ _ _ _].
  assert (forall g, (forall b, g (Starting (CallHandleEvents b)) = 0) ->
    sumZ g (Starting <$> (CallHandleEvents <$> batches)) = 0) as Hz.
  { intros g Hg. induction batches as [|bt bs IH]; [done|]. rewrite !fmap_cons. cbn [sumZ foldr]. rewrite Hg. exact IH. }
  split; simpl; [| | |done].
  - unfold settled. simpl. rewrite !Hz, !Z.add_0_r by done. by destruct p0.
  - clear. induction batches as [|bt bs IH]; [by destruct f|]. cbn [concat fmap list_fmap]. by rewrite filterEvents_app, <- IH.
  - by apply Forall_fmap, Forall_fmap, Forall_true.
Qed.

(** ** Reports of a pool at rest *)

Definition tops (k : Z) (ess : list (list (itemCount keyInfo))) (ws : list worker) : Prop :=
  Forall2 (fun es w => topOf (hl_counts (hl w)) k es) ess ws.

Definition report_ok (k : Z) (p : Pool) (c : caller) : Prop :=
  match c with
  | Starting (CallReport false) => True
  | Asking false i es | Awaiting false i es => exists ess, es = concat ess /\ tops k ess (take i (workers p))
  | Finished (Some rep) None => exists ess,
      Keys rep = sort_Sort reportLess (keyReport <$> concat ess) /\ tops k ess (workers p)
  | _ => False
  end.

(** Only reports are under way, and no worker has anything to receive. *)
Record reporting (k : Z) (p : Pool) (s : Conc) : Prop := {
  rp_pool : pool s = p;
  rp_callers : Forall (report_ok k p) (callers s);
  rp_replies i l : replies s !! i = Some (Some l) ->
    exists w, workers p !! i = Some w /\ topOf (hl_counts (hl w)) k l
}.

Lemma tops_next k p ess i es w : workers p !! i = Some w -> topOf (hl_counts (hl w)) k es ->
  tops k ess (take i (workers p)) -> tops k (ess ++ [es]) (take (S i) (workers p)).
Proof. intros Hi ? ?. unfold tops. rewrite (take_S_r _ _ _ Hi). apply Forall2_app; [done|]. constructor; [done|constructor]. Qed.

Lemma reporting_caller k p s j c r : reporting k p s -> report_ok k p c ->
  (forall i l, r !! i = Some (Some l) -> exists w, workers p !! i = Some w /\ topOf (hl_counts (hl w)) k l) ->
  reporting k p (set_caller j c (set_replies r s)).
Proof. intros [? ? ?] ? ?. split; simpl; [done|by apply Forall_insert|done]. Qed.

Lemma set_replies_same (s : Conc) : set_replies (replies s) s = s.
Proof. by destruct s. Qed.

Lemma reporting_go k p s a s' : 0 <= k -> reportSize p = k -> Forall worker_ok (workers p) ->
  Forall (fun w => kisChan w = []) (workers p) -> reporting k p s -> go a s = Ret (tt, s') -> reporting k p s'.
Proof.
  intros Hk Hsize Hws Hq Hrp. pose proof Hrp as [Hp Hc Hr]. destruct a as [j t|i]; cbn [Callers.go].
  2:{ unfold workerRecv. destruct (busy i s); [done|]. rewrite Hp.
      destruct (workers p !! i) as [w|] eqn:Hi; [|done]. simpl. unfold loopRecv.
      destruct (Forall_lookup_1 _ _ _ _ Hws Hi) as (Hcl & -> & _).
      by rewrite (Forall_lookup_1 _ _ _ _ Hq Hi), Hcl. }
  destruct (callers s !! j) as [c|] eqn:Hj; [|done]. pose proof (Forall_lookup_1 _ _ _ _ Hc Hj) as Hok.
  destruct c as [[|[]| |]| | |[] i es|[] i es| | |[] []]; try done; cbn [Callers.callerStep handleStep reportStep resetStep]; unfold mbind, outcome_bind.
  - destruct (_ <? 0); [done|]. intros [= <-]. rewrite <- (set_replies_same s) at 1.
    apply reporting_caller; [done| |done]. exists []. by split; [|constructor].
  - rewrite Hp. destruct Hok as (ess & -> & Htops). destruct (workers p !! i) as [w|] eqn:Hi.
    + destruct (busy i s); [done|].
      destruct (Forall_lookup_1 _ _ _ _ Hws Hi) as (_ & Hd & _).
      destruct (hl_Top_law (iteration t (hl w)) (reportSize p) (hl w) (iteration_ok t _)) as (l & El & Htop); [lia|].
      rewrite (onWorker_eq i _ p w l w Hi) by (unfold top; rewrite Hd; unfold mbind, outcome_bind; by rewrite El).
      rewrite (list_insert_id (workers p) i w Hi). intros [= <-].
      assert (set_pool_ (set_workers (workers p) p) s = s) as -> by (destruct s; simpl in *; subst; by destruct p).
      apply reporting_caller; [done|by exists ess|]. intros i' l'. destruct (decide (i' = i)) as [->|].
      * destruct (decide (i < length (replies s))%nat).
        -- rewrite list_lookup_insert_eq by done. intros [= <-]. exists w. by rewrite <- Hsize.
        -- rewrite list_insert_ge by lia. apply Hr.
      * rewrite list_lookup_insert_ne by done. apply Hr.
    + intros [= <-]. rewrite <- (set_replies_same s) at 1. apply reporting_caller; [done| |done].
      exists ess. split; [done|]. apply lookup_ge_None_1 in Hi. by rewrite take_ge in Htops.
  - destruct (replies s !! i) as [[l|]|] eqn:El; [|done..]. intros [= <-].
    destruct Hok as (ess & -> & Htops). destruct (Hr i l El) as (w & Hi & Htop).
    apply reporting_caller; [done| |].
    + exists (ess ++ [l]). split; [rewrite concat_app; simpl; by rewrite app_nil_r|by eapply tops_next].
    + intros i' l'. destruct (decide (i' = i)) as [->|]; [|rewrite list_lookup_insert_ne by done; apply Hr].
      rewrite list_lookup_insert_eq by (by eapply lookup_lt_Some). done.
Qed.

Lemma reporting_goAll k p acts : 0 <= k -> reportSize p = k -> Forall worker_ok (workers p) ->
  Forall (fun w => kisChan w = []) (workers p) -> forall s s', reporting k p s -> goAll acts s = Ret (tt, s') -> reporting k p s'.
Proof.
  intros Hk Hs Hws Hq. induction acts as [|a acts IH]; intros s s' Hrp; cbn [Callers.goAll]; [by intros [= <-]|].
  unfold mbind, gom_bind. destruct (go a s) as [[[] s1]| | |] eqn:E; try done.
  apply IH. by eapply reporting_go.
Qed.

Lemma reporting_start k p m : reporting k p (start p (replicate m (CallReport false))).
Proof.
  split; simpl; [done| |].
  - apply Forall_fmap, Forall_replicate. done.
  - intros i l E. by apply lookup_replicate in E as [? _].
Qed.

(** The lines of a report do not depend on the order of the events. *)
Lemma lines_perm l l' : l ≡ₚ l' -> lineOf l <$> remove_dups l ≡ₚ lineOf l' <$> remove_dups l'.
Proof.
  intros Hp. assert (forall x, lineOf l x = lineOf l' x) as El.
  { intros x. unfold lineOf, occ, zlen. by rewrite Hp. }
  rewrite (list_fmap_ext _ (lineOf l') (remove_dups l)) by (intros; apply El). by rewrite Hp.
Qed.

Lemma filterEvents_idem evts f : filterEvents (filterEvents evts f) f = filterEvents evts f.
Proof. apply passes_filter, filterEvents_passes. Qed.

(** Calls of HandleEvents on a pool. *)
Lemma handles_refine (p0 : Pool) batches : pool_ok p0 -> 0 < zlen (workers p0) <= int_max ->
  EventsHandled p0 + EventsDropped p0 + zlen (filterEvents (concat batches) (filter_ p0)) <= int_max ->
  forall acts s, goAll acts (start p0 (CallHandleEvents <$> batches)) = Ret (tt, s) -> allFinished s = true ->
  exists calls, run calls p0 = Ret (tt, pool s) /\ offered calls ≡ₚ filterEvents (concat batches) (filter_ p0) /\
    EventsHandled (pool s) + EventsDropped (pool s) =
      EventsHandled p0 + EventsDropped p0 + zlen (filterEvents (concat batches) (filter_ p0)).
Proof.
  intros Hok Hn Hmax acts s E Hfin. pose proof (counts_start p0 Hok) as Hinv.
  pose proof (sim_start _ _ _ _ _ batches Hinv) as Hsim.
  destruct (sim_goAll _ _ _ _ _ _ Hn Hmax Hinv acts _ _ _ Hsim E) as (calls & Hsim').
  destruct (sim_finished _ _ _ _ _ _ Hn Hmax Hinv _ _ Hsim' Hfin) as (Hr & Ho & Hinv').
  exists calls. split_and!; [done..|]. rewrite (counts_total _ _ _ _ _ _ Hinv'). f_equal.
  rewrite <- (filterEvents_idem (concat batches) (filter_ p0)). unfold zlen. destruct (filter_ p0); simpl in *; by rewrite Ho.
Qed.

(** Calls with batches of hits on a new pool with filter [f]. *)
Lemma handles_new n k f batches : 0 < n <= int_max ->
  Forall (fun e => isHit e = true) (concat batches) -> zlen (concat batches) <= int_max ->
  exists p0, New n k = Ret p0 /\
    forall acts s, goAll acts (start (set_filter f p0) (CallHandleEvents <$> batches)) = Ret (tt, s) ->
      allFinished s = true ->
      exists calls, run calls (set_filter f p0) = Ret (tt, pool s) /\
        offered calls ≡ₚ filterEvents (concat batches) f /\ run_inv n k f (offered calls) (pool s).
Proof.
  intros Hn Hh Hmax. destruct (New_inv n k f) as (p0 & E0 & Hinv); [lia|]. exists p0. split; [done|].
  intros acts s E Hfin. pose proof (filterEvents_zlen (concat batches) f).
  destruct Hinv as [Hok Hw Hk Hf Hc Hg] eqn:Einv. clear Einv. simpl in Hf.
  assert (EventsHandled (set_filter f p0) + EventsDropped (set_filter f p0) = 0) as Hz by (rewrite Hc; by destruct f).
  destruct (handles_refine _ batches Hok ltac:(by rewrite Hw) ltac:(simpl in *; lia) acts s E Hfin) as (calls & Hr & Ho & _).
  exists calls. split_and!; [done..|]. simpl in Ho.
  assert (zlen (offered calls) <= int_max) as Hl by (unfold zlen in *; rewrite Ho; lia).
  destruct (run_inv_run n k f calls [] _ Hn Hinv) as ([] & p & E' & Hinv'); [rewrite Ho; by apply filterEvents_hits|done|].
  rewrite Hr in E'. by injection E' as <-.
Qed.

(** Reports of the pool that concurrent calls of HandleEvents leave. *)
Lemma reports_exact n k f batches reports :
  0 < n <= int_max -> 0 <= k ->
  Forall (fun e => isHit e = true) (concat batches) -> zlen (concat batches) <= int_max ->
  let l := kiOf <$> filterEvents (concat batches) f in
  Z.of_nat (length (remove_dups l)) <= k ->
  exists p0, New n k = Ret p0 /\
    forall acts s, goAll acts (start (set_filter f p0) (CallHandleEvents <$> batches)) = Ret (tt, s) ->
      allFinished s = true -> EventsDropped (pool s) = 0 -> Forall (fun w => kisChan w = []) (workers (pool s)) ->
      forall racts s', goAll racts (start (pool s) (replicate reports (CallReport false))) = Ret (tt, s') ->
        forall j rep err, callers s' !! j = Some (Finished rep err) ->
          exists r, rep = Some r /\ err = None /\ Keys r ≡ₚ lineOf l <$> remove_dups l /\
            StronglySorted (fun a b => TrafficEstimate b <= TrafficEstimate a) (Keys r).
Proof.
  intros Hn Hk Hh Hmax l Hsize. destruct (handles_new n k f batches Hn Hh Hmax) as (p0 & E0 & Hp0).
  exists p0. split; [done|]. intros acts s E Hfin Hd Hq racts s' Er j rep err Hj.
  destruct (Hp0 acts s E Hfin) as (calls & _ & Ho & Hinv).
  pose proof (reporting_goAll k (pool s) racts Hk (run_size _ _ _ _ _ Hinv) (ok_workers _ (run_ok _ _ _ _ _ Hinv)) Hq
    _ _ (reporting_start k (pool s) reports) Er) as [_ Hc _].
  pose proof (Forall_lookup_1 _ _ _ _ Hc Hj) as Hok.
  destruct rep as [r|]; [|done]. destruct err; [done|]. destruct Hok as (ess & HK & Htops).
  assert (kiOf <$> filterEvents (offered calls) f ≡ₚ l) as Hl.
  { unfold l. rewrite <- (filterEvents_idem (concat batches) f). destruct f; simpl in *; by rewrite Ho. }
  exists r. rewrite HK. split_and!; [done..| |apply report_sorted]. rewrite sort_Sort_perm, <- (lines_perm _ _ Hl).
  assert (zlen (offered calls) <= zlen (concat batches)) as Hz.
  { unfold zlen. rewrite Ho. apply filterEvents_zlen. }
  eapply exact_keys; try done; [lia| |lia|by rewrite Hl].
  rewrite Ho. by apply filterEvents_hits.
Qed.

(** ** Properties *)

(** C6: the report is exact under concurrent calls.  Any number of goroutines
    call HandleEvents at once on a new pool with batches of hits, no more events
    together than an int holds, their sends, their counting and the receives of
    the workers interleaved in any way.  When all calls are finished, nothing was
    dropped and the queues are drained, then each of any number of reports that
    run at once, their requests and replies interleaved in any way, that has
    finished has returned exactly one line per distinct (key, size) that passes
    the filter, with its exact count, in descending order of traffic, provided
    there are at most reportSize distinct pairs (key, size): with more, a worker
    reports only the reportSize first of its own. *)
Theorem concurrent_report_exact n k f batches reports :
  0 < n <= int_max -> 0 <= k ->
  Forall (fun e => isHit e = true) (concat batches) -> zlen (concat batches) <= int_max ->
  let l := kiOf <$> filterEvents (concat batches) f in
  Z.of_nat (length (remove_dups l)) <= k ->
  exists p0, New n k = Ret p0 /\
    forall acts s, goAll acts (start (set_filter f p0) (CallHandleEvents <$> batches)) = Ret (tt, s) ->
      allFinished s = true -> EventsDropped (pool s) = 0 -> Forall (fun w => kisChan w = []) (workers (pool s)) ->
      forall racts s', goAll racts (start (pool s) (replicate reports (CallReport false))) = Ret (tt, s') ->
        forall j rep err, callers s' !! j = Some (Finished rep err) ->
          exists r, rep = Some r /\ err = None /\ Keys r ≡ₚ lineOf l <$> remove_dups l /\
            StronglySorted (fun a b => TrafficEstimate b <= TrafficEstimate a) (Keys r).
Proof. apply reports_exact. Qed.

(** C18: HandleEvents is threadsafe.  On any pool of at least one worker, all running, for any
    batches of events, hits or not: however the steps of concurrent calls of
    HandleEvents interleave with each other and with the workers, the pool they
    leave is one that calls made one after the other leave, for batches that
    together are the events that pass the filter; and every such event is counted
    once, as handled or as dropped, as long as the counters do not overflow. *)
Theorem concurrent_handles_refine (p0 : Pool) batches :
  pool_ok p0 -> 0 < zlen (workers p0) <= int_max ->
  EventsHandled p0 + EventsDropped p0 + zlen (filterEvents (concat batches) (filter_ p0)) <= int_max ->
  forall acts s, goAll acts (start p0 (CallHandleEvents <$> batches)) = Ret (tt, s) -> allFinished s = true ->
    EventsHandled (pool s) + EventsDropped (pool s) =
      EventsHandled p0 + EventsDropped p0 + zlen (filterEvents (concat batches) (filter_ p0)) /\
    exists calls, run calls p0 = Ret (tt, pool s) /\ offered calls ≡ₚ filterEvents (concat batches) (filter_ p0).
Proof.
  intros Hok Hn Hmax acts s E Hfin.
  destruct (handles_refine p0 batches Hok Hn Hmax acts s E Hfin) as (calls & ? & ? & ?). split; [done|]. by exists calls.
Qed.

(** C19: calls of the pool complete.  Any number of goroutines call HandleEvents,
    Report, Reset and SetFilterPattern at once on a pool with at least one worker,
    its workers running, and a reportSize that is not negative and whose product
    with the number of workers fits an int, with anything in the queues, their steps interleaved in any way with the workers': no step
    panics; the steps are bounded; as long as a call is not finished some caller
    has a step, whatever the workers do; and all calls can always be run to their
    ends. *)
Theorem concurrent_calls_complete n k p tasks :
  Forall worker_ok (workers p) -> zlen (workers p) = n -> reportSize p = k ->
  0 < n <= int_max -> 0 <= k -> k * n <= int_max ->
  forall acts s, goAll acts (start p tasks) = Ret (tt, s) ->
    zlen acts <= (3 * n + 2) * zlen tasks + queued p /\
    (forall a, go a s = Blocked \/ exists s', go a s = Ret (tt, s')) /\
    (allFinished s = false -> forall t, exists j s', go (StepCaller j t) s = Ret (tt, s')) /\
    exists acts' s', goAll acts' s = Ret (tt, s') /\ allFinished s' = true.
Proof.
  intros Hw Hl Hs Hn Hk Hkn acts s E.
  destruct (goAll_steps iteration clock iteration_ok n k acts Hn Hk Hkn _ _ (start_ok n k p tasks Hw Hl Hs) E) as [Hok Hleft].
  pose proof (left_nonneg n k s Hok). pose proof (start_left n p tasks Hl). split_and!; [lia| | |].
  - intros a. destruct (go_steps iteration clock iteration_ok n k s a Hn Hk Hkn Hok) as [?|(s' & ? & _)]; eauto.
  - intros Hf. by apply (some_caller_steps iteration clock iteration_ok n k s).
  - by apply (all_finish iteration clock iteration_ok n k s 0).
Qed.

End concurrent.
