(* ===== verification/Interval.v ===== *)
(** * analysis: reports that clear the pool

    By default the screen asks for a report with reset once per interval, while
    the goroutines of the parsers go on handing batches over.  A hit may then be
    lost, as the comments of report.go say: a batch that a worker receives between
    the reply with its top entries and its reset is cleared without having been
    reported.  Here it is shown that none is reported twice. *)
From Stdlib Require Import Strings.Byte.
From S2P Require Import Prelude GoLib Buffer Reader Model Hotlist Analysis Callers Concurrent.
Local Open Scope Z_scope.

(** ** Counting one item *)

(** Requests for [x] in the entries of hot lists, and in a report. *)
Definition entryCount (x : keyInfo) (es : list (itemCount keyInfo)) : Z :=
  sumZ (fun e => if decide (item e = x) then count e else 0) es.

Definition requestsOf (x : keyInfo) (rep : ReportT) : Z :=
  sumZ (fun kr => if decide (Name kr = name x /\ ReportedSize kr = size_ x) then RequestsEstimate kr else 0) (Keys rep).

(** The events of the batches handed over. *)
Definition handed (tasks : list task) : list Event :=
  concat ((fun t => match t with CallHandleEvents evts => evts | _ => [] end) <$> tasks).

Section interval.
Context {H : Type} {HHot : HotList H keyInfo} {HRe : RegexpPkg} {HSort : SortPkg}.
Context (iteration : nat -> H -> list (keyInfo * Z)) (clock : nat -> Z).
Context (iteration_ok : forall t h, iteration t h ≡ₚ map_to_list (hl_counts h)).
Local Abbreviation Conc := (@Conc H HRe).
Local Abbreviation worker := (@worker H).
Local Abbreviation go := (go iteration clock).
Local Abbreviation goAll := (goAll iteration clock).

Definition countIn (x : keyInfo) (h : H) : Z := default 0 (hl_counts h !! x).

(** Requests for [x] that a caller has still to send, that are with a worker or in
    its reply, and that a caller has reported or collected for its report. *)
Definition toSend (x : keyInfo) (c : caller) : Z :=
  match c with
  | Starting (CallHandleEvents evts) => occ x (kiOf <$> evts)
  | Sending _ per | Counting _ _ _ per => occ x (kiOf <$> concat per)
  | _ => 0
  end.

Definition inWorker (x : keyInfo) (w : worker) : Z := countIn x (hl w) + occ x (concat (kisChan w)).

Definition inReply (x : keyInfo) (r : option (list (itemCount keyInfo))) : Z :=
  match r with Some l => entryCount x l | None => 0 end.

Definition collected (x : keyInfo) (c : caller) : Z :=
  match c with
  | Asking _ _ es | Awaiting _ _ es | Clearing _ es => entryCount x es
  | Finished (Some rep) _ => requestsOf x rep
  | _ => 0
  end.

(** What is with a worker although its reply has been made: the caller is going to
    reset that worker. *)
Definition covered (x : keyInfo) (ws : list worker) (c : caller) : Z :=
  match c with
  | Awaiting _ i _ | Clearing i _ => match ws !! i with Some w => countIn x (hl w) | None => 0 end
  | _ => 0
  end.

Definition present (x : keyInfo) (s : Conc) : Z :=
  sumZ (inWorker x) (workers (pool s)) + sumZ (toSend x) (callers s).

Definition total (x : keyInfo) (s : Conc) : Z :=
  present x s + sumZ (collected x) (callers s) + sumZ (inReply x) (replies s)
  - sumZ (covered x (workers (pool s))) (callers s).

(** The requests for [x] in all reports that were returned. *)
Definition reported (x : keyInfo) (s : Conc) : Z :=
  sumZ (fun c => match c with Finished (Some rep) _ => requestsOf x rep | _ => 0 end) (callers s).

(** A caller in the middle of Report. *)
Definition reporter (c : caller) : Z :=
  match c with Asking _ _ _ | Awaiting _ _ _ | Clearing _ _ => 1 | _ => 0 end.

Definition reporters (s : Conc) : Z := sumZ reporter (callers s).

(** No two reports overlap in a run: there is one goroutine that asks for them. *)
Fixpoint oneReporter (acts : list goStep) (s : Conc) : bool :=
  (reporters s <=? 1) &&
  match acts with
  | [] => true
  | a :: acts => match go a s with Ret (_, s') => oneReporter acts s' | _ => true end
  end.

(** ** Lemmas: entries *)

Lemma entryCount_app x l l' : entryCount x (l ++ l') = entryCount x l + entryCount x l'.
Proof. apply sumZ_app. Qed.

Lemma requestsOf_merge t x es : requestsOf x (mergeEntries clock t es) = entryCount x es.
Proof.
  unfold requestsOf, mergeEntries. cbn [Keys].
  assert (forall l l' : list KeyReport, l ≡ₚ l' -> forall f, sumZ f l = sumZ f l') as Hp.
  { intros l l' E f. unfold sumZ. induction E; simpl; lia. }
  rewrite (Hp _ _ (sort_Sort_perm _ _)). unfold entryCount, sumZ. clear. induction es as [|e es IH]; [done|].
  rewrite fmap_cons. cbn [foldr]. rewrite IH. f_equal. unfold keyReport. cbn.
  destruct (decide (item e = x)) as [<-|Hne]; [by rewrite decide_True|].
  rewrite decide_False; [done|]. intros [En Es]. apply Hne. destruct (item e), x. by simpl in *; subst.
Qed.

Lemma entryCount_none x es : x ∉ (item <$> es) -> entryCount x es = 0.
Proof.
  induction es as [|e es IH]; [done|]. rewrite fmap_cons, not_elem_of_cons. intros [Hne Hx].
  unfold entryCount, sumZ in *. cbn. rewrite decide_False, IH by congruence. done.
Qed.

(** The top entries have each item once, with its count. *)
Lemma top_entryCount (m : gmap keyInfo Z) k l x : topOf m k l -> 0 <= default 0 (m !! x) ->
  0 <= entryCount x l <= default 0 (m !! x).
Proof.
  intros [_ Hnd Hc _ _] Hpos. induction l as [|e l IH]; [done|].
  rewrite fmap_cons in Hnd. apply NoDup_cons in Hnd as [Hni Hnd]. apply Forall_cons in Hc as [[He _] Hc].
  unfold entryCount, sumZ in *. cbn. destruct (decide (item e = x)) as [<-|].
  - change (foldr _ 0 l) with (entryCount (item e) l). rewrite entryCount_none, He by done. rewrite He in Hpos. simpl in *. lia.
  - specialize (IH Hnd Hc). lia.
Qed.

(** ** Lemmas: workers *)

Lemma occ_cons x y l : occ x (y :: l) = (if decide (y = x) then 1 else 0) + occ x l.
Proof.
  rewrite (occ_app x [y] l : occ x (y :: l) = _), occ_single.
  destruct (decide (x = y)) as [->|]; [by rewrite decide_True|by rewrite decide_False].
Qed.

Lemma countIn_add x ki (h : H) : countIn x (hl_AddWeighted ki h) =
  if decide (ki = x) then countIn x h +! 1 else countIn x h.
Proof.
  unfold countIn. rewrite hl_AddWeighted_law, hl_AddNWeighted_law. destruct (decide (ki = x)) as [->|Hne].
  - by rewrite lookup_insert_eq.
  - by rewrite lookup_insert_ne.
Qed.

Lemma countIn_fold x kis : forall h : H, 0 <= countIn x h -> countIn x h + occ x kis <= int_max ->
  countIn x (foldl (fun h ki => hl_AddWeighted ki h) h kis) = countIn x h + occ x kis.
Proof.
  induction kis as [|ki kis IH]; intros h Hpos Hmax; [simpl; change (occ x []) with 0; lia|].
  rewrite occ_cons in *. pose proof (occ_nonneg x kis). simpl.
  assert (countIn x (hl_AddWeighted ki h) = countIn x h + if decide (ki = x) then 1 else 0) as E.
  { rewrite countIn_add. destruct (decide (ki = x)); [|lia]. apply wrap64_id. unfold in_int, int_min. lia. }
  rewrite IH; rewrite E; destruct (decide (ki = x)); lia.
Qed.

Lemma countIn_reset x (w : worker) : countIn x (hl (resetW w)) = 0.
Proof. unfold countIn. simpl. by rewrite hl_Reset_law. Qed.

(** A batch received is moved into the hot list. *)
Lemma recv_moves (w w' : worker) : loopRecv w = Some w' -> worker_ok w -> 
  exists kis, (forall x, occ x (concat (kisChan w)) = occ x kis + occ x (concat (kisChan w'))) /\
    forall x, 0 <= countIn x (hl w) -> inWorker x w <= int_max -> countIn x (hl w') = countIn x (hl w) + occ x kis.
Proof.
  unfold loopRecv, inWorker. intros E (Hc & Hd & _). rewrite Hd in E.
  destruct (kisChan w) as [|kis rest] eqn:Ek; [by rewrite Hc in E|]. injection E as <-. exists kis.
  split; [intros x; cbn; by rewrite occ_app|]. intros x Hpos Hmax. cbn in *. rewrite occ_app in Hmax.
  pose proof (occ_nonneg x (concat rest)). apply countIn_fold; lia.
Qed.

Lemma uptoLastHit_prefix evts : uptoLastHit evts `prefix_of` evts.
Proof.
  induction evts as [|e es IH]; [done|]. simpl. destruct (uptoLastHit es) as [|e' l].
  - destruct (isHit e); [by apply prefix_cons, prefix_nil|apply prefix_nil].
  - by apply prefix_cons.
Qed.

Lemma copyEvents_occ x evts : occ x (copyEvents 0 evts []) <= occ x (kiOf <$> evts).
Proof.
  rewrite copyEvents_spec by done. destruct (uptoLastHit_prefix evts) as [l E]. rewrite E at 2. rewrite fmap_app, occ_app.
  pose proof (occ_nonneg x (kiOf <$> l)). destruct (uptoLastHit evts) as [|e es]; simpl; [change (occ x []) with 0; lia|lia].
Qed.

(** A batch sent is in the queue, or dropped. *)
Lemma send_adds events (w : worker) err w' : worker_ok w -> worker_handleEvents events w = Ret (err, w') ->
  hl w' = hl w /\ forall x, inWorker x w' <= inWorker x w + occ x (kiOf <$> events).
Proof.
  intros (Hc & _). unfold worker_handleEvents, inWorker. rewrite Hc. destruct (_ <? _); intros [= _ <-].
  - split; [done|]. intros x. cbn. rewrite concat_app, occ_app. cbn [concat]. rewrite app_nil_r.
    pose proof (copyEvents_occ x events). lia.
  - split; [done|]. intros x. pose proof (occ_nonneg x (kiOf <$> events)). lia.
Qed.

(** ** Lemmas: one reporter *)

(** Of summands that are zero where [g] is, with at most one [g] that is not. *)
Lemma sum_one {A} (f g : A -> Z) l j c : Forall (fun a => 0 <= g a) l -> (forall a, g a = 0 -> f a = 0) ->
  sumZ g l <= 1 -> l !! j = Some c -> g c = 1 -> sumZ f l = f c.
Proof.
  intros Hg Hf Hle Hj Hc. rewrite <- (take_drop_middle l j c Hj) in *.
  apply Forall_app in Hg as [Hg1 Hg2]. apply Forall_cons in Hg2 as [_ Hg2].
  rewrite sumZ_app in *. cbn [sumZ foldr] in *. fold (sumZ g (drop (S j) l)) in Hle. fold (sumZ f (drop (S j) l)).
  pose proof (sumZ_nonneg g _ Hg1). pose proof (sumZ_nonneg g _ Hg2).
  assert (forall k, Forall (fun a => 0 <= g a) k -> sumZ g k <= 0 -> sumZ f k = 0) as Hz.
  { clear -Hf. induction 1 as [|a k Ha Hk IH]; [done|]. cbn [sumZ foldr]. fold (sumZ g k) (sumZ f k). intros Hle.
    pose proof (sumZ_nonneg g k Hk). rewrite Hf, IH by lia. done. }
  rewrite !Hz by (done || lia). lia.
Qed.

Lemma reporter_bounds c : 0 <= reporter c.
Proof. by destruct c. Qed.

Lemma covered_reporter x ws c : reporter c = 0 -> covered x ws c = 0.
Proof. by destruct c. Qed.

(** What is covered is what one caller covers, if there is one. *)
Lemma covered_one cs : sumZ reporter cs <= 1 ->
  (forall x ws, sumZ (covered x ws) cs = 0) \/
  exists j c, cs !! j = Some c /\ reporter c = 1 /\ forall x ws, sumZ (covered x ws) cs = covered x ws c.
Proof.
  intros Hle. destruct (decide (Exists (fun c => reporter c = 1) cs)) as [Hex|Hno].
  - right. apply Exists_exists in Hex as (c & (j & Hj)%list_elem_of_lookup_1 & Hc). exists j, c. do 2 (split; [done|]).
    intros x ws. apply (sum_one _ reporter cs j c); [|by apply covered_reporter|done..].
    apply Forall_true. apply reporter_bounds.
  - left. intros x ws. apply not_Exists_Forall in Hno; [|apply _]. induction Hno as [|c cs Hc _ IH]; [done|].
    cbn [sumZ foldr] in *. fold (sumZ reporter cs) in Hle. fold (sumZ (covered x ws) cs).
    pose proof (reporter_bounds c). rewrite covered_reporter by (destruct c; done || by destruct Hc). rewrite IH; [done|lia].
Qed.

(** ** The invariant *)

Definition resets (c : caller) : Prop :=
  match c with Starting (CallReport b) | Asking b _ _ | Awaiting b _ _ => b = true | _ => True end.

(** With [T] requests handed in, no more are present, and no more are present or
    reported. *)
Record interval_ok (T : keyInfo -> Z) (s : Conc) : Prop := {
  io_counts x : Forall (fun w => 0 <= countIn x (hl w)) (workers (pool s));
  io_present x : present x s <= T x;
  io_total x : total x s <= T x;
  io_collected x : Forall (fun c => 0 <= collected x c) (callers s);
  io_replies x : Forall (fun r => 0 <= inReply x r) (replies s);
  io_callers : Forall resets (callers s)
}.

Lemma inWorker_nonneg x ws : Forall (fun w => 0 <= countIn x (hl w)) ws -> Forall (fun w => 0 <= inWorker x w) ws.
Proof. intros Hw. eapply Forall_impl; [exact Hw|]. cbn beta. intros w ?. pose proof (occ_nonneg x (concat (kisChan w))). unfold inWorker. lia. Qed.

Lemma toSend_nonneg x c : 0 <= toSend x c.
Proof. destruct c as [[]| | | | | | |]; simpl; done || apply occ_nonneg. Qed.

(** A worker holds no more than was handed in. *)
Lemma worker_bound T s x i w : interval_ok T s -> workers (pool s) !! i = Some w -> inWorker x w <= T x.
Proof.
  intros Hio Hi. pose proof (io_present _ _ Hio x) as Hp. unfold present in Hp.
  pose proof (sumZ_elem (inWorker x) _ _ _ Hi (inWorker_nonneg x _ (io_counts _ _ Hio x))).
  pose proof (sumZ_nonneg (toSend x) (callers s) (Forall_true _ _ (toSend_nonneg x))). lia.
Qed.

(** The caller at [j] moves. *)
Lemma interval_update T s j c c' p' r' : interval_ok T s -> callers s !! j = Some c ->
  (forall x, Forall (fun w => 0 <= countIn x (hl w)) (workers p')) -> (forall x, 0 <= collected x c') ->
  (forall x, Forall (fun r => 0 <= inReply x r) r') -> resets c' ->
  (forall x, let moved := sumZ (inWorker x) (workers p') + toSend x c' - sumZ (inWorker x) (workers (pool s)) - toSend x c in
    moved <= 0 /\
    moved + collected x c' + sumZ (inReply x) r' + sumZ (covered x (workers (pool s))) (callers s) + covered x (workers p') c <=
    collected x c + sumZ (inReply x) (replies s) + sumZ (covered x (workers p')) (callers s) + covered x (workers p') c') ->
  interval_ok T (set_caller j c' (mkConc p' r' (callers s))).
Proof.
  intros [H1 H2 H3 H4 H5 H6] Hj Hw Hc Hr Hres Hx. split; simpl; try done.
  - intros x. destruct (Hx x) as [Hm _]. specialize (H2 x). unfold present in *. simpl.
    rewrite (sumZ_insert _ _ _ _ _ Hj). lia.
  - intros x. destruct (Hx x) as [_ Hm]. specialize (H3 x). unfold total, present in *. simpl.
    rewrite !(sumZ_insert _ _ _ _ _ Hj). lia.
  - intros x. by apply Forall_insert.
  - by apply Forall_insert.
Qed.

(** A move that leaves the hot lists and replies. *)
Lemma interval_move T s j c c' p' : interval_ok T s -> callers s !! j = Some c ->
  hl <$> workers p' = hl <$> workers (pool s) -> resets c' ->
  (forall x ws, covered x ws c' = 0 /\ covered x ws c = 0) ->
  (forall x, 0 <= collected x c' <= collected x c) ->
  (forall x, sumZ (inWorker x) (workers p') + toSend x c' <= sumZ (inWorker x) (workers (pool s)) + toSend x c) ->
  interval_ok T (set_caller j c' (set_pool_ p' s)).
Proof.
  intros Hio Hj Hhl Hres Hcov Hcol Hx.
  assert (forall x cs, sumZ (covered x (workers p')) cs = sumZ (covered x (workers (pool s))) cs) as Hsame.
  { intros x cs. apply sumZ_ext. intros c0 _. assert (forall i, hl <$> workers p' !! i = hl <$> workers (pool s) !! i) as Hi
      by (intros i; by rewrite <- !list_lookup_fmap, Hhl).
    destruct c0; try done; simpl; specialize (Hi i); destruct (workers p' !! i), (workers (pool s) !! i); simplify_eq/=; congruence. }
  apply (interval_update T s j c c' p' (replies s)); try done.
  - intros x. rewrite <- (Forall_fmap hl (fun h => 0 <= countIn x h)), Hhl, Forall_fmap. apply Hio.
  - intros x. apply Hcol.
  - apply Hio.
  - intros x. rewrite Hsame. destruct (Hcov x (workers p')) as [-> ->]. specialize (Hx x). specialize (Hcol x). cbv zeta. lia.
Qed.

(** ** Lemmas: the steps *)

Lemma filter_occ x evts f : occ x (kiOf <$> filterEvents evts f) <= occ x (kiOf <$> evts).
Proof.
  destruct f as [re|]; [|done]. simpl. induction evts as [|e evts IH]; [done|]. cbn [List.filter].
  destruct (MatchString re (Key e)); rewrite !fmap_cons, !occ_cons; [|destruct (decide _)]; lia.
Qed.

Lemma onWorker_inv {A} i (m : GoM worker A) (p p' : @Pool H HRe) a : onWorker i m p = Ret (a, p') ->
  exists w w', workers p !! i = Some w /\ m w = Ret (a, w') /\ p' = set_workers (<[i := w']> (workers p)) p.
Proof.
  unfold onWorker, mbind, outcome_bind. destruct (workers p !! i) as [w|]; [|done].
  destruct (m w) as [[a' w']| | |] eqn:E; try done. intros [= -> <-]. by exists w, w'.
Qed.

Lemma handle_interval T n k s j c c' s' : conc_ok n k s -> interval_ok T s -> callers s !! j = Some c ->
  handleStep c s = Ret (c', s') -> interval_ok T (set_caller j c' s').
Proof.
  intros Hok Hio Hj. unfold handleStep, mbind, outcome_bind.
  destruct c as [[evts| | |]|i [|events rest]|d m i rest| | | | |]; try done.
  - destruct (partitionEvents _ _) as [per| | |] eqn:E; try done. intros [= <- <-]. rewrite <- (set_pool_id s) at 1.
    apply (interval_move T s j _ _ _ Hio Hj); try done. intros x. simpl.
    assert (concat per ≡ₚ filterEvents evts (filter_ (pool s))) as Hper.
    { rewrite (partitionLoop_perm _ _ _ E). clear. by induction (workers (pool s)). }
    unfold occ, zlen. rewrite Hper. pose proof (filter_occ x evts (filter_ (pool s))). unfold occ, zlen in *. lia.
  - intros [= <- <-]. rewrite <- (set_pool_id s) at 1. by apply (interval_move T s j _ _ _ Hio Hj).
  - destruct (0 <? zlen events).
    + destruct (onWorker _ _ _) as [[err p']| | |] eqn:E; try done. intros [= <- <-].
      apply onWorker_inv in E as (w & w' & Hi & E & ->).
      destruct (send_adds _ _ _ _ (Forall_lookup_1 _ _ _ _ (cc_workers _ _ _ Hok) Hi) E) as [Hhl Hadd].
      apply (interval_move T s j _ _ _ Hio Hj); try done.
      * simpl. rewrite list_fmap_insert, Hhl. apply list_insert_id. by rewrite list_lookup_fmap, Hi.
      * intros x. simpl. rewrite (sumZ_insert _ _ _ _ _ Hi), fmap_app, occ_app. specialize (Hadd x). lia.
    + intros [= <- <-]. rewrite <- (set_pool_id s) at 1. apply (interval_move T s j _ _ _ Hio Hj); try done.
      intros x. simpl. rewrite fmap_app, occ_app. pose proof (occ_nonneg x (kiOf <$> events)). lia.
  - intros [= <- <-]. apply (interval_move T s j _ _ _ Hio Hj); try done; by destruct d.
Qed.

Lemma reset_inv (w w' : worker) u : reset w = Ret (u, w') -> w' = resetW w.
Proof. unfold reset. destruct (loopDone w); [done|]. by intros [= _ <-]. Qed.

Lemma resetW_counts x (ws : list worker) i w : Forall (fun w => 0 <= countIn x (hl w)) ws ->
  Forall (fun w => 0 <= countIn x (hl w)) (<[i := resetW w]> ws).
Proof. intros Hw. apply Forall_insert; [done|]. by rewrite countIn_reset. Qed.

Lemma resetW_inWorker x (w : worker) : inWorker x (resetW w) = inWorker x w - countIn x (hl w).
Proof. unfold inWorker. rewrite countIn_reset. simpl. lia. Qed.

(** What is covered at another worker's reset, and at this one's. *)
Lemma covered_reset x (ws : list worker) i w c : ws !! i = Some w -> 0 <= countIn x (hl w) ->
  covered x ws c - countIn x (hl w) <= covered x (<[i := resetW w]> ws) c.
Proof.
  intros Hi Hpos. assert (forall i', match ws !! i' with Some w => countIn x (hl w) | None => 0 end - countIn x (hl w) <=
    match <[i := resetW w]> ws !! i' with Some w => countIn x (hl w) | None => 0 end) as Hle.
  { intros i'. destruct (decide (i' = i)) as [->|].
    - rewrite list_lookup_insert_eq, Hi, countIn_reset by (by eapply lookup_lt_Some). lia.
    - rewrite list_lookup_insert_ne by done. lia. }
  destruct c; simpl; try lia; apply Hle.
Qed.

Lemma report_interval T n k s j t c c' s' : 0 <= k -> conc_ok n k s -> interval_ok T s -> reporters s <= 1 ->
  callers s !! j = Some c -> reportStep iteration clock t c s = Ret (c', s') -> interval_ok T (set_caller j c' s').
Proof.
  intros Hk Hok Hio Hone Hj. unfold reportStep, mbind, outcome_bind.
  pose proof (Forall_lookup_1 _ _ _ _ (io_callers _ _ Hio) Hj) as Hres.
  assert (forall x, 0 <= collected x c) as Hcol
    by (intros x; apply (Forall_lookup_1 _ _ _ _ (io_collected _ _ Hio x) Hj)).
  destruct c as [[|b| |]| | |b i es|b i es|i es| |]; try done.
  - destruct (_ <? 0); [done|]. intros [= <- <-]. rewrite <- (set_pool_id s) at 1.
    by apply (interval_move T s j _ _ _ Hio Hj).
  - destruct (workers (pool s) !! i) as [w|] eqn:Hi.
    + destruct (busy i s) eqn:Hb; [done|].
      destruct (onWorker _ _ _) as [[l p']| | |] eqn:E; try done. intros [= <- <-].
      destruct (top_step iteration iteration_ok n k s j t b i es Hk Hok Hj Hb) as (w0 & l0 & Hw0 & Htop & E0 & _);
        [by eapply lookup_lt_Some|].
      assert (w0 = w) as -> by congruence. rewrite E0 in E. injection E as <- <-.
      assert (replies s !! i = Some None) as Hr.
      { unfold busy in Hb. destruct (lookup_lt_is_Some_2 (replies s) i) as [[l|] El]; [|by rewrite El in Hb|done].
        rewrite (cc_replies _ _ _ Hok). by eapply lookup_lt_Some. }
      assert (forall x, 0 <= countIn x (hl w)) as Hpos
        by (intros x; apply (Forall_lookup_1 _ _ _ _ (io_counts _ _ Hio x) Hi)).
      assert (forall x, 0 <= entryCount x l0 <= countIn x (hl w)) as Hent
        by (intros x; apply (top_entryCount _ _ _ x Htop), (Hpos x)).
      apply (interval_update T s j _ (Awaiting b i es) (pool s) (<[i := Some l0]> (replies s)) Hio Hj).
      * apply Hio.
      * apply Hcol.
      * intros x. apply Forall_insert; [apply Hio|]. apply Hent.
      * done.
      * intros x. simpl. rewrite (sumZ_insert _ _ _ _ _ Hr), Hi. specialize (Hent x). simpl. lia.
    + intros [= <- <-]. rewrite <- (set_pool_id s) at 1. apply (interval_move T s j _ _ _ Hio Hj); try done.
      intros x. specialize (Hcol x). simpl in *. rewrite requestsOf_merge. lia.
  - destruct (replies s !! i) as [[l|]|] eqn:El; try done. simpl in Hres. subst b. intros [= <- <-].
    pose proof (fun x => Forall_lookup_1 _ _ _ _ (io_replies _ _ Hio x) El) as Hl.
    apply (interval_update T s j _ (Clearing i (es ++ l)) (pool s) (<[i := None]> (replies s)) Hio Hj).
    + apply Hio.
    + intros x. specialize (Hcol x). specialize (Hl x). simpl in *. rewrite entryCount_app. lia.
    + intros x. apply Forall_insert; [apply Hio|done].
    + done.
    + intros x. simpl. rewrite (sumZ_insert _ _ _ _ _ El), entryCount_app. simpl. lia.
  - destruct (busy i s); [done|]. destruct (onWorker _ _ _) as [[u p']| | |] eqn:E; try done. intros [= <- <-].
    apply onWorker_inv in E as (w & w' & Hi & ->%reset_inv & ->).
    assert (forall x ws, sumZ (covered x ws) (callers s) = covered x ws (Clearing i es)) as Hcov.
    { intros x ws. apply (sum_one _ reporter (callers s) j); try done; [apply Forall_true, reporter_bounds|apply covered_reporter]. }
    apply (interval_update T s j _ (Asking true (S i) es) _ (replies s) Hio Hj).
    + intros x. apply resetW_counts, Hio.
    + apply Hcol.
    + apply Hio.
    + done.
    + intros x. cbv zeta. rewrite !Hcov. cbn [workers set_workers].
      rewrite (sumZ_insert _ _ _ _ _ Hi), resetW_inWorker. simpl. rewrite Hi.
      pose proof (Forall_lookup_1 _ _ _ _ (io_counts _ _ Hio x) Hi). simpl in *. lia.
Qed.

Lemma reset_interval T s j c c' s' : interval_ok T s -> reporters s <= 1 ->
  callers s !! j = Some c -> resetStep c s = Ret (c', s') -> interval_ok T (set_caller j c' s').
Proof.
  intros Hio Hone Hj. unfold resetStep, mbind, outcome_bind. destruct c as [[| | |pat]| | | | | |i|]; try done.
  - intros [= <- <-]. rewrite <- (set_pool_id s) at 1. by apply (interval_move T s j _ _ _ Hio Hj).
  - destruct (setPattern _ _) as [f [err|]]; intros [= <- <-]; by apply (interval_move T s j _ _ _ Hio Hj).
  - destruct (workers (pool s) !! i) as [w|] eqn:Hi.
    2:{ intros [= <- <-]. rewrite <- (set_pool_id s) at 1. by apply (interval_move T s j _ _ _ Hio Hj). }
    destruct (busy i s); [done|]. destruct (onWorker _ _ _) as [[u p']| | |] eqn:E; try done. intros [= <- <-].
    apply onWorker_inv in E as (w0 & w' & Hi0 & ->%reset_inv & ->). assert (w0 = w) as -> by congruence.
    apply (interval_update T s j _ (Resetting (S i)) _ (replies s) Hio Hj).
    + intros x. apply resetW_counts, Hio.
    + done.
    + apply Hio.
    + done.
    + intros x. cbv zeta. cbn [workers set_workers]. rewrite (sumZ_insert _ _ _ _ _ Hi), resetW_inWorker.
      pose proof (Forall_lookup_1 _ _ _ _ (io_counts _ _ Hio x) Hi) as Hpos. simpl in Hpos |- *.
      destruct (covered_one _ Hone) as [Hz|(j0 & c0 & _ & _ & Hs)].
      * rewrite !Hz. lia.
      * rewrite !Hs. pose proof (covered_reset x _ i w c0 Hi Hpos). lia.
Qed.

(** A receive moves a batch into the hot list, where it may be covered. *)
Lemma recv_interval T n k s i s' : (forall x, T x <= int_max) -> conc_ok n k s -> interval_ok T s -> reporters s <= 1 ->
  workerRecv i s = Ret (tt, s') -> interval_ok T s'.
Proof.
  intros Hmax Hok Hio Hone. unfold workerRecv. destruct (busy i s); [done|].
  destruct (workers (pool s) !! i) as [w|] eqn:Hi; [|done]. simpl. destruct (loopRecv w) as [w'|] eqn:E; [|done].
  intros [= <-].
  destruct (recv_moves w w' E (Forall_lookup_1 _ _ _ _ (cc_workers _ _ _ Hok) Hi)) as (kis & Hq & Hhl).
  assert (forall x, 0 <= countIn x (hl w)) as Hpos by (intros x; apply (Forall_lookup_1 _ _ _ _ (io_counts _ _ Hio x) Hi)).
  assert (forall x, countIn x (hl w') = countIn x (hl w) + occ x kis) as Hcount.
  { intros x. apply Hhl; [done|]. pose proof (worker_bound T s x i w Hio Hi). specialize (Hmax x). lia. }
  assert (forall x, inWorker x w' = inWorker x w) as Hin by (intros x; unfold inWorker; rewrite Hcount, Hq; lia).
  assert (forall x c, covered x (workers (pool s)) c <= covered x (<[i := w']> (workers (pool s))) c) as Hcov.
  { intros x c. assert (forall i', match workers (pool s) !! i' with Some w => countIn x (hl w) | None => 0 end <=
      match <[i := w']> (workers (pool s)) !! i' with Some w => countIn x (hl w) | None => 0 end) as Hle.
    { intros i'. destruct (decide (i' = i)) as [->|]; [|by rewrite list_lookup_insert_ne].
      rewrite list_lookup_insert_eq, Hi, Hcount by (by eapply lookup_lt_Some). pose proof (occ_nonneg x kis). lia. }
    destruct c; try done; apply Hle. }
  destruct Hio as [H1 H2 H3 H4 H5 H6]. split; simpl; try done.
  - intros x. apply Forall_insert; [done|]. rewrite Hcount. specialize (Hpos x). pose proof (occ_nonneg x kis). lia.
  - intros x. specialize (H2 x). unfold present in *. simpl. rewrite (sumZ_insert _ _ _ _ _ Hi), Hin. lia.
  - intros x. specialize (H3 x). unfold total, present in *. simpl. rewrite (sumZ_insert _ _ _ _ _ Hi), Hin.
    destruct (covered_one _ Hone) as [Hz|(j0 & c0 & _ & _ & Hs)]; [by rewrite Hz in *; lia|].
    rewrite Hs in *. specialize (Hcov x c0). lia.
Qed.

Lemma go_interval T n k s a s' : (forall x, T x <= int_max) -> 0 <= k -> conc_ok n k s -> interval_ok T s -> reporters s <= 1 ->
  go a s = Ret (tt, s') -> interval_ok T s'.
Proof.
  intros Hmax Hk Hok Hio Hone. destruct a as [j t|i]; [|by apply (recv_interval T n k)]. cbn [Callers.go].
  destruct (callers s !! j) as [c|] eqn:Hj; [|done]. unfold mbind, outcome_bind.
  destruct (callerStep iteration clock t c s) as [[c' s1]| | |] eqn:E; try done. intros [= <-].
  destruct c as [[]| | | | | | |]; cbn [callerStep] in E; try done;
    eauto using handle_interval, report_interval, reset_interval.
Qed.

Lemma run_interval T n k acts : (forall x, T x <= int_max) -> 0 < n <= int_max -> 0 <= k -> k * n <= int_max ->
  forall s s', conc_ok n k s -> interval_ok T s -> oneReporter acts s = true -> goAll acts s = Ret (tt, s') ->
  interval_ok T s' /\ reporters s' <= 1.
Proof.
  intros Hmax Hn Hk Hkn. induction acts as [|a acts IH]; intros s s' Hok Hio Hone E; cbn in Hone;
    apply andb_true_iff in Hone as [Hone%Z.leb_le Hrest].
  { by injection E as <-. }
  cbn [Callers.goAll] in E. unfold mbind, gom_bind in E. destruct (go a s) as [[[] s1]| | |] eqn:E1; try done.
  destruct (go_steps iteration clock iteration_ok n k s a Hn Hk Hkn Hok) as [?|(s1' & E1' & Hok1 & _)]; [congruence|].
  assert (s1' = s1) as -> by congruence. apply (IH s1); [done| |done|done]. by apply (go_interval T n k s a).
Qed.

Lemma start_interval p0 tasks :
  Forall (fun w => kisChan w = [] /\ hl_counts (hl w) = ∅) (workers p0) ->
  Forall (fun t => t <> CallReport false) tasks -> 
  interval_ok (fun x => occ x (kiOf <$> handed tasks)) (start p0 tasks).
Proof.
  intros Hempty Hts.
  assert (forall x, sumZ (inWorker x) (workers p0) = 0) as Hw.
  { intros x. clear -Hempty. induction Hempty as [|w ws [Hq Hh] _ IH]; [done|]. cbn [sumZ foldr]. fold (sumZ (inWorker x) ws).
    rewrite IH. unfold inWorker, countIn. by rewrite Hq, Hh, lookup_empty. }
  assert (forall x, sumZ (toSend x) (Starting <$> tasks) = occ x (kiOf <$> handed tasks)) as Hs.
  { intros x. unfold handed. clear. induction tasks as [|t tasks IH]; [done|]. rewrite !fmap_cons. cbn [concat sumZ foldr].
    fold (sumZ (toSend x) (Starting <$> tasks)). rewrite IH, fmap_app, occ_app. by destruct t. }
  assert (forall g : caller -> Z, (forall t, g (Starting t) = 0) -> sumZ g (Starting <$> tasks) = 0) as Hz.
  { intros g Hg. clear -Hg. induction tasks as [|t tasks IH]; [done|]. rewrite fmap_cons. cbn [sumZ foldr]. rewrite Hg. exact IH. }
  assert (forall x, sumZ (inReply x) (replicate (length (workers p0)) None) = 0) as Hr.
  { intros x. clear. by induction (length (workers p0)). }
  split; simpl.
  - intros x. eapply Forall_impl; [exact Hempty|]. intros w [_ Hh]. unfold countIn. by rewrite Hh, lookup_empty.
  - intros x. unfold present. simpl. rewrite Hw, Hs. lia.
  - intros x. unfold total, present. simpl. rewrite Hw, Hs, Hr, !Hz by done. lia.
  - intros x. by apply Forall_fmap, Forall_true.
  - intros x. by apply Forall_replicate.
  - apply Forall_fmap. eapply Forall_impl; [exact Hts|]. by intros [|[]| |].
Qed.

(** What is covered is present. *)
Lemma covered_present T s x : interval_ok T s -> reporters s <= 1 ->
  sumZ (covered x (workers (pool s))) (callers s) <= present x s.
Proof.
  intros Hio Hone. pose proof (inWorker_nonneg x _ (io_counts _ _ Hio x)) as Hw. unfold present.
  pose proof (sumZ_nonneg (toSend x) (callers s) (Forall_true _ _ (toSend_nonneg x))). pose proof (sumZ_nonneg _ _ Hw).
  destruct (covered_one _ Hone) as [Hz|(j & c & _ & _ & Hs)]; [rewrite Hz; lia|]. rewrite Hs.
  assert (forall i, match workers (pool s) !! i with Some w => countIn x (hl w) | None => 0 end <=
    sumZ (inWorker x) (workers (pool s))) as Hle.
  { intros i. destruct (workers (pool s) !! i) as [w|] eqn:Hi; [|lia].
    pose proof (sumZ_elem _ _ _ _ Hi Hw). pose proof (occ_nonneg x (concat (kisChan w))). unfold inWorker in *. lia. }
  destruct c; simpl; try lia; etrans; try apply Hle; lia.
Qed.

(** ** Properties *)

(** C10: no hit is reported twice.  Any number of goroutines hand batches over,
    change the filter and reset the pool while one goroutine at a time asks for
    reports with reset, everything interleaved in any way: for every key and size,
    the requests in all reports that were returned sum to no more than the hits
    that were handed in (with the zero items that stand for events that are not
    hits, for the empty key). *)
Theorem reports_never_overcount n k f tasks :
  0 < n <= int_max -> 0 <= k -> k * n <= int_max ->
  Forall (fun t => t <> CallReport false) tasks -> zlen (handed tasks) <= int_max ->
  exists p0, New n k = Ret p0 /\
    forall acts s, goAll acts (start (set_filter f p0) tasks) = Ret (tt, s) ->
      oneReporter acts (start (set_filter f p0) tasks) = true ->
      forall x, reported x s <= occ x (kiOf <$> handed tasks).
Proof.
  intros Hn Hk Hkn Hts Hmax. destruct (New_inv n k f) as (p0 & E0 & Hinv); [lia|]. exists p0. split; [done|].
  intros acts s E Hone x.
  assert (Forall (fun w => kisChan w = [] /\ hl_counts (hl w) = ∅) (workers p0)) as Hempty.
  { unfold New in E0. destruct (_ <? 0); [done|]. injection E0 as <-. cbn.
    apply Forall_replicate. split; [done|apply hl_New_law]. }
  pose proof (start_interval (set_filter f p0) tasks Hempty Hts) as Hio.
  pose proof (start_ok n k (set_filter f p0) tasks (ok_workers _ (run_ok _ _ _ _ _ Hinv)) (run_workers _ _ _ _ _ Hinv)
    (run_size _ _ _ _ _ Hinv)) as Hok.
  assert (forall y, occ y (kiOf <$> handed tasks) <= int_max) as Hocc.
  { intros y. pose proof (occ_nonneg y (kiOf <$> handed tasks)) as [_ Hle]. unfold zlen in *. rewrite length_fmap in Hle. lia. }
  destruct (run_interval _ n k acts Hocc Hn Hk Hkn _ _ Hok Hio Hone E) as [Hio' Hone'].
  pose proof (io_total _ _ Hio' x) as Ht. pose proof (covered_present _ _ x Hio' Hone').
  pose proof (sumZ_nonneg _ _ (io_replies _ _ Hio' x)). unfold total in Ht.
  assert (reported x s <= sumZ (collected x) (callers s)); [|lia].
  pose proof (io_collected _ _ Hio' x) as Hc. clear -Hc. unfold reported.
  induction Hc as [|c cs Hpos _ IH]; [done|]. cbn [sumZ foldr]. fold (sumZ (collected x) cs).
  unfold sumZ at 1 in IH. destruct c; simpl in *; lia.
Qed.

End interval.
