(* ===== verification/PacketBuffer.v ===== *)
(** * capture/packetbuffer.go: packets packed into one array

    [BlockBuffer] keeps the data of all blocks in one byte slice and the end
    of each block in [offsets]; [PacketBuffer] adds the capture information.
    The slices are kept with their capacities, which bound what can be
    appended.  The contents of a slice beyond its length are never read before
    they are overwritten, so they are not part of the state.  The methods of
    the file refine operations on a plain list of packets ([holdsPackets]). *)
From S2P Require Import Prelude.
Local Open Scope Z_scope.

(** ** Data *)

(** gopacket.CaptureInfo; the timestamp in nanoseconds since the zero time. *)
Record CaptureInfo := mkCaptureInfo {
  ciTimestamp : Z;
  CaptureLength : Z;
  Length : Z;
  InterfaceIndex : Z
}.

Definition zeroCaptureInfo : CaptureInfo := mkCaptureInfo 0 0 0 0.

(** capture.PacketData. *)
Record PacketData := mkPacketData { Info : CaptureInfo; Data : bytes }.

Record BlockBuffer := mkBlockBuffer {
  offsets : list Z;
  offsetsCap : Z;
  data : bytes;
  dataCap : Z
}.

Record PacketBuffer := mkPacketBuffer { blk : BlockBuffer; cis : list CaptureInfo }.

(** ** BlockBuffer *)

Definition NewBlockBuffer (maxBlocks maxBytes : Z) : outcome BlockBuffer :=
  if (maxBlocks <? 0) || (maxBytes <? 0) then Panic
  else Ret (mkBlockBuffer [] maxBlocks [] maxBytes).

Definition BytesRemaining (b : BlockBuffer) : Z := dataCap b -! zlen (data b).

(** [Block(n)]: the bytes that the returned slice shows. *)
Definition Block (n : Z) (b : BlockBuffer) : outcome bytes :=
  start ← (if 0 <? n then index (n -! 1) (offsets b) else Ret 0);
  end_ ← index n (offsets b);
  d ← slice_to end_ (data b);
  slice_from start d.

Definition BlockLen (b : BlockBuffer) : Z := zlen (offsets b).

Definition BlockBuffer_Clear (b : BlockBuffer) : BlockBuffer :=
  mkBlockBuffer [] (offsetsCap b) [] (dataCap b).

Definition BlockBuffer_Append (d : bytes) : GoM BlockBuffer (option error) := fun b =>
  if offsetsCap b =? 0 then Panic
  else if offsetsCap b <=? zlen (offsets b) then Ret (Some ErrBlocksFull, b)
  else
    let end_ := zlen (data b) +! zlen d in
    if dataCap b <? end_ then Ret (Some ErrBytesFull, b)
    else Ret (None, mkBlockBuffer (offsets b ++ [end_]) (offsetsCap b) (data b ++ d) (dataCap b)).

(** ** PacketBuffer *)

Definition NewPacketBuffer (maxPackets maxBytes : Z) : outcome PacketBuffer :=
  b ← NewBlockBuffer maxPackets maxBytes;
  Ret (mkPacketBuffer b (replicate (Z.to_nat maxPackets) zeroCaptureInfo)).

Definition set_blk (b : BlockBuffer) (pb : PacketBuffer) : PacketBuffer := mkPacketBuffer b (cis pb).

(** [pb.cis[i] = ci]. *)
Definition setInfo (i : Z) (ci : CaptureInfo) : GoM PacketBuffer unit := fun pb =>
  _ ← index i (cis pb);
  Ret (tt, mkPacketBuffer (blk pb) (<[Z.to_nat i := ci]> (cis pb))).

Definition Append (pd : PacketData) : GoM PacketBuffer (option error) :=
  err ← zoom blk set_blk (BlockBuffer_Append (Data pd));
  match err with
  | Some e => mret (Some e)
  | None =>
      n ← gets (fun pb => zlen (offsets (blk pb)));
      setInfo (n -! 1) (Info pd);;
      mret None
  end.

Definition PacketCap (pb : PacketBuffer) : Z := offsetsCap (blk pb).
Definition PacketLen (pb : PacketBuffer) : Z := BlockLen (blk pb).

Definition Packet (n : Z) (pb : PacketBuffer) : outcome PacketData :=
  ci ← index n (cis pb);
  d ← Block n (blk pb);
  Ret (mkPacketData ci d).

Definition Clear (pb : PacketBuffer) : PacketBuffer := set_blk (BlockBuffer_Clear (blk pb)) pb.

(** Append packets until one is refused. *)
Fixpoint appendAll (pds : list PacketData) : GoM PacketBuffer (option error) :=
  match pds with
  | [] => mret None
  | pd :: pds' =>
      err ← Append pd;
      match err with Some e => mret (Some e) | None => appendAll pds' end
  end.

(** ** The packets a buffer holds *)

(** Where the blocks [ds] end, from [start]. *)
Fixpoint endsFrom (start : Z) (ds : list bytes) : list Z :=
  match ds with
  | [] => []
  | d :: ds' => (start + zlen d) :: endsFrom (start + zlen d) ds'
  end.

(** No slice is larger than this many elements (2^60). *)
Definition capMax : Z := 1152921504606846976.

(** [pb] holds exactly the packets [ps], within its capacities. *)
Record holdsPackets (pb : PacketBuffer) (ps : list PacketData) : Prop := {
  hp_offsets : offsets (blk pb) = endsFrom 0 (Data <$> ps);
  hp_data : data (blk pb) = concat (Data <$> ps);
  hp_infos : take (length ps) (cis pb) = Info <$> ps;
  hp_cis : zlen (cis pb) = offsetsCap (blk pb);
  hp_packets : zlen ps <= offsetsCap (blk pb);
  hp_bytes : zlen (concat (Data <$> ps)) <= dataCap (blk pb);
  hp_cap : offsetsCap (blk pb) <= capMax /\ dataCap (blk pb) <= capMax
}.

(** ** Lemmas *)

Lemma endsFrom_length start ds : length (endsFrom start ds) = length ds.
Proof. revert start. induction ds as [|d ds IH]; intros start; simpl; [done|]. by rewrite IH. Qed.

Lemma endsFrom_app start ds ds' :
  endsFrom start (ds ++ ds') = endsFrom start ds ++ endsFrom (start + zlen (concat ds)) ds'.
Proof.
  revert start. induction ds as [|d ds IH]; intros start; simpl; [f_equal; unfold zlen; simpl; lia|].
  rewrite IH. do 3 f_equal. rewrite zlen_app. lia.
Qed.

Lemma endsFrom_lookup start ds i d : ds !! i = Some d ->
  endsFrom start ds !! i = Some (start + zlen (concat (take i ds)) + zlen d).
Proof.
  revert start i. induction ds as [|d0 ds IH]; intros start [|i] E; try done; simpl in *.
  - injection E as ->. f_equal. unfold zlen. simpl. lia.
  - rewrite (IH _ _ E). f_equal. rewrite zlen_app. lia.
Qed.

Lemma NewPacketBuffer_holds maxPackets maxBytes :
  0 <= maxPackets <= capMax -> 0 <= maxBytes <= capMax ->
  exists pb, NewPacketBuffer maxPackets maxBytes = Ret pb /\ holdsPackets pb [] /\
    PacketCap pb = maxPackets /\ dataCap (blk pb) = maxBytes.
Proof.
  intros Hp Hb. unfold NewPacketBuffer, NewBlockBuffer.
  destruct (Z.ltb_spec maxPackets 0), (Z.ltb_spec maxBytes 0); try lia.
  eexists. split; [done|]. split; [|done]. split; simpl; unfold zlen; simpl; try done; try lia.
  rewrite length_replicate. lia.
Qed.

Lemma BytesRemaining_eq pb ps : holdsPackets pb ps ->
  BytesRemaining (blk pb) = dataCap (blk pb) - zlen (concat (Data <$> ps)).
Proof.
  intros [_ Hd _ _ _ Hb Hc]. unfold BytesRemaining. rewrite Hd. apply wrap64_id.
  pose proof (zlen_nonneg (concat (Data <$> ps))). unfold capMax, in_int, int_min, int_max in *. lia.
Qed.

Lemma PacketLen_eq pb ps : holdsPackets pb ps -> PacketLen pb = zlen ps.
Proof.
  intros [Ho _ _ _ _ _ _]. unfold PacketLen, BlockLen. rewrite Ho. unfold zlen.
  by rewrite endsFrom_length, length_fmap.
Qed.

Lemma Clear_holds pb ps : holdsPackets pb ps -> holdsPackets (Clear pb) [].
Proof.
  intros [Ho Hd Hi Hc Hp Hb Hcap]. pose proof (zlen_nonneg ps).
  pose proof (zlen_nonneg (concat (Data <$> ps))).
  by split; simpl; try done; change (zlen []) with 0; lia.
Qed.

(** [Append]: refused without effect when a limit is reached, or one more packet. *)
Lemma Append_holds pd pb ps :
  holdsPackets pb ps -> 0 < PacketCap pb -> zlen (Data pd) <= capMax ->
  (zlen ps = PacketCap pb /\ Append pd pb = Ret (Some ErrBlocksFull, pb)) \/
  (zlen ps < PacketCap pb /\ dataCap (blk pb) < zlen (concat (Data <$> ps)) + zlen (Data pd) /\
     Append pd pb = Ret (Some ErrBytesFull, pb)) \/
  (zlen ps < PacketCap pb /\ zlen (concat (Data <$> ps)) + zlen (Data pd) <= dataCap (blk pb) /\
     exists pb', Append pd pb = Ret (None, pb') /\ holdsPackets pb' (ps ++ [pd]) /\
       PacketCap pb' = PacketCap pb /\ dataCap (blk pb') = dataCap (blk pb)).
Proof.
  intros Hh Hcap Hlen. pose proof Hh as [Ho Hd Hi Hc Hp Hb Hdc].
  pose proof (zlen_nonneg (Data pd)). pose proof (zlen_nonneg (concat (Data <$> ps))).
  pose proof (PacketLen_eq _ _ Hh) as Hl. unfold PacketLen, BlockLen, PacketCap in *.
  unfold Append, mbind, gom_bind, zoom, BlockBuffer_Append.
  destruct (Z.eqb_spec (offsetsCap (blk pb)) 0); [lia|]. rewrite Hl, Hd.
  rewrite wrap64_id by (unfold capMax, in_int, int_min, int_max in *; lia).
  destruct (Z.leb_spec (offsetsCap (blk pb)) (zlen ps)).
  { left. split; [lia|]. by destruct pb. }
  destruct (Z.ltb_spec (dataCap (blk pb)) (zlen (concat (Data <$> ps)) + zlen (Data pd))).
  { right. left. split_and!; [done..|]. by destruct pb. }
  right. right. split_and!; [done..|].
  unfold gets, setInfo, set_blk, mbind, outcome_bind. simpl.
  rewrite zlen_app, Hl. change (zlen [_]) with 1.
  rewrite wrap64_id by (unfold capMax, in_int, int_min, int_max, zlen in *; lia).
  replace (zlen ps + 1 - 1) with (zlen ps) by lia.
  destruct (lookup_lt_is_Some_2 (cis pb) (length ps)) as [ci Hci]; [unfold zlen in *; lia|].
  unfold index. rewrite bool_decide_true by apply zlen_nonneg.
  replace (Z.to_nat (zlen ps)) with (length ps) by (unfold zlen; lia). rewrite Hci.
  eexists. split; [done|]. split; [|done]. split; simpl.
  - rewrite Ho, fmap_app, endsFrom_app. done.
  - rewrite fmap_app, concat_app. simpl. by rewrite app_nil_r.
  - rewrite length_app, fmap_app, Nat.add_1_r. simpl.
    rewrite (take_S_r _ _ (Info pd)) by (apply list_lookup_insert_eq; by eapply lookup_lt_Some).
    by rewrite take_insert_ge, Hi by lia.
  - unfold zlen in *. by rewrite length_insert.
  - rewrite zlen_app. change (zlen [pd]) with 1. lia.
  - rewrite fmap_app, concat_app, zlen_app. simpl. rewrite app_nil_r. lia.
  - done.
Qed.

Lemma Packet_holds i pd pb ps : holdsPackets pb ps -> ps !! i = Some pd ->
  Packet (Z.of_nat i) pb = Ret pd.
Proof.
  intros [Ho Hd Hi Hc Hp Hb Hcap] Hpd. unfold Packet.
  assert (cis pb !! i = Some (Info pd)) as Hci.
  { rewrite <- (take_drop (length ps) (cis pb)), Hi.
    rewrite lookup_app_l by (rewrite length_fmap; by eapply lookup_lt_Some).
    by rewrite list_lookup_fmap, Hpd. }
  unfold index at 1. rewrite bool_decide_true, Nat2Z.id, Hci by lia.
  unfold mbind at 1, outcome_bind at 1. unfold Block.
  assert ((Data <$> ps) !! i = Some (Data pd)) as Hdata by by rewrite list_lookup_fmap, Hpd.
  set (ds := Data <$> ps) in *. set (before := concat (take i ds)).
  assert (concat ds = before ++ Data pd ++ concat (drop (S i) ds)) as Hsplit.
  { rewrite <- (take_drop_middle _ _ _ Hdata) at 1. by rewrite concat_app. }
  assert ((if 0 <? Z.of_nat i then index (Z.of_nat i -! 1) (offsets (blk pb)) else Ret 0) = Ret (zlen before)) as ->.
  { destruct (Z.ltb_spec 0 (Z.of_nat i)) as [Hpos|Hz].
    - destruct i as [|j]; [lia|].
      destruct (lookup_lt_is_Some_2 ds j) as [d Hdj]; [apply lookup_lt_Some in Hdata; lia|].
      rewrite wrap64_id by (apply lookup_lt_Some in Hdata; unfold ds in Hdata; rewrite length_fmap in Hdata;
        unfold capMax, in_int, int_min, int_max, zlen in *; lia).
      unfold index. rewrite bool_decide_true by lia. replace (Z.to_nat (Z.of_nat (S j) - 1)) with j by lia.
      rewrite Ho, (endsFrom_lookup _ _ _ _ Hdj). unfold before.
      rewrite (take_S_r _ _ _ Hdj), concat_app, zlen_app. simpl. by rewrite app_nil_r.
    - assert (i = 0%nat) as -> by lia. done. }
  unfold mbind, outcome_bind, index. rewrite bool_decide_true by lia.
  rewrite Nat2Z.id, Ho, (endsFrom_lookup _ _ _ _ Hdata), Hd. fold before. rewrite Hsplit.
  rewrite slice_to_ok by (rewrite !zlen_app; pose proof (zlen_nonneg before);
    pose proof (zlen_nonneg (Data pd)); pose proof (zlen_nonneg (concat (drop (S i) ds))); lia).
  replace (Z.to_nat (0 + zlen before + zlen (Data pd))) with (length (before ++ Data pd))
    by (rewrite length_app; unfold zlen; lia).
  rewrite app_assoc, take_app_length.
  rewrite slice_from_ok by (rewrite zlen_app; pose proof (zlen_nonneg before); pose proof (zlen_nonneg (Data pd)); lia).
  unfold zlen. rewrite Nat2Z.id, drop_app_length. by destruct pd.
Qed.

(** Appending stops at the first packet that does not fit. *)
Lemma appendAll_holds pds : forall pb ps,
  holdsPackets pb ps -> 0 < PacketCap pb -> Forall (fun pd => zlen (Data pd) <= capMax) pds ->
  exists err pb' accepted rest, appendAll pds pb = Ret (err, pb') /\ pds = accepted ++ rest /\
    holdsPackets pb' (ps ++ accepted) /\ PacketCap pb' = PacketCap pb /\
    dataCap (blk pb') = dataCap (blk pb) /\
    match rest with
    | [] => err = None
    | pd :: _ =>
        (err = Some ErrBlocksFull /\ zlen (ps ++ accepted) = PacketCap pb) \/
        (err = Some ErrBytesFull /\ zlen (ps ++ accepted) < PacketCap pb /\
           dataCap (blk pb) < zlen (concat (Data <$> (ps ++ accepted))) + zlen (Data pd))
    end.
Proof.
  induction pds as [|pd pds IH]; intros pb ps Hh Hcap Hlens.
  { exists None, pb, [], []. by rewrite (app_nil_r ps). }
  apply Forall_cons in Hlens as [Hlen Hlens]. cbn [appendAll]. unfold mbind, gom_bind.
  destruct (Append_holds pd pb ps Hh Hcap Hlen) as [[Hfull ->]|[(Hroom & Hbytes & ->)|(Hroom & Hbytes & pb1 & -> & Hh1 & Hc1 & Hd1)]].
  - exists (Some ErrBlocksFull), pb, [], (pd :: pds). rewrite (app_nil_r ps). split_and!; auto.
  - exists (Some ErrBytesFull), pb, [], (pd :: pds). rewrite (app_nil_r ps). split_and!; auto.
  - destruct (IH pb1 (ps ++ [pd]) Hh1) as (err & pb' & acc & rest & -> & -> & Hh' & Hc' & Hd' & Hr); [by rewrite Hc1|done|].
    rewrite <- app_assoc in *. exists err, pb', (pd :: acc), rest. rewrite Hc1, Hd1 in *.
    split_and!; done.
Qed.

(** ** Properties *)

(** C15: a packet buffer gives back what was put in.  Appending packets to a
    new buffer accepts the longest prefix that fits the two limits and reports
    which limit stopped it; every accepted packet is then read back unchanged,
    whatever the sizes (empty packets included). *)
Theorem PacketBuffer_roundtrip maxPackets maxBytes pds :
  0 < maxPackets <= capMax -> 0 <= maxBytes <= capMax ->
  Forall (fun pd => zlen (Data pd) <= capMax) pds ->
  exists pb0 pb err accepted rest,
    NewPacketBuffer maxPackets maxBytes = Ret pb0 /\ appendAll pds pb0 = Ret (err, pb) /\
    pds = accepted ++ rest /\ PacketLen pb = zlen accepted /\
    BytesRemaining (blk pb) = maxBytes - zlen (concat (Data <$> accepted)) /\
    (forall i pd, accepted !! i = Some pd -> Packet (Z.of_nat i) pb = Ret pd) /\
    match rest with
    | [] => err = None
    | pd :: _ =>
        (err = Some ErrBlocksFull /\ zlen accepted = maxPackets) \/
        (err = Some ErrBytesFull /\ zlen accepted < maxPackets /\
           maxBytes < zlen (concat (Data <$> accepted)) + zlen (Data pd))
    end.
Proof.
  intros Hp Hb Hlens. destruct (NewPacketBuffer_holds maxPackets maxBytes) as (pb0 & E0 & Hh0 & Hc0 & Hd0); [lia..|].
  destruct (appendAll_holds pds pb0 [] Hh0) as (err & pb & acc & rest & E & Hsplit & Hh & Hc & Hd & Hr); [lia|done|].
  rewrite Hc0, Hd0 in *. exists pb0, pb, err, acc, rest. split_and!; try done.
  - by apply PacketLen_eq.
  - rewrite (BytesRemaining_eq _ _ Hh). by rewrite Hd.
  - intros i pd Hi. by eapply Packet_holds.
Qed.
