(* ===== verification/Capture.v ===== *)
(** * capture/capture.go: reading packets from libpcap

    Package pcap is the parameter [PcapPkg]: every call acts on a world [W].
    [source_CollectPackets] fills a packet buffer from a handle, [portFilter]
    writes the BPF expression, [makeHandle] and [newLiveCapture] open the
    input. *)
From Stdlib Require Import Strings.Byte.
From S2P Require Import Prelude GoLib PacketBuffer.
Local Open Scope Z_scope.

Definition snapLen : Z := 65535.

(** pcap.Stats. *)
Record pcapStats := mkPcapStats {
  PacketsReceived : Z; PacketsDropped : Z; PacketsIfDropped : Z
}.

(** The functions of package pcap that the program calls.  A pointer result
    is an [option]; a receiver may be nil. *)
Class PcapPkg (W : Type) := {
  Handle : Type;
  InactiveHandle : Type;
  NewInactiveHandle : bytes -> GoM W (option InactiveHandle * option error);
  CleanUp : option InactiveHandle -> GoM W unit;
  SetSnapLen : option InactiveHandle -> Z -> GoM W (option error);
  SetPromisc : option InactiveHandle -> bool -> GoM W (option error);
  SetTimeout : option InactiveHandle -> Z -> GoM W (option error);
  SetBufferSize : option InactiveHandle -> Z -> GoM W (option error);
  Activate : option InactiveHandle -> GoM W (option Handle * option error);
  OpenOffline : bytes -> GoM W (option Handle * option error);
  SetBPFFilter : option Handle -> bytes -> GoM W (option error);
  ZeroCopyReadPacketData : option Handle -> GoM W (bytes * CaptureInfo * option error);
  HandleStats : option Handle -> GoM W (pcapStats * option error)
}.

(** ** portFilter *)

Definition errNeedPort : error := ErrNoPort.

Definition portFilter (ports : list Z) : bytes * option error :=
  match ports with
  | [] => ([], Some errNeedPort)
  | port :: rest =>
      (foldl (fun expr port => expr ++ bs " or tcp port " ++ Itoa port)
         (bs "tcp port " ++ Itoa port) rest, None)
  end.

(** Milliseconds as a time.Duration. *)
Definition ms (n : Z) : Z := n * 1000000.

Section capture.
  Context {W : Type} {HPcap : PcapPkg W}.

(** ** Opening the input *)

(** The calls between the deferred CleanUp and the return. *)
Definition configureLive (inactive : option InactiveHandle) (bufferSize : Z) :
    GoM W (option Handle * option error) :=
  err ← SetSnapLen inactive snapLen;
  match err with Some e => mret (None, Some e) | None =>
  err ← SetPromisc inactive true;
  match err with Some e => mret (None, Some e) | None =>
  err ← SetTimeout inactive (ms 10);
  match err with Some e => mret (None, Some e) | None =>
  err ← SetBufferSize inactive (bufferSize *! 1024 *! 1024);
  match err with Some e => mret (None, Some e) | None =>
  Activate inactive
  end end end end.

Definition newLiveCapture (netInterface : bytes) (bufferSize : Z) :
    GoM W (option Handle * option error) :=
  '(inactive, err) ← NewInactiveHandle netInterface;
  res ← match err with
        | Some e => mret (None, Some e)
        | None => configureLive inactive bufferSize
        end;
  CleanUp inactive;;   (* deferred *)
  mret res.

Definition makeHandle (netInterface infile : bytes) (bufferSize : Z) :
    GoM W (option Handle * option error) :=
  if bool_decide (netInterface <> []) && bool_decide (infile <> []) then
    mret (None, Some ErrAmbiguousSource)
  else if bool_decide (netInterface <> []) then
    '(src, err) ← newLiveCapture netInterface bufferSize;
    match err with Some e => mret (None, Some e) | None => mret (src, None) end
  else if bool_decide (infile <> []) then
    '(src, err) ← OpenOffline infile;
    match err with Some e => mret (None, Some e) | None => mret (src, None) end
  else mret (None, Some ErrNoSource).

(** ** Reading *)

(** The loop of [CollectPackets], [l] iterations at most, [i] done. *)
Fixpoint collectLoop (h : option Handle) (l : nat) (i : Z) (pb : PacketBuffer) :
    GoM W (option error * PacketBuffer) :=
  match l with
  | O => mret (None, pb)
  | S l =>
      if BytesRemaining (blk pb) <? snapLen then mret (None, pb)
      else
        '(buf, ci, err) ← ZeroCopyReadPacketData h;
        if (bool_decide (err = Some EOF) || bool_decide (err = Some NextErrorTimeoutExpired)) && (0 <? i)
        then mret (None, pb)
        else
          match err with
          | Some e => mret (Some e, pb)
          | None =>
              fun w =>
              '(err, pb) ← Append (mkPacketData ci buf) pb;
              match err with
              | Some e => Ret ((Some e, pb), w)
              | None => collectLoop h l (i + 1) pb w
              end
          end
  end.

Definition source_CollectPackets (h : option Handle) (pb : PacketBuffer) :
    GoM W (option error * PacketBuffer) :=
  let pb := Clear pb in
  collectLoop h (Z.to_nat (PacketCap pb)) 0 pb.

Definition source_DiscardPacket (h : option Handle) : GoM W (option error) :=
  '(_, _, err) ← ZeroCopyReadPacketData h;
  mret err.

(** ** Reads of a handle *)

(** Reading [h] from [w] yields the packets [pds] and leads to [w']. *)
Inductive reads (h : option Handle) : W -> list PacketData -> W -> Prop :=
  | reads_nil w : reads h w [] w
  | reads_snoc w pds w1 buf ci w2 :
      reads h w pds w1 -> ZeroCopyReadPacketData h w1 = Ret ((buf, ci, None), w2) ->
      reads h w (pds ++ [mkPacketData ci buf]) w2.

(** A handle whose reads return.  The packets of a live capture have at most
    [snapLen] bytes, those of a file as many as its own snapshot length. *)
Definition handle_ok (h : option Handle) : Prop :=
  forall w, exists buf ci err w', ZeroCopyReadPacketData h w = Ret ((buf, ci, err), w') /\
    zlen buf <= capMax.

(** A batch may end with these errors without reporting them. *)
Definition endsBatch (e : error) : Prop := e = EOF \/ e = NextErrorTimeoutExpired.

(** How [CollectPackets] may stop after reading [pds], in world [w1]. *)
Inductive stops (h : option Handle) (pb : PacketBuffer) (pds : list PacketData) :
    W -> option error -> W -> Prop :=
  | stops_full w1 :
      zlen pds = PacketCap pb \/ dataCap (blk pb) - zlen (concat (Data <$> pds)) < snapLen ->
      stops h pb pds w1 None w1
  | stops_batch w1 buf ci e w2 :
      ZeroCopyReadPacketData h w1 = Ret ((buf, ci, Some e), w2) -> endsBatch e -> pds <> [] ->
      stops h pb pds w1 None w2
  | stops_error w1 buf ci e w2 :
      ZeroCopyReadPacketData h w1 = Ret ((buf, ci, Some e), w2) -> ~ (endsBatch e /\ pds <> []) ->
      stops h pb pds w1 (Some e) w2
  | stops_large w1 buf ci w2 :
      ZeroCopyReadPacketData h w1 = Ret ((buf, ci, None), w2) ->
      snapLen <= dataCap (blk pb) - zlen (concat (Data <$> pds)) < zlen buf ->
      stops h pb pds w1 (Some ErrBytesFull) w2.

(** ** Lemmas *)

(** Only the capacities of the buffer matter to the reason. *)
Lemma stops_caps h pb pb' pds w1 err w' : PacketCap pb' = PacketCap pb -> dataCap (blk pb') = dataCap (blk pb) ->
  stops h pb pds w1 err w' -> stops h pb' pds w1 err w'.
Proof.
  intros Hc Hd []; [apply stops_full; by rewrite Hc, Hd|by eapply stops_batch|by eapply stops_error|].
  eapply stops_large; [done|by rewrite Hd].
Qed.

Lemma collectLoop_spec h l : forall w0 w pb pds,
  handle_ok h -> reads h w0 pds w -> holdsPackets pb pds -> 0 < PacketCap pb ->
  Z.of_nat l = PacketCap pb - zlen pds ->
  exists err pb' pds' w1 w', collectLoop h l (zlen pds) pb w = Ret ((err, pb'), w') /\
    reads h w0 pds' w1 /\ holdsPackets pb' pds' /\ stops h pb pds' w1 err w' /\
    PacketCap pb' = PacketCap pb /\ dataCap (blk pb') = dataCap (blk pb).
Proof.
  induction l as [|l IH]; intros w0 w pb pds Hok Hr Hh Hcap Hl; cbn [collectLoop].
  { exists None, pb, pds, w, w. split_and!; try done. apply stops_full. lia. }
  rewrite (BytesRemaining_eq _ _ Hh).
  destruct (Z.ltb_spec (dataCap (blk pb) - zlen (concat (Data <$> pds))) snapLen) as [Hsmall|Hroom].
  { exists None, pb, pds, w, w. split_and!; try done. apply stops_full. lia. }
  destruct (Hok w) as (buf & ci & err & w1 & E & Hsnap). unfold mbind at 1, gom_bind at 1. rewrite E.
  destruct err as [e|].
  - assert (bool_decide (Some e = Some EOF) || bool_decide (Some e = Some NextErrorTimeoutExpired) = true <-> endsBatch e) as Hb.
    { unfold endsBatch. rewrite orb_true_iff, !bool_decide_eq_true. split; intros [|]; naive_solver. }
    assert (0 < zlen pds <-> pds <> []) as Hne.
    { destruct pds; [done|]. rewrite zlen_cons. pose proof (zlen_nonneg pds). split; [done|lia]. }
    destruct (_ && _) eqn:Ec.
    + apply andb_true_iff in Ec as [He%Hb Hi%Z.ltb_lt%Hne].
      exists None, pb, pds, w, w1. split_and!; try done. by eapply stops_batch.
    + exists (Some e), pb, pds, w, w1. split_and!; try done. eapply stops_error; [done|].
      intros [He%Hb Hi%Hne%Z.ltb_lt]. by rewrite He, Hi in Ec.
  - rewrite !bool_decide_false by done. cbn [orb andb].
    destruct (Append_holds (mkPacketData ci buf) pb pds Hh Hcap) as [[Hfull _]|[(_ & Hbytes & ->)|(_ & _ & pb1 & -> & Hh1 & Hc1 & Hd1)]];
      [done|lia| |]; unfold mbind, outcome_bind.
    { exists (Some ErrBytesFull), pb, pds, w, w1. split_and!; try done. simpl in Hbytes. eapply stops_large; [done|lia]. }
    destruct (IH w0 w1 pb1 (pds ++ [mkPacketData ci buf])) as (err & pb' & pds' & w2 & w' & E' & Hr' & Hh' & Hs' & Hc' & Hd');
      [done|by eapply reads_snoc|done|lia|rewrite zlen_app, Hc1; change (zlen [_]) with 1; lia|].
    rewrite zlen_app in E'. change (zlen [_]) with 1 in E'. rewrite E'.
    exists err, pb', pds', w2, w'. split_and!; try done; [|congruence..].
    by eapply (stops_caps h pb1 pb).
Qed.

(** ** Properties *)

(** C27: collecting from a handle whose reads return.  Whatever was in the
    buffer, afterwards it holds exactly the packets read, in order; the call stops
    when the buffer is full, at the end of a batch (without error if something was
    read), with the error of the handle, or, with ErrBytesFull, on a packet that
    is larger than the room left although that is at least the snapshot length of
    65535 bytes: such a packet, which only a file can hold, is read and lost. *)
Theorem source_CollectPackets_spec h w pb ps :
  handle_ok h -> holdsPackets pb ps -> 0 < PacketCap pb ->
  exists err pb' pds w1 w', source_CollectPackets h pb w = Ret ((err, pb'), w') /\
    reads h w pds w1 /\ holdsPackets pb' pds /\ stops h pb' pds w1 err w' /\
    PacketCap pb' = PacketCap pb /\
    (err = None -> snapLen <= dataCap (blk pb) -> pds <> []).
Proof.
  intros Hok Hh Hcap.
  destruct (collectLoop_spec h (Z.to_nat (PacketCap pb)) w w (Clear pb) [] Hok) as
    (err & pb' & pds & w1 & w' & E & Hr & Hh' & Hs & Hc & Hd);
    [constructor|by eapply Clear_holds|done|change (zlen []) with 0; unfold PacketCap in *; simpl; lia|].
  exists err, pb', pds, w1, w'. split_and!; try done.
  - by eapply stops_caps.
  - intros -> Hsnap ->. unfold PacketCap in *. simpl in *.
    inversion Hs as [? Hor| | |]; subst; [|done]. change (0 = offsetsCap (blk pb) \/ dataCap (blk pb) - 0 < snapLen) in Hor. lia.
Qed.

(** The input is chosen by the two names; naming both or none is an error
    and opens nothing. *)
Theorem makeHandle_choice netInterface infile bufferSize (w : W) :
  makeHandle netInterface infile bufferSize w =
    match netInterface, infile with
    | [], [] => Ret ((None, Some ErrNoSource), w)
    | _ :: _, _ :: _ => Ret ((None, Some ErrAmbiguousSource), w)
    | _ :: _, [] => 
        ('(src, err) ← newLiveCapture netInterface bufferSize;
         mret (match err with Some e => (None, Some e) | None => (src, None) end)) w
    | [], _ :: _ => 
        ('(src, err) ← OpenOffline infile;
         mret (match err with Some e => (None, Some e) | None => (src, None) end)) w
    end.
Proof.
  unfold makeHandle, mbind, gom_bind. destruct netInterface, infile; simpl; try done.
  - by destruct (OpenOffline _ _) as [[[src []] w']| | |].
  - by destruct (newLiveCapture _ _ _) as [[[src []] w']| | |].
Qed.

End capture.

(** ** The filter expression *)

Definition SPb : byte := " "%byte.

(** Reading a filter expression back. *)
Fixpoint parseTerms (ws : list bytes) : option (list Z) :=
  match ws with
  | t :: p :: n :: rest =>
      if bool_decide (t = bs "tcp") && bool_decide (p = bs "port") then
        match Atoi n, rest with
        | (z, None), [] => Some [z]
        | (z, None), o :: rest' =>
            if bool_decide (o = bs "or") then cons z <$> parseTerms rest' else None
        | _, _ => None
        end
      else None
  | _ => None
  end.

(** The expression, term by term. *)
Fixpoint filterText (ports : list Z) : bytes :=
  match ports with
  | [] => []
  | [port] => bs "tcp" ++ SPb :: bs "port" ++ SPb :: Itoa port
  | port :: ports' =>
      bs "tcp" ++ SPb :: bs "port" ++ SPb :: Itoa port ++ SPb :: bs "or" ++ SPb :: filterText ports'
  end.

Lemma filterText_fold rest : forall acc,
  foldl (fun expr port => expr ++ bs " or tcp port " ++ Itoa port) acc rest =
  acc ++ match rest with [] => [] | _ => SPb :: bs "or" ++ SPb :: filterText rest end.
Proof.
  induction rest as [|port rest IH]; intros acc; cbn [foldl]; [by rewrite app_nil_r|].
  rewrite IH, <- !app_assoc. f_equal. destruct rest; cbn [filterText]; [by rewrite app_nil_r|].
  change (bs " or tcp port ") with (SPb :: bs "or" ++ SPb :: bs "tcp" ++ SPb :: bs "port" ++ [SPb]).
  cbn [app]. rewrite <- !app_assoc. cbn [app]. by rewrite <- !app_assoc.
Qed.

Lemma portFilter_text port rest : portFilter (port :: rest) = (filterText (port :: rest), None).
Proof.
  unfold portFilter. rewrite filterText_fold. f_equal.
  destruct rest; cbn [filterText]; [by rewrite app_nil_r|].
  change (bs "tcp port ") with (bs "tcp" ++ SPb :: bs "port" ++ [SPb]).
  rewrite <- !app_assoc. cbn [app]. by rewrite <- !app_assoc.
Qed.

Lemma no_space_digits n : 0 <= n -> Forall (fun b => b <> SPb) (Itoa n).
Proof.
  intros Hn. eapply Forall_impl; [by apply Itoa_digits|]. intros b [d Hd] ->. by vm_compute in Hd.
Qed.

Lemma no_space_bs s : forallb (fun b => bool_decide (b <> SPb)) (bs s) = true -> Forall (fun b => b <> SPb) (bs s).
Proof.
  intros H. apply Forall_forall. intros b Hb. rewrite forallb_forall in H.
  by apply list_elem_of_In, H, bool_decide_eq_true in Hb.
Qed.

Lemma filterText_parse ports : ports <> [] -> Forall (fun p => 0 <= p <= int_max) ports ->
  parseTerms (Split (filterText ports) SPb) = Some ports.
Proof.
  induction ports as [|port ports IH]; [done|]. intros _ Hp.
  apply Forall_cons in Hp as [Hport Hp].
  destruct ports as [|port2 ports].
  - cbn [filterText]. rewrite !Split_cons by by apply no_space_bs. rewrite Split_clean by (apply no_space_digits; lia).
    cbn [parseTerms]. by rewrite Atoi_Itoa.
  - change (filterText (port :: port2 :: ports)) with
      (bs "tcp" ++ SPb :: bs "port" ++ SPb :: Itoa port ++ SPb :: bs "or" ++ SPb :: filterText (port2 :: ports)).
    do 2 rewrite Split_cons by by apply no_space_bs.
    rewrite Split_cons by (apply no_space_digits; lia). rewrite Split_cons by by apply no_space_bs.
    cbn [parseTerms]. rewrite Atoi_Itoa by done. rewrite !bool_decide_true by done.
    cbn [andb]. by rewrite (IH ltac:(done) Hp).
Qed.

(** C39: the filter expression names exactly the given ports: read back term by
    term it gives the list, for any non-empty list of non-negative ports; the
    empty list is refused. *)
Theorem portFilter_roundtrip ports :
  Forall (fun p => 0 <= p <= int_max) ports ->
  match portFilter ports with
  | (_, Some e) => ports = [] /\ e = ErrNoPort
  | (expr, None) => parseTerms (Split expr SPb) = Some ports
  end.
Proof.
  intros Hp. destruct ports as [|port rest]; [done|]. rewrite portFilter_text.
  by apply filterText_parse.
Qed.
