(* ===== verification/Replay.v ===== *)
(** * capture/replay.go: replaying a capture at its original pace

    The interface PacketSource is the class [PacketSource]; [replayer] wraps
    one and hands its packets out according to their timestamps.  A time is a
    number of nanoseconds since the zero time; the wall clock is a sequence of
    readings, consumed by [now].  Sleeping changes no state.  [src_left] bounds
    the number of batches a source can still deliver: the fuel of the filling
    loop, which ends because a capture file does. *)
From S2P Require Import Prelude GoLib PacketBuffer Capture.
Local Open Scope Z_scope.

(** ** The interface *)

Class PacketSource (S : Type) := {
  CollectPackets : PacketBuffer -> GoM S (option error * PacketBuffer);
  DiscardPacket : GoM S (option error);
  SourceStats : GoM S (pcapStats * option error);
  src_left : S -> nat
}.

(** What the replayer relies on: calls return, a collected buffer is well
    formed, success delivers at least one packet and uses up the source. *)
Class PacketSourceLaws (S : Type) `{PacketSource S} := {
  src_ok : S -> Prop;
  (* timestamps are later than the zero time *)
  CollectPackets_law s pb ps : src_ok s -> holdsPackets pb ps -> 0 < PacketCap pb ->
    snapLen <= dataCap (blk pb) ->
    exists err pb' s' pds, CollectPackets pb s = Ret ((err, pb'), s') /\ src_ok s' /\
      holdsPackets pb' pds /\ PacketCap pb' = PacketCap pb /\ dataCap (blk pb') = dataCap (blk pb) /\
      Forall (fun pd => 0 < ciTimestamp (Info pd)) pds /\ (src_left s' <= src_left s)%nat /\
      (err = None -> pds <> [] /\ (src_left s' < src_left s)%nat)
}.

(** ** Data *)

Record replayer (S : Type) := mkReplayer {
  start : Z;
  first : Z;
  rbuf_ : PacketBuffer;
  cursor : Z;
  received : Z;
  dropped : Z;
  src : S;
  clock : nat -> Z;     (* the readings of the wall clock *)
  tick : nat            (* the number of readings made *)
}.
Arguments mkReplayer {S}.
Arguments start {S}.
Arguments first {S}.
Arguments rbuf_ {S}.
Arguments cursor {S}.
Arguments received {S}.
Arguments dropped {S}.
Arguments src {S}.
Arguments clock {S}.
Arguments tick {S}.

(** [-pcap.BlockForever], 10 ms. *)
Definition replayerTimeout : Z := ms 10.

(** [a.Sub(b)] of two times, saturated to a Duration. *)
Definition timeSub (a b : Z) : Z := Z.max int_min (Z.min int_max (a - b)).

Section replay.
  Context {S : Type} {HSrc : PacketSource S}.
  Local Abbreviation R := (replayer S).

Definition set_start (x : Z) (r : R) : R :=
  mkReplayer x (first r) (rbuf_ r) (cursor r) (received r) (dropped r) (src r) (clock r) (tick r).
Definition set_first (x : Z) (r : R) : R :=
  mkReplayer (start r) x (rbuf_ r) (cursor r) (received r) (dropped r) (src r) (clock r) (tick r).
Definition set_cursor (x : Z) (r : R) : R :=
  mkReplayer (start r) (first r) (rbuf_ r) x (received r) (dropped r) (src r) (clock r) (tick r).
Definition set_received (x : Z) (r : R) : R :=
  mkReplayer (start r) (first r) (rbuf_ r) (cursor r) x (dropped r) (src r) (clock r) (tick r).
Definition set_dropped (x : Z) (r : R) : R :=
  mkReplayer (start r) (first r) (rbuf_ r) (cursor r) (received r) x (src r) (clock r) (tick r).
Definition set_buf_src (x : PacketBuffer) (s : S) (r : R) : R :=
  mkReplayer (start r) (first r) x (cursor r) (received r) (dropped r) s (clock r) (tick r).
Definition set_tick (x : nat) (r : R) : R :=
  mkReplayer (start r) (first r) (rbuf_ r) (cursor r) (received r) (dropped r) (src r) (clock r) x.

Definition newReplayer (s : S) (batchSize maxBytes : Z) (clk : nat -> Z) : outcome R :=
  pb ← NewPacketBuffer batchSize maxBytes;
  Ret (mkReplayer 0 0 pb 0 0 0 s clk 0).

(** [time.Now()]. *)
Definition now : GoM R Z := fun r => Ret (clock r (tick r), set_tick (1 + tick r)%nat r).

(** A computation without state. *)
Definition liftR {A} (o : outcome A) : GoM R A := fun r => a ← o; Ret (a, r).

(** ** Operations *)

(** The loop of [dropExpired]; [n] bounds the packets left in the buffer. *)
Fixpoint dropLoop (n : nat) (dropUntil : Z) : GoM R unit :=
  match n with
  | O => mret tt
  | Datatypes.S n => fun r =>
      if cursor r <? PacketLen (rbuf_ r) then
        p ← Packet (cursor r) (rbuf_ r);
        if dropUntil <? ciTimestamp (Info p) then Ret (tt, r)
        else dropLoop n dropUntil (set_cursor (cursor r +! 1) (set_dropped (dropped r +! 1) r))
      else Ret (tt, r)
  end.

Definition dropExpired (elapsed : Z) : GoM R unit := fun r =>
  let dropUntil := first r + elapsed + Z.quot replayerTimeout (-2) in
  dropLoop (Z.to_nat (PacketLen (rbuf_ r) - cursor r)) dropUntil r.

Definition fill : GoM R (option error) := fun r =>
  '((err, pb), s) ← CollectPackets (rbuf_ r) (src r);
  let r := set_buf_src pb s r in
  match err with
  | Some e => Ret (Some e, r)
  | None =>
      let r := set_cursor 0 r in
      if first r =? 0 then
        p ← Packet 0 (rbuf_ r);
        Ret (None, set_first (ciTimestamp (Info p)) r)
      else Ret (None, r)
  end.

(** [for r.cursor >= r.buf.PacketLen()]. *)
Fixpoint fillLoop (fuel : nat) (elapsed : Z) : GoM R (option error) :=
  match fuel with
  | O => fun _ => OutOfFuel
  | Datatypes.S fuel => fun r =>
      if PacketLen (rbuf_ r) <=? cursor r then
        (err ← fill;
         match err with
         | Some e => mret (Some e)
         | None => dropExpired elapsed;; fillLoop fuel elapsed
         end) r
      else Ret (None, r)
  end.

(** The writing loop; [n] bounds the packets left in the buffer. *)
Fixpoint writeLoop (n : nat) (l writeUntil : Z) (pb : PacketBuffer) :
    GoM R (option error * PacketBuffer) :=
  match n with
  | O => mret (None, pb)
  | Datatypes.S n => fun r =>
      if (cursor r <? l) && (snapLen <=? BytesRemaining (blk pb)) then
        p ← Packet (cursor r) (rbuf_ r);
        let r := set_received (received r +! 1) r in
        if writeUntil <? ciTimestamp (Info p) then
          Ret ((if PacketLen pb =? 0 then Some NextErrorTimeoutExpired else None, pb), r)
        else
          '(err, pb) ← Append p pb;
          match err with
          | Some e => Ret ((Some e, pb), r)
          | None => writeLoop n l writeUntil pb (set_cursor (cursor r +! 1) r)
          end
      else Ret ((None, pb), r)
  end.

Definition replayer_CollectPackets (pb : PacketBuffer) : GoM R (option error * PacketBuffer) :=
  let pb := Clear pb in
  st ← gets start;
  (if st =? 0 then t ← now; modify (set_start t) else mret tt);;
  t ← now;
  st ← gets start;
  let elapsed := timeSub t st in
  dropExpired elapsed;;
  fuel ← gets (fun r => (1 + src_left (src r))%nat);
  err ← fillLoop fuel elapsed;
  match err with
  | Some e => mret (Some e, pb)
  | None => fun r =>
      let l := PacketLen (rbuf_ r) in
      let writeUntil := first r + (elapsed +! replayerTimeout) in
      writeLoop (Z.to_nat (l - cursor r)) l writeUntil pb r
  end.

(** The part of [DiscardPacket] after the buffer is filled. *)
Definition discardCurrent : GoM R (option error) := fun r =>
  p ← Packet (cursor r) (rbuf_ r);
  (t ← now;
   r ← gets id;
   let offset := timeSub (ciTimestamp (Info p)) (first r) in
   let elapsed := timeSub t (start r) in
   if elapsed +! replayerTimeout <? offset then mret (Some NextErrorTimeoutExpired)
   else
     modify (fun r => set_received (received r +! 1) (set_cursor (cursor r +! 1) r));;
     mret None) r.

Definition replayer_DiscardPacket : GoM R (option error) := fun r =>
  if PacketLen (rbuf_ r) <=? cursor r then
    (err ← fill;
     n ← gets (fun r => PacketLen (rbuf_ r));
     if (n =? 0) || bool_decide (err <> None) then mret err else discardCurrent) r
  else discardCurrent r.

Definition replayer_Stats : GoM R (pcapStats * option error) := fun r =>
  Ret ((mkPcapStats (received r) (dropped r) 0, None), r).

(** A replayer is itself a packet source. *)
Definition replayer_PacketSource : PacketSource R := {|
  CollectPackets := replayer_CollectPackets;
  DiscardPacket := replayer_DiscardPacket;
  SourceStats := replayer_Stats;
  src_left r := (Z.to_nat (PacketLen (rbuf_ r) - cursor r) + src_left (src r))%nat
|}.

End replay.

(** ** Invariant and traces *)

Section replay_facts.
  Context {S : Type} {HSrc : PacketSource S} {HLaws : PacketSourceLaws S}.
  Local Abbreviation R := (replayer S).

(** The packets collected from the source between two of its states. *)
Inductive fetches : S -> list PacketData -> S -> Prop :=
  | fetches_none s : fetches s [] s
  | fetches_more s pb err pb' s1 pds rest s2 :
      CollectPackets pb s = Ret ((err, pb'), s1) -> holdsPackets pb' pds ->
      fetches s1 rest s2 -> fetches s (pds ++ rest) s2.

(** The replayer has [ps] in its buffer. *)
Record replay_ok (r : R) (ps : list PacketData) : Prop := {
  ro_holds : holdsPackets (rbuf_ r) ps;
  ro_caps : 0 < PacketCap (rbuf_ r) /\ snapLen <= dataCap (blk (rbuf_ r));
  ro_cursor : 0 <= cursor r <= capMax;
  ro_counts : in_int (dropped r) /\ in_int (received r);
  ro_first : 0 <= first r;
  ro_times : Forall (fun pd => 0 < ciTimestamp (Info pd)) ps;
  ro_src : src_ok (src r)
}.

(** The time of the first packet is known while packets are pending.  (A batch
    that its source ended with an error leaves packets without it.) *)
Definition paced (r : R) (ps : list PacketData) : Prop := first r = 0 -> zlen ps <= cursor r.

(** The packets of [ps] not handed out yet. *)
Definition pending (r : R) (ps : list PacketData) : list PacketData := drop (Z.to_nat (cursor r)) ps.

(** [r'] is [r] after dropping [d] and handing out [out], [k] more counted. *)
Definition moved (r : R) (d out : list PacketData) (k : Z) : R :=
  set_cursor (cursor r + zlen d + zlen out)
    (set_received (wrap64 (received r + zlen out + k)) (set_dropped (wrap64 (dropped r + zlen d)) r)).

Definition ts (pd : PacketData) : Z := ciTimestamp (Info pd).

(** ** Lemmas: dropping *)

Lemma pending_lookup (r : R) ps : 0 <= cursor r -> cursor r < zlen ps ->
  exists pd, ps !! Z.to_nat (cursor r) = Some pd /\
    pending r ps = pd :: drop (Z.to_nat (cursor r + 1)) ps.
Proof.
  intros H0 Hlt. destruct (lookup_lt_is_Some_2 ps (Z.to_nat (cursor r))) as [pd Hpd]; [unfold zlen in *; lia|].
  exists pd. split; [done|]. unfold pending. rewrite (drop_S _ _ _ Hpd).
  by replace (Datatypes.S (Z.to_nat (cursor r))) with (Z.to_nat (cursor r + 1)) by lia.
Qed.

Lemma zlen_pending (r : R) ps : 0 <= cursor r ->
  length (pending r ps) = Z.to_nat (zlen ps - cursor r).
Proof. intros ?. unfold pending, zlen. rewrite length_drop. lia. Qed.

Lemma Packet_at (r : R) ps : replay_ok r ps -> cursor r < zlen ps ->
  exists pd, Packet (cursor r) (rbuf_ r) = Ret pd /\
    pending r ps = pd :: drop (Z.to_nat (cursor r + 1)) ps.
Proof.
  intros [Hh _ [H0 _] _ _ _ _] Hlt. destruct (pending_lookup r ps H0 Hlt) as (pd & Hpd & E).
  exists pd. split; [|done]. rewrite <- (Z2Nat.id (cursor r)) by done. by eapply Packet_holds.
Qed.

Lemma cursor_small (r : R) ps : replay_ok r ps -> cursor r < zlen ps -> cursor r + 1 <= capMax.
Proof.
  intros [[] _ _ _ _ _ _] Hlt. unfold PacketCap in *. lia.
Qed.

Lemma dropLoop_spec u n : forall r ps, replay_ok r ps -> n = Z.to_nat (zlen ps - cursor r) ->
  exists d, dropLoop n u r = Ret (tt, moved r d [] 0) /\
    pending r ps = d ++ pending (moved r d [] 0) ps /\ Forall (fun pd => ts pd <= u) d /\
    replay_ok (moved r d [] 0) ps.
Proof.
  induction n as [|n IH]; intros r ps Hok Hn.
  - exists []. assert (moved r [] [] 0 = r) as ->.
    { pose proof (ro_counts _ _ Hok) as [? ?]. unfold moved. change (zlen []) with 0.
      rewrite !Z.add_0_r, !wrap64_id by done. by destruct r. }
    by split_and!.
  - cbn [dropLoop]. rewrite (PacketLen_eq _ _ (ro_holds _ _ Hok)).
    destruct (Z.ltb_spec (cursor r) (zlen ps)) as [Hlt|]; [|lia].
    destruct (Packet_at r ps Hok Hlt) as (pd & -> & Hp). unfold mbind, outcome_bind.
    pose proof (cursor_small _ _ Hok Hlt) as Hc. pose proof Hok as [Hh Hcaps Hcur [Hd Hr] Hf0 Ht Hs].
    destruct (Z.ltb_spec u (ciTimestamp (Info pd))) as [Hlate|Hdrop].
    + exists []. assert (moved r [] [] 0 = r) as ->.
      { unfold moved. change (zlen []) with 0. rewrite !Z.add_0_r, !wrap64_id by done. by destruct r. }
      by split_and!.
    + rewrite (wrap64_id (cursor r + 1)) by (unfold capMax, in_int, int_min, int_max in *; lia).
      set (r1 := set_cursor _ _).
      assert (replay_ok r1 ps) as Hok1.
      { split; simpl; try done; [lia|split; [apply wrap64_in|done]]. }
      destruct (IH r1 ps Hok1) as (d & E & Hsplit & Hall & Hok2); [simpl; lia|].
      exists (pd :: d).
      assert (moved r1 d [] 0 = moved r (pd :: d) [] 0) as Em.
      { unfold moved, r1. simpl. unfold set_cursor, set_received, set_dropped. simpl.
        rewrite zlen_cons, wrap64_wrap_l. f_equal; [lia|f_equal; lia]. }
      rewrite <- Em. split_and!; [done| |by constructor|done].
      rewrite Hp. change (drop _ ps) with (pending r1 ps). by rewrite Hsplit at 1.
Qed.

Lemma dropExpired_spec elapsed r ps : replay_ok r ps ->
  exists d, dropExpired elapsed r = Ret (tt, moved r d [] 0) /\
    pending r ps = d ++ pending (moved r d [] 0) ps /\
    Forall (fun pd => ts pd <= first r + elapsed - ms 5) d /\ replay_ok (moved r d [] 0) ps.
Proof.
  intros Hok. unfold dropExpired. rewrite (PacketLen_eq _ _ (ro_holds _ _ Hok)).
  by apply dropLoop_spec.
Qed.

(** ** Lemmas: filling *)

Lemma fill_spec r ps : replay_ok r ps -> zlen ps <= cursor r ->
  exists err r' ps', fill r = Ret (err, r') /\ dropped r' = dropped r /\ received r' = received r /\
    start r' = start r /\ (0 < first r -> first r' = first r) /\
    (src_left (src r') <= src_left (src r))%nat /\
    replay_ok r' ps' /\
    match err with
    | Some e => CollectPackets (rbuf_ r) (src r) = Ret ((Some e, rbuf_ r'), src r') /\
        cursor r' = cursor r /\ first r' = first r
    | None => 0 < first r' /\ pending r' ps' = ps' /\ ps' <> [] /\
        (src_left (src r') < src_left (src r))%nat /\ fetches (src r) ps' (src r')
    end.
Proof.
  intros [Hh [Hcap Hsnap] Hcur [Hd Hr] Hf0 Ht Hs] Hend. unfold fill.
  destruct (CollectPackets_law (src r) (rbuf_ r) ps Hs Hh Hcap Hsnap) as
    (err & pb' & s' & pds & E & Hs' & Hh' & Hc' & Hd' & Ht' & Hle & Hnone).
  unfold mbind, outcome_bind. rewrite E. destruct err as [e|].
  { exists (Some e), (set_buf_src pb' s' r), pds. split_and!; try done. split; simpl; try done. by rewrite Hc', Hd'. }
  destruct (Hnone eq_refl) as [Hne Hlt]. destruct pds as [|p0 pds]; [done|].
  assert (fetches (src r) (p0 :: pds) s') as Hfetch.
  { rewrite <- (app_nil_r (p0 :: pds)). eapply fetches_more; [done..|constructor]. }
  cbn [first set_cursor set_buf_src rbuf_]. destruct (Z.eqb_spec (first r) 0) as [Hz|Hnz].
  - pose proof (Packet_holds 0 p0 _ _ Hh' eq_refl : Packet 0 pb' = Ret p0) as Hp. rewrite Hp. apply Forall_cons in Ht' as [Hp0 Ht'].
    eexists None, _, (p0 :: pds). split; [done|]. split_and!; try done; [simpl; lia|].
    split; simpl; try done; [by rewrite Hc', Hd'|lia|by constructor].
  - eexists None, _, (p0 :: pds). split; [done|]. split_and!; try done; [|simpl; lia].
    split; simpl; try done. by rewrite Hc', Hd'.
Qed.

(** The source failed: what was pending in [r], and what was fetched before the
    failure, was dropped, all of it expired; then a batch ended with [e] and left its
    packets in the buffer. *)
Definition sourceFailed (elapsed : Z) (r : R) (ps : list PacketData) (e : error) (r' : R) : Prop :=
  exists fetched s1 pb1, fetches (src r) fetched s1 /\
    CollectPackets pb1 s1 = Ret ((Some e, rbuf_ r'), src r') /\
    Forall (fun pd => ts pd <= first r' + elapsed - ms 5) (pending r ps ++ fetched) /\
    dropped r' = wrap64 (dropped r + zlen (pending r ps ++ fetched)) /\
    (first r' = 0 -> first r = 0 /\ fetched = []).

Lemma pending_nil (r : R) ps : 0 <= cursor r -> zlen ps <= cursor r -> pending r ps = [].
Proof. intros ? ?. unfold pending. apply drop_ge. unfold zlen in *. lia. Qed.

Lemma fetches_trans s1 a s2 b s3 : fetches s1 a s2 -> fetches s2 b s3 -> fetches s1 (a ++ b) s3.
Proof. induction 1; [done|]. intros ?. rewrite <- app_assoc. eapply fetches_more; eauto. Qed.

(** The filling loop ends: with an error of the source, or with a packet that
    is not expired. *)
Lemma fillLoop_spec elapsed fuel : forall r ps, replay_ok r ps -> (src_left (src r) < fuel)%nat ->
  exists err r', fillLoop fuel elapsed r = Ret (err, r') /\ start r' = start r /\
    received r' = received r /\ (0 < first r -> first r' = first r) /\ exists ps', replay_ok r' ps' /\
    match err with
    | Some e => sourceFailed elapsed r ps e r'
    | None => exists fetched gone, (paced r ps -> paced r' ps') /\ cursor r' < zlen ps' /\
        fetches (src r) fetched (src r') /\ pending r ps ++ fetched = gone ++ pending r' ps' /\
        Forall (fun pd => ts pd <= first r' + elapsed - ms 5) gone /\
        dropped r' = wrap64 (dropped r + zlen gone)
    end.
Proof.
  induction fuel as [|fuel IH]; intros r ps Hok Hfuel; [lia|]. cbn [fillLoop].
  rewrite (PacketLen_eq _ _ (ro_holds _ _ Hok)).
  destruct (Z.leb_spec (zlen ps) (cursor r)) as [Hend|Hmore].
  2:{ exists None, r. split_and!; try done. exists ps. split; [done|]. exists [], []. rewrite app_nil_r. change (zlen []) with 0.
      rewrite Z.add_0_r, wrap64_id by apply Hok. split_and!; try done. constructor. }
  destruct (fill_spec r ps Hok Hend) as (err & r1 & ps1 & E & Hd1 & Hr1 & Hs1 & Hf1 & Hle1 & Hok1 & Hcase).
  unfold mbind, gom_bind. rewrite E. destruct err as [e|].
  { destruct Hcase as (Ec & _ & Ef). exists (Some e), r1. split_and!; try done. exists ps1. split; [done|].
    exists [], (src r), (rbuf_ r). rewrite (pending_nil r ps) by (done || apply Hok). simpl. change (zlen []) with 0.
    rewrite Hd1, Z.add_0_r, wrap64_id by apply Hok. split_and!; try done; [constructor|]. by rewrite Ef. }
  destruct Hcase as (Hpos & Hp1 & Hne & Hlt & Hfetch1).
  destruct (dropExpired_spec elapsed r1 ps1 Hok1) as (d & -> & Hsplit & Hall & Hok2).
  destruct (IH _ ps1 Hok2) as (err & r' & -> & Hs' & Hr' & Hf' & ps' & Hok' & Hcase'); [simpl; lia|].
  simpl in Hs', Hr', Hf'. specialize (Hf' Hpos). exists err, r'.
  change (zlen []) with 0 in Hr'. rewrite !Z.add_0_r, wrap64_id in Hr' by apply Hok1.
  split_and!; [done|congruence|congruence|intros; rewrite Hf'; auto|].
  exists ps'. split; [done|].
  assert (pending r ps = []) as Hnil by (apply pending_nil; [apply Hok|done]).
  destruct err as [e|].
  { destruct Hcase' as (fetched & s2 & pb2 & Hfetch & Ef & Hg & Hd' & _).
    exists (ps1 ++ fetched), s2, pb2. rewrite Hnil, app_nil_l.
    assert (ps1 ++ fetched = d ++ pending (moved r1 d [] 0) ps1 ++ fetched) as -> by (by rewrite app_assoc, <- Hsplit, Hp1).
    split_and!; [|done| | |intros ?; exfalso; lia].
    - rewrite app_assoc, <- Hsplit, Hp1. by eapply fetches_trans.
    - apply Forall_app. split; [|done]. by rewrite Hf'.
    - rewrite Hd', (zlen_app d). simpl. rewrite wrap64_wrap_l, Hd1. f_equal. lia. }
  destruct Hcase' as (fetched & gone & _ & Hc' & Hfetch & Hs2 & Hg & Hd').
  exists (ps1 ++ fetched), (d ++ gone). split_and!; try done; [intros _ ?; lia|..].
  - by eapply fetches_trans.
  - rewrite Hnil. rewrite <- (app_assoc d gone), <- Hs2, (app_assoc d), <- Hsplit. by rewrite Hp1.
  - apply Forall_app. split; [|done]. by rewrite Hf'.
  - rewrite Hd'. simpl. rewrite wrap64_wrap_l, zlen_app, Hd1. f_equal. lia.
Qed.

(** ** Lemmas: writing *)

(** Why the writing loop stopped, with [out] written in all and [left_] still
    pending; [k] is 1 if one more packet was counted. *)
Definition stopped (pb' : PacketBuffer) (out left_ : list PacketData) (writeUntil : Z)
    (err : option error) (k : Z) : Prop :=
  (k = 0 /\ err = None /\
     (left_ = [] \/ dataCap (blk pb') - zlen (concat (Data <$> out)) < snapLen)) \/
  (k = 1 /\ exists pd, head left_ = Some pd /\
     ((writeUntil < ts pd /\
         err = if decide (out = []) then Some NextErrorTimeoutExpired else None) \/
      (ts pd <= writeUntil /\ err = Some ErrBlocksFull /\ zlen out = PacketCap pb') \/
      (ts pd <= writeUntil /\ err = Some ErrBytesFull /\ snapLen < zlen (Data pd)))).

Lemma moved_out_cons (r : R) pd out k ps : replay_ok r ps ->
  moved (set_cursor (cursor r + 1) (set_received (received r +! 1) r)) [] out k =
  moved r [] (pd :: out) k.
Proof.
  intros Hok. unfold moved, set_cursor, set_received, set_dropped. simpl.
  rewrite zlen_cons. change (zlen []) with 0. f_equal; [lia|].
  replace (received r +! 1 + zlen out + k) with (received r +! 1 + (zlen out + k)) by lia.
  rewrite wrap64_wrap_l. f_equal. lia.
Qed.

Lemma moved_nothing (r : R) k ps : replay_ok r ps ->
  moved r [] [] k = set_received (wrap64 (received r + k)) r.
Proof.
  intros Hok. unfold moved, set_cursor, set_received, set_dropped. simpl.
  change (zlen []) with 0. rewrite !Z.add_0_r, (wrap64_id (dropped r)) by apply Hok. done.
Qed.

Lemma set_received_ok (r : R) ps x : replay_ok r ps -> in_int x -> replay_ok (set_received x r) ps.
Proof. intros [Hh Hcaps Hcur [Hd Hr] Hf Ht Hs] Hx. by split. Qed.

Lemma packet_small (r : R) ps pd l : replay_ok r ps -> pending r ps = pd :: l -> zlen (Data pd) <= capMax.
Proof.
  intros [[_ _ _ _ _ Hb [_ Hcap]] _ _ _ _ _ _] Hp. etrans; [|exact Hcap]. etrans; [|exact Hb].
  assert (pd ∈ ps) as (l1 & l2 & ->)%list_elem_of_split.
  { rewrite <- (take_drop (Z.to_nat (cursor r)) ps). apply elem_of_app. right.
    unfold pending in Hp. rewrite Hp. left. }
  rewrite fmap_app, concat_app, fmap_cons. cbn [concat]. rewrite !zlen_app.
  pose proof (zlen_nonneg (concat (Data <$> l1))). pose proof (zlen_nonneg (concat (Data <$> l2))). lia.
Qed.

Lemma writeLoop_spec u n : forall r ps pb qs,
  replay_ok r ps -> holdsPackets pb qs -> 0 < PacketCap pb -> n = Z.to_nat (zlen ps - cursor r) ->
  exists out err pb' k, writeLoop n (zlen ps) u pb r = Ret ((err, pb'), moved r [] out k) /\
    holdsPackets pb' (qs ++ out) /\ PacketCap pb' = PacketCap pb /\ dataCap (blk pb') = dataCap (blk pb) /\
    pending r ps = out ++ pending (moved r [] out k) ps /\ Forall (fun pd => ts pd <= u) out /\
    replay_ok (moved r [] out k) ps /\
    stopped pb' (qs ++ out) (pending (moved r [] out k) ps) u err k.
Proof.
  induction n as [|n IH]; intros r ps pb qs Hok Hh Hcap Hn; cbn [writeLoop].
  { exists [], None, pb, 0. rewrite (moved_nothing r 0 ps Hok), Z.add_0_r, wrap64_id by apply Hok.
    assert (set_received (received r) r = r) as -> by (by destruct r). rewrite app_nil_r.
    split_and!; try done. left. split_and!; try done. left. apply drop_ge. unfold zlen in Hn. lia. }
  destruct (Z.ltb_spec (cursor r) (zlen ps)) as [Hlt|]; [|lia].
  rewrite (BytesRemaining_eq _ _ Hh).
  destruct (Z.leb_spec snapLen (dataCap (blk pb) - zlen (concat (Data <$> qs)))) as [Hroom|Hfull]; cbn [andb].
  2:{ exists [], None, pb, 0. rewrite (moved_nothing r 0 ps Hok), Z.add_0_r, wrap64_id by apply Hok.
      assert (set_received (received r) r = r) as -> by (by destruct r). rewrite app_nil_r.
      split_and!; try done. left. split_and!; try done. by right. }
  destruct (Packet_at r ps Hok Hlt) as (pd & -> & Hp). unfold mbind at 1, outcome_bind at 1.
  pose proof (packet_small r ps pd _ Hok Hp) as Hsmall.
  pose proof (cursor_small _ _ Hok Hlt) as Hc1.
  assert (forall x, pending (set_received x r) ps = pending r ps) as Hpx by done.
  destruct (Z.ltb_spec u (ciTimestamp (Info pd))) as [Hlate|Hin].
  { exists [], (if decide (qs = []) then Some NextErrorTimeoutExpired else None), pb, 1.
    rewrite (moved_nothing r 1 ps Hok), app_nil_r, Hpx.
    split_and!; try done.
    - rewrite (PacketLen_eq _ _ Hh). destruct (decide (qs = [])) as [->|Hne]; [done|].
      destruct (Z.eqb_spec (zlen qs) 0) as [Hz|]; [by apply zlen_0_inv in Hz|done].
    - by apply set_received_ok, wrap64_in.
    - right. split; [done|]. exists pd. rewrite Hp. split; [done|]. by left. }
  destruct (Append_holds pd pb qs Hh Hcap Hsmall) as [[Hfull ->]|[(Hr & Hbytes & ->)|(Hr & Hbytes & pb1 & -> & Hh1 & Hcap1 & Hd1)]];
    unfold mbind, outcome_bind.
  - exists [], (Some ErrBlocksFull), pb, 1. rewrite (moved_nothing r 1 ps Hok), app_nil_r, Hpx.
    split_and!; try done; [by apply set_received_ok, wrap64_in|].
    right. split; [done|]. exists pd. rewrite Hp. split; [done|]. by right; left.
  - exists [], (Some ErrBytesFull), pb, 1. rewrite (moved_nothing r 1 ps Hok), app_nil_r, Hpx.
    split_and!; try done; [by apply set_received_ok, wrap64_in|].
    right. split; [done|]. exists pd. rewrite Hp. split; [done|]. right; right. split_and!; [done..|lia].
  - rewrite (wrap64_id (cursor _ + 1)) by (simpl; pose proof (ro_cursor _ _ Hok); unfold capMax, in_int, int_min, int_max in *; lia).
    set (r1 := set_cursor _ _).
    assert (replay_ok r1 ps) as Hok1.
    { pose proof Hok as [? ? [? ?] [? ?] ? ? ?]. split; simpl; try done; [lia|split; [done|apply wrap64_in]]. }
    destruct (IH r1 ps pb1 (qs ++ [pd]) Hok1 Hh1) as (out & err & pb' & k & -> & Hh' & Hc' & Hd' & Hsplit & Hall & Hok' & Hstop);
      [by rewrite Hcap1|simpl; lia|].
    unfold r1 in *. simpl in *. rewrite (moved_out_cons r pd out k ps Hok) in *.
    exists (pd :: out), err, pb', k. rewrite <- app_assoc in *. split_and!; try done; [congruence|congruence| |by constructor].
    rewrite Hp. simpl. f_equal. exact Hsplit.
Qed.

(** ** Lemmas: one call *)

(** The clock part of [CollectPackets]: the start is set by the first call, and
    the elapsed time read. *)
Definition begun (r : R) : R :=
  if start r =? 0 then set_start (clock r (tick r)) (set_tick (1 + tick r)%nat r) else r.

Definition elapsedAt (r : R) : Z := timeSub (clock (begun r) (tick (begun r))) (start (begun r)).

Definition timed (r : R) : R := set_tick (1 + tick (begun r))%nat (begun r).

(** The rest of the call. *)
Definition collectFrom (elapsed : Z) (pb : PacketBuffer) : GoM R (option error * PacketBuffer) :=
  dropExpired elapsed;;
  fuel ← gets (fun r : R => (1 + src_left (src r))%nat);
  err ← fillLoop fuel elapsed;
  match err with
  | Some e => mret (Some e, pb)
  | None => fun r =>
      let l := PacketLen (rbuf_ r) in
      let writeUntil := first r + (elapsed +! replayerTimeout) in
      writeLoop (Z.to_nat (l - cursor r)) l writeUntil pb r
  end.

Lemma CollectPackets_unfold pb r :
  replayer_CollectPackets pb r = collectFrom (elapsedAt r) (Clear pb) (timed r).
Proof.
  unfold replayer_CollectPackets, timed, elapsedAt, begun, mbind, gom_bind, gets, now, modify.
  by destruct (start r =? 0).
Qed.

Lemma timed_ok (r : R) ps : replay_ok r ps -> replay_ok (timed r) ps.
Proof. intros [? ? ? ? ? ? ?]. unfold timed, begun. by destruct (start r =? 0). Qed.

Lemma timed_fields (r : R) : rbuf_ (timed r) = rbuf_ r /\ cursor (timed r) = cursor r /\
  first (timed r) = first r /\ src (timed r) = src r /\ received (timed r) = received r /\
  dropped (timed r) = dropped r.
Proof. unfold timed, begun. by destruct (start r =? 0). Qed.

Lemma moved_received (r : R) d out k : received (moved r d out k) = wrap64 (received r + zlen out + k).
Proof. done. Qed.
Lemma moved_dropped (r : R) d out k : dropped (moved r d out k) = wrap64 (dropped r + zlen d).
Proof. done. Qed.
Lemma moved_src (r : R) d out k : src (moved r d out k) = src r.
Proof. done. Qed.
Lemma moved_cursor (r : R) d out k : cursor (moved r d out k) = cursor r + zlen d + zlen out.
Proof. done. Qed.
Lemma moved_first (r : R) d out k : first (moved r d out k) = first r.
Proof. done. Qed.

(** A call of CollectPackets, from any replayer. *)
Lemma CollectPackets_moves r ps pb qs : replay_ok r ps -> holdsPackets pb qs -> 0 < PacketCap pb ->
  exists err pb' r' ps', replayer_CollectPackets pb r = Ret ((err, pb'), r') /\ replay_ok r' ps' /\
    PacketCap pb' = PacketCap pb /\ dataCap (blk pb') = dataCap (blk pb) /\
    ((exists e, err = Some e /\ pb' = Clear pb /\ received r' = received r /\
        sourceFailed (elapsedAt r) r ps e r') \/
     exists fetched gone out k,
       (paced r ps -> paced r' ps') /\ Forall (fun pd => ts pd <= first r' + elapsedAt r - ms 5) gone /\
       fetches (src r) fetched (src r') /\ holdsPackets pb' out /\
       pending r ps ++ fetched = gone ++ out ++ pending r' ps' /\
       Forall (fun pd => ts pd <= first r' + (elapsedAt r +! replayerTimeout)) out /\
       dropped r' = wrap64 (dropped r + zlen gone) /\
       received r' = wrap64 (received r + zlen out + k) /\
       stopped pb' out (pending r' ps') (first r' + (elapsedAt r +! replayerTimeout)) err k).
Proof.
  intros Hok Hh Hcap. rewrite CollectPackets_unfold.
  pose proof (timed_ok r ps Hok) as Hok0. destruct (timed_fields r) as (Eb & Ec & Ef & Es & Er & Ed).
  destruct (dropExpired_spec (elapsedAt r) _ ps Hok0) as (d & E & Hsplit & Hall & Hok1).
  set (r1 := moved (timed r) d [] 0) in *.
  assert (received r1 = received r) as Hr1.
  { unfold r1. rewrite moved_received. change (zlen []) with 0. rewrite !Z.add_0_r, Er. apply wrap64_id, Hok. }
  unfold collectFrom, mbind, gom_bind. rewrite E. unfold gets.
  destruct (fillLoop_spec (elapsedAt r) (1 + src_left (src r1)) r1 ps Hok1) as
    (err & r2 & -> & _ & Hr2 & Hf2 & ps2 & Hok2 & Hcase); [lia|].
  assert (pending r ps = d ++ pending r1 ps) as Hpend
    by (rewrite <- Hsplit; unfold pending; by rewrite Ec).
  assert (Forall (fun pd => ts pd <= first r2 + elapsedAt r - ms 5) d) as Hd.
  { assert (first r1 = first r) as Ef1 by (unfold r1; by rewrite moved_first). rewrite Ef1 in Hf2. rewrite Ef in Hall.
    pose proof (ro_first _ _ Hok). pose proof (ro_first _ _ Hok2).
    assert (first r <= first r2) by (destruct (Z.eq_dec (first r) 0); [lia|rewrite Hf2; lia]).
    eapply Forall_impl; [exact Hall|]. simpl. lia. }
  assert (dropped r1 = wrap64 (dropped r + zlen d)) as Hdr1 by (unfold r1; by rewrite moved_dropped, Ed).
  destruct err as [e|].
  { exists (Some e), (Clear pb), r2, ps2. split_and!; try done. left. exists e. split_and!; [done|done|by rewrite Hr2|].
    destruct Hcase as (fetched & s1 & pb1 & Hfetch & Efail & Hg & Hd2 & Hnil). exists fetched, s1, pb1.
    rewrite Hpend, <- app_assoc. split_and!; [by rewrite <- Es; exact Hfetch|done|by apply Forall_app| |by rewrite <- Ef; exact Hnil].
    rewrite Hd2, Hdr1, (zlen_app d), wrap64_wrap_l. f_equal. lia. }
  destruct Hcase as (fetched & gone & Hpace & Hc2 & Hfetch & Hs2 & Hg2 & Hd2).
  rewrite (PacketLen_eq _ _ (ro_holds _ _ Hok2)).
  destruct (writeLoop_spec (first r2 + (elapsedAt r +! replayerTimeout)) _ r2 ps2 (Clear pb) [] Hok2
    (Clear_holds _ _ Hh) Hcap eq_refl) as (out & err & pb' & k & -> & Hh' & Hcap' & Hdata' & Hs3 & Hout & Hok3 & Hstop).
  eexists err, pb', _, ps2. split; [done|]. do 3 (split; [done|]). right. exists fetched, (d ++ gone), out, k.
  split_and!; try done.
  - intros Hp. assert (paced r1 ps) as Hp1.
    { intros E0. unfold r1 in *. rewrite moved_first, Ef in E0. specialize (Hp E0).
      pose proof (zlen_nonneg d). rewrite moved_cursor, Ec. change (zlen []) with 0. lia. }
    intros E0. specialize (Hpace Hp1 E0). simpl. change (zlen []) with 0. pose proof (zlen_nonneg out). lia.
  - by apply Forall_app.
  - unfold r1 in Hfetch. rewrite moved_src in Hfetch. by rewrite Es in Hfetch.
  - by rewrite Hpend, <- !app_assoc, Hs2, Hs3.
  - rewrite moved_dropped. change (zlen []) with 0. rewrite Hd2, Hdr1.
    rewrite Z.add_0_r, zlen_app, (wrap64_id (wrap64 _)) by apply wrap64_in.
    rewrite wrap64_wrap_l. f_equal. lia.
  - by rewrite moved_received, Hr2, Hr1.
Qed.

(** ** Lemmas: discarding *)

(** Discarding the packet at the cursor. *)
Lemma discardCurrent_spec r ps : replay_ok r ps -> cursor r < zlen ps ->
  exists pd rest, pending r ps = pd :: rest /\
    let elapsed := timeSub (clock r (tick r)) (start r) in
    let r1 := set_tick (1 + tick r)%nat r in
    if elapsed +! replayerTimeout <? timeSub (ts pd) (first r)
    then discardCurrent r = Ret (Some NextErrorTimeoutExpired, r1)
    else exists r', discardCurrent r = Ret (None, r') /\ replay_ok r' ps /\
           pending r' ps = rest /\ received r' = received r +! 1 /\ dropped r' = dropped r.
Proof.
  intros Hok Hlt. destruct (Packet_at r ps Hok Hlt) as (pd & Epd & Hp). eexists pd, _. split; [done|].
  pose proof (cursor_small _ _ Hok Hlt) as Hc. pose proof Hok as [Hh Hcaps Hcur [Hd Hr] Hf0 Ht Hs].
  intros elapsed r1. unfold discardCurrent, mbind, outcome_bind. rewrite Epd.
  unfold gom_bind, now, gets, modify. simpl. fold elapsed. unfold ts.
  destruct (elapsed +! replayerTimeout <? timeSub (ciTimestamp (Info pd)) (first r)); [done|].
  eexists. split; [done|]. split_and!; try done.
  - split; simpl; try done;
      rewrite ?(wrap64_id (cursor r + 1)) by (unfold capMax, in_int, int_min, int_max in *; lia);
      [lia|split; [done|apply wrap64_in]].
  - unfold pending. simpl. by rewrite wrap64_id by (unfold capMax, in_int, int_min, int_max in *; lia).
Qed.

Lemma DiscardPacket_pending r ps : replay_ok r ps -> cursor r < zlen ps ->
  replayer_DiscardPacket r = discardCurrent r.
Proof.
  intros Hok Hlt. unfold replayer_DiscardPacket. rewrite (PacketLen_eq _ _ (ro_holds _ _ Hok)).
  by destruct (Z.leb_spec (zlen ps) (cursor r)); [lia|].
Qed.

Lemma discardCurrent_returns r ps : replay_ok r ps -> cursor r < zlen ps ->
  exists err r', discardCurrent r = Ret (err, r') /\ replay_ok r' ps.
Proof.
  intros Hok Hlt. destruct (discardCurrent_spec r ps Hok Hlt) as (pd & rest & _ & H). simpl in H.
  destruct (_ <? _); [|destruct H as (r' & ? & ? & _); by eexists _, _].
  eexists _, _. split; [done|]. by destruct Hok.
Qed.

(** A call of DiscardPacket returns, from any replayer. *)
Lemma DiscardPacket_returns r ps : replay_ok r ps ->
  exists err r' ps', replayer_DiscardPacket r = Ret (err, r') /\ replay_ok r' ps'.
Proof.
  intros Hok. destruct (Z.lt_ge_cases (cursor r) (zlen ps)) as [Hlt|Hge].
  { rewrite (DiscardPacket_pending _ _ Hok Hlt).
    destruct (discardCurrent_returns r ps Hok Hlt) as (err & r' & ? & ?). by exists err, r', ps. }
  unfold replayer_DiscardPacket. rewrite (PacketLen_eq _ _ (ro_holds _ _ Hok)).
  destruct (Z.leb_spec (zlen ps) (cursor r)); [|lia].
  destruct (fill_spec r ps Hok Hge) as (err & r1 & ps1 & E & _ & _ & _ & _ & _ & Hok1 & Hcase).
  unfold mbind, gom_bind. rewrite E. unfold gets. rewrite (PacketLen_eq _ _ (ro_holds _ _ Hok1)).
  destruct err as [e|].
  { rewrite orb_true_r. by eexists (Some e), r1, ps1. }
  destruct Hcase as (_ & Hp & Hne & _). rewrite orb_false_r.
  assert (0 < zlen ps1) as Hpos by (destruct ps1; [done|unfold zlen; simpl; lia]).
  destruct (Z.eqb_spec (zlen ps1) 0); [lia|].
  assert (cursor r1 < zlen ps1) as Hc.
  { destruct (Z.lt_ge_cases (cursor r1) (zlen ps1)) as [|Hge1]; [done|]. exfalso. apply Hne.
    rewrite <- Hp. unfold pending. apply drop_ge. pose proof (ro_cursor _ _ Hok1). unfold zlen in *. lia. }
  destruct (discardCurrent_returns r1 ps1 Hok1 Hc) as (err & r' & ? & ?). by exists err, r', ps1.
Qed.

(** ** Properties *)

(** C14: the replayer loses nothing and keeps the pace.  A call always returns, and
    leaves a replayer that can be called again.  Either the source failed: a call
    of its CollectPackets returned the error that is returned, nothing is handed
    out, and what was pending and what was fetched before that call is dropped and
    counted, every packet of it older than 5 ms before the elapsed time.  Or the
    packets pending and fetched are, in order, those counted as dropped (each older
    than 5 ms before the elapsed time), those handed out (none later than 10 ms after
    it) and those still pending; the call stops for one of the reasons of
    [stopped]; and the time of the first packet stays known while packets are
    pending.  After a failure it is unknown only if it was before the call, and the
    call fetched no batch before the failure. *)
Theorem replayer_CollectPackets_spec r ps pb qs :
  replay_ok r ps -> holdsPackets pb qs -> 0 < PacketCap pb ->
  exists err pb' r' ps', replayer_CollectPackets pb r = Ret ((err, pb'), r') /\ replay_ok r' ps' /\
    ((exists e, err = Some e /\ pb' = Clear pb /\ received r' = received r /\
        sourceFailed (elapsedAt r) r ps e r') \/
     exists fetched gone out k,
       (paced r ps -> paced r' ps') /\
       Forall (fun pd => ts pd <= first r' + elapsedAt r - ms 5) gone /\
       fetches (src r) fetched (src r') /\ holdsPackets pb' out /\
       pending r ps ++ fetched = gone ++ out ++ pending r' ps' /\
       Forall (fun pd => ts pd <= first r' + (elapsedAt r +! replayerTimeout)) out /\
       dropped r' = wrap64 (dropped r + zlen gone) /\
       received r' = wrap64 (received r + zlen out + k) /\
       stopped pb' out (pending r' ps') (first r' + (elapsedAt r +! replayerTimeout)) err k).
Proof.
  intros Hok Hh Hcap.
  destruct (CollectPackets_moves r ps pb qs Hok Hh Hcap) as (err & pb' & r' & ps' & E & Hok' & _ & _ & Hcase).
  by exists err, pb', r', ps'.
Qed.

(** Discarding.  With a packet at hand, [DiscardPacket] takes exactly one
    packet when it is due and asks to wait, without effect but for the clock
    reading, when it is not. *)
Theorem replayer_DiscardPacket_spec r ps : replay_ok r ps -> cursor r < zlen ps ->
  exists pd rest, pending r ps = pd :: rest /\
    let elapsed := timeSub (clock r (tick r)) (start r) in
    let r1 := set_tick (1 + tick r)%nat r in
    if elapsed +! replayerTimeout <? timeSub (ts pd) (first r)
    then replayer_DiscardPacket r = Ret (Some NextErrorTimeoutExpired, r1)
    else exists r', replayer_DiscardPacket r = Ret (None, r') /\ replay_ok r' ps /\
           pending r' ps = rest /\ received r' = received r +! 1 /\ dropped r' = dropped r.
Proof.
  intros Hok Hlt. rewrite (DiscardPacket_pending _ _ Hok Hlt). by apply discardCurrent_spec.
Qed.

End replay_facts.

(** ** A handle as a source *)

Section handle_source.
  Context {W : Type} {HPcap : PcapPkg W} (h : option Handle).
  (* the packets still to be read, of a file *)
  Context (remaining : W -> nat).
  Context (handle_reads : handle_ok h).
  Context (handle_times : forall w buf ci w', ZeroCopyReadPacketData h w = Ret ((buf, ci, None), w') ->
    0 < ciTimestamp ci /\ (remaining w' < remaining w)%nat).
  Context (handle_ends : forall w buf ci err w', ZeroCopyReadPacketData h w = Ret ((buf, ci, err), w') ->
    (remaining w' <= remaining w)%nat).

(** type source. *)
Definition source_PacketSource : PacketSource W := {|
  CollectPackets := source_CollectPackets h;
  DiscardPacket := source_DiscardPacket h;
  SourceStats := HandleStats h;
  src_left := remaining
|}.

Lemma reads_remaining w pds w' : reads h w pds w' ->
  (remaining w' + length pds <= remaining w)%nat /\ Forall (fun pd => 0 < ciTimestamp (Info pd)) pds.
Proof.
  induction 1 as [w|w pds w1 buf ci w2 Hr [IH Ht] E]; [simpl; split; [lia|constructor]|].
  destruct (handle_times _ _ _ _ E). rewrite length_app. simpl.
  split; [lia|]. apply Forall_app. split; [done|]. by repeat constructor.
Qed.

Lemma stops_remaining pb pds w1 err w' : stops h pb pds w1 err w' -> (remaining w' <= remaining w1)%nat.
Proof. intros []; [done|by eapply handle_ends..]. Qed.

Lemma source_law_aux s pb ps : holdsPackets pb ps -> 0 < PacketCap pb -> snapLen <= dataCap (blk pb) ->
  exists err pb' s' pds, source_CollectPackets h pb s = Ret ((err, pb'), s') /\ True /\
    holdsPackets pb' pds /\ PacketCap pb' = PacketCap pb /\ dataCap (blk pb') = dataCap (blk pb) /\
    Forall (fun pd => 0 < ciTimestamp (Info pd)) pds /\ (remaining s' <= remaining s)%nat /\
    (err = None -> pds <> [] /\ (remaining s' < remaining s)%nat).
Proof.
  intros Hh Hcap Hsnap.
  destruct (collectLoop_spec h (Z.to_nat (PacketCap pb)) s s (Clear pb) [] handle_reads) as
    (err & pb' & pds & w1 & w' & E & Hr & Hh' & Hs & Hc & Hd);
    [constructor|by eapply Clear_holds|done|change (zlen []) with 0; unfold PacketCap in *; simpl; lia|].
  destruct (reads_remaining _ _ _ Hr) as [Hle Ht]. pose proof (stops_remaining _ _ _ _ _ Hs) as Hle'.
  exists err, pb', w', pds. split_and!; try done; [lia|]. intros ->.
  assert (pds <> []) as Hne.
  { intros ->. inversion Hs as [? Hor| | |]; subst; [|done].
    change (0 = PacketCap pb \/ dataCap (blk pb) - 0 < snapLen) in Hor. unfold PacketCap in *. lia. }
  split; [done|]. destruct pds; [done|]. simpl in Hle. lia.
Qed.

Definition source_laws : @PacketSourceLaws W source_PacketSource :=
  @Build_PacketSourceLaws W source_PacketSource (fun _ => True)
    (fun s pb ps _ => source_law_aux s pb ps).

End handle_source.

(** ** capture.New *)

Section new.
  Context {W : Type} {HPcap : PcapPkg W}.

(** The PacketSource that [New] returns: the handle itself, or a replayer over
    it with its buffer. *)
Inductive openedSource : Type :=
  | PSource (h : option Handle)
  | PReplayer (h : option Handle) (buf : PacketBuffer).

Definition liftW {A} (o : outcome A) : GoM W A := fun w => a ← o; Ret (a, w).

Definition New (netInterface infile : bytes) (bufferSize : Z) (noDelay : bool) (ports : list Z) :
    GoM W (option openedSource * option error) :=
  '(handle, err) ← makeHandle netInterface infile bufferSize;
  match err with Some e => mret (None, Some e) | None =>
  match portFilter ports with (_, Some e) => mret (None, Some e) | (bpf, None) =>
  err ← SetBPFFilter handle bpf;
  match err with Some e => mret (None, Some e) | None =>
  if negb noDelay && bool_decide (infile <> []) then
    buf ← liftW (NewPacketBuffer 1000 (8 * 1024 * 1024));
    mret (Some (PReplayer handle buf), None)
  else mret (Some (PSource handle), None)
  end end end.

(** A file is replayed at its original pace unless noDelay is set; a
    replayer starts with an empty buffer that satisfies what its source needs. *)
Theorem New_replays netInterface infile bufferSize noDelay ports w src w' :
  New netInterface infile bufferSize noDelay ports w = Ret ((Some src, None), w') ->
  match src with
  | PSource h => noDelay = true \/ infile = []
  | PReplayer h buf => noDelay = false /\ infile <> [] /\ holdsPackets buf [] /\
      0 < PacketCap buf /\ snapLen <= dataCap (blk buf)
  end.
Proof.
  unfold New, mbind, gom_bind. intros E.
  destruct (makeHandle netInterface infile bufferSize w) as [[[handle [e|]] w1]| | |]; try done.
  destruct (portFilter ports) as [bpf [e|]]; try done.
  destruct (SetBPFFilter handle bpf w1) as [[[e|] w2]| | |]; try done.
  destruct noDelay; simpl in E; [injection E as <- <-; by left|].
  destruct infile as [|b infile]; simpl in E.
  - injection E as <- <-. by right.
  - injection E as <- <-. by split_and!.
Qed.

End new.
