(* ===== verification/Decode.v ===== *)
(** * decode/decode.go: decoding captured packets

    What the code uses of gopacket is in two classes: flows ([GopacketPkg], laws
    in [GopacketLaws]) and the layers of a packet ([LayersPkg]), each with its
    decoder, an instance of gopacket's interface [DecodingLayer].  The loop over the
    layers, [DecodeLayers], is the one of the vendored gopacket/parser.go.  What
    the decoders promise about a layer that is decoded into again is in
    [LayersLaws]; only the last lemmas use it.  A decoder is the state of [decode]
    and [decodeBatch]; the calls of its handler and its log messages are kept in
    the order they are made. *)
From Stdlib Require Import Strings.Byte.
From S2P Require Import Prelude GoLib PacketBuffer Capture.
Local Open Scope Z_scope.

(** ** The packet library *)

Class GopacketPkg := {
  Flow : Type;
  Flow_eq_dec :: EqDecision Flow;
  Flow_countable :: Countable Flow;
  zeroFlow : Flow;
  Flow_Reverse : Flow -> Flow;
  FastHash : Flow -> Z;
  EndpointType : Flow -> Z;
  EndpointTCPPort : Z;
  SrcRaw : Flow -> bytes
}.

(** The documented behaviour of flows. *)
Class GopacketLaws `{GopacketPkg} := {
  Reverse_Reverse f : Flow_Reverse (Flow_Reverse f) = f;
  EndpointType_Reverse f : EndpointType (Flow_Reverse f) = EndpointType f;
  FastHash_Reverse f : FastHash (Flow_Reverse f) = FastHash f
}.

Inductive LayerType : Type :=
  | LayerTypeEthernet | LayerTypeLoopback | LayerTypeDot1Q | LayerTypeIPv4
  | LayerTypeIPv6 | LayerTypeTCP | LayerTypePayload | LayerTypeOther (n : Z).

#[export] Instance LayerType_eq_decision : EqDecision LayerType.
Proof. solve_decision. Defined.

(** gopacket.DecodingLayer.  The flag of [DecodeFromBytes] says whether it called
    SetTruncated; its error stands also for a panic, which the parser recovers
    from and returns as an error. *)
Class DecodingLayer (L : Type) := {
  DecodeFromBytes : bytes -> L -> L * bool * option error;
  NextLayerType : L -> LayerType;
  LayerPayload : L -> bytes
}.

(** gopacket.Payload: all the data, and nothing behind it. *)
#[local] Instance Payload_layer : DecodingLayer bytes := {|
  DecodeFromBytes data _ := (data, false, None);
  NextLayerType _ := LayerTypeOther 0;    (* LayerTypeZero *)
  LayerPayload _ := []
|}.

(** [TCPContent] is what a TCP header holds but for its padding. *)
Class LayersPkg `{GopacketPkg} := {
  Ethernet : Type; zeroEthernet : Ethernet; Ethernet_layer :: DecodingLayer Ethernet;
  Loopback : Type; zeroLoopback : Loopback; Loopback_layer :: DecodingLayer Loopback;
  Dot1Q : Type; zeroDot1Q : Dot1Q; Dot1Q_layer :: DecodingLayer Dot1Q;
  IPv4 : Type; zeroIPv4 : IPv4; IPv4_layer :: DecodingLayer IPv4; NetworkFlow4 : IPv4 -> Flow;
  IPv6 : Type; zeroIPv6 : IPv6; IPv6_layer :: DecodingLayer IPv6; NetworkFlow6 : IPv6 -> Flow;
  TCPHeader : Type; zeroTCP : TCPHeader; TCP_layer :: DecodingLayer TCPHeader;
  TransportFlow : TCPHeader -> Flow;
  TCPContent : Type; tcpContent : TCPHeader -> TCPContent;
  UnsupportedLayerType : LayerType -> error
}.

(** The layers of a DecodedPacket, which its two parsers write to. *)
Record packetLayers `{LayersPkg} := mkLayers {
  ether : Ethernet;
  lo : Loopback;
  dot1q : Dot1Q;
  ipv4 : IPv4;
  ipv6 : IPv6;
  TCP : TCPHeader;
  Payload : bytes
}.

(** gopacket.DecodingLayerParser: where it starts and the layers it knows. *)
Record layerParser := mkParser { parserFirst : LayerType; parserLayers : list LayerType }.

(** What a call of DecodeLayers leaves behind. *)
Record parse `{LayersPkg} := mkParse {
  parsedLayers : packetLayers;
  parsedTypes : list LayerType;
  parsedTruncated : bool;
  parsedErr : option error
}.

Section layers.
  Context `{LayersPkg}.

Definition set_ether (x : Ethernet) (l : packetLayers) : packetLayers :=
  mkLayers _ _ x (lo l) (dot1q l) (ipv4 l) (ipv6 l) (TCP l) (Payload l).
Definition set_lo (x : Loopback) (l : packetLayers) : packetLayers :=
  mkLayers _ _ (ether l) x (dot1q l) (ipv4 l) (ipv6 l) (TCP l) (Payload l).
Definition set_dot1q (x : Dot1Q) (l : packetLayers) : packetLayers :=
  mkLayers _ _ (ether l) (lo l) x (ipv4 l) (ipv6 l) (TCP l) (Payload l).
Definition set_ipv4 (x : IPv4) (l : packetLayers) : packetLayers :=
  mkLayers _ _ (ether l) (lo l) (dot1q l) x (ipv6 l) (TCP l) (Payload l).
Definition set_ipv6 (x : IPv6) (l : packetLayers) : packetLayers :=
  mkLayers _ _ (ether l) (lo l) (dot1q l) (ipv4 l) x (TCP l) (Payload l).
Definition set_TCP (x : TCPHeader) (l : packetLayers) : packetLayers :=
  mkLayers _ _ (ether l) (lo l) (dot1q l) (ipv4 l) (ipv6 l) x (Payload l).
Definition set_Payload (x : bytes) (l : packetLayers) : packetLayers :=
  mkLayers _ _ (ether l) (lo l) (dot1q l) (ipv4 l) (ipv6 l) (TCP l) x.

(** Decoding [data] into one layer of a packet: the layers after it, whether it
    is truncated, the error, the type of the next layer and its data. *)
Definition into {L} `{DecodingLayer L} (get : packetLayers -> L) (set : L -> packetLayers -> packetLayers)
    (data : bytes) (l : packetLayers) : packetLayers * bool * option error * LayerType * bytes :=
  let '(x, truncated, err) := DecodeFromBytes data (get l) in
  (set x l, truncated, err, NextLayerType x, LayerPayload x).

(** [l.decoders[typ]], and its call. *)
Definition decodeLayer (t : LayerType) (data : bytes) (l : packetLayers) :
    option (packetLayers * bool * option error * LayerType * bytes) :=
  match t with
  | LayerTypeEthernet => Some (into ether set_ether data l)
  | LayerTypeLoopback => Some (into lo set_lo data l)
  | LayerTypeDot1Q => Some (into dot1q set_dot1q data l)
  | LayerTypeIPv4 => Some (into ipv4 set_ipv4 data l)
  | LayerTypeIPv6 => Some (into ipv6 set_ipv6 data l)
  | LayerTypeTCP => Some (into TCP set_TCP data l)
  | LayerTypePayload => Some (into Payload set_Payload data l)
  | LayerTypeOther _ => None
  end.

Definition knows (ps : layerParser) (t : LayerType) : bool := bool_decide (t ∈ parserLayers ps).

(** [for len(data) > 0].  Every layer takes at least a byte ([layersLoop_fuel]). *)
Fixpoint layersLoop (n : nat) (ps : layerParser) (t : LayerType) (data : bytes) (l : packetLayers)
    (types : list LayerType) (truncated : bool) : parse :=
  match data, n with
  | [], _ | _, O => mkParse _ _ l types truncated None
  | _, S n =>
      match (if knows ps t then decodeLayer t data l else None) with
      | None => mkParse _ _ l types truncated (Some (UnsupportedLayerType t))
      | Some (l, tr, Some e, _, _) => mkParse _ _ l types (truncated || tr) (Some e)
      | Some (l, tr, None, next, payload) => layersLoop n ps next payload l (types ++ [t]) (truncated || tr)
      end
  end.

Definition DecodeLayers (ps : layerParser) (data : bytes) (l : packetLayers) : parse :=
  layersLoop (length data) ps (parserFirst ps) data l [] false.

End layers.

(** ** Hashing *)

(** [uint64] arithmetic, modulo 2^64. *)
Definition hashCombine (h k : Z) : Z :=
  let m := 0xc6a4a7935bd1e995 in
  let r := 47 in
  let k := u64 (k * m) in
  let k := Z.lxor k (Z.shiftr k r) in
  let k := u64 (k * m) in
  let h := Z.lxor h k in
  let h := u64 (h * m) in
  u64 (h + 0xe6546b64).

(** ** Packets and decoders *)

(** const batchSize *)
Definition batchSize : Z := 1000.

Inductive decodeLog : Type :=
  | LogDecodeLayers (e : error)       (* "Error from DecodeLayers:" *)
  | LogTruncated (n : Z).             (* "Found truncated packet of length" *)

Section decode.
  Context `{LayersPkg}.

Record DecodedPacket := mkDecodedPacket {
  dpInfo : CaptureInfo;
  ethParser : layerParser;
  loParser : layerParser;
  decoded : list LayerType;
  lys : packetLayers;
  FlowHash : Z;
  NetFlow : Flow
}.

Record decoder := mkDecoder {
  logged : list decodeLog;
  handlerCalls : list (list DecodedPacket);
  largestPacket : Z;
  slots : list DecodedPacket          (* the field decoded *)
}.

Definition set_lys (types : list LayerType) (l : packetLayers) (dp : DecodedPacket) : DecodedPacket :=
  mkDecodedPacket (dpInfo dp) (ethParser dp) (loParser dp) types l (FlowHash dp) (NetFlow dp).
Definition set_FlowHash (x : Z) (dp : DecodedPacket) : DecodedPacket :=
  mkDecodedPacket (dpInfo dp) (ethParser dp) (loParser dp) (decoded dp) (lys dp) x (NetFlow dp).
Definition set_NetFlow (x : Flow) (dp : DecodedPacket) : DecodedPacket :=
  mkDecodedPacket (dpInfo dp) (ethParser dp) (loParser dp) (decoded dp) (lys dp) (FlowHash dp) x.

Definition newDecodedPacket : DecodedPacket :=
  mkDecodedPacket zeroCaptureInfo
    (mkParser LayerTypeEthernet [LayerTypeEthernet; LayerTypeDot1Q; LayerTypeIPv4; LayerTypeIPv6;
      LayerTypeTCP; LayerTypePayload])
    (mkParser LayerTypeLoopback [LayerTypeLoopback; LayerTypeDot1Q; LayerTypeIPv4; LayerTypeIPv6;
      LayerTypeTCP; LayerTypePayload])
    [] (mkLayers _ _ zeroEthernet zeroLoopback zeroDot1Q zeroIPv4 zeroIPv6 zeroTCP []) 0 zeroFlow.

Definition isTCPLayer (lt : LayerType) : bool := bool_decide (lt = LayerTypeTCP).
Definition IsTCP (dp : DecodedPacket) : bool := existsb isTCPLayer (decoded dp).

(** dp.Info = ci; dp.FlowHash = 0; dp.Payload = dp.Payload[:0] *)
Definition resetPacket (ci : CaptureInfo) (dp : DecodedPacket) : DecodedPacket :=
  let l := lys dp in
  mkDecodedPacket ci (ethParser dp) (loParser dp) (decoded dp)
    (mkLayers _ _ (ether l) (lo l) (dot1q l) (ipv4 l) (ipv6 l) (TCP l) []) 0 (NetFlow dp).

(** [DecodeLayers(data, &dp.decoded)] of one of the parsers. *)
Definition parseWith (ps : layerParser) (data : bytes) (dp : DecodedPacket) : DecodedPacket * bool * option error :=
  let p := DecodeLayers ps data (lys dp) in
  (set_lys (parsedTypes p) (parsedLayers p) dp, parsedTruncated p, parsedErr p).

(** The Ethernet parser first, the loopback parser when that finds no TCP. *)
Definition parsePacket (data : bytes) (dp : DecodedPacket) : DecodedPacket * bool * option error :=
  let '(dp, truncated, err) := parseWith (ethParser dp) data dp in
  if negb (IsTCP dp) then parseWith (loParser dp) data dp else (dp, truncated, err).

(** One round of the loop over the decoded layers. *)
Definition layerStep (dp : DecodedPacket) (layer : LayerType) : DecodedPacket :=
  match layer with
  | LayerTypeIPv4 => set_NetFlow (NetworkFlow4 (ipv4 (lys dp))) dp
  | LayerTypeIPv6 => set_NetFlow (NetworkFlow6 (ipv6 (lys dp))) dp
  | LayerTypeTCP =>
      set_FlowHash (hashCombine (FastHash (NetFlow dp)) (FastHash (TransportFlow (TCP (lys dp))))) dp
  | _ => dp
  end.

Definition Log (e : decodeLog) : GoM decoder unit :=
  modify (fun d => mkDecoder (logged d ++ [e]) (handlerCalls d) (largestPacket d) (slots d)).
Definition set_largestPacket (n : Z) : GoM decoder unit :=
  modify (fun d => mkDecoder (logged d) (handlerCalls d) n (slots d)).
Definition set_slot (i : nat) (dp : DecodedPacket) : GoM decoder unit :=
  modify (fun d => mkDecoder (logged d) (handlerCalls d) (largestPacket d) (<[i := dp]> (slots d))).
Definition call_handler (dps : list DecodedPacket) : GoM decoder unit :=
  modify (fun d => mkDecoder (logged d) (handlerCalls d ++ [dps]) (largestPacket d) (slots d)).

Definition decode (ci : CaptureInfo) (data : bytes) (dp : DecodedPacket) : GoM decoder DecodedPacket :=
  let '(dp, truncated, err) := parsePacket data (resetPacket ci dp) in
  (match err with Some e => Log (LogDecodeLayers e) | None => mret tt end);;
  largest ← gets largestPacket;
  (if truncated && (largest <? Length ci)
   then Log (LogTruncated (Length ci));; set_largestPacket (Length ci)
   else mret tt);;
  mret (foldl layerStep dp (decoded dp)).

Definition newDecoder : decoder :=
  mkDecoder [] [] 0 (replicate (Z.to_nat batchSize) newDecodedPacket).

(** for i := 0; i < numPackets; i++ *)
Fixpoint decodeLoop (i n : nat) (pb : PacketBuffer) : GoM decoder unit :=
  match n with
  | O => mret tt
  | S n' =>
      pd ← (fun d => pd ← Packet (Z.of_nat i) pb; Ret (pd, d));
      dp ← (fun d => dp ← index (Z.of_nat i) (slots d); Ret (dp, d));
      dp ← decode (Info pd) (Data pd) dp;
      set_slot i dp;;
      decodeLoop (S i) n' pb
  end.

Definition decodeBatch (pb : PacketBuffer) : GoM decoder unit := fun d =>
  let numPackets := PacketLen pb in
  if zlen (slots d) <? numPackets then Panic
  else
    (decodeLoop 0 (Z.to_nat numPackets) pb;;
     dps ← (fun d => dps ← slice_to numPackets (slots d); Ret (dps, d));
     call_handler dps) d.

End decode.

(** ** Lemmas: hashing *)

Lemma lxor_u64 a b : 0 <= a < 2 ^ 64 -> 0 <= b < 2 ^ 64 -> 0 <= Z.lxor a b < 2 ^ 64.
Proof.
  intros Ha Hb. assert (0 <= Z.lxor a b) by (apply Z.lxor_nonneg; lia). split; [done|].
  assert (forall x, 0 <= x < 2 ^ 64 -> Z.log2 x < 64) as L.
  { intros x Hx. destruct (decide (x = 0)) as [->|]; [done|]. apply Z.log2_lt_pow2; lia. }
  destruct (decide (Z.lxor a b = 0)) as [->|]; [done|]. apply Z.log2_lt_pow2; [lia|].
  pose proof (Z.log2_lxor a b). pose proof (L a Ha). pose proof (L b Hb). lia.
Qed.

Lemma u64_pow z : u64 z = z mod 2 ^ 64.
Proof. done. Qed.

(** Multiplication by the odd constant can be undone. *)
Lemma mul_inj a b m inv : 0 <= a < 2 ^ 64 -> 0 <= b < 2 ^ 64 -> (m * inv) mod 2 ^ 64 = 1 ->
  u64 (a * m) = u64 (b * m) -> a = b.
Proof.
  intros Ha Hb Hm E.
  assert (forall x, 0 <= x < 2 ^ 64 -> u64 (u64 (x * m) * inv) = x) as undo.
  { intros x Hx. rewrite !u64_pow, Z.mul_mod_idemp_l, <- Z.mul_assoc, <- Z.mul_mod_idemp_r, Hm, Z.mul_1_r by lia.
    by apply Z.mod_small. }
  rewrite <- (undo a Ha), <- (undo b Hb). congruence.
Qed.

(** So can the xor with the number's own high bits. *)
Lemma xorshift_inj a b r : 0 <= a < 2 ^ 64 -> 0 <= b < 2 ^ 64 -> 32 <= r ->
  Z.lxor a (Z.shiftr a r) = Z.lxor b (Z.shiftr b r) -> a = b.
Proof.
  intros Ha Hb Hr E.
  assert (forall x, 0 <= x < 2 ^ 64 ->
    Z.lxor (Z.lxor x (Z.shiftr x r)) (Z.shiftr (Z.lxor x (Z.shiftr x r)) r) = x) as undo.
  { intros x Hx. rewrite Z.shiftr_lxor, Z.shiftr_shiftr, (Z.shiftr_div_pow2 x (r + r)) by lia.
    rewrite Z.div_small, Z.lxor_0_r, Z.lxor_assoc, Z.lxor_nilpotent, Z.lxor_0_r; [done|].
    split; [lia|]. eapply Z.lt_le_trans; [apply Hx|]. apply Z.pow_le_mono_r; lia. }
  rewrite <- (undo a Ha), <- (undo b Hb), E. done.
Qed.

Lemma xorshift_range a r : 0 <= a < 2 ^ 64 -> 0 <= r -> 0 <= Z.lxor a (Z.shiftr a r) < 2 ^ 64.
Proof.
  intros Ha Hr. apply lxor_u64; [done|]. rewrite Z.shiftr_div_pow2 by lia.
  pose proof (Z.pow_pos_nonneg 2 r). split; [apply Z.div_pos; lia|].
  eapply Z.le_lt_trans; [apply Z.div_le_upper_bound with (q := a); nia|lia].
Qed.

Lemma lxor_inj_r a b c : Z.lxor a c = Z.lxor b c -> a = b.
Proof.
  intros E. assert (forall x, Z.lxor (Z.lxor x c) c = x) as X
    by (intros x; by rewrite Z.lxor_assoc, Z.lxor_nilpotent, Z.lxor_0_r).
  by rewrite <- (X a), <- (X b), E.
Qed.

Lemma add_inj a b c : 0 <= a < 2 ^ 64 -> 0 <= b < 2 ^ 64 -> u64 (a + c) = u64 (b + c) -> a = b.
Proof.
  intros Ha Hb E. rewrite !u64_pow in E.
  rewrite <- (Z.mod_small a (2 ^ 64)), <- (Z.mod_small b (2 ^ 64)) by done.
  replace a with (a + c - c) by lia. replace b with (b + c - c) by lia.
  rewrite <- (Zminus_mod_idemp_l (a + c)), <- (Zminus_mod_idemp_l (b + c)), E. done.
Qed.

(** C38: combining hashes loses nothing.  For either argument fixed,
    [hashCombine] is injective in the other, so distinct transport flows of one
    pair of hosts never share a hash unless their own hashes collide. *)
Theorem hashCombine_injective h h' k k' :
  0 <= h < 2 ^ 64 -> 0 <= h' < 2 ^ 64 -> 0 <= k < 2 ^ 64 -> 0 <= k' < 2 ^ 64 ->
  0 <= hashCombine h k < 2 ^ 64 /\
  (hashCombine h k = hashCombine h' k -> h = h') /\
  (hashCombine h k = hashCombine h k' -> k = k').
Proof.
  intros Hh Hh' Hk Hk'. unfold hashCombine. cbv zeta.
  assert (forall z, 0 <= u64 z < 2 ^ 64) as U by (intros z; apply u64_range).
  set (mix k := u64 (Z.lxor (u64 (k * 0xc6a4a7935bd1e995)) (Z.shiftr (u64 (k * 0xc6a4a7935bd1e995)) 47) * 0xc6a4a7935bd1e995)).
  assert (forall a b, u64 (a * 0xc6a4a7935bd1e995) = u64 (b * 0xc6a4a7935bd1e995) ->
    0 <= a < 2 ^ 64 -> 0 <= b < 2 ^ 64 -> a = b) as M.
  { intros a b E Ha Hb. by apply (mul_inj a b 0xc6a4a7935bd1e995 0x5f7a0ea7e59b19bd). }
  assert (mix k = mix k' -> k = k') as Mix.
  { intros E. apply M in E; [|by apply xorshift_range..].
    apply xorshift_inj in E; [|done..]. by apply M. }
  assert (forall a b, u64 (u64 (a * 0xc6a4a7935bd1e995) + 0xe6546b64) = u64 (u64 (b * 0xc6a4a7935bd1e995) + 0xe6546b64) ->
    0 <= a < 2 ^ 64 -> 0 <= b < 2 ^ 64 -> a = b) as A.
  { intros a b E Ha Hb. apply add_inj in E; [|done..]. by apply M. }
  split; [apply U|]. split; intros E.
  - apply A in E; [by eapply lxor_inj_r|by apply lxor_u64..].
  - apply Mix. apply A in E; [|by apply lxor_u64..]. rewrite !(Z.lxor_comm h) in E. by eapply lxor_inj_r.
Qed.

(** ** What the decoders of the layers promise *)

(** Decoding [data] into a layer again: whether it fails depends on [data]
    alone, and then what [view] shows of the layer is replaced or kept, whatever
    else the layer holds; when it succeeds, it comes from [data] alone, and so does
    what is decoded next. *)
Definition redecodes {L A} `{DecodingLayer L} (view : L -> A) (data : bytes) : Prop :=
  forall l l', let '(x, _, err) := DecodeFromBytes data l in let '(x', _, err') := DecodeFromBytes data l' in
    err' = err /\ (view l' = view l -> view x' = view x) /\
    (err = None -> view x' = view x /\ NextLayerType x' = NextLayerType x /\ LayerPayload x' = LayerPayload x).

(** Of an IPv6 header, byte 6 is the type of the next header; 0 says that
    hop-by-hop options follow. *)
Definition nextHopByHop (data : bytes) : bool := bool_decide (data !! 6%nat = Some x00).

(** The decoders of gopacket's layers.  Not everything of a layer is
    overwritten: Ethernet.Length, IPv4.Options and TCP.Padding keep what an
    earlier packet left; the code reads none of them.  Hop-by-hop options of IPv6
    accumulate and are searched, so nothing is promised of a header that they
    follow.  Every layer takes at least one byte of its data. *)
Class LayersLaws `{LayersPkg} := {
  Ethernet_redecodes data : redecodes (fun _ : Ethernet => tt) data;
  Loopback_redecodes data : redecodes (fun _ : Loopback => tt) data;
  Dot1Q_redecodes data : redecodes (fun _ : Dot1Q => tt) data;
  IPv4_redecodes data : redecodes NetworkFlow4 data;
  IPv6_redecodes data : nextHopByHop data = false -> redecodes NetworkFlow6 data;
  TCP_redecodes data : redecodes (fun x : TCPHeader => (TransportFlow x, tcpContent x)) data;
  layers_shrink t data l : data <> [] ->
    match decodeLayer t data l with
    | Some (_, _, None, _, payload) => (length payload < length data)%nat
    | _ => True
    end
}.

(** What the code reads of the layer of type [t] is the same in both. *)
Definition sameLayer `{LayersPkg} (t : LayerType) (l l' : packetLayers) : Prop :=
  match t with
  | LayerTypeIPv4 => NetworkFlow4 (ipv4 l') = NetworkFlow4 (ipv4 l)
  | LayerTypeIPv6 => NetworkFlow6 (ipv6 l') = NetworkFlow6 (ipv6 l)
  | LayerTypeTCP => TransportFlow (TCP l') = TransportFlow (TCP l) /\ tcpContent (TCP l') = tcpContent (TCP l)
  | LayerTypePayload => Payload l' = Payload l
  | LayerTypeEthernet | LayerTypeLoopback | LayerTypeDot1Q | LayerTypeOther _ => True
  end.

(** ** Lemmas: decoding the layers *)

Section layers_facts.
  Context `{LayersLaws}.

(** Decoding comes to an IPv6 header that hop-by-hop options follow. *)
Fixpoint meetsHopByHop (n : nat) (ps : layerParser) (t : LayerType) (data : bytes) (l : packetLayers) : bool :=
  match data, n with
  | [], _ | _, O => false
  | _, S n =>
      knows ps t && bool_decide (t = LayerTypeIPv6) && nextHopByHop data ||
      match (if knows ps t then decodeLayer t data l else None) with
      | Some (l, _, None, next, payload) => meetsHopByHop n ps next payload l
      | _ => false
      end
  end.

Definition hopByHop (ps : layerParser) (data : bytes) (l : packetLayers) : bool :=
  meetsHopByHop (length data) ps (parserFirst ps) data l.

Lemma into_redecodes {L A} `{DecodingLayer L} (view : L -> A) get set data l l' :
  (forall x l, get (set x l) = x) -> redecodes view data ->
  let '(l1, _, err, next, payload) := into get set data l in
  let '(l1', _, err', next', payload') := into get set data l' in
  (exists x x', l1 = set x l /\ l1' = set x' l') /\ err' = err /\
  (view (get l') = view (get l) -> view (get l1') = view (get l1)) /\
  (err = None -> view (get l1') = view (get l1) /\ next' = next /\ payload' = payload).
Proof.
  intros Hset Hre. specialize (Hre (get l) (get l')). unfold into.
  destruct (DecodeFromBytes data (get l)) as [[x tr] err], (DecodeFromBytes data (get l')) as [[x' tr'] err'].
  rewrite !Hset. split; [by eexists _, _|done].
Qed.

Lemma Payload_redecodes data : redecodes (fun x : bytes => x) data.
Proof. by intros l l'. Qed.

(** Decoding a layer again, for all layers. *)
Lemma decodeLayer_spec t data l l' : bool_decide (t = LayerTypeIPv6) && nextHopByHop data = false ->
  match decodeLayer t data l, decodeLayer t data l' with
  | Some (l1, _, err, next, payload), Some (l1', _, err', next', payload') =>
      err' = err /\ (forall u, sameLayer u l l' -> sameLayer u l1 l1') /\
      (err = None -> sameLayer t l1 l1' /\ next' = next /\ payload' = payload)
  | None, None => True
  | _, _ => False
  end.
Proof.
  intros Hhop. destruct t; cbn [decodeLayer]; try done.
  1: pose proof (into_redecodes _ ether set_ether data l l' (fun _ _ => eq_refl) (Ethernet_redecodes data)) as Hi.
  2: pose proof (into_redecodes _ lo set_lo data l l' (fun _ _ => eq_refl) (Loopback_redecodes data)) as Hi.
  3: pose proof (into_redecodes _ dot1q set_dot1q data l l' (fun _ _ => eq_refl) (Dot1Q_redecodes data)) as Hi.
  4: pose proof (into_redecodes _ ipv4 set_ipv4 data l l' (fun _ _ => eq_refl) (IPv4_redecodes data)) as Hi.
  5: pose proof (into_redecodes _ ipv6 set_ipv6 data l l' (fun _ _ => eq_refl) (IPv6_redecodes data Hhop)) as Hi.
  6: pose proof (into_redecodes _ TCP set_TCP data l l' (fun _ _ => eq_refl) (TCP_redecodes data)) as Hi.
  7: pose proof (into_redecodes _ Payload set_Payload data l l' (fun _ _ => eq_refl) (Payload_redecodes data)) as Hi.
  all: destruct (into _ _ data l) as [[[[l1 tr] err] next] payload], (into _ _ data l') as [[[[l1' tr'] err'] next'] payload'].
  all: destruct Hi as ((x & x' & -> & ->) & -> & Hkeep & Hok); split; [done|]; split.
  all: try (intros Herr; destruct (Hok Herr) as (Hv & ? & ?); split_and!; [simpl in *; first [done|by injection Hv]|done..]).
  all: intros []; simpl in *; try done.
  intros [E1 E2]. rewrite E1, E2 in Hkeep. specialize (Hkeep eq_refl). by injection Hkeep.
Qed.

(** The loop, from layers that agree on what has been decoded. *)
Lemma layersLoop_spec n : forall m ps t data l l' types tr tr', (length data <= n)%nat -> (length data <= m)%nat ->
  meetsHopByHop n ps t data l = false -> (forall u, u ∈ types -> sameLayer u l l') ->
  let p := layersLoop n ps t data l types tr in let p' := layersLoop m ps t data l' types tr' in
  meetsHopByHop m ps t data l' = false /\ parsedTypes p' = parsedTypes p /\ parsedErr p' = parsedErr p /\
  forall u, u ∈ parsedTypes p -> sameLayer u (parsedLayers p) (parsedLayers p').
Proof.
  induction n as [|n IH]; intros m ps t data l l' types tr tr' Hn Hm Hhop Hsame.
  { by destruct data; [destruct m|simpl in Hn; lia]. }
  destruct data as [|x data]; [by destruct m|]. destruct m as [|m]; [simpl in Hm; lia|].
  cbn [layersLoop meetsHopByHop] in *. apply orb_false_iff in Hhop as [Hhop Hrest].
  destruct (knows ps t); [|done]. cbn [andb] in *.
  pose proof (decodeLayer_spec t (x :: data) l l' Hhop) as Hd. rewrite Hhop. cbn [orb].
  pose proof (layers_shrink t (x :: data) l ltac:(done)) as Hlt.
  destruct (decodeLayer t _ l) as [[[[[l1 tr1] err] next] payload]|],
    (decodeLayer t _ l') as [[[[[l1' tr1'] err'] next'] payload']|]; try done.
  destruct Hd as (-> & Hkeep & Hok). destruct err as [e|]; [by split_and!; auto|].
  destruct (Hok eq_refl) as (Ht & -> & ->). simpl in Hn, Hm, Hlt.
  apply IH; [lia..|done|]. intros u [Hu| ->%list_elem_of_singleton]%elem_of_app; auto.
Qed.

Lemma DecodeLayers_reset ps data l l' : hopByHop ps data l = false ->
  let p := DecodeLayers ps data l in let p' := DecodeLayers ps data l' in
  hopByHop ps data l' = false /\ parsedTypes p' = parsedTypes p /\ parsedErr p' = parsedErr p /\
  forall t, t ∈ parsedTypes p -> sameLayer t (parsedLayers p) (parsedLayers p').
Proof. intros Hhop. apply layersLoop_spec; [done..|]. intros u Hu. by apply elem_of_nil in Hu. Qed.

(** The length of the data is fuel enough: more gives the same. *)
Lemma layersLoop_fuel n : forall m ps t data l types tr, (length data <= n)%nat -> (length data <= m)%nat ->
  layersLoop n ps t data l types tr = layersLoop m ps t data l types tr.
Proof.
  induction n as [|n IH]; intros m ps t [|x data] l types tr Hn Hm; simpl in Hn, Hm; [by destruct m|lia|by destruct m|].
  destruct m as [|m]; [lia|]. cbn [layersLoop]. destruct (knows ps t); [|done].
  pose proof (layers_shrink t (x :: data) l ltac:(done)) as Hlt.
  destruct (decodeLayer t _ l) as [[[[[l1 tr1] [e|]] next] payload]|]; [done| |done].
  simpl in Hlt. apply IH; lia.
Qed.

End layers_facts.

(** ** Lemmas: decoding one packet *)

Section decode_facts.
  Context `{LayersPkg}.

Definition isIPLayer (t : LayerType) : bool := bool_decide (t = LayerTypeIPv4 \/ t = LayerTypeIPv6).

(** An IP layer, then exactly one TCP layer and nothing of either kind after
    it; [ip] says that an IP layer has been seen. *)
Fixpoint tcpOverIP (ip : bool) (ts : list LayerType) : bool :=
  match ts with
  | [] => false
  | t :: ts' =>
      if isTCPLayer t then ip && negb (existsb (fun t => isIPLayer t || isTCPLayer t) ts')
      else tcpOverIP (ip || isIPLayer t) ts'
  end.

(** What decoding never changes, and what the loop over the layers keeps. *)
Definition sameFrame (dp dp' : DecodedPacket) : Prop :=
  ethParser dp' = ethParser dp /\ loParser dp' = loParser dp.

Definition sameParse (dp dp' : DecodedPacket) : Prop :=
  dpInfo dp' = dpInfo dp /\ decoded dp' = decoded dp /\ lys dp' = lys dp /\ sameFrame dp dp'.

Lemma layerSteps_keep ts dp : sameParse dp (foldl layerStep dp ts).
Proof.
  revert dp. induction ts as [|t ts IH]; intros dp; [done|]. cbn [foldl]. unfold sameParse, sameFrame.
  destruct (IH (layerStep dp t)) as (-> & -> & -> & -> & ->). by destruct t.
Qed.

Lemma layerSteps_inert ts dp : existsb (fun t => isIPLayer t || isTCPLayer t) ts = false ->
  foldl layerStep dp ts = dp.
Proof.
  revert dp. induction ts as [|t ts IH]; intros dp; [done|]. simpl.
  intros [Ht Hts]%orb_false_iff. rewrite (IH _ Hts). by destruct t.
Qed.

Lemma layerSteps_no_tcp ts dp : existsb isTCPLayer ts = false ->
  FlowHash (foldl layerStep dp ts) = FlowHash dp.
Proof.
  revert dp. induction ts as [|t ts IH]; intros dp; [done|]. simpl.
  intros [Ht Hts]%orb_false_iff. rewrite (IH _ Hts). by destruct t.
Qed.

(** The hash of a TCP packet combines those of its two flows. *)
Lemma layerSteps_hash ts : forall ip dp, tcpOverIP ip ts = true ->
  let dp1 := foldl layerStep dp ts in
  FlowHash dp1 = hashCombine (FastHash (NetFlow dp1)) (FastHash (TransportFlow (TCP (lys dp1)))).
Proof.
  induction ts as [|t ts IH]; intros ip dp; [done|]. simpl. unfold isTCPLayer at 1.
  case_bool_decide as Ht; [|intros; by eapply IH].
  subst t. intros [_ Hts%negb_true_iff]%andb_true_iff. by rewrite !layerSteps_inert.
Qed.

(** The flow and the hash of a TCP packet come from its own layers. *)
Lemma layerSteps_tcp ts : forall ip dp dp', tcpOverIP ip ts = true ->
  (ip = true -> NetFlow dp' = NetFlow dp) -> (forall t, t ∈ ts -> sameLayer t (lys dp) (lys dp')) ->
  let dp1 := foldl layerStep dp ts in
  NetFlow (foldl layerStep dp' ts) = NetFlow dp1 /\ FlowHash (foldl layerStep dp' ts) = FlowHash dp1 /\
  sameLayer LayerTypeTCP (lys dp) (lys dp').
Proof.
  induction ts as [|t ts IH]; intros ip dp dp'; [done|]. simpl. unfold isTCPLayer at 1.
  case_bool_decide as Ht.
  - subst t. intros [-> Hts%negb_true_iff]%andb_true_iff Hnf Hl. simpl. rewrite !layerSteps_inert by done. simpl.
    pose proof (Hl LayerTypeTCP ltac:(by left)) as Htcp. split_and!; [by apply Hnf| |apply Htcp..].
    by rewrite (Hnf eq_refl), (proj1 Htcp).
  - intros Hts Hnf Hl. pose proof (Hl t ltac:(by left)) as Hlt.
    assert (forall dp : DecodedPacket, lys (layerStep dp t) = lys dp) as Hlys by (by destruct t).
    edestruct (IH _ (layerStep dp t) (layerStep dp' t) Hts) as (? & ? & E);
      [|intros u Hu; rewrite !Hlys; apply Hl; by right|rewrite !Hlys in E; done].
    destruct t; simpl in *; rewrite ?orb_false_r in *; done.
Qed.

(** Which parser had the last word. *)
Definition lastParse (data : bytes) (dp : DecodedPacket) : parse :=
  let p := DecodeLayers (ethParser dp) data (lys dp) in
  if existsb isTCPLayer (parsedTypes p) then p else DecodeLayers (loParser dp) data (parsedLayers p).

Lemma parsePacket_eq data dp :
  let p := lastParse data dp in
  parsePacket data dp = (set_lys (parsedTypes p) (parsedLayers p) dp, parsedTruncated p, parsedErr p).
Proof. unfold parsePacket, parseWith, IsTCP, lastParse. simpl. by destruct (existsb _ _). Qed.

Lemma decode_eq ci data dp d :
  let '(dp1, truncated, err) := parsePacket data (resetPacket ci dp) in
  exists d1, decode ci data dp d = Ret (foldl layerStep dp1 (decoded dp1), d1) /\
    slots d1 = slots d /\ handlerCalls d1 = handlerCalls d /\
    largestPacket d1 = (if truncated && (largestPacket d <? Length ci) then Length ci else largestPacket d).
Proof.
  unfold decode. destruct (parsePacket _ _) as [[dp1 truncated] err].
  unfold mbind, gom_bind, gets, mret, gom_ret, Log, set_largestPacket, modify.
  destruct err; simpl; destruct (truncated && _); simpl; by eexists.
Qed.

(** Neither parser comes to hop-by-hop options of IPv6 in [data]. *)
Definition noHopByHop (data : bytes) (dp : DecodedPacket) : Prop :=
  hopByHop (ethParser dp) data (lys dp) = false /\ hopByHop (loParser dp) data (lys dp) = false.

Lemma lastParse_reset `{!LayersLaws} data dp dp' : sameFrame dp dp' -> noHopByHop data dp ->
  let p := lastParse data dp in let p' := lastParse data dp' in
  parsedTypes p' = parsedTypes p /\ parsedErr p' = parsedErr p /\
  forall t, t ∈ parsedTypes p -> sameLayer t (parsedLayers p) (parsedLayers p').
Proof.
  intros [He Hl] [Hne Hnl]. unfold lastParse. rewrite He, Hl.
  destruct (DecodeLayers_reset (ethParser dp) data (lys dp) (lys dp') Hne) as (_ & Et & Eerr & El).
  rewrite Et. destruct (existsb _ _); [done|].
  destruct (DecodeLayers_reset (loParser dp) data (lys dp)
    (parsedLayers (DecodeLayers (ethParser dp) data (lys dp))) Hnl) as (Hnl' & _).
  by destruct (DecodeLayers_reset (loParser dp) data _
    (parsedLayers (DecodeLayers (ethParser dp) data (lys dp'))) Hnl') as (_ & ? & ? & ?).
Qed.

(** C23: reusing packets is safe.  Decoding always returns; the decoded layers are
    those of the Ethernet parser if it finds a TCP header, and else those of the
    loopback parser.  A packet that is not TCP has hash 0; the hash of one that is
    TCP over IP combines those of its two flows.  And, unless the parsers come to an
    IPv6 header with hop-by-hop options, the types of the decoded layers, and for a
    packet that is TCP over IP the flows, the hash and what the TCP header holds but
    for its padding, which nobody reads, come from the packet's own data: they are
    the same whatever the reused packet and the decoder held before. *)
Theorem decode_history_free `{!LayersLaws} ci data dp d :
  exists dp1 d1, decode ci data dp d = Ret (dp1, d1) /\ dpInfo dp1 = ci /\
    decoded dp1 = parsedTypes (lastParse data (resetPacket ci dp)) /\
    lys dp1 = parsedLayers (lastParse data (resetPacket ci dp)) /\
    largestPacket d <= largestPacket d1 /\
    (IsTCP dp1 = false -> FlowHash dp1 = 0) /\
    (tcpOverIP false (decoded dp1) = true ->
       FlowHash dp1 = hashCombine (FastHash (NetFlow dp1)) (FastHash (TransportFlow (TCP (lys dp1))))) /\
    forall dp' d' dp1' d1', noHopByHop data (resetPacket ci dp) -> sameFrame dp dp' ->
      decode ci data dp' d' = Ret (dp1', d1') ->
      decoded dp1' = decoded dp1 /\
      (tcpOverIP false (decoded dp1) = true ->
         NetFlow dp1' = NetFlow dp1 /\ FlowHash dp1' = FlowHash dp1 /\
         TransportFlow (TCP (lys dp1')) = TransportFlow (TCP (lys dp1)) /\
         tcpContent (TCP (lys dp1')) = tcpContent (TCP (lys dp1))).
Proof.
  pose proof (decode_eq ci data dp d) as Heq. rewrite parsePacket_eq in Heq.
  destruct Heq as (d1 & E & _ & _ & Elarge). set (p := lastParse data (resetPacket ci dp)) in *.
  set (dp0 := set_lys (parsedTypes p) (parsedLayers p) (resetPacket ci dp)) in *.
  destruct (layerSteps_keep (decoded dp0) dp0) as (Ki & Kd & Kl & _).
  eexists _, d1. split; [done|]. rewrite Ki, Kd, Kl. do 3 (split; [done|]).
  split; [rewrite Elarge; destruct (parsedTruncated p && _) eqn:T; [|done]; apply andb_true_iff in T; lia|].
  split. { unfold IsTCP. rewrite Kd. intros Hno. by rewrite layerSteps_no_tcp. }
  split. { intros Hshape. rewrite <- Kl. by eapply layerSteps_hash. }
  intros dp' d' dp1' d1' Hhop Hf E'. pose proof (decode_eq ci data dp' d') as Heq. rewrite parsePacket_eq in Heq.
  destruct (lastParse_reset data (resetPacket ci dp) (resetPacket ci dp') Hf Hhop) as (Et & _ & Hl).
  fold p in Et, Hl. set (p' := lastParse data (resetPacket ci dp')) in *.
  set (dp0' := set_lys (parsedTypes p') (parsedLayers p') (resetPacket ci dp')) in *.
  destruct Heq as (? & E'' & _). rewrite E' in E''. injection E'' as -> ->.
  destruct (layerSteps_keep (decoded dp0') dp0') as (_ & Kd' & Kl' & _). change (parsedTypes p') with (decoded dp0').
  rewrite Kd', Kl'.
  assert (decoded dp0' = decoded dp0) as -> by exact Et. split; [done|]. intros Hshape.
  by destruct (layerSteps_tcp (decoded dp0) false dp0 dp0' Hshape) as (? & ? & ? & ?).
Qed.

(** ** Lemmas: decoding a batch *)

(** Decoding [pd] into [dp], with a decoder in some state, gives [dp1]. *)
Definition decodedFrom (pd : PacketData) (dp dp1 : DecodedPacket) : Prop :=
  exists d d1, decode (Info pd) (Data pd) dp d = Ret (dp1, d1).

Lemma decodeLoop_spec n : forall i pb ps d, holdsPackets pb ps -> (i + n)%nat = length ps ->
  (length ps <= length (slots d))%nat ->
  exists d1 dps, decodeLoop i n pb d = Ret (tt, d1) /\ handlerCalls d1 = handlerCalls d /\
    length dps = n /\ slots d1 = take i (slots d) ++ dps ++ drop (i + n) (slots d) /\
    forall j pd dp, (j < n)%nat -> ps !! (i + j)%nat = Some pd -> slots d !! (i + j)%nat = Some dp ->
      exists dp1, dps !! j = Some dp1 /\ decodedFrom pd dp dp1.
Proof.
  induction n as [|n IH]; intros i pb ps d Hpb Hlen Hsl.
  { exists d, []. split; [done|]. do 2 (split; [done|]). rewrite Nat.add_0_r. simpl. rewrite take_drop.
    split; [done|]. intros; lia. }
  destruct (lookup_lt_is_Some_2 ps i) as [pd Hpd]; [lia|].
  destruct (lookup_lt_is_Some_2 (slots d) i) as [dp Hdp]; [lia|].
  pose proof (decode_eq (Info pd) (Data pd) dp d) as Heq.
  destruct (parsePacket _ _) as [[dp0 tr] err]. destruct Heq as (d0 & E & Hs & Hh & _).
  set (dp1 := foldl layerStep dp0 (decoded dp0)) in *.
  set (d2 := mkDecoder (logged d0) (handlerCalls d0) (largestPacket d0) (<[i := dp1]> (slots d0))).
  destruct (IH (S i) pb ps d2 Hpb) as (d1 & dps & E1 & Hh1 & Hl & Hs1 & Hall); [lia|simpl; rewrite length_insert, Hs; lia|].
  exists d1, (dp1 :: dps). split.
  { cbn [decodeLoop]. unfold mbind at 1, gom_bind at 1. rewrite (Packet_holds i pd pb ps Hpb Hpd). cbn.
    unfold mbind at 1, gom_bind at 1. unfold index. rewrite bool_decide_true by lia.
    rewrite Nat2Z.id, Hdp. cbn. unfold mbind at 1, gom_bind at 1. rewrite E. done. }
  simpl in Hh1. split; [congruence|]. split; [simpl; lia|]. simpl in Hs1. rewrite Hs in Hs1. split.
  - rewrite Hs1. rewrite insert_take_drop by lia.
    rewrite take_app, length_take, Nat.min_l by lia. replace (S i - i)%nat with 1%nat by lia.
    rewrite take_take, Nat.min_r by lia. simpl. rewrite take_0, <- app_assoc. simpl. do 3 f_equal.
    rewrite drop_app_ge by (rewrite length_take; lia). rewrite length_take, Nat.min_l by lia.
    replace (S (i + n) - i)%nat with (S n) by lia. simpl. rewrite drop_drop. f_equal. lia.
  - intros [|j] pd' dp' Hj Hpd' Hdp'; simpl.
    + rewrite Nat.add_0_r in *. simplify_eq. exists dp1. split; [done|]. by exists d, d0.
    + eapply (Hall j); [lia|by replace (S i + j)%nat with (i + S j)%nat by lia|].
      simpl. rewrite Hs, list_lookup_insert_ne by lia. by replace (S (i + j)) with (i + S j)%nat by lia.
Qed.

Lemma decodeBatch_ok pb ps d : holdsPackets pb ps -> zlen ps <= zlen (slots d) ->
  exists dps d1, decodeBatch pb d = Ret (tt, d1) /\ handlerCalls d1 = handlerCalls d ++ [dps] /\
    length dps = length ps /\ slots d1 = dps ++ drop (length ps) (slots d) /\
    forall i pd dp, ps !! i = Some pd -> slots d !! i = Some dp ->
      exists dp1, dps !! i = Some dp1 /\ decodedFrom pd dp dp1.
Proof.
  intros Hpb Hle. unfold decodeBatch. rewrite (PacketLen_eq pb ps Hpb).
  destruct (Z.ltb_spec (zlen (slots d)) (zlen ps)); [lia|]. unfold zlen in *. rewrite Nat2Z.id.
  destruct (decodeLoop_spec (length ps) 0 pb ps d Hpb) as (d1 & dps & E & Hh & Hl & Hs & Hall); [lia..|].
  simpl in Hs. eexists dps, _. split.
  { unfold mbind at 1, gom_bind at 1. rewrite E. unfold mbind at 1, gom_bind at 1.
    rewrite slice_to_ok by (unfold zlen; rewrite Hs, length_app; lia).
    rewrite Hs, Nat2Z.id, take_app_le, take_ge by lia. cbn. done. }
  simpl. rewrite Hh. do 2 (split; [done|]). split; [done|].
  intros i pd dp Hp Hd. apply (Hall i pd dp); [|done..]. apply lookup_lt_Some in Hp. lia.
Qed.

(** C21: a batch reaches the handler whole.  When the packets fit the decoder,
    the handler is called once with one decoded packet per captured one, in
    order, each decoded from its own data; a batch that does not fit panics. *)
Theorem decodeBatch_spec pb ps d : holdsPackets pb ps ->
  if zlen (slots d) <? zlen ps then decodeBatch pb d = Panic
  else exists dps d1, decodeBatch pb d = Ret (tt, d1) /\ handlerCalls d1 = handlerCalls d ++ [dps] /\
    length dps = length ps /\ slots d1 = dps ++ drop (length ps) (slots d) /\
    forall i pd dp, ps !! i = Some pd -> slots d !! i = Some dp ->
      exists dp1, dps !! i = Some dp1 /\ decodedFrom pd dp dp1.
Proof.
  intros Hpb. destruct (Z.ltb_spec (zlen (slots d)) (zlen ps)); [|by apply decodeBatch_ok].
  unfold decodeBatch. rewrite (PacketLen_eq pb ps Hpb). by destruct (Z.ltb_spec (zlen (slots d)) (zlen ps)); [|lia].
Qed.

End decode_facts.
