(* ===== verification/DecodePool.v ===== *)
(** * decode/pool.go and decode/worker.go: the pool of decode workers

    Run and the workers are goroutines that meet at channels.  [act] is one
    step of one of them, up to its next channel operation or call of the packet
    source; it is [Blocked] where the goroutine waits.  A schedule is a list of
    actions ([runActs]), so every interleaving is one.  The channel readyQ is a
    queue of worker numbers with capacity numWorkers; a channel workReady, of
    capacity one, is a flag and whether it is closed. *)
From S2P Require Import Prelude GoLib PacketBuffer Capture Replay Decode.
Local Open Scope Z_scope.
#[local] Set Warnings "-clear-no-such-hyp".

(** What the pool relies on of its packet source: calls return and leave a well
    formed buffer of the same capacities, empty at the end of the input. *)
Class CollectorLaws (S : Type) `{PacketSource S} := {
  coll_ok : S -> Prop;
  coll_law s pb ps : coll_ok s -> holdsPackets pb ps -> 0 < PacketCap pb ->
    snapLen <= dataCap (blk pb) ->
    exists err pb' s' pds, CollectPackets pb s = Ret ((err, pb'), s') /\ coll_ok s' /\
      holdsPackets pb' pds /\ PacketCap pb' = PacketCap pb /\ dataCap (blk pb') = dataCap (blk pb) /\
      (err = Some EOF -> pds = []);
  disc_law s : coll_ok s -> exists err s', DiscardPacket s = Ret (err, s') /\ coll_ok s'
}.

(** ** Data *)

(** Where the goroutine of a worker is: at [w.workerQueue <- w], at
    [<-w.workReady], at [w.handler(w.pb)], or past its end. *)
Inductive phase : Type := Publishing | Waiting | Handling | Exited.

#[export] Instance phase_eq_decision : EqDecision phase.
Proof. solve_decision. Defined.

(** Where Run is: at the select, in the loop of sendToWorker, at the i-th round
    of the closing loop, or past its end. *)
Inductive runPhase : Type := Selecting | Collecting (w : nat) | Closing (i : Z) | Returned.

Inductive poolLog : Type :=
  | LogReachedEOF                     (* "Reached EOF, waiting for workers to finish" *)
  | LogDecoderExiting                 (* "Decoder exiting" *)
  | LogDiscardPacket (e : error)      (* "Error from DiscardPacket" *)
  | LogCollectPackets (e : error).    (* "Error from CollectPackets" *)

Section pool.
  Context `{LayersPkg} {Src : Type} `{PacketSource Src}.

Record worker := mkWorker {
  wpb : PacketBuffer;
  workReady : bool;
  closed : bool;
  wdec : decoder;
  wphase : phase
}.

Record Pool := mkPool {
  numWorkers : Z;
  psrc : Src;
  readyQ : list nat;
  PacketsCaptured : Z;
  PacketsDropped : Z;
  workers : list worker;
  runAt : runPhase;
  plog : list poolLog
}.

Definition set_psrc (s : Src) (p : Pool) : Pool :=
  mkPool (numWorkers p) s (readyQ p) (PacketsCaptured p) (PacketsDropped p) (workers p) (runAt p) (plog p).
Definition set_readyQ (q : list nat) (p : Pool) : Pool :=
  mkPool (numWorkers p) (psrc p) q (PacketsCaptured p) (PacketsDropped p) (workers p) (runAt p) (plog p).
Definition addCaptured (n : Z) (p : Pool) : Pool :=
  mkPool (numWorkers p) (psrc p) (readyQ p) (PacketsCaptured p +! n) (PacketsDropped p) (workers p) (runAt p) (plog p).
Definition addDropped (n : Z) (p : Pool) : Pool :=
  mkPool (numWorkers p) (psrc p) (readyQ p) (PacketsCaptured p) (PacketsDropped p +! n) (workers p) (runAt p) (plog p).
Definition set_worker (i : nat) (w : worker) (p : Pool) : Pool :=
  mkPool (numWorkers p) (psrc p) (readyQ p) (PacketsCaptured p) (PacketsDropped p) (<[i := w]> (workers p))
    (runAt p) (plog p).
Definition set_runAt (r : runPhase) (p : Pool) : Pool :=
  mkPool (numWorkers p) (psrc p) (readyQ p) (PacketsCaptured p) (PacketsDropped p) (workers p) r (plog p).
Definition addLog (l : poolLog) (p : Pool) : Pool :=
  mkPool (numWorkers p) (psrc p) (readyQ p) (PacketsCaptured p) (PacketsDropped p) (workers p) (runAt p)
    (plog p ++ [l]).

Definition set_pb (x : PacketBuffer) (w : worker) : worker :=
  mkWorker x (workReady w) (closed w) (wdec w) (wphase w).
Definition set_workReady (x : bool) (w : worker) : worker :=
  mkWorker (wpb w) x (closed w) (wdec w) (wphase w).
Definition set_closed (w : worker) : worker := mkWorker (wpb w) (workReady w) true (wdec w) (wphase w).
Definition set_dec (x : decoder) (w : worker) : worker :=
  mkWorker (wpb w) (workReady w) (closed w) x (wphase w).
Definition set_phase (x : phase) (w : worker) : worker :=
  mkWorker (wpb w) (workReady w) (closed w) (wdec w) x.

Definition block : GoM Pool unit := fun _ => Blocked.
Definition getWorker (i : nat) : GoM Pool worker := fun p =>
  match workers p !! i with Some w => Ret (w, p) | None => Panic end.

(** ** Operations *)

(** [readyQ <- w] *)
Definition sendReady (i : nat) : GoM Pool unit := fun p =>
  if zlen (readyQ p) <? numWorkers p then Ret (tt, set_readyQ (readyQ p ++ [i]) p) else Blocked.

(** [w.workReady <- struct{}{}] *)
Definition sendWork (i : nat) : GoM Pool unit :=
  w ← getWorker i;
  if closed w then go_panic else if workReady w then block
  else modify (set_worker i (set_workReady true w)).

Definition close (i : nat) : GoM Pool unit :=
  w ← getWorker i;
  if closed w then go_panic else modify (set_worker i (set_closed w)).

Definition buf (i : nat) : GoM Pool PacketBuffer := w ← getWorker i; mret (wpb w).

Definition work (i : nat) : GoM Pool unit :=
  pb ← buf i;
  if 0 <? PacketLen pb then sendWork i else sendReady i.

(** [p.src.CollectPackets(w.buf())] *)
Definition collect (i : nat) : GoM Pool (option error) :=
  w ← getWorker i;
  '(err, pb) ← zoom psrc set_psrc (CollectPackets (wpb w));
  modify (set_worker i (set_pb pb w));;
  mret err.

(** One round of the loop of sendToWorker: [None] goes round again, [Some err]
    returns [err]. *)
Definition sendToWorker (i : nat) : GoM Pool (option (option error)) :=
  err ← collect i;
  if bool_decide (err = Some NextErrorTimeoutExpired) then mret None
  else
    pb ← buf i;
    modify (addCaptured (PacketLen pb));;
    match err with
    | Some EOF => mret (Some (Some EOF))
    | Some e => modify (addLog (LogCollectPackets e));; mret (Some (Some e))
    | None => work i;; mret (Some None)
    end.

(** The default case of the select. *)
Definition discardStep : GoM Pool unit :=
  err ← zoom psrc set_psrc DiscardPacket;
  match err with
  | Some NextErrorTimeoutExpired | Some EOF => mret tt
  | None => modify (addDropped 1)
  | Some e => modify (addLog (LogDiscardPacket e))
  end.

Definition runStep : GoM Pool unit := fun p =>
  match runAt p with
  | Selecting =>
      match readyQ p with
      | i :: q => Ret (tt, set_runAt (Collecting i) (set_readyQ q p))
      | [] => discardStep p
      end
  | Collecting i =>
      (r ← sendToWorker i;
       match r with
       | None => mret tt
       | Some (Some EOF) =>
           modify (addLog LogReachedEOF);; close i;; modify (set_runAt (Closing 1))
       | Some _ => modify (set_runAt Selecting)
       end) p
  | Closing k =>
      if k <? numWorkers p then
        match readyQ p with
        | i :: q => (close i;; modify (set_runAt (Closing (k +! 1)))) (set_readyQ q p)
        | [] => Blocked
        end
      else Ret (tt, set_runAt Returned (addLog LogDecoderExiting p))
  | Returned => Blocked
  end.

(** The loop of a worker. *)
Definition workerStep (i : nat) : GoM Pool unit := fun p =>
  match workers p !! i with
  | None => Blocked
  | Some w =>
      match wphase w with
      | Publishing => (sendReady i;; modify (set_worker i (set_phase Waiting w))) p
      | Waiting =>
          if workReady w then Ret (tt, set_worker i (set_phase Handling (set_workReady false w)) p)
          else if closed w then Ret (tt, set_worker i (set_phase Exited w) p)
          else Blocked
      | Handling =>
          '(_, d) ← decodeBatch (wpb w) (wdec w);
          Ret (tt, set_worker i (set_phase Publishing (set_dec d w)) p)
      | Exited => Blocked
      end
  end.

Inductive action : Type := RunStep | WorkerStep (i : nat).

Definition act (a : action) : GoM Pool unit :=
  match a with RunStep => runStep | WorkerStep i => workerStep i end.

Fixpoint runActs (acts : list action) : GoM Pool unit :=
  match acts with
  | [] => mret tt
  | a :: acts' => act a;; runActs acts'
  end.

Definition startWorker (batchSize maxBytes : Z) : outcome worker :=
  pb ← NewPacketBuffer batchSize maxBytes;
  Ret (mkWorker pb false false newDecoder Publishing).

(** [make(workerQueue, numWorkers)] panics on a negative number. *)
Definition NewPool (n : Z) (src : Src) : outcome Pool :=
  if n <? 0 then Panic
  else
    w ← startWorker 1000 (8 * 1024 * 1024);
    Ret (mkPool n src [] 0 0 (replicate (Z.to_nat n) w) Selecting []).

Definition poolStats (p : Pool) : Z * Z := (PacketsCaptured p, PacketsDropped p).

(** ** The abstract step relation *)

(** A worker that waits for work and has been given none. *)
Definition idle (w : worker) : Prop :=
  wphase w = Waiting /\ workReady w = false /\ closed w = false.

(** The workers that Run can give work to: the one it collects for and those
    in the queue. *)
Definition at_hand (p : Pool) : list nat :=
  match runAt p with Collecting i => [i] | _ => [] end ++ readyQ p.

(** A worker that nobody will ever give work to or close. *)
Definition lost (p : Pool) (i : nat) (w : worker) : Prop := idle w /\ i ∉ at_hand p.

#[export] Instance lost_decision p i w : Decision (lost p i w).
Proof. unfold lost, idle. apply _. Defined.

(** Whether the packets in the buffer of a worker still have to be handled. *)
Definition owes (athand : bool) (w : worker) : bool :=
  match wphase w with
  | Handling => true
  | Waiting => workReady w || (negb (closed w) && negb athand)
  | _ => false
  end.

Definition handledBy (d : decoder) : Z := sumZ zlen (handlerCalls d).

(** The packets that worker [i] has handled or still has to. *)
Definition share (hand : list nat) (i : nat) (w : worker) : Z :=
  handledBy (wdec w) + if owes (bool_decide (i ∈ hand)) w then PacketLen (wpb w) else 0.

Definition shares (hand : list nat) (ws : list worker) : Z := sumZ id (imap (share hand) ws).

Definition closedCount (ws : list worker) : Z := sumZ (fun w => if closed w then 1 else 0) ws.

(** How many workers Run has closed. *)
Definition closedBy (p : Pool) : Z :=
  match runAt p with Closing k => k | Returned => numWorkers p | _ => 0 end.

Definition buffer_ok (pb : PacketBuffer) (ps : list PacketData) : Prop :=
  holdsPackets pb ps /\ PacketCap pb = 1000 /\ dataCap (blk pb) = 8388608.

Record worker_ok (w : worker) : Prop := {
  wo_pb : exists ps, buffer_ok (wpb w) ps;
  wo_dec : zlen (slots (wdec w)) = batchSize;
  wo_shape : match wphase w with
             | Publishing | Handling => workReady w = false /\ closed w = false
             | Waiting => workReady w = true -> closed w = false
             | Exited => workReady w = false /\ closed w = true
             end
}.

Record pool_inv `{!CollectorLaws Src} (p : Pool) : Prop := {
  pi_n : zlen (workers p) = numWorkers p /\ numWorkers p <= int_max;
  pi_src : coll_ok (psrc p);
  pi_workers : Forall worker_ok (workers p);
  pi_nodup : NoDup (at_hand p);
  pi_idle : forall i, i ∈ at_hand p -> exists w, workers p !! i = Some w /\ idle w;
  pi_closed : closedCount (workers p) = closedBy p;
  pi_closing : forall k, runAt p = Closing k -> 1 <= k <= numWorkers p;
  pi_shares : PacketsCaptured p = wrap64 (shares (at_hand p) (workers p))
}.

(** A CollectPackets that leaves the packets [ps] for worker [i]. *)
Definition collected `{!CollectorLaws Src} (p : Pool) (i : nat) (ps : list PacketData) (w : worker) (p1 : Pool) : Prop :=
  exists s pb, runAt p = Collecting i /\ workers p !! i = Some w /\ coll_ok s /\ buffer_ok pb ps /\
    p1 = set_worker i (set_pb pb w) (set_psrc s p).

Inductive move `{!CollectorLaws Src} (p : Pool) : action -> Pool -> Prop :=
  | m_take i q : runAt p = Selecting -> readyQ p = i :: q ->
      move p RunStep (set_runAt (Collecting i) (set_readyQ q p))
  | m_discard s n l : runAt p = Selecting -> coll_ok s ->
      move p RunStep (mkPool (numWorkers p) s (readyQ p) (PacketsCaptured p) n (workers p) Selecting l)
  | m_timeout i w ps p1 : collected p i ps w p1 -> move p RunStep p1
  | m_batch i w ps p1 w1 : collected p i ps w p1 -> workers p1 !! i = Some w1 -> ps <> [] ->
      move p RunStep (set_runAt Selecting (set_worker i (set_workReady true w1) (addCaptured (zlen ps) p1)))
  | m_empty i w p1 : collected p i [] w p1 ->
      move p RunStep (set_runAt Selecting (set_readyQ (readyQ p ++ [i]) (addCaptured 0 p1)))
  | m_eof i w p1 w1 : collected p i [] w p1 -> workers p1 !! i = Some w1 ->
      move p RunStep (set_runAt (Closing 1) (set_worker i (set_closed w1) (addLog LogReachedEOF (addCaptured 0 p1))))
  | m_fail i w ps p1 e : collected p i ps w p1 ->
      move p RunStep (set_runAt Selecting (addLog (LogCollectPackets e) (addCaptured (zlen ps) p1)))
  | m_close k i q w : runAt p = Closing k -> k < numWorkers p -> readyQ p = i :: q -> workers p !! i = Some w ->
      move p RunStep (set_runAt (Closing (k + 1)) (set_worker i (set_closed w) (set_readyQ q p)))
  | m_return k : runAt p = Closing k -> numWorkers p <= k ->
      move p RunStep (set_runAt Returned (addLog LogDecoderExiting p))
  | m_publish i w : workers p !! i = Some w -> wphase w = Publishing ->
      move p (WorkerStep i) (set_worker i (set_phase Waiting w) (set_readyQ (readyQ p ++ [i]) p))
  | m_receive i w : workers p !! i = Some w -> wphase w = Waiting -> workReady w = true ->
      move p (WorkerStep i) (set_worker i (set_phase Handling (set_workReady false w)) p)
  | m_exit i w : workers p !! i = Some w -> wphase w = Waiting -> workReady w = false -> closed w = true ->
      move p (WorkerStep i) (set_worker i (set_phase Exited w) p)
  | m_handle i w d : workers p !! i = Some w -> wphase w = Handling -> zlen (slots d) = batchSize ->
      handledBy d = handledBy (wdec w) + PacketLen (wpb w) ->
      move p (WorkerStep i) (set_worker i (set_phase Publishing (set_dec d w)) p).

(** ** Lemmas: the invariant *)

Context `{!CollectorLaws Src}.

Lemma shares_insert hand hand' ws i w w' : ws !! i = Some w ->
  (forall j, j <> i -> j ∈ hand' <-> j ∈ hand) ->
  shares hand' (<[i := w']> ws) = shares hand ws - share hand i w + share hand' i w'.
Proof.
  intros Hi Hhand. unfold shares.
  assert (forall j x, j <> i -> share hand' j x = share hand j x) as Hsame.
  { intros j x Hj. unfold share. by rewrite (bool_decide_ext _ _ (Hhand j Hj)). }
  pose proof (lookup_lt_Some _ _ _ Hi) as Hlt.
  rewrite <- (take_drop_middle ws i w Hi), insert_app_r_alt by (rewrite length_take; lia).
  rewrite length_take, Nat.min_l, Nat.sub_diag by lia. simpl.
  rewrite !imap_app. simpl. rewrite length_take, Nat.min_l, Nat.add_0_r by lia.
  rewrite (imap_ext (share hand') (share hand) (take i ws)).
  2:{ intros j x Hx. apply Hsame. apply lookup_lt_Some in Hx. rewrite length_take in Hx. lia. }
  rewrite (imap_ext _ ((fun n => share hand (i + n)%nat) ∘ S) (drop (S i) ws)).
  2:{ intros j x _. apply (Hsame (i + S j)%nat). lia. }
  rewrite !sumZ_app. simpl. unfold id. lia.
Qed.

(** A step that changes worker [i] from [w] to [w'] keeps the invariant. *)
Lemma inv_update p p' i w w' : pool_inv p -> workers p !! i = Some w -> worker_ok w' ->
  workers p' = <[i := w']> (workers p) -> numWorkers p' = numWorkers p -> coll_ok (psrc p') ->
  NoDup (at_hand p') -> (forall j, j <> i -> j ∈ at_hand p' <-> j ∈ at_hand p) ->
  (i ∈ at_hand p' -> idle w') ->
  (if closed w' then 1 else 0) - (if closed w then 1 else 0) = closedBy p' - closedBy p ->
  (forall k, runAt p' = Closing k -> 1 <= k <= numWorkers p) ->
  PacketsCaptured p' = wrap64 (PacketsCaptured p + (share (at_hand p') i w' - share (at_hand p) i w)) ->
  pool_inv p'.
Proof.
  intros [[Hn Hmax] Hsrc Hws Hnd Hidle Hcl Hclosing Hsh] Hi Hw' Ews En Hs' Hnd' Hhand Hidle' Hcl' Hclosing' Hcap.
  split.
  - rewrite Ews, En. unfold zlen. rewrite length_insert. done.
  - done.
  - rewrite Ews. by apply Forall_insert.
  - done.
  - intros j Hj. rewrite Ews. destruct (decide (j = i)) as [->|Hji].
    + exists w'. split; [|by apply Hidle']. apply list_lookup_insert_eq. by eapply lookup_lt_Some.
    + rewrite list_lookup_insert_ne by done. by apply Hidle, Hhand.
  - rewrite Ews. unfold closedCount. rewrite (sumZ_insert _ _ _ _ _ Hi). unfold closedCount in Hcl. lia.
  - rewrite En. done.
  - rewrite Ews, (shares_insert (at_hand p) _ _ _ _ _ Hi Hhand), Hcap, Hsh, wrap64_wrap_l. f_equal. lia.
Qed.

(** A step that changes no worker and keeps the workers at hand. *)
Lemma inv_frame p p' : pool_inv p -> workers p' = workers p -> numWorkers p' = numWorkers p ->
  coll_ok (psrc p') -> Permutation (at_hand p') (at_hand p) -> closedBy p' = closedBy p ->
  (forall k, runAt p' = Closing k -> 1 <= k <= numWorkers p) -> PacketsCaptured p' = PacketsCaptured p ->
  pool_inv p'.
Proof.
  intros [[Hn Hmax] Hsrc Hws Hnd Hidle Hcl Hclosing Hsh] Ews En Hs' Hp Hc Hclosing' Hcap.
  split; rewrite ?Ews, ?En; try done.
  - by rewrite Hp.
  - intros j. rewrite Hp. apply Hidle.
  - congruence.
  - rewrite Hcap, Hsh. f_equal. unfold shares. f_equal. apply imap_ext. intros j x _. simpl. unfold share.
    by rewrite (bool_decide_ext (j ∈ at_hand p) (j ∈ at_hand p')) by (by rewrite Hp).
Qed.

Lemma share_in hand i w : i ∈ hand ->
  share hand i w = handledBy (wdec w) + if owes true w then PacketLen (wpb w) else 0.
Proof. intros Hi. unfold share. by rewrite bool_decide_true. Qed.

Lemma share_out hand i w : i ∉ hand ->
  share hand i w = handledBy (wdec w) + if owes false w then PacketLen (wpb w) else 0.
Proof. intros Hi. unfold share. by rewrite bool_decide_false. Qed.

(** While Run collects for worker [i], that worker is idle and not queued. *)
Lemma collected_facts p i ps w p1 : pool_inv p -> collected p i ps w p1 ->
  exists s pb, workers p !! i = Some w /\ p1 = set_worker i (set_pb pb w) (set_psrc s p) /\
    coll_ok s /\ buffer_ok pb ps /\ PacketLen pb = zlen ps /\ runAt p = Collecting i /\ at_hand p = i :: readyQ p /\
    (i ∉ readyQ p) /\ NoDup (readyQ p) /\ idle w /\ worker_ok w /\ worker_ok (set_pb pb w) /\
    workers p1 !! i = Some (set_pb pb w) /\ closedBy p = 0.
Proof.
  intros Hinv (s & pb & Hrun & Hi & Hs & Hpb & ->). exists s, pb.
  assert (at_hand p = i :: readyQ p) as Hhand by (unfold at_hand; by rewrite Hrun).
  pose proof (pi_nodup p Hinv) as Hnd. rewrite Hhand in Hnd. apply NoDup_cons in Hnd as [Hni Hnd].
  destruct (pi_idle p Hinv i) as (w0 & Hi0 & Hidle); [rewrite Hhand; by left|]. simplify_eq.
  pose proof (proj1 (Forall_lookup _ _) (pi_workers p Hinv) _ _ Hi) as Hw.
  destruct Hpb as [Hps Hcaps]. pose proof (PacketLen_eq pb ps Hps) as Hlen.
  repeat (split; [done|]).
  split; [destruct Hw as [_ ? ?]; split; [by exists ps|done..]|].
  split; [apply list_lookup_insert_eq; by eapply lookup_lt_Some|]. unfold closedBy. by rewrite Hrun.
Qed.

Ltac hand_facts := let H := fresh in intros ? H; unfold at_hand in *; simpl in *;
  rewrite ?elem_of_app, ?list_elem_of_singleton, ?elem_of_cons in *; naive_solver.


Lemma lookup_worker_ok p i w : pool_inv p -> workers p !! i = Some w -> worker_ok w.
Proof. intros Hinv Hi. exact (proj1 (Forall_lookup _ _) (pi_workers p Hinv) _ _ Hi). Qed.

Lemma not_idle_not_at_hand p i w : pool_inv p -> workers p !! i = Some w -> ~ idle w -> i ∉ at_hand p.
Proof. intros Hinv Hi Hni Hin. destruct (pi_idle p Hinv i Hin) as (w' & ? & ?). by simplify_eq. Qed.

(** Run ends a call of CollectPackets. *)
Lemma collected_inv p i ps w p1 : pool_inv p -> collected p i ps w p1 ->
  pool_inv p1 /\
  (forall w1, workers p1 !! i = Some w1 -> ps <> [] ->
    pool_inv (set_runAt Selecting (set_worker i (set_workReady true w1) (addCaptured (zlen ps) p1)))) /\
  (ps = [] -> pool_inv (set_runAt Selecting (set_readyQ (readyQ p ++ [i]) (addCaptured 0 p1)))) /\
  (forall w1, workers p1 !! i = Some w1 -> ps = [] ->
    pool_inv (set_runAt (Closing 1) (set_worker i (set_closed w1) (addLog LogReachedEOF (addCaptured 0 p1))))) /\
  (forall e, pool_inv (set_runAt Selecting (addLog (LogCollectPackets e) (addCaptured (zlen ps) p1)))).
Proof.
  intros Hinv Hc.
  destruct (collected_facts p i ps w p1 Hinv Hc) as (s & pb & Hi & -> & Hs & Hpb & Hlen & Hrun & Hhand &
    Hni & Hnd & (Hph & Hr & Hcl) & Hw & Hw' & Hi1 & Hc0).
  assert (share (at_hand p) i w = handledBy (wdec w)) as Hsh.
  { rewrite Hhand, share_in by (by left). unfold owes. rewrite Hph, Hr, Hcl. simpl. lia. }
  assert (1 <= numWorkers p) as Hpos.
  { destruct (pi_n p Hinv) as [<- _]. apply lookup_lt_Some in Hi. unfold zlen. lia. }
  simpl in Hi1.
  split; [|split; [|split; [|split]]].
  - eapply (inv_update p _ i w (set_pb pb w)); try done; unfold closedBy; simpl; rewrite ?Hrun, ?Hcl; try done.
    + apply (pi_nodup p Hinv).
    + change (at_hand _) with (at_hand p) at 1. rewrite Hsh, Hhand, share_in by (by left).
      unfold owes. simpl. rewrite Hph, Hr, Hcl. simpl. rewrite (pi_shares p Hinv), wrap64_wrap_l. f_equal. lia.
  - intros w1 E1 Hps. simpl in E1. rewrite Hi1 in E1. injection E1 as <-.
    eapply (inv_update p _ i w (set_workReady true (set_pb pb w))); try done; unfold closedBy; simpl; rewrite ?Hrun, ?Hcl; try done.
    + destruct Hw' as [? ? ?]. split; simpl in *; try done. by rewrite Hph in *.
    + by rewrite list_insert_insert_eq.
    + rewrite Hhand. intros j Hj. unfold at_hand. simpl. set_solver.
    + rewrite Hsh, share_out by done. unfold owes. simpl. rewrite Hph. simpl. f_equal. lia.
  - intros ->. eapply (inv_update p _ i w (set_pb pb w)); try done; unfold closedBy; simpl; rewrite ?Hrun, ?Hcl; try done.
    + unfold at_hand. simpl. apply NoDup_app. split; [done|]. split; [set_solver|apply NoDup_singleton].
    + rewrite Hhand. intros j Hj. unfold at_hand. simpl. set_solver.
    + rewrite Hsh, share_in by (unfold at_hand; simpl; set_solver). unfold owes. simpl. rewrite Hph, Hr, Hcl. simpl.
      f_equal. lia.
  - intros w1 E1 ->. simpl in E1. rewrite Hi1 in E1. injection E1 as <-.
    eapply (inv_update p _ i w (set_closed (set_pb pb w))); try done; unfold closedBy; simpl; rewrite ?Hrun, ?Hcl; try done.
    + destruct Hw' as [? ? ?]. split; simpl in *; try done. rewrite Hph, Hr in *. done.
    + by rewrite list_insert_insert_eq.
    + rewrite Hhand. intros j Hj. unfold at_hand. simpl. set_solver.
    + intros k [= <-]. lia.
    + rewrite Hsh, share_out by done. unfold owes. simpl. rewrite Hph, Hr. simpl. f_equal. lia.
  - intros e. eapply (inv_update p _ i w (set_pb pb w)); try done; unfold closedBy; simpl; rewrite ?Hrun, ?Hcl; try done.
    + rewrite Hhand. intros j Hj. unfold at_hand. simpl. set_solver.
    + rewrite Hsh, share_out by done. unfold owes. simpl. rewrite Hph, Hr, Hcl. simpl. f_equal. lia.
Qed.

(** A step of a worker that does not change who is at hand. *)
Lemma worker_inv p i w w' : pool_inv p -> workers p !! i = Some w -> worker_ok w' -> i ∉ at_hand p ->
  closed w' = closed w -> share (at_hand p) i w' = share (at_hand p) i w -> pool_inv (set_worker i w' p).
Proof.
  intros Hinv Hi Hw' Hni Hcl Hsh.
  eapply (inv_update p _ i w w'); try done; try apply Hinv.
  - rewrite Hcl. unfold closedBy. simpl. lia.
  - change (at_hand (set_worker i w' p)) with (at_hand p).
    change (PacketsCaptured (set_worker i w' p)) with (PacketsCaptured p).
    rewrite Hsh, (pi_shares p Hinv), wrap64_wrap_l. f_equal. lia.
Qed.

Lemma publish_inv p i w : pool_inv p -> workers p !! i = Some w -> wphase w = Publishing ->
  pool_inv (set_worker i (set_phase Waiting w) (set_readyQ (readyQ p ++ [i]) p)).
Proof.
  intros Hinv Hi Hph. pose proof (lookup_worker_ok p i w Hinv Hi) as [Hpb Hd Hsh]. rewrite Hph in Hsh.
  destruct Hsh as [Hr Hcl].
  assert (i ∉ at_hand p) as Hni. { eapply not_idle_not_at_hand; [done..|]. intros (E & _). by rewrite E in Hph. }
  assert (at_hand (set_worker i (set_phase Waiting w) (set_readyQ (readyQ p ++ [i]) p)) = at_hand p ++ [i]) as Eh
    by (unfold at_hand; simpl; by rewrite app_assoc).
  eapply (inv_update p _ i w (set_phase Waiting w)); try done; rewrite ?Eh; try apply Hinv.
  - split; simpl; [done..|by rewrite Hr].
  - apply NoDup_app. split; [apply Hinv|]. split; [set_solver|apply NoDup_singleton].
  - set_solver.
  - unfold closedBy. simpl. rewrite Hcl. lia.
  - rewrite share_in by set_solver. rewrite share_out by done. unfold owes. simpl. rewrite Hph, Hr, Hcl. simpl.
    rewrite (pi_shares p Hinv), wrap64_wrap_l. f_equal. lia.
Qed.

Lemma close_inv p k i q w : pool_inv p -> runAt p = Closing k -> k < numWorkers p -> readyQ p = i :: q ->
  workers p !! i = Some w -> pool_inv (set_runAt (Closing (k + 1)) (set_worker i (set_closed w) (set_readyQ q p))).
Proof.
  intros Hinv Hrun Hk Hq Hi.
  assert (at_hand p = i :: q) as Hhand by (unfold at_hand; by rewrite Hrun, Hq).
  destruct (pi_idle p Hinv i) as (w0 & Hi0 & Hph & Hr & Hcl); [rewrite Hhand; by left|]. simplify_eq.
  pose proof (pi_nodup p Hinv) as Hnd. rewrite Hhand in Hnd. apply NoDup_cons in Hnd as [Hni Hnd].
  pose proof (lookup_worker_ok p i w Hinv Hi) as [Hpb Hd Hsh]. pose proof (pi_closing p Hinv k Hrun).
  eapply (inv_update p _ i w (set_closed w)); try done; rewrite ?Hhand; try apply Hinv.
  - split; simpl; [done..|]. by rewrite Hph, Hr.
  - intros j Hj. unfold at_hand. simpl. set_solver.
  - unfold closedBy. simpl. rewrite Hcl, Hrun. lia.
  - simpl. intros k' [= <-]. lia.
  - rewrite share_out by done. rewrite share_in by set_solver. unfold owes. simpl. rewrite Hph, Hr, Hcl. simpl.
    rewrite (pi_shares p Hinv), wrap64_wrap_l. f_equal. lia.
Qed.

Lemma move_inv p a p' : pool_inv p -> move p a p' -> pool_inv p'.
Proof.
  intros Hinv Hm. inversion Hm as [i q Hrun Hq|s n l Hrun Hs|i w ps p1 Hc|i w ps p1 w1 Hc E Hps|i w p1 Hc
    |i w p1 w1 Hc E|i w ps p1 e Hc|k i q w Hrun Hk Hq Hi|k Hrun Hk|i w Hi Hph|i w Hi Hph Hr|i w Hi Hph Hr Hcl
    |i w d Hi Hph Hd Hh]; subst.
  - eapply (inv_frame p); try done; try apply Hinv.
    + unfold at_hand. simpl. by rewrite Hrun, Hq.
    + unfold closedBy. simpl. by rewrite Hrun.
  - eapply (inv_frame p); try done.
    + unfold at_hand. simpl. by rewrite Hrun.
    + unfold closedBy. simpl. by rewrite Hrun.
  - by apply (collected_inv p i ps w p').
  - by apply (collected_inv p i ps w p1).
  - by apply (collected_inv p i [] w p1).
  - by apply (collected_inv p i [] w p1).
  - by apply (collected_inv p i ps w p1).
  - by eapply close_inv.
  - eapply (inv_frame p); try done; try apply Hinv.
    + unfold at_hand. simpl. by rewrite Hrun.
    + unfold closedBy. simpl. rewrite Hrun. pose proof (pi_closing p Hinv k Hrun). lia.
  - by apply publish_inv.
  - assert (i ∉ at_hand p) as Hni. { eapply not_idle_not_at_hand; [done..|]. intros (_ & E & _). by rewrite E in Hr. }
    pose proof (lookup_worker_ok p i w Hinv Hi) as [Hpb Hd Hsh]. rewrite Hph in Hsh.
    eapply worker_inv; try done; [split; simpl; auto|].
    rewrite !share_out by done. unfold owes. simpl. by rewrite Hph, Hr.
  - assert (i ∉ at_hand p) as Hni. { eapply not_idle_not_at_hand; [done..|]. intros (_ & _ & E). by rewrite E in Hcl. }
    pose proof (lookup_worker_ok p i w Hinv Hi) as [Hpb Hd Hsh].
    eapply worker_inv; try done. rewrite !share_out by done. unfold owes. simpl. by rewrite Hph, Hr, Hcl.
  - assert (i ∉ at_hand p) as Hni. { eapply not_idle_not_at_hand; [done..|]. intros (E & _). by rewrite E in Hph. }
    pose proof (lookup_worker_ok p i w Hinv Hi) as [Hpb Hd' Hsh]. rewrite Hph in Hsh.
    eapply worker_inv; try done; try apply Hsh. rewrite !share_out by done. unfold owes. simpl. rewrite Hph. lia.
Qed.

(** ** Lemmas: every step is a move *)

(** Where a goroutine waits. *)
Definition stuck (p : Pool) (a : action) : Prop :=
  match a with
  | RunStep => runAt p = Returned \/
      exists k, runAt p = Closing k /\ k < numWorkers p /\ readyQ p = []
  | WorkerStep i =>
      match workers p !! i with None => True | Some w => wphase w = Exited \/ idle w end
  end.

Lemma getWorker_eq p i w : workers p !! i = Some w -> getWorker i p = Ret (w, p).
Proof. unfold getWorker. by intros ->. Qed.

(** The queue has room for every worker that is not in it. *)
Lemma sendReady_ok p i w : pool_inv p -> workers p !! i = Some w -> i ∉ readyQ p -> 
  sendReady i p = Ret (tt, set_readyQ (readyQ p ++ [i]) p).
Proof.
  intros Hinv Hi Hni. unfold sendReady. destruct (Z.ltb_spec (zlen (readyQ p)) (numWorkers p)) as [|Hge]; [done|]. exfalso.
  assert (NoDup (i :: readyQ p)) as Hnd.
  { apply NoDup_cons. split; [done|]. pose proof (pi_nodup p Hinv) as Hnd. unfold at_hand in Hnd.
    by apply NoDup_app in Hnd as (_ & _ & ?). }
  assert (i :: readyQ p ⊆+ seq 0 (length (workers p))) as Hsub%submseteq_length.
  { apply NoDup_submseteq; [done|]. intros j [->|Hj]%elem_of_cons; apply elem_of_seq.
    - apply lookup_lt_Some in Hi. lia.
    - destruct (pi_idle p Hinv j) as (? & Hj'%lookup_lt_Some & _); [unfold at_hand; set_solver|]. lia. }
  rewrite length_seq in Hsub. simpl in Hsub. destruct (pi_n p Hinv) as [Hn _]. unfold zlen in *. lia.
Qed.

Lemma discard_move p : pool_inv p -> runAt p = Selecting -> readyQ p = [] ->
  exists p', discardStep p = Ret (tt, p') /\ move p RunStep p'.
Proof.
  intros Hinv Hrun Hq. destruct (disc_law (psrc p) (pi_src p Hinv)) as (err & s & E & Hs).
  assert (forall e, move p RunStep (set_psrc s p) /\
    move p RunStep (addDropped 1 (set_psrc s p)) /\ move p RunStep (addLog e (set_psrc s p))) as Hm.
  { intros e. unfold set_psrc, addDropped, addLog. simpl. rewrite Hrun. repeat split; by constructor. }
  unfold discardStep, mbind at 1, gom_bind at 1, zoom. rewrite E.
  destruct err as [e|]; [|by eexists; split; [done|apply (Hm LogReachedEOF)]].
  destruct e; by eexists; split; [done|first [apply (Hm LogReachedEOF)|apply Hm]].
Qed.

Lemma collect_ok p i w : pool_inv p -> runAt p = Collecting i -> workers p !! i = Some w ->
  exists err ps pb s, collect i p = Ret (err, set_worker i (set_pb pb w) (set_psrc s p)) /\
    collected p i ps w (set_worker i (set_pb pb w) (set_psrc s p)) /\ buffer_ok pb ps /\
    (err = Some EOF -> ps = []).
Proof.
  intros Hinv Hrun Hi. pose proof (lookup_worker_ok p i w Hinv Hi) as [(ps0 & Hpb & Hcap & Hdata) _ _].
  destruct (coll_law (psrc p) (wpb w) ps0 (pi_src p Hinv) Hpb) as (err & pb & s & ps & E & Hs & Hpb' & Hc' & Hd' & Heof);
    [rewrite Hcap; lia|rewrite Hdata; done|].
  exists err, ps, pb, s. split.
  { unfold collect, mbind at 1, gom_bind at 1. rewrite (getWorker_eq p i w Hi).
    unfold mbind at 1, gom_bind at 1, zoom. by rewrite E. }
  assert (buffer_ok pb ps) by (unfold buffer_ok; by rewrite Hc', Hd').
  split; [|done]. exists s, pb. by repeat (split; [done|]).
Qed.

Lemma work_ok p i ps w p1 : pool_inv p -> collected p i ps w p1 ->
  let p2 := addCaptured (zlen ps) p1 in
  exists p', work i p2 = Ret (tt, p') /\ move p RunStep (set_runAt Selecting p').
Proof.
  intros Hinv Hc p2.
  destruct (collected_facts p i ps w p1 Hinv Hc) as (s & pb & Hi & Ep & Hs & Hpb & Hlen & Hrun & Hhand &
    Hni & Hnd & (Hph & Hr & Hcl) & Hw & Hw' & Hi1 & Hc0).
  destruct (collected_inv p i ps w p1 Hinv Hc) as (Hinv1 & _).
  assert (getWorker i p2 = Ret (set_pb pb w, p2)) as Eg by by apply getWorker_eq.
  unfold work, buf, mbind, gom_bind. rewrite Eg. simpl. rewrite Hlen.
  destruct (Z.ltb_spec 0 (zlen ps)) as [Hpos|Hz].
  - unfold sendWork, mbind, gom_bind. rewrite Eg. simpl. rewrite Hcl, Hr. eexists. split; [done|].
    eapply m_batch; [done..|]. intros ->. unfold zlen in Hpos. simpl in Hpos. lia.
  - pose proof (zlen_nonneg ps). assert (ps = []) as -> by (apply zlen_0_inv; lia).
    assert (readyQ p1 = readyQ p) as Eq by by rewrite Ep.
    pose proof (sendReady_ok p1 i (set_pb pb w) Hinv1 Hi1 ltac:(by rewrite Eq)) as Es.
    eexists. split; [|eapply m_empty; exact Hc].
    unfold sendReady in *. destruct (zlen (readyQ p1) <? numWorkers p1) eqn:El; [|done].
    unfold p2. simpl. by rewrite El, Eq.
Qed.

Lemma collecting_move p i : pool_inv p -> runAt p = Collecting i ->
  exists p', runStep p = Ret (tt, p') /\ move p RunStep p'.
Proof.
  intros Hinv Hrun.
  destruct (pi_idle p Hinv i) as (w & Hi & Hidle); [unfold at_hand; rewrite Hrun; by left|].
  destruct (collect_ok p i w Hinv Hrun Hi) as (err & ps & pb & s & E & Hc & [Hpb _] & Heof).
  destruct Hidle as (_ & _ & Hcl). pose proof (PacketLen_eq pb ps Hpb) as Elen.
  set (p1 := set_worker i (set_pb pb w) (set_psrc s p)) in *.
  assert (workers p1 !! i = Some (set_pb pb w)) as Hi1
    by (apply list_lookup_insert_eq; by eapply lookup_lt_Some).
  assert (forall p2, workers p2 = workers p1 -> getWorker i p2 = Ret (set_pb pb w, p2)) as Eg
    by (intros p2 E2; apply getWorker_eq; by rewrite E2).
  unfold runStep. rewrite Hrun. unfold sendToWorker, mbind, gom_bind. rewrite E.
  case_bool_decide as Hto; [by eexists; split; [done|eapply m_timeout]|].
  unfold buf, mbind, gom_bind. rewrite (Eg p1 eq_refl). simpl. rewrite Elen.
  destruct err as [e|].
  - assert (e = EOF \/ e <> EOF) as [->|Hne] by (destruct (decide (e = EOF)); auto).
    + rewrite (Heof eq_refl) in *. unfold close, mbind, gom_bind, mret, gom_ret. rewrite Eg by done. simpl. rewrite Hcl.
      eexists. split; [done|]. by eapply m_eof.
    + destruct e; try done; (eexists; split; [done|]; eapply m_fail; done).
  - destruct (work_ok p i ps w p1 Hinv Hc) as (p' & Ew & Hm). rewrite Ew. by eexists.
Qed.

Lemma closing_move p k : pool_inv p -> runAt p = Closing k ->
  (act RunStep p = Blocked /\ stuck p RunStep) \/ exists p', act RunStep p = Ret (tt, p') /\ move p RunStep p'.
Proof.
  intros Hinv Hrun. cbn [act]. unfold runStep. rewrite Hrun.
  destruct (Z.ltb_spec k (numWorkers p)) as [Hk|Hk]; [|right; eexists; split; [done|by eapply m_return]].
  destruct (readyQ p) as [|i q] eqn:Hq; [left; split; [done|right; by exists k]|]. right.
  destruct (pi_idle p Hinv i) as (w & Hi & _ & _ & Hcl); [unfold at_hand; rewrite Hrun, Hq; by left|].
  unfold close, mbind, gom_bind. rewrite (getWorker_eq _ i w) by done. rewrite Hcl. eexists. split; [done|].
  pose proof (pi_closing p Hinv k Hrun). destruct (pi_n p Hinv). rewrite wrap64_id by golia. by eapply m_close.
Qed.

(** Every step returns and is a move, or its goroutine waits. *)
Lemma act_spec p a : pool_inv p ->
  (act a p = Blocked /\ stuck p a) \/ exists p', act a p = Ret (tt, p') /\ move p a p'.
Proof.
  intros Hinv. destruct a as [|i].
  - destruct (runAt p) as [|i|k|] eqn:Hrun.
    + right. destruct (readyQ p) as [|i q] eqn:Hq.
      * destruct (discard_move p Hinv Hrun Hq) as (p' & E & Hm). exists p'. split; [|done].
        cbn [act]. unfold runStep. by rewrite Hrun, Hq.
      * eexists. split; [cbn [act]; unfold runStep; by rewrite Hrun, Hq|by eapply m_take].
    + right. by apply (collecting_move p i).
    + by apply (closing_move p k).
    + left. split; [cbn [act]; unfold runStep; by rewrite Hrun|by left].
  - cbn [act stuck]. unfold workerStep. destruct (workers p !! i) as [w|] eqn:Hi; [|by left].
    pose proof (lookup_worker_ok p i w Hinv Hi) as [(ps & [Hpb [Hcap _]]) Hd Hsh].
    destruct (wphase w) eqn:Hph.
    + right. assert (i ∉ readyQ p) as Hni.
      { intros Hin. destruct (pi_idle p Hinv i) as (w' & ? & E & _); [unfold at_hand; set_solver|]. simplify_eq. congruence. }
      unfold mbind, gom_bind. rewrite (sendReady_ok p i w Hinv Hi Hni). eexists. split; [done|]. by apply (m_publish p i w).
    + destruct (workReady w) eqn:Hr; [right; eexists; split; [done|by apply m_receive]|].
      destruct (closed w) eqn:Hcl; [right; eexists; split; [done|by apply m_exit]|]. left. split; [done|]. by right.
    + right. assert (zlen ps <= zlen (slots (wdec w))) as Hle.
      { rewrite Hd. unfold batchSize. pose proof (hp_packets _ _ Hpb) as Hp. unfold PacketCap in Hcap. lia. }
      destruct (decodeBatch_ok (wpb w) ps (wdec w) Hpb Hle) as (dps & d1 & E & Hh & Hl & Hs & _).
      rewrite E. eexists. split; [done|]. apply m_handle; [done..| |].
      * rewrite Hs. rewrite <- Hd. unfold zlen in *. rewrite length_app, length_drop. lia.
      * unfold handledBy. rewrite Hh, sumZ_app, (PacketLen_eq _ _ Hpb). simpl. unfold zlen. rewrite Hl. lia.
    + left. split; [done|by left].
Qed.

Lemma NewPool_inv n s : 0 <= n <= int_max -> coll_ok s -> exists p, NewPool n s = Ret p /\ pool_inv p.
Proof.
  intros Hn Hs. unfold NewPool, startWorker. destruct (Z.ltb_spec n 0); [lia|].
  destruct (NewPacketBuffer_holds 1000 (8 * 1024 * 1024)) as (pb & Epb & Hpb & Hcap & Hdata); [done..|].
  rewrite Epb. simpl. eexists. split; [done|].
  assert (worker_ok (mkWorker pb false false newDecoder Publishing)) as Hw.
  { split; simpl; [by exists []|done|done]. }
  split; simpl; try done.
  - split; [unfold zlen; rewrite length_replicate; lia|lia].
  - by apply Forall_replicate.
  - by apply NoDup_nil.
  - intros i Hi%elem_of_nil. done.
  - unfold closedCount. clear. induction (Z.to_nat n) as [|m IH]; [done|]. simpl. rewrite IH. done.
  - unfold shares. change (at_hand _) with (@nil nat).
    assert (forall m k, sumZ id (imap (fun i => share [] (k + i)) (replicate m (mkWorker pb false false newDecoder Publishing))) = 0) as E0.
    { induction m as [|m IH]; intros k; [done|]. simpl.
      rewrite (imap_ext _ (fun i => share [] (S k + i)%nat)) by (intros; simpl; f_equal; lia).
      rewrite IH. done. }
    by rewrite (E0 _ 0%nat).
Qed.

(** ** Reachable states *)

(** The states of a pool of [n] workers on the source [s], however its
    goroutines interleave. *)
Inductive reachable (n : Z) (s : Src) : Pool -> Prop :=
  | reach_new p : NewPool n s = Ret p -> reachable n s p
  | reach_step p a p' : reachable n s p -> act a p = Ret (tt, p') -> reachable n s p'.

Lemma act_move p a p' : pool_inv p -> act a p = Ret (tt, p') -> move p a p'.
Proof. intros Hinv E. destruct (act_spec p a Hinv) as [[E' _]|(p1 & E' & Hm)]; congruence. Qed.

Lemma pool_act_inv p a p' : pool_inv p -> act a p = Ret (tt, p') -> pool_inv p'.
Proof. intros Hinv E. eapply move_inv, act_move; done. Qed.

Lemma pool_reachable_inv n s p : 0 <= n <= int_max -> coll_ok s -> reachable n s p -> pool_inv p.
Proof.
  intros Hn Hs. induction 1 as [p E|p a p' _ IH E]; [|by eapply pool_act_inv].
  destruct (NewPool_inv n s Hn Hs) as (p0 & E' & ?). congruence.
Qed.

Lemma runActs_cons a acts p p2 : runActs (a :: acts) p = Ret (tt, p2) ->
  exists p1, act a p = Ret (tt, p1) /\ runActs acts p1 = Ret (tt, p2).
Proof. cbn [runActs]. unfold mbind, gom_bind. destruct (act a p) as [[[] p1]| | |]; try done. by exists p1. Qed.

Lemma runActs_inv (P : Pool -> Prop) : (forall p a p', pool_inv p -> P p -> move p a p' -> P p') ->
  forall acts p p', pool_inv p -> P p -> runActs acts p = Ret (tt, p') -> pool_inv p' /\ P p'.
Proof.
  intros Hstep. induction acts as [|a acts IH]; intros p p' Hinv Hp E.
  - cbn in E. by injection E as <-.
  - apply runActs_cons in E as (p1 & E1 & E). eapply (IH p1); [by eapply pool_act_inv| |done].
    eapply Hstep; [done..|by eapply act_move].
Qed.

Lemma runActs_reachable n s acts : forall p p', reachable n s p -> runActs acts p = Ret (tt, p') -> reachable n s p'.
Proof.
  induction acts as [|a acts IH]; intros p p' Hr E; [cbn in E; by injection E as <-|].
  apply runActs_cons in E as (p1 & E1 & E). eapply IH; [|done]. by eapply reach_step.
Qed.

(** ** Lemmas: shutting down *)

Definition shutting (p : Pool) : Prop :=
  match runAt p with Closing _ | Returned => True | _ => False end /\
  forall i w, workers p !! i = Some w -> ~ lost p i w.

Definition finished (p : Pool) : Prop :=
  runAt p = Returned /\ Forall (fun w => wphase w = Exited) (workers p).

(** The steps that a worker has left, at most. *)
Definition stepsLeft (w : worker) : Z :=
  match wphase w with
  | Handling => 4
  | Publishing => 3
  | Waiting => if workReady w then 5 else if closed w then 1 else 2
  | Exited => 0
  end.

Definition measure (p : Pool) : Z :=
  sumZ stepsLeft (workers p) + match runAt p with Returned => 0 | _ => 1 end.

Lemma measure_bound p : pool_inv p -> 0 <= measure p <= 5 * numWorkers p + 1.
Proof.
  intros Hinv. destruct (pi_n p Hinv) as [<- _]. unfold measure.
  assert (0 <= sumZ stepsLeft (workers p) <= 5 * zlen (workers p)) as Hs.
  { induction (workers p) as [|w ws IH]; [done|]. simpl. rewrite zlen_cons.
    assert (0 <= stepsLeft w <= 5) by (unfold stepsLeft; destruct (wphase w), (workReady w), (closed w); lia). lia. }
  destruct (runAt p); lia.
Qed.

(** No worker is lost when one changes while those at hand, but for itself, do not. *)
Lemma kept_update p p' i w w' : (forall j wj, workers p !! j = Some wj -> ~ lost p j wj) -> workers p !! i = Some w ->
  workers p' = <[i := w']> (workers p) -> (forall j, j <> i -> j ∈ at_hand p -> j ∈ at_hand p') ->
  (idle w' -> i ∈ at_hand p') -> forall j wj, workers p' !! j = Some wj -> ~ lost p' j wj.
Proof.
  intros Hlost Hi Ews Hhand Hidle j wj. rewrite Ews. destruct (decide (j = i)) as [->|Hji].
  - rewrite list_lookup_insert_eq by (by eapply lookup_lt_Some). intros [= <-] [Hid Hni]. auto.
  - rewrite list_lookup_insert_ne by done. intros Hj [Hid Hni]. eapply (Hlost j wj Hj). split; auto.
Qed.

Lemma shutting_update p p' i w w' : shutting p -> workers p !! i = Some w ->
  workers p' = <[i := w']> (workers p) ->
  match runAt p' with Closing _ | Returned => True | _ => False end ->
  (forall j, j <> i -> j ∈ at_hand p -> j ∈ at_hand p') -> (idle w' -> i ∈ at_hand p') -> shutting p'.
Proof. intros [_ Hlost] Hi Ews Hrun Hhand Hidle. split; [done|]. by eapply (kept_update p p' i w w'). Qed.

Lemma shutting_move p a p' : pool_inv p -> shutting p -> move p a p' ->
  shutting p' /\ measure p' < measure p.
Proof.
  intros Hinv Hsh Hm. pose proof Hsh as [Hrun Hlost].
  inversion Hm as [i q Hr Hq|s n l Hr Hs|i w ps p1 Hc|i w ps p1 w1 Hc E Hps|i w p1 Hc
    |i w p1 w1 Hc E|i w ps p1 e Hc|k i q w Hr Hk Hq Hi|k Hr Hk|i w Hi Hph|i w Hi Hph Hr|i w Hi Hph Hr Hcl
    |i w d Hi Hph Hd Hh]; subst; try (rewrite Hr in Hrun; done);
    try (destruct Hc as (? & ? & Hr & _); rewrite Hr in Hrun; done).
  - assert (at_hand p = i :: q) as Hhand by (unfold at_hand; by rewrite Hr, Hq).
    destruct (pi_idle p Hinv i) as (w0 & Hi0 & Hph & Hr0 & Hcl); [rewrite Hhand; by left|]. simplify_eq.
    split.
    + eapply (shutting_update p _ i w (set_closed w)); try done; [|by intros (_ & _ & ?)].
      intros j Hj. rewrite Hhand. unfold at_hand. simpl. set_solver.
    + unfold measure. simpl. rewrite (sumZ_insert _ _ _ _ _ Hi), Hr. unfold stepsLeft at 2 3. simpl.
      rewrite Hph, Hr0, Hcl. lia.
  - split; [|unfold measure; simpl; rewrite Hr; lia]. split; [done|]. intros i w Hi [Hid Hni].
    apply (Hlost i w Hi). split; [done|]. intros Hin. apply Hni. unfold at_hand in *. by rewrite Hr in Hin.
  - split.
    + eapply (shutting_update p _ i w (set_phase Waiting w)); try done.
      * intros j Hj. unfold at_hand. simpl. set_solver.
      * intros _. unfold at_hand. simpl. set_solver.
    + unfold measure. simpl. rewrite (sumZ_insert _ _ _ _ _ Hi). unfold stepsLeft at 2 3. simpl. rewrite Hph.
      pose proof (lookup_worker_ok p i w Hinv Hi) as [_ _ Hs]. rewrite Hph in Hs. destruct Hs as [-> ->]. lia.
  - split.
    + eapply (shutting_update p _ i w); try done. by intros [? _].
    + unfold measure. simpl. rewrite (sumZ_insert _ _ _ _ _ Hi). unfold stepsLeft at 2 3. simpl. rewrite Hph, Hr. lia.
  - split.
    + eapply (shutting_update p _ i w); try done. by intros [? _].
    + unfold measure. simpl. rewrite (sumZ_insert _ _ _ _ _ Hi). unfold stepsLeft at 2 3. simpl. rewrite Hph, Hr, Hcl. lia.
  - split.
    + eapply (shutting_update p _ i w); try done. by intros [? _].
    + unfold measure. simpl. rewrite (sumZ_insert _ _ _ _ _ Hi). unfold stepsLeft at 2 3. simpl. rewrite Hph. lia.
Qed.

(** Not every worker is closed: one is open.  All are: none is. *)
Lemma closedCount_open ws : closedCount ws < zlen ws -> exists i w, ws !! i = Some w /\ closed w = false.
Proof.
  unfold closedCount. induction ws as [|w ws IH]; [done|]. simpl. rewrite zlen_cons. destruct (closed w) eqn:E.
  - intros Hlt. destruct IH as (i & w' & ? & ?); [lia|]. by exists (S i), w'.
  - intros _. by exists 0%nat, w.
Qed.

Lemma closedCount_le ws : closedCount ws <= zlen ws.
Proof.
  unfold closedCount. induction ws as [|w ws IH]; [done|]. simpl. rewrite zlen_cons. destruct (closed w); lia.
Qed.

Lemma closedCount_all ws i w : closedCount ws = zlen ws -> ws !! i = Some w -> closed w = true.
Proof.
  unfold closedCount. revert i. induction ws as [|w' ws IH]; intros i; [done|]. simpl. rewrite zlen_cons.
  pose proof (closedCount_le ws) as Hle. unfold closedCount in Hle.
  destruct (closed w') eqn:E; [|lia]. intros Heq. destruct i as [|i]; simpl; [by intros [= <-]|]. apply IH. lia.
Qed.

Lemma returned_all_closed p i w : pool_inv p -> runAt p = Returned -> workers p !! i = Some w -> closed w = true.
Proof.
  intros Hinv Hrun. apply closedCount_all. rewrite (pi_closed p Hinv). unfold closedBy. rewrite Hrun.
  symmetry. apply (pi_n p Hinv).
Qed.

Lemma shutdown_progress p : pool_inv p -> shutting p -> finished p \/ exists a, ~ stuck p a.
Proof.
  intros Hinv [Hrun Hlost].
  assert (forall i w, workers p !! i = Some w -> closed w = false -> readyQ p = [] -> runAt p <> Selecting ->
    (forall j, runAt p <> Collecting j) -> ~ stuck p (WorkerStep i)) as Hopen.
  { intros i w Hi Hcl Hq Hs Hc. simpl. rewrite Hi. pose proof (lookup_worker_ok p i w Hinv Hi) as [_ _ Hsh].
    intros [E|Hid]; [rewrite E in Hsh; destruct Hsh; congruence|].
    apply (Hlost i w Hi). split; [done|]. unfold at_hand. rewrite Hq.
    destruct (runAt p) as [|j| |]; [done|by destruct (Hc j)|set_solver..]. }
  destruct (runAt p) as [| |k|] eqn:Hr; try done.
  - right. destruct (Z.ltb_spec k (numWorkers p)) as [Hk|Hk].
    + destruct (readyQ p) as [|i q] eqn:Hq; [|exists RunStep; simpl; rewrite Hr, Hq; naive_solver].
      destruct (closedCount_open (workers p)) as (i & w & Hi & Hcl).
      { rewrite (pi_closed p Hinv). unfold closedBy. rewrite Hr. destruct (pi_n p Hinv). lia. }
      exists (WorkerStep i). by eapply Hopen.
    + exists RunStep. simpl. rewrite Hr. intros [?|(k' & [= <-] & ? & _)]; [done|lia].
  - destruct (decide (Forall (fun w => wphase w = Exited) (workers p))) as [Hall|Hnot]; [by left|]. right.
    apply not_Forall_Exists in Hnot; [|apply _]. apply Exists_exists in Hnot as (w & Hw & Hph).
    apply list_elem_of_lookup in Hw as (i & Hi). exists (WorkerStep i). simpl. rewrite Hi.
    pose proof (returned_all_closed p i w Hinv Hr Hi). intros [?|(_ & _ & ?)]; [done|congruence].
Qed.

Lemma move_n p a p' : move p a p' -> numWorkers p' = numWorkers p.
Proof.
  intros Hm. destruct Hm as [| |? ? ? ? Hc|? ? ? ? ? Hc|? ? ? Hc|? ? ? ? Hc|? ? ? ? ? Hc| | | | | |]; try done;
    destruct Hc as (s & pb & _ & _ & _ & _ & ->); done.
Qed.

Lemma reachable_n n s p : 0 <= n <= int_max -> coll_ok s -> reachable n s p -> numWorkers p = n.
Proof.
  intros Hn Hs. induction 1 as [p E|p a p' Hr IH E].
  - unfold NewPool, startWorker in E. destruct (n <? 0); [done|]. destruct (NewPacketBuffer _ _); try done.
    by injection E as <-.
  - rewrite (move_n p a p'); [done|]. eapply act_move; [by eapply pool_reachable_inv|done].
Qed.

(** A lost worker stays lost. *)
Lemma lost_move p a p' i w : pool_inv p -> (workers p !! i = Some w /\ lost p i w) -> move p a p' ->
  workers p' !! i = Some w /\ lost p' i w.
Proof.
  intros Hinv [Hi [Hid Hni]] Hm. pose proof Hid as (Hph & Hr & Hcl).
  assert (forall j wj w' p1, workers p !! j = Some wj -> workers p1 = <[j := w']> (workers p) ->
    (forall k, k <> j -> k ∈ at_hand p1 -> k ∈ at_hand p) -> j <> i -> workers p1 !! i = Some w /\ lost p1 i w) as Hother.
  { intros j wj w' p1 Hj Ews Hhand Hne. split; [by rewrite Ews, list_lookup_insert_ne|]. split; [done|]. naive_solver. }
  inversion Hm as [j q Hrun Hq|s n l Hrun Hs|j wj ps p1 Hc|j wj ps p1 w1 Hc E Hps|j wj p1 Hc
    |j wj p1 w1 Hc E|j wj ps p1 e Hc|k j q wj Hrun Hk Hq Hj|k Hrun Hk|j wj Hj Hphj|j wj Hj Hphj Hrj|j wj Hj Hphj Hrj Hclj
    |j wj d Hj Hphj Hd Hh]; subst;
    try (destruct (collected_facts p j _ wj _ Hinv Hc) as (s & pb & Hj & -> & _ & _ & _ & Hrun & Hhand & _);
         assert (j <> i) by (rewrite Hhand in Hni; set_solver)).
  - split; [done|]. split; [done|]. unfold at_hand in *. simpl in *. rewrite Hrun, Hq in Hni. done.
  - split; [done|]. split; [done|]. unfold at_hand in *. simpl in *. by rewrite Hrun in Hni.
  - eapply Hother; [done|done| |done]. naive_solver.
  - eapply Hother; [done|by simpl; rewrite list_insert_insert_eq| |done]. rewrite Hhand. unfold at_hand. simpl. set_solver.
  - eapply Hother; [done|done| |done]. rewrite Hhand. unfold at_hand. simpl. set_solver.
  - eapply Hother; [done|by simpl; rewrite list_insert_insert_eq| |done]. rewrite Hhand. unfold at_hand. simpl. set_solver.
  - eapply Hother; [done|done| |done]. rewrite Hhand. unfold at_hand. simpl. set_solver.
  - assert (at_hand p = j :: q) as Hhand by (unfold at_hand; by rewrite Hrun, Hq).
    eapply Hother; [done|done| |rewrite Hhand in Hni; set_solver]. rewrite Hhand. unfold at_hand. simpl. set_solver.
  - split; [done|]. split; [done|]. unfold at_hand in *. simpl in *. by rewrite Hrun in Hni.
  - eapply Hother; [done|done| |intros ->; simplify_eq; congruence]. unfold at_hand. simpl. set_solver.
  - eapply Hother; [done|done| |intros ->; simplify_eq; congruence]. naive_solver.
  - eapply Hother; [done|done| |intros ->; simplify_eq; congruence]. naive_solver.
  - eapply Hother; [done|done| |intros ->; simplify_eq; congruence]. naive_solver.
Qed.

(** ** Theorems *)

(** C26: the pool is safe under every interleaving.  No goroutine panics or
    gets stuck inside an operation: every step returns, or its goroutine is at
    one of the points where it is meant to wait, for a handler that returns.  No
    worker is in the queue twice, and the buffer of a worker that has been given packets is in nobody
    else's hands. *)
Theorem pool_runs_safely n s p : 0 <= n <= int_max -> coll_ok s -> reachable n s p ->
  (forall a, (act a p = Blocked /\ stuck p a) \/ exists p', act a p = Ret (tt, p')) /\
  NoDup (readyQ p) /\ zlen (readyQ p) <= n /\
  (forall i w, workers p !! i = Some w -> wphase w = Handling \/ workReady w = true ->
     runAt p <> Collecting i /\ (i ∉ readyQ p)).
Proof.
  intros Hn Hs Hr. pose proof (pool_reachable_inv n s p Hn Hs Hr) as Hinv.
  split. { intros a. destruct (act_spec p a Hinv) as [?|(p' & ? & _)]; [by left|right; by exists p']. }
  pose proof (pi_nodup p Hinv) as Hnd. unfold at_hand in Hnd. apply NoDup_app in Hnd as (_ & _ & Hnd).
  split; [done|]. split.
  - assert (readyQ p ⊆+ seq 0 (length (workers p))) as Hsub%submseteq_length.
    { apply NoDup_submseteq; [done|]. intros j Hj. apply elem_of_seq.
      destruct (pi_idle p Hinv j) as (? & Hj'%lookup_lt_Some & _); [unfold at_hand; set_solver|]. lia. }
    rewrite length_seq in Hsub. destruct (pi_n p Hinv) as [Hlen _]. rewrite (reachable_n n s p Hn Hs Hr) in Hlen.
    unfold zlen in *. lia.
  - intros i w Hi Hbusy. assert (i ∉ at_hand p) as Hni.
    { eapply not_idle_not_at_hand; [done..|]. intros (E1 & E2 & _). destruct Hbusy; congruence. }
    unfold at_hand in Hni. split; [intros E; rewrite E in Hni; set_solver|set_solver].
Qed.

(** C8: no packet is lost between capture and decoding.  The number of packets
    counted as captured is, at every moment, the number handed to the decoders
    plus those in the buffers of workers that have been given packets and of
    workers that were lost to an error of the source. *)
Theorem pool_accounts n s p : 0 <= n <= int_max -> coll_ok s -> reachable n s p ->
  PacketsCaptured p = wrap64 (sumZ id (imap (fun i w =>
    sumZ zlen (handlerCalls (wdec w)) +
    if bool_decide (wphase w = Handling \/ workReady w = true \/ lost p i w) then PacketLen (wpb w) else 0) (workers p))).
Proof.
  intros Hn Hs Hr. pose proof (pool_reachable_inv n s p Hn Hs Hr) as Hinv.
  rewrite (pi_shares p Hinv). unfold shares. f_equal. f_equal. apply imap_ext. intros i w Hi.
  simpl. unfold share, handledBy. f_equal. pose proof (lookup_worker_ok p i w Hinv Hi) as [_ _ Hsh].
  unfold owes. destruct (wphase w) eqn:Hph.
  - rewrite bool_decide_false; [done|]. intros [?|[E|[[E _] _]]]; try congruence. destruct Hsh; congruence.
  - rewrite (bool_decide_ext (Waiting = Handling \/ workReady w = true \/ lost p i w) (workReady w = true \/ closed w = false /\ i ∉ at_hand p)).
    2:{ unfold lost, idle. rewrite Hph. destruct (workReady w), (closed w); naive_solver. }
    destruct (workReady w), (closed w); simpl; repeat case_bool_decide; simpl; naive_solver.
  - by rewrite bool_decide_true by by left.
  - rewrite bool_decide_false; [done|]. intros [?|[E|[[E _] _]]]; try congruence. destruct Hsh; congruence.
Qed.

(** Steps left once the input has ended. *)
Lemma shutdown_bounded acts : forall p p', pool_inv p -> shutting p -> runActs acts p = Ret (tt, p') ->
  pool_inv p' /\ shutting p' /\ zlen acts + measure p' <= measure p.
Proof.
  induction acts as [|a acts IH]; intros p p' Hinv Hsh E.
  { injection E as <-. change (zlen []) with 0. split_and!; [done..|lia]. }
  apply runActs_cons in E as (p1 & E1 & E). pose proof (act_move p a p1 Hinv E1) as Hm.
  destruct (shutting_move p a p1 Hinv Hsh Hm) as [Hsh1 Hlt]. rewrite zlen_cons.
  destruct (IH p1 p' (move_inv p a p1 Hinv Hm) Hsh1 E) as (? & ? & ?). split_and!; [done..|lia].
Qed.

Lemma shutdown_ends p : pool_inv p -> shutting p -> exists acts p', runActs acts p = Ret (tt, p') /\ finished p'.
Proof.
  remember (Z.to_nat (measure p)) as m eqn:Em. revert p Em.
  induction m as [m IH] using lt_wf_ind. intros p -> Hinv Hsh.
  destruct (shutdown_progress p Hinv Hsh) as [Hf|(a & Ha)]; [by exists [], p|].
  destruct (act_spec p a Hinv) as [[_ ?]|(p1 & E & Hm)]; [done|].
  destruct (shutting_move p a p1 Hinv Hsh Hm) as [Hsh1 Hlt]. pose proof (move_inv p a p1 Hinv Hm) as Hinv1.
  pose proof (measure_bound p1 Hinv1).
  destruct (IH (Z.to_nat (measure p1)) ltac:(lia) p1 eq_refl Hinv1 Hsh1) as (acts & p' & E' & Hf).
  exists (a :: acts), p'. split; [|done]. cbn [runActs]. unfold mbind, gom_bind. by rewrite E.
Qed.

(** C11: shutdown ends, for a handler that returns.  Once Run has reached the end of
    the input, and no worker was lost, every schedule has at most [5 n + 1] steps left, and some
    schedule ends with Run returned and every worker exited. *)
Theorem shutdown_terminates n s p : 0 <= n <= int_max -> coll_ok s -> reachable n s p -> shutting p ->
  (forall acts p', runActs acts p = Ret (tt, p') -> zlen acts <= 5 * n + 1) /\
  exists acts p', runActs acts p = Ret (tt, p') /\ finished p'.
Proof.
  intros Hn Hs Hr Hsh. pose proof (pool_reachable_inv n s p Hn Hs Hr) as Hinv.
  pose proof (measure_bound p Hinv) as Hm. rewrite (reachable_n n s p Hn Hs Hr) in Hm.
  split; [|by apply shutdown_ends]. intros acts p' E.
  destruct (shutdown_bounded acts p p' Hinv Hsh E) as (Hinv' & _ & Hle). pose proof (measure_bound p' Hinv'). lia.
Qed.

Lemma fail_loses p i w e pb s p1 : pool_inv p -> runAt p = Collecting i -> workers p !! i = Some w ->
  CollectPackets (wpb w) (psrc p) = Ret ((Some e, pb), s) -> e <> EOF -> e <> NextErrorTimeoutExpired ->
  runStep p = Ret (tt, p1) -> workers p1 !! i = Some (set_pb pb w) /\ lost p1 i (set_pb pb w).
Proof.
  intros Hinv Hrun Hi Ec Heof Hto.
  assert (at_hand p = i :: readyQ p) as Hhand by (unfold at_hand; by rewrite Hrun).
  destruct (pi_idle p Hinv i) as (w0 & Hi0 & Hidle); [rewrite Hhand; by left|]. simplify_eq.
  pose proof (pi_nodup p Hinv) as Hnd. rewrite Hhand in Hnd. apply NoDup_cons in Hnd as [Hni _].
  assert (<[i := set_pb pb w]> (workers p) !! i = Some (set_pb pb w)) as Hi1
    by (apply list_lookup_insert_eq; by eapply lookup_lt_Some).
  set (p0 := set_worker i (set_pb pb w) (set_psrc s p)).
  assert (collect i p = Ret (Some e, p0)) as E0.
  { unfold collect, mbind, gom_bind. rewrite (getWorker_eq p i w Hi). unfold zoom. by rewrite Ec. }
  unfold runStep. rewrite Hrun. unfold sendToWorker, mbind, gom_bind. rewrite E0.
  rewrite bool_decide_false by congruence. unfold buf, mbind, gom_bind. rewrite (getWorker_eq p0 i _ Hi1). simpl.
  destruct e; try done; intros [= <-]; (split; [done|split; [done|exact Hni]]).
Qed.

(** C30: an error of the source is never recovered from.  When CollectPackets
    fails with an error that is neither a timeout nor the end of the input, the
    worker it was called for is lost, and Run cannot return any more, whatever
    happens afterwards. *)
Theorem source_error_blocks_shutdown n s p i w e pb s' : 0 <= n <= int_max -> coll_ok s ->
  reachable n s p -> runAt p = Collecting i -> workers p !! i = Some w ->
  CollectPackets (wpb w) (psrc p) = Ret ((Some e, pb), s') -> e <> EOF -> e <> NextErrorTimeoutExpired ->
  forall acts p', runActs (RunStep :: acts) p = Ret (tt, p') -> lost p' i (set_pb pb w) /\ runAt p' <> Returned.
Proof.
  intros Hn Hs Hr Hrun Hi Ec Heof Hto acts p' E. pose proof (pool_reachable_inv n s p Hn Hs Hr) as Hinv.
  apply runActs_cons in E as (p1 & E1 & E).
  pose proof (fail_loses p i w e pb s' p1 Hinv Hrun Hi Ec Heof Hto E1) as Hlost.
  destruct (runActs_inv (fun p => workers p !! i = Some (set_pb pb w) /\ lost p i (set_pb pb w)))
    with (acts := acts) (p := p1) (p' := p') as (Hinv' & Hi' & Hl'); [|by eapply pool_act_inv|done..|].
  { intros q a q' Hq Hl Hm. by eapply lost_move. }
  split; [done|]. intros Hret. pose proof (returned_all_closed p' i _ Hinv' Hret Hi'). destruct Hl' as [(_ & _ & ?) _]. congruence.
Qed.
End pool.

(** ** A handle as the source of a pool *)

Section handle_collector.
  Context {W : Type} {HPcap : PcapPkg W} (h : option Handle) (remaining : W -> nat).

Lemma handle_coll_law s pb ps : handle_ok h -> holdsPackets pb ps -> 0 < PacketCap pb ->
  exists err pb' s' pds, source_CollectPackets h pb s = Ret ((err, pb'), s') /\ handle_ok h /\
    holdsPackets pb' pds /\ PacketCap pb' = PacketCap pb /\ dataCap (blk pb') = dataCap (blk pb) /\
    (err = Some EOF -> pds = []).
Proof.
  intros Hok Hh Hcap.
  destruct (collectLoop_spec h (Z.to_nat (PacketCap pb)) s s (Clear pb) [] Hok) as
    (err & pb' & pds & w1 & w' & E & Hr & Hh' & Hs & Hc & Hd);
    [constructor|by eapply Clear_holds|done|change (zlen []) with 0; unfold PacketCap in *; simpl; lia|].
  exists err, pb', w', pds. split_and!; try done. intros ->.
  inversion Hs as [|? ? ? ? ? ? ? Hne|? ? ? ? ? ? Hnot|]; subst.
  destruct pds as [|pd pds]; [done|]. exfalso. apply Hnot. split; [by left|done].
Qed.

Lemma handle_disc_law s : handle_ok h ->
  exists err s', source_DiscardPacket h s = Ret (err, s') /\ handle_ok h.
Proof.
  intros Hok. destruct (Hok s) as (buf & ci & err & w & E & _). exists err, w. split; [|done].
  unfold source_DiscardPacket, mbind, gom_bind. by rewrite E.
Qed.

Definition handle_collector : @CollectorLaws W (source_PacketSource h remaining) :=
  @Build_CollectorLaws W (source_PacketSource h remaining) (fun _ => handle_ok h)
    (fun s pb ps Hok Hpb Hcap _ => handle_coll_law s pb ps Hok Hpb Hcap) handle_disc_law.

End handle_collector.

(** ** A replayer as the source *)

Section replayer_collector.
  Context {S : Type} {HSrc : PacketSource S} {HLaws : PacketSourceLaws S}.

Lemma stopped_not_eof pb out l u err k : stopped pb out l u err k -> err <> Some EOF.
Proof.
  intros [(_ & -> & _)|(_ & pd & _ & [(_ & ->)|[(_ & -> & _)|(_ & -> & _)]])]; [done| |done..].
  by destruct (decide (out = [])).
Qed.

Definition replayer_ready (r : replayer S) : Prop := exists ps, replay_ok r ps.

Lemma replayer_collects (r : replayer S) pb qs : replayer_ready r -> holdsPackets pb qs ->
  0 < PacketCap pb -> snapLen <= dataCap (blk pb) ->
  exists err pb' r' out, replayer_CollectPackets pb r = Ret ((err, pb'), r') /\ replayer_ready r' /\
    holdsPackets pb' out /\ PacketCap pb' = PacketCap pb /\ dataCap (blk pb') = dataCap (blk pb) /\
    (err = Some EOF -> out = []).
Proof.
  intros [ps Hok] Hh Hcap _.
  destruct (CollectPackets_moves r ps pb qs Hok Hh Hcap) as (err & pb' & r' & ps' & E & Hok' & Hc & Hd & Hcase).
  exists err, pb', r'.
  destruct Hcase as [(e & _ & -> & _)|(fetched & gone & out & k & _ & _ & _ & Hout & _ & _ & _ & _ & Hs)].
  - exists []. split_and!; try done; [by exists ps'|by eapply Clear_holds].
  - exists out. split_and!; try done; [by exists ps'|].
    intros He. by destruct (stopped_not_eof _ _ _ _ _ _ Hs).
Qed.

Lemma replayer_discards (r : replayer S) : replayer_ready r ->
  exists err r', replayer_DiscardPacket r = Ret (err, r') /\ replayer_ready r'.
Proof.
  intros [ps Hok]. destruct (DiscardPacket_returns r ps Hok) as (err & r' & ps' & ? & ?).
  exists err, r'. split; [done|by exists ps'].
Qed.

Definition replayer_collector : @CollectorLaws (replayer S) replayer_PacketSource :=
  @Build_CollectorLaws (replayer S) replayer_PacketSource replayer_ready replayer_collects replayer_discards.

End replayer_collector.
