(* ===== verification/Batches.v ===== *)
(** * What the decode workers hand over

    In a run of the decode pool (DecodePool.v) every successful call of CollectPackets
    fills the buffer of a worker.  This file follows these buffers: each worker
    decodes those that were filled for it, each once, in order, and whole, and the
    batches it passes to its handler are the decoded packets. *)
From S2P Require Import Prelude GoLib PacketBuffer Capture Replay Decode DecodePool.
Local Open Scope Z_scope.

Section batches.
  Context `{LayersPkg} {Src : Type} `{PacketSource Src} `{!CollectorLaws Src}.
  Local Abbreviation Pool := (DecodePool.Pool (Src := Src)).
  Implicit Types p : Pool.

(** The buffers that CollectPackets fills in a step, and in a run, with the number
    of their worker. *)
Definition collectedOf (a : action) p : list (nat * PacketBuffer) :=
  match a, runAt p with
  | RunStep, Collecting i =>
      match workers p !! i with
      | Some w =>
          match CollectPackets (wpb w) (psrc p) with
          | Ret ((None, pb), _) => if 0 <? PacketLen pb then [(i, pb)] else []
          | _ => []
          end
      | None => []
      end
  | _, _ => []
  end.

Fixpoint collectedIn (acts : list action) p : list (nat * PacketBuffer) :=
  match acts with
  | [] => []
  | a :: acts =>
      match act a p with
      | Ret (_, p') => collectedOf a p ++ collectedIn acts p'
      | _ => []
      end
  end.

(** Those of worker [i]. *)
Definition buffersOf (i : nat) (l : list (nat * PacketBuffer)) : list PacketBuffer :=
  omap (fun x => if decide (x.1 = i) then Some x.2 else None) l.

(** The buffer that a worker has been given and not decoded yet. *)
Definition inHand (w : worker) : list PacketBuffer :=
  if decide (wphase w = Handling \/ workReady w = true) then [wpb w] else [].

Lemma inHand_none w : wphase w <> Handling -> workReady w = false -> inHand w = [].
Proof. intros Hph Hr. unfold inHand. rewrite decide_False; [done|]. rewrite Hr. by intros [?|?]. Qed.

Lemma inHand_some w : wphase w = Handling \/ workReady w = true -> inHand w = [wpb w].
Proof. intros Hw. unfold inHand. by rewrite decide_True. Qed.

(** [ds] are the packets of [pb], decoded. *)
Definition decodedBatch (pb : PacketBuffer) (ds : list DecodedPacket) : Prop :=
  exists pds, holdsPackets pb pds /\ Forall2 (fun pd dp1 => exists dp, decodedFrom pd dp dp1) pds ds.

(** ** Lemmas: one step *)

(** What a step does to a worker, when [got] was collected for it. *)
Inductive advance (got : list PacketBuffer) (w w' : worker) : Prop :=
  | adv_same : got = [] -> wdec w' = wdec w -> inHand w' = inHand w -> advance got w w'
  | adv_given : got = [wpb w'] -> wdec w' = wdec w -> inHand w = [] -> inHand w' = [wpb w'] -> advance got w w'
  | adv_decoded ds : got = [] -> inHand w = [wpb w] -> inHand w' = [] ->
      handlerCalls (wdec w') = handlerCalls (wdec w) ++ [ds] -> decodedBatch (wpb w) ds -> advance got w w'.

Definition advancing (a : action) p p' : Prop := forall j w', workers p' !! j = Some w' ->
  exists w, workers p !! j = Some w /\ advance (buffersOf j (collectedOf a p)) w w'.

Lemma advancing_same a p p' : collectedOf a p = [] -> workers p' = workers p -> advancing a p p'.
Proof. intros Hc Hw j w' Hj. rewrite Hw in Hj. exists w'. split; [done|]. rewrite Hc. by apply adv_same. Qed.

Lemma advancing_one a p p' i w w' : workers p !! i = Some w -> workers p' = <[i := w']> (workers p) ->
  (forall j, j <> i -> buffersOf j (collectedOf a p) = []) -> advance (buffersOf i (collectedOf a p)) w w' ->
  advancing a p p'.
Proof.
  intros Hi Hw Hother Hadv j wj Hj. rewrite Hw in Hj. destruct (decide (j = i)) as [->|Hne].
  - rewrite list_lookup_insert_eq in Hj by (by eapply lookup_lt_Some). simplify_eq. by exists w.
  - rewrite list_lookup_insert_ne in Hj by done. exists wj. split; [done|]. rewrite Hother by done. by apply adv_same.
Qed.

Lemma decoded_all pds dps : forall slots : list DecodedPacket, length dps = length pds -> (length pds <= length slots)%nat ->
  (forall i pd dp, pds !! i = Some pd -> slots !! i = Some dp -> exists dp1, dps !! i = Some dp1 /\ decodedFrom pd dp dp1) ->
  Forall2 (fun pd dp1 => exists dp, decodedFrom pd dp dp1) pds dps.
Proof.
  intros slots Hl Hle Hall. apply Forall2_same_length_lookup. split; [done|]. intros i pd dp1 Hpd Hdp1.
  destruct (lookup_lt_is_Some_2 slots i) as [dp Hdp]; [apply lookup_lt_Some in Hpd; lia|].
  destruct (Hall i pd dp Hpd Hdp) as (dp1' & Hdp1' & Hd). simplify_eq. by exists dp.
Qed.

Lemma worker_advances i p p' : pool_inv p -> act (WorkerStep i) p = Ret (tt, p') -> advancing (WorkerStep i) p p'.
Proof.
  intros Hinv E. cbn [act] in E. unfold workerStep in E. destruct (workers p !! i) as [w|] eqn:Hi; [|done].
  pose proof (lookup_worker_ok p i w Hinv Hi) as [(ps & [Hpb [Hcap _]]) Hd Hsh].
  destruct (wphase w) eqn:Hph.
  - unfold sendReady, mbind, gom_bind in E. destruct (_ <? _); [|done]. injection E as <-.
    eapply advancing_one; [exact Hi|done|done|]. apply adv_same; [done..|].
    destruct Hsh as [Hr _]. rewrite !inHand_none by (simpl; congruence). done.
  - destruct (workReady w) eqn:Hr; [|destruct (closed w); [|done]]; injection E as <-.
    + eapply advancing_one; [exact Hi|done|done|]. apply adv_same; [done..|].
      rewrite !inHand_some by auto. done.
    + eapply advancing_one; [exact Hi|done|done|]. apply adv_same; [done..|].
      rewrite !inHand_none by (simpl; congruence). done.
  - assert (zlen ps <= zlen (slots (wdec w))) as Hle.
    { rewrite Hd. unfold batchSize. pose proof (hp_packets _ _ Hpb) as Hp. unfold PacketCap in Hcap. lia. }
    destruct (decodeBatch_ok (wpb w) ps (wdec w) Hpb Hle) as (dps & d1 & E1 & Hh & Hl & _ & Hall).
    rewrite E1 in E. injection E as <-. eapply advancing_one; [exact Hi|done|done|].
    apply (adv_decoded _ _ _ dps); [done| | |exact Hh|].
    + apply inHand_some. by left.
    + apply inHand_none; [done|apply Hsh].
    + exists ps. split; [done|]. eapply decoded_all; [done| |exact Hall]. unfold zlen in Hle. lia.
  - done.
Qed.

(** Run closes a worker. *)
Lemma close_advances a p p1 p' i k : collectedOf a p = [] -> workers p1 = workers p ->
  (close i;; modify (set_runAt k))%go p1 = Ret (tt, p') -> advancing a p p'.
Proof.
  intros Hc Hw E. unfold close, getWorker, mbind, gom_bind in E. destruct (workers p1 !! i) as [w|] eqn:Hi; [|done].
  destruct (closed w); [done|]. injection E as <-. rewrite Hw in Hi.
  eapply advancing_one; [exact Hi|simpl; by rewrite Hw|by rewrite Hc|]. rewrite Hc. by apply adv_same.
Qed.

Lemma discard_workers p p' : discardStep p = Ret (tt, p') -> workers p' = workers p.
Proof.
  unfold discardStep, mbind, gom_bind, zoom. destruct (DiscardPacket (psrc p)) as [[err s]| | |]; try done.
  destruct err as [e|]; [destruct e|]; by intros [= <-].
Qed.

(** Run collects packets for worker [i], and gives them to it. *)
Lemma collecting_advances i p p' : pool_inv p -> runAt p = Collecting i -> act RunStep p = Ret (tt, p') ->
  advancing RunStep p p'.
Proof.
  intros Hinv Hrun E. destruct (pi_idle p Hinv i) as (w & Hi & Hph & Hr & Hcl); [unfold at_hand; rewrite Hrun; by left|].
  pose proof (lookup_worker_ok p i w Hinv Hi) as [(ps0 & Hpb & Hcap & Hdata) _ _].
  destruct (coll_law (psrc p) (wpb w) ps0 (pi_src p Hinv) Hpb) as (err & pb & s & ps & Ec & _ & Hpb' & _ & _ & Heof);
    [rewrite Hcap; lia|rewrite Hdata; done|].
  assert (collect i p = Ret (err, set_worker i (set_pb pb w) (set_psrc s p))) as Ecoll.
  { unfold collect, mbind at 1, gom_bind at 1. rewrite (getWorker_eq p i w Hi).
    unfold mbind at 1, gom_bind at 1, zoom. by rewrite Ec. }
  assert (collectedOf RunStep p = match err with None => if 0 <? PacketLen pb then [(i, pb)] else [] | _ => [] end) as Hc.
  { unfold collectedOf. rewrite Hrun, Hi, Ec. done. }
  assert (forall w', wdec w' = wdec w -> wphase w' = Waiting -> workReady w' = false -> collectedOf RunStep p = [] ->
    workers p' = <[i := w']> (workers p) -> advancing RunStep p p') as Hidle.
  { intros w' Hd Hph' Hr' Hc' Hw. eapply advancing_one; [exact Hi|exact Hw|by rewrite Hc'|]. rewrite Hc'.
    apply adv_same; [done..|]. rewrite !inHand_none by congruence. done. }
  assert (workers (set_worker i (set_pb pb w) (set_psrc s p)) !! i = Some (set_pb pb w)) as Hi1
    by (apply list_lookup_insert_eq; by eapply lookup_lt_Some).
  cbn [act] in E. unfold runStep in E. rewrite Hrun in E. unfold sendToWorker, mbind, gom_bind in E. rewrite Ecoll in E.
  case_bool_decide as Hto.
  { injection E as <-. apply (Hidle (set_pb pb w)); try done. by rewrite Hc, Hto. }
  unfold buf, getWorker, mbind, gom_bind in E. rewrite Hi1 in E.
  destruct err as [e|].
  - assert (e = EOF \/ e <> EOF) as [->|Hne] by (destruct (decide (e = EOF)); auto).
    + unfold close, getWorker, mbind, gom_bind in E. cbn in E. rewrite list_lookup_insert_eq in E by (by eapply lookup_lt_Some).
      cbn in E. rewrite Hcl in E. injection E as <-. apply (Hidle (set_closed (set_pb pb w))); try done.
      simpl. by rewrite list_insert_insert_eq.
    + assert (workers p' = <[i := set_pb pb w]> (workers p)) as Hw by (destruct e; try done; by injection E as <-).
      by apply (Hidle (set_pb pb w)).
  - unfold work, buf, sendWork, sendReady, getWorker, mbind, gom_bind in E. cbn in E.
    rewrite list_lookup_insert_eq in E by (by eapply lookup_lt_Some). cbn in E. destruct (0 <? PacketLen pb) eqn:Epos.
    + cbn in E. rewrite list_lookup_insert_eq in E by (by eapply lookup_lt_Some). cbn in E. rewrite Hcl, Hr in E. injection E as <-.
      eapply (advancing_one _ _ _ i w (set_workReady true (set_pb pb w))); [exact Hi|simpl; by rewrite list_insert_insert_eq| |].
      * intros j Hj. rewrite Hc. cbn. by rewrite decide_False.
      * rewrite Hc. cbn. rewrite decide_True by done. apply adv_given; [done..| |].
        { apply inHand_none; congruence. } { apply inHand_some. by right. }
    + cbn in E. destruct (zlen (readyQ p) <? numWorkers p); [|done]. injection E as <-. by apply (Hidle (set_pb pb w)).
Qed.

Lemma act_advances a p p' : pool_inv p -> act a p = Ret (tt, p') -> advancing a p p'.
Proof.
  intros Hinv E. destruct a as [|i]; [|by apply worker_advances].
  destruct (runAt p) as [|i|k|] eqn:Hrun; [|by eapply collecting_advances|..];
    (assert (collectedOf RunStep p = []) as Hc by (unfold collectedOf; by rewrite Hrun));
    cbn [act] in E; unfold runStep in E; rewrite Hrun in E.
  - apply advancing_same; [done|]. destruct (readyQ p); [by apply discard_workers|by injection E as <-].
  - destruct (k <? numWorkers p); [|by injection E as <-; apply advancing_same].
    destruct (readyQ p) as [|i q]; [done|]. by eapply close_advances; [done| |exact E].
  - done.
Qed.

(** ** Lemmas: a run *)

Definition handedTo (l : list (nat * PacketBuffer)) p : Prop := forall i w, workers p !! i = Some w ->
  exists done, buffersOf i l = done ++ inHand w /\ Forall2 decodedBatch done (handlerCalls (wdec w)).

Lemma buffersOf_app i l1 l2 : buffersOf i (l1 ++ l2) = buffersOf i l1 ++ buffersOf i l2.
Proof. apply omap_app. Qed.

Lemma handedTo_step l a p p' : advancing a p p' -> handedTo l p -> handedTo (l ++ collectedOf a p) p'.
Proof.
  intros Hadv Hl i w' Hi. destruct (Hadv i w' Hi) as (w & Hi0 & Ha). destruct (Hl i w Hi0) as (don & Eb & Hd).
  rewrite buffersOf_app, Eb. destruct Ha as [Eg Hdec Hh|Eg Hdec Hh Hh'|ds Eg Hh Hh' Hdec Hb]; rewrite Eg.
  - exists don. by rewrite app_nil_r, Hh, Hdec.
  - exists don. by rewrite Hh, Hh', Hdec, app_nil_r.
  - exists (don ++ [wpb w]). rewrite Hh, Hh', !app_nil_r, Hdec. split; [done|]. apply Forall2_app; [done|by constructor].
Qed.

Lemma handedTo_run acts : forall l p p', pool_inv p -> handedTo l p -> runActs acts p = Ret (tt, p') ->
  handedTo (l ++ collectedIn acts p) p'.
Proof.
  induction acts as [|a acts IH]; intros l p p' Hinv Hl E; cbn [collectedIn].
  - cbn in E. injection E as <-. by rewrite app_nil_r.
  - apply runActs_cons in E as (p1 & E1 & E). rewrite E1, app_assoc. eapply IH; [by eapply pool_act_inv| |exact E].
    eapply handedTo_step; [by apply act_advances|done].
Qed.

Lemma handed_over n s acts p0 p : 0 <= n <= int_max -> coll_ok s -> NewPool n s = Ret p0 ->
  runActs acts p0 = Ret (tt, p) -> handedTo (collectedIn acts p0) p.
Proof.
  intros Hn Hs E0 E. destruct (NewPool_inv n s Hn Hs) as (p1 & E1 & Hinv). rewrite E0 in E1. injection E1 as <-.
  eapply (handedTo_run acts []); [exact Hinv| |exact E]. intros i w Hi. exists [].
  unfold NewPool, startWorker in E0. destruct (n <? 0); [done|]. destruct (NewPacketBuffer _ _); try done.
  injection E0 as <-. apply lookup_replicate in Hi as [-> _]. split; [done|constructor].
Qed.

(** C9: every packet is decoded once, by one worker, in order.  In every run of the
    pool, under any schedule of Run and the workers, the batches that a worker has
    passed to its handler are, one for one and in the same order, the packets of
    the buffers that CollectPackets filled for it, decoded in order; the only buffer
    that is missing is the one that the worker has been given and not decoded yet. *)
Theorem batches_decoded_once n s acts p0 p : 0 <= n <= int_max -> coll_ok s -> NewPool n s = Ret p0 ->
  runActs acts p0 = Ret (tt, p) ->
  forall i w, workers p !! i = Some w ->
    exists done, buffersOf i (collectedIn acts p0) = done ++ inHand w /\
      Forall2 decodedBatch done (handlerCalls (wdec w)).
Proof. apply handed_over. Qed.

End batches.
