(* ===== verification/Files.v ===== *)
(** * Reading a file to its end

    A packet source that delivers a finite number of packets and then the end of the
    input, as a handle on a file does, and the decode pool on such a source: every
    packet is captured or counted as dropped, no worker is lost, and the pool can
    always get to the end of the file. *)
From S2P Require Import Prelude GoLib PacketBuffer Capture Replay Decode DecodePool.
Local Open Scope Z_scope.
#[local] Set Warnings "-clear-no-such-hyp".

(** What a pool relies on of a file: a call of CollectPackets that returns no error
    delivers at least one packet, and there are no errors but the end of the input,
    which is reported when no packet is left. *)
Class FileLaws (Src : Type) `{CollectorLaws Src} := {
  packetsLeft : Src -> nat;
  file_collects s pb ps : coll_ok s -> holdsPackets pb ps -> 0 < PacketCap pb -> snapLen <= dataCap (blk pb) ->
    exists err pb' s' pds, CollectPackets pb s = Ret ((err, pb'), s') /\ holdsPackets pb' pds /\
      packetsLeft s = (length pds + packetsLeft s')%nat /\
      (err = None /\ pds <> [] \/ err = Some EOF /\ pds = [] /\ packetsLeft s = 0%nat);
  file_discards s : coll_ok s -> exists err s', DiscardPacket s = Ret (err, s') /\
      (err = None /\ packetsLeft s = Datatypes.S (packetsLeft s') \/
       err = Some EOF /\ packetsLeft s = 0%nat /\ packetsLeft s' = 0%nat)
}.

Section files.
  Context `{LayersPkg} {Src : Type} `{HFile : FileLaws Src}.
  Local Abbreviation Pool := (DecodePool.Pool (Src := Src)).
  Implicit Types p : Pool.

(** The pool reads a file of [N] packets. *)
Record onFile (N : Z) p : Prop := {
  fl_inv : pool_inv p;
  fl_kept : forall i w, workers p !! i = Some w -> ~ lost p i w;
  fl_count : PacketsCaptured p + PacketsDropped p + Z.of_nat (packetsLeft (psrc p)) = N;
  fl_nonneg : 0 <= PacketsCaptured p /\ 0 <= PacketsDropped p;
  fl_shares : PacketsCaptured p = shares (at_hand p) (workers p);
  fl_end : match runAt p with Closing _ | Returned => packetsLeft (psrc p) = 0%nat | _ => True end
}.

(** ** Lemmas: what the workers were given *)

Lemma worker_packets w : worker_ok w -> 0 <= PacketLen (wpb w) <= 1000.
Proof.
  intros [(ps & Hpb & Hcap & _) _ _]. rewrite (PacketLen_eq _ _ Hpb). pose proof (hp_packets _ _ Hpb) as Hp.
  unfold PacketCap in Hcap. pose proof (zlen_nonneg ps). lia.
Qed.

Lemma share_bounds hand i w : worker_ok w -> handledBy (wdec w) <= share hand i w <= handledBy (wdec w) + 1000.
Proof. intros Hw%worker_packets. unfold share. destruct (owes _ _); lia. Qed.

(** Nobody owes anything. *)
Lemma shares_handled hand ws : (forall i w, ws !! i = Some w -> share hand i w = handledBy (wdec w)) ->
  shares hand ws = sumZ (fun w => handledBy (wdec w)) ws.
Proof.
  intros Hall. unfold shares. rewrite (imap_ext _ (fun _ w => handledBy (wdec w))) by done. clear Hall.
  induction ws as [|w ws IH]; [done|]. cbn [imap]. unfold sumZ at 1 2. cbn [foldr]. f_equal. exact IH.
Qed.

Lemma closedCount_none ws i w : closedCount ws = 0 -> ws !! i = Some w -> closed w = false.
Proof.
  intros Hz Hi. destruct (closed w) eqn:E; [|done]. exfalso.
  pose proof (sumZ_elem (fun w : worker => if closed w then 1 else 0) ws i w Hi) as Hle. cbn beta in Hle. rewrite E in Hle.
  unfold closedCount in Hz. rewrite Hz in Hle. assert (1 <= 0); [|lia]. apply Hle, Forall_true. intros x. by destruct (closed x).
Qed.

(** One worker changes, by at most a batch. *)
Lemma shares_near p p' i w w' : pool_inv p -> pool_inv p' -> workers p !! i = Some w ->
  workers p' = <[i := w']> (workers p) -> (forall j, j <> i -> j ∈ at_hand p' <-> j ∈ at_hand p) ->
  handledBy (wdec w) <= handledBy (wdec w') <= handledBy (wdec w) + 1000 ->
  Z.abs (shares (at_hand p') (workers p') - shares (at_hand p) (workers p)) <= 2000.
Proof.
  intros Hinv Hinv' Hi Ew Hhand Hh. pose proof (lookup_worker_ok p i w Hinv Hi) as Hw.
  assert (worker_ok w') as Hw'.
  { apply (lookup_worker_ok p' i w' Hinv'). rewrite Ew. apply list_lookup_insert_eq. by eapply lookup_lt_Some. }
  rewrite Ew, (shares_insert (at_hand p) _ _ _ _ _ Hi Hhand).
  pose proof (share_bounds (at_hand p) i w Hw). pose proof (share_bounds (at_hand p') i w' Hw'). lia.
Qed.

Lemma shares_same p p' : workers p' = workers p -> (forall j, j ∈ at_hand p' <-> j ∈ at_hand p) ->
  Z.abs (shares (at_hand p') (workers p') - shares (at_hand p) (workers p)) <= 2000.
Proof.
  intros -> Hhand. assert (shares (at_hand p') (workers p) = shares (at_hand p) (workers p)) as ->; [|lia].
  unfold shares. f_equal. apply imap_ext. intros j w _. cbn. unfold share. by rewrite (bool_decide_ext _ _ (Hhand j)).
Qed.

Lemma move_shares p a p' : pool_inv p -> move p a p' ->
  Z.abs (shares (at_hand p') (workers p') - shares (at_hand p) (workers p)) <= 2000.
Proof.
  intros Hinv Hm. pose proof (move_inv p a p' Hinv Hm) as Hinv'.
  inversion Hm as [i q Hr Hq|s n l Hr Hs|i w ps p1 Hc|i w ps p1 w1 Hc E1 Hps|i w p1 Hc
    |i w p1 w1 Hc E1|i w ps p1 e Hc|k i q w Hr Hk Hq Hi|k Hr Hk|i w Hi Hph|i w Hi Hph Hr|i w Hi Hph Hr Hcl
    |i w d Hi Hph Hd Hh]; subst;
    try (destruct (collected_facts p i _ w _ Hinv Hc) as (s & pb & Hi & -> & _ & _ & _ & Hrun & Hhand & _ & _ & _ & _ & _ & Hi1 & _)).
  - apply shares_same; [done|]. intros j. unfold at_hand. cbn. by rewrite Hr, Hq.
  - apply shares_same; [done|]. intros j. unfold at_hand. cbn. by rewrite Hr.
  - eapply shares_near; [done|done|exact Hi|done|done|cbn; lia].
  - rewrite Hi1 in E1. injection E1 as <-.
    eapply shares_near; [done|done|exact Hi|by cbn; rewrite list_insert_insert_eq| |cbn; lia].
    intros j Hj. rewrite Hhand. unfold at_hand. cbn. set_solver.
  - eapply shares_near; [done|done|exact Hi|done| |cbn; lia].
    intros j Hj. rewrite Hhand. unfold at_hand. cbn. set_solver.
  - rewrite Hi1 in E1. injection E1 as <-.
    eapply shares_near; [done|done|exact Hi|by cbn; rewrite list_insert_insert_eq| |cbn; lia].
    intros j Hj. rewrite Hhand. unfold at_hand. cbn. set_solver.
  - eapply shares_near; [done|done|exact Hi|done| |cbn; lia].
    intros j Hj. rewrite Hhand. unfold at_hand. cbn. set_solver.
  - eapply shares_near; [done|done|exact Hi|done| |cbn; lia].
    intros j Hj. unfold at_hand. cbn. rewrite Hr, Hq. set_solver.
  - apply shares_same; [done|]. intros j. unfold at_hand. cbn. by rewrite Hr.
  - eapply shares_near; [done|done|exact Hi|done| |cbn; lia]. intros j Hj. unfold at_hand. cbn. set_solver.
  - eapply shares_near; [done|done|exact Hi|done|done|cbn; lia].
  - eapply shares_near; [done|done|exact Hi|done|done|cbn; lia].
  - eapply shares_near; [done|done|exact Hi|done|done|]. cbn. rewrite Hh.
    pose proof (worker_packets w (lookup_worker_ok p i w Hinv Hi)). lia.
Qed.

(** ** Lemmas: one step *)

(** The counter has not wrapped around. *)
Lemma captured_exact N p a p' : onFile N p -> N <= int_max -> act a p = Ret (tt, p') ->
  0 <= PacketsCaptured p' <= N -> PacketsCaptured p' = shares (at_hand p') (workers p').
Proof.
  intros [Hinv _ Hcount [Hc0 Hd0] Hsh _] HN E Hb. pose proof (act_move p a p' Hinv E) as Hm.
  pose proof (move_shares p a p' Hinv Hm) as Hnear. pose proof (pi_shares p' (move_inv p a p' Hinv Hm)) as Hw.
  rewrite Hw in *. set (x := shares (at_hand p') (workers p')) in *. clearbody x. revert Hb. unfold wrap64, int_max in *.
  intros Hb. assert (x < -9223372036854775808 \/ 9223372036854775807 < x \/ -9223372036854775808 <= x <= 9223372036854775807) as [?|[?|?]] by lia.
  - lia.
  - assert ((x + 9223372036854775808) mod 18446744073709551616 = x + 9223372036854775808 - 18446744073709551616); [|lia].
    symmetry. apply (Z.mod_unique_pos _ _ 1); lia.
  - rewrite Z.mod_small by lia. lia.
Qed.

(** A step that leaves the counters and the source alone. *)
Lemma onFile_same N p a p' : onFile N p -> N <= int_max -> act a p = Ret (tt, p') -> psrc p' = psrc p ->
  PacketsCaptured p' = PacketsCaptured p -> PacketsDropped p' = PacketsDropped p ->
  (forall i w, workers p' !! i = Some w -> ~ lost p' i w) ->
  match runAt p' with Closing _ | Returned => packetsLeft (psrc p) = 0%nat | _ => True end -> onFile N p'.
Proof.
  intros Hf HN E Es Ec Ed Hk Hr. pose proof Hf as [Hinv _ Hc Hn _ He].
  assert (PacketsCaptured p' = shares (at_hand p') (workers p')) by (eapply captured_exact; [done..|lia]).
  split; rewrite ?Es; [by eapply pool_act_inv|done|lia|lia|done|done].
Qed.

(** What Run leaves when it collects for a worker. *)
Lemma collecting_file N p i : onFile N p -> N <= int_max -> runAt p = Collecting i ->
  exists p', act RunStep p = Ret (tt, p') /\ onFile N p' /\
    (shutting p' \/ runAt p' = Selecting /\ (packetsLeft (psrc p') < packetsLeft (psrc p))%nat).
Proof.
  intros Hf HN Hrun. pose proof Hf as [Hinv Hkept Hcount [Hc0 Hd0] _ _].
  assert (at_hand p = i :: readyQ p) as Hhand by (unfold at_hand; by rewrite Hrun).
  destruct (pi_idle p Hinv i) as (w & Hi & Hid); [rewrite Hhand; by left|]. pose proof Hid as (Hph & Hr & Hcl).
  pose proof (lookup_worker_ok p i w Hinv Hi) as [(ps0 & Hpb & Hcap & Hdata) _ _].
  destruct (file_collects (psrc p) (wpb w) ps0 (pi_src p Hinv) Hpb) as (err & pb & s & pds & E & Hpds & Hleft & Hor);
    [rewrite Hcap; lia|rewrite Hdata; done|].
  pose proof (PacketLen_eq pb pds Hpds) as Elen.
  set (p1 := set_worker i (set_pb pb w) (set_psrc s p)).
  assert (collect i p = Ret (err, p1)) as E1.
  { unfold collect, mbind, gom_bind. rewrite (getWorker_eq p i w Hi). unfold zoom. by rewrite E. }
  assert (workers p1 !! i = Some (set_pb pb w)) as Hi1 by (apply list_lookup_insert_eq; by eapply lookup_lt_Some).
  assert (forall p2, workers p2 = workers p1 -> getWorker i p2 = Ret (set_pb pb w, p2)) as Eg
    by (intros p2 E2; apply getWorker_eq; by rewrite E2).
  assert (PacketsCaptured p +! zlen pds = PacketsCaptured p + zlen pds) as Esum.
  { apply wrap64_id. pose proof (zlen_nonneg pds). unfold in_int, int_min. unfold zlen in *. lia. }
  assert (exists p', act RunStep p = Ret (tt, p') /\ psrc p' = s /\ PacketsDropped p' = PacketsDropped p /\
    PacketsCaptured p' = PacketsCaptured p + zlen pds /\
    (forall j wj, workers p' !! j = Some wj -> ~ lost p' j wj) /\
    match err with None => runAt p' = Selecting | Some _ => runAt p' = Closing 1 end) as (p' & E' & Es & Ed & Ec & Hk & Hrun').
  { cbn [act]. unfold runStep. rewrite Hrun. unfold sendToWorker, mbind, gom_bind. rewrite E1.
    rewrite bool_decide_false by (by destruct Hor as [[-> _]|[-> _]]).
    unfold buf, work, mbind, gom_bind. rewrite (Eg p1 eq_refl). cbn. rewrite Elen.
    destruct Hor as [[-> Hne]|(-> & -> & _)].
    - unfold buf, sendWork, mbind, gom_bind. rewrite (Eg (addCaptured (zlen pds) p1) eq_refl). cbn. rewrite Elen.
      assert (0 < zlen pds) as Hpos by (destruct pds; [done|rewrite zlen_cons; pose proof (zlen_nonneg pds); lia]).
      rewrite (proj2 (Z.ltb_lt _ _) Hpos). unfold mbind, gom_bind. rewrite (Eg (addCaptured (zlen pds) p1) eq_refl). cbn.
      rewrite Hcl, Hr. eexists. split; [done|].
      split_and!; [done|done|exact Esum| |done].
      eapply (kept_update p _ i w (set_workReady true (set_pb pb w))); [done|done|by cbn; rewrite list_insert_insert_eq| |].
      + intros j Hj. rewrite Hhand. unfold at_hand. cbn. set_solver.
      + by intros (_ & ? & _).
    - unfold close, mbind, gom_bind, modify, mret, gom_ret. cbn. rewrite Eg by done. cbn. rewrite Hcl.
      eexists. split; [done|].
      split_and!; [done|done|exact Esum| |done].
      eapply (kept_update p _ i w (set_closed (set_pb pb w))); [done|done|by cbn; rewrite list_insert_insert_eq| |].
      + intros j Hj. rewrite Hhand. unfold at_hand. cbn. set_solver.
      + by intros (_ & _ & ?). }
  exists p'. split; [done|]. split.
  - assert (PacketsCaptured p' = shares (at_hand p') (workers p')) as Hsh
      by (eapply captured_exact; [done..|rewrite Ec; unfold zlen; lia]).
    split; [by eapply pool_act_inv|done|rewrite Es, Ed, Ec; unfold zlen; lia|rewrite Ec, Ed; unfold zlen; lia|done|].
    destruct Hor as [[-> _]|(-> & -> & Hz)]; rewrite Hrun'; [done|]. rewrite Es. simpl in Hleft. lia.
  - destruct Hor as [[-> Hne]|(-> & -> & _)].
    + right. split; [done|]. rewrite Es. destruct pds; [done|]. simpl in Hleft. lia.
    + left. split; [by rewrite Hrun'|done].
Qed.

(** What Run leaves when it discards a packet. *)
Lemma discarding_file N p p' : onFile N p -> N <= int_max -> runAt p = Selecting -> readyQ p = [] ->
  act RunStep p = Ret (tt, p') -> onFile N p'.
Proof.
  intros Hf HN Hrun Hq E. pose proof Hf as [Hinv Hkept Hcount [Hc0 Hd0] _ _].
  pose proof (pool_act_inv p RunStep p' Hinv E) as Hinv'.
  assert (0 <= PacketsCaptured p' <= N -> PacketsCaptured p' = shares (at_hand p') (workers p')) as Hsh
    by (by eapply captured_exact).
  cbn [act] in E. unfold runStep in E. rewrite Hrun, Hq in E. unfold discardStep, mbind, gom_bind, zoom in E.
  destruct (file_discards (psrc p) (pi_src p Hinv)) as (err & s & Ed & Hor). rewrite Ed in E.
  assert (forall i w, workers (set_psrc s p) !! i = Some w -> ~ lost (set_psrc s p) i w) as Hk by exact Hkept.
  destruct Hor as [[-> Hl]|(-> & Hz & Hz')]; cbn in E; injection E as <-.
  - assert (PacketsDropped p +! 1 = PacketsDropped p + 1) as Esum
      by (apply wrap64_id; unfold in_int, int_min; lia).
    split; [done|exact Hk|cbn; rewrite Esum; lia|cbn; rewrite Esum; lia|apply Hsh; cbn; lia|cbn; by rewrite Hrun].
  - split; [done|exact Hk|cbn; lia|done|apply Hsh; cbn; lia|cbn; by rewrite Hrun].
Qed.

Lemma onFile_step N p a p' : onFile N p -> N <= int_max -> act a p = Ret (tt, p') -> onFile N p'.
Proof.
  intros Hf HN E. pose proof Hf as [Hinv Hkept _ _ _ He]. pose proof (act_move p a p' Hinv E) as Hm.
  pose proof (pool_act_inv p a p' Hinv E) as Hinv'.
  assert (forall i, a = RunStep -> runAt p = Collecting i -> onFile N p') as Hcoll.
  { intros i -> Hrun. destruct (collecting_file N p i Hf HN Hrun) as (p1 & E1 & Hf1 & _). congruence. }
  inversion Hm as [i q Hr Hq|s n l Hr Hs|i w ps p1 Hc|i w ps p1 w1 Hc E1 Hps|i w p1 Hc
    |i w p1 w1 Hc E1|i w ps p1 e Hc|k i q w Hr Hk Hq Hi|k Hr Hk|i w Hi Hph|i w Hi Hph Hr|i w Hi Hph Hr Hcl
    |i w d Hi Hph Hd Hh]; subst;
    try (by apply (Hcoll i); [|destruct Hc as (? & ? & ? & _)]).
  - eapply (onFile_same N p _ _ Hf HN E); try done. intros j wj Hj [Hid Hni]. apply (Hkept j wj Hj). split; [done|].
    unfold at_hand in *. cbn in Hni. rewrite Hr, Hq. cbn. exact Hni.
  - destruct (readyQ p) as [|i q] eqn:Hq; [by eapply discarding_file|].
    cbn [act] in E. unfold runStep in E. by rewrite Hr, Hq in E.
  - eapply (onFile_same N p _ _ Hf HN E); try done; [|cbn; by rewrite Hr in He].
    eapply (kept_update p _ i w (set_closed w)); [done|done|done| |by intros (_ & _ & ?)].
    intros j Hj. unfold at_hand. rewrite Hr, Hq. cbn. set_solver.
  - eapply (onFile_same N p _ _ Hf HN E); try done; [|cbn; by rewrite Hr in He].
    intros j wj Hj [Hid Hni]. apply (Hkept j wj Hj). split; [done|]. unfold at_hand in *. by rewrite Hr.
  - eapply (onFile_same N p _ _ Hf HN E); try done.
    eapply (kept_update p _ i w (set_phase Waiting w)); [done|done|done| |]; unfold at_hand; cbn; set_solver.
  - eapply (onFile_same N p _ _ Hf HN E); try done.
    eapply (kept_update p _ i w); [done|done|done|done|by intros [? _]].
  - eapply (onFile_same N p _ _ Hf HN E); try done.
    eapply (kept_update p _ i w); [done|done|done|done|by intros [? _]].
  - eapply (onFile_same N p _ _ Hf HN E); try done.
    eapply (kept_update p _ i w); [done|done|done|done|by intros [? _]].
Qed.

Lemma onFile_run N acts : forall p p', onFile N p -> N <= int_max -> runActs acts p = Ret (tt, p') -> onFile N p'.
Proof.
  induction acts as [|a acts IH]; intros p p' Hf HN E; [by injection E as <-|].
  apply runActs_cons in E as (p1 & E1 & E). eapply IH; [|done..]. by eapply onFile_step.
Qed.

Lemma onFile_new n s p : 0 <= n <= int_max -> coll_ok s -> NewPool n s = Ret p -> onFile (Z.of_nat (packetsLeft s)) p.
Proof.
  intros Hn Hs E. destruct (NewPool_inv n s Hn Hs) as (p1 & E1 & Hinv). assert (p1 = p) as -> by congruence.
  unfold NewPool, startWorker in E. destruct (n <? 0); [done|].
  destruct (NewPacketBuffer _ _) as [pb| | |]; try done. injection E as <-.
  assert (forall i w, replicate (Z.to_nat n) (mkWorker pb false false newDecoder Publishing) !! i = Some w ->
    w = mkWorker pb false false newDecoder Publishing) as Hw.
  { intros i w Hi%list_elem_of_lookup_2. by apply elem_of_replicate in Hi as [-> _]. }
  split; [done| |done|done| |done].
  - intros i w ->%Hw. by intros [(? & _) _].
  - cbn [PacketsCaptured workers]. rewrite shares_handled by (by intros i w ->%Hw). symmetry. clear. induction (Z.to_nat n) as [|m IH]; [done|].
    cbn [replicate]. unfold sumZ. cbn [foldr]. exact IH.
Qed.

(** ** Lemmas: the pool gets to the end of the file *)

(** A number of steps to the next time that the worker is in the queue. *)
Definition rank (w : worker) : nat :=
  match wphase w with Waiting => 3 | Handling => 2 | Publishing => 1 | Exited => 0 end.

(** A worker at work, while Run selects and nobody is in the queue. *)
Lemma working N p i w : onFile N p -> runAt p = Selecting -> readyQ p = [] -> workers p !! i = Some w ->
  exists p', act (WorkerStep i) p = Ret (tt, p') /\ runAt p' = Selecting /\ psrc p' = psrc p /\
    (readyQ p' <> [] \/ readyQ p' = [] /\ exists w', workers p' !! i = Some w' /\ (rank w' < rank w)%nat).
Proof.
  intros [Hinv Hkept _ _ _ _] Hrun Hq Hi.
  assert (closed w = false) as Hcl.
  { eapply closedCount_none; [|exact Hi]. rewrite (pi_closed p Hinv). unfold closedBy. by rewrite Hrun. }
  destruct (act_spec p (WorkerStep i) Hinv) as [[_ Hst]|(p' & E & Hm)].
  - exfalso. cbn in Hst. rewrite Hi in Hst. destruct Hst as [Hex|Hid].
    + pose proof (lookup_worker_ok p i w Hinv Hi) as [_ _ Hsh]. rewrite Hex in Hsh. destruct Hsh. congruence.
    + apply (Hkept i w Hi). split; [done|]. unfold at_hand. rewrite Hrun, Hq. cbn. set_solver.
  - exists p'. split; [done|]. pose proof (lookup_lt_Some _ _ _ Hi) as Hlt.
    inversion Hm as [| | | | | | | | |i' w1 Hi1 Hph|i' w1 Hi1 Hph Hr|i' w1 Hi1 Hph Hr Hc1|i' w1 d Hi1 Hph Hd Hh]; subst; simplify_eq;
      (split; [done|]); (split; [done|]).
    + left. cbn. by rewrite Hq.
    + right. split; [done|]. eexists. split; [by apply list_lookup_insert_eq|]. unfold rank. cbn. rewrite Hph. lia.
    + congruence.
    + right. split; [done|]. eexists. split; [by apply list_lookup_insert_eq|]. unfold rank. cbn. rewrite Hph. lia.
Qed.

(** Run comes to collect. *)
Lemma collects_soon N k : forall p i w, onFile N p -> N <= int_max -> runAt p = Selecting ->
  workers p !! i = Some w -> (rank w < k)%nat ->
  exists acts p' j, runActs acts p = Ret (tt, p') /\ runAt p' = Collecting j /\ psrc p' = psrc p.
Proof.
  induction k as [|k IH]; intros p i w Hf HN Hrun Hi Hk; [lia|].
  assert (forall p1 j q, runAt p1 = Selecting -> readyQ p1 = j :: q -> 
    act RunStep p1 = Ret (tt, set_runAt (Collecting j) (set_readyQ q p1))) as Htake.
  { intros p1 j q Hr Hq. cbn [act]. unfold runStep. by rewrite Hr, Hq. }
  destruct (readyQ p) as [|j q] eqn:Hq.
  - destruct (working N p i w Hf Hrun Hq Hi) as (p1 & E1 & Hr1 & Es1 & Hor).
    destruct Hor as [Hq1|(Hq1 & w1 & Hi1 & Hlt)].
    + destruct (readyQ p1) as [|j q] eqn:Eq; [done|]. exists [WorkerStep i; RunStep]. eexists _, j.
      split; [cbn [runActs]; unfold mbind, gom_bind; rewrite E1, (Htake p1 j q Hr1 Eq); done|done].
    + destruct (IH p1 i w1) as (acts & p2 & j & E & Hr2 & Es2); [by eapply onFile_step|done|done|done|lia|].
      exists (WorkerStep i :: acts), p2, j. split; [cbn [runActs]; unfold mbind, gom_bind; by rewrite E1|].
      split; [done|congruence].
  - exists [RunStep]. eexists _, j. split; [cbn [runActs]; unfold mbind, gom_bind; by rewrite (Htake p j q Hrun Hq)|done].
Qed.

Lemma runActs_app acts1 acts2 p p1 : runActs acts1 p = Ret (tt, p1) -> runActs (acts1 ++ acts2) p = runActs acts2 p1.
Proof.
  revert p. induction acts1 as [|a acts1 IH]; intros p; [by intros [= <-]|]. intros E.
  apply runActs_cons in E as (p2 & E2 & E). cbn [app runActs]. unfold mbind, gom_bind. rewrite E2. by apply IH.
Qed.

Lemma file_shuts N k : forall p, onFile N p -> N <= int_max -> 0 < numWorkers p -> (packetsLeft (psrc p) < k)%nat ->
  exists acts p', runActs acts p = Ret (tt, p') /\ shutting p'.
Proof.
  induction k as [|k IH]; intros p Hf HN Hn Hk; [lia|].
  assert (forall p1 acts j, runActs acts p = Ret (tt, p1) -> runAt p1 = Collecting j -> psrc p1 = psrc p ->
    exists acts p', runActs acts p = Ret (tt, p') /\ shutting p') as Hcoll.
  { intros p1 acts j E Hr1 Es1. pose proof (onFile_run N acts p p1 Hf HN E) as Hf1.
    destruct (collecting_file N p1 j Hf1 HN Hr1) as (p2 & E2 & Hf2 & Hor).
    assert (runActs (acts ++ [RunStep]) p = Ret (tt, p2)) as E12.
    { rewrite (runActs_app _ _ _ _ E). cbn [runActs]. unfold mbind, gom_bind. by rewrite E2. }
    destruct Hor as [Hsh|[_ Hlt]]; [by eexists _, p2|].
    destruct (IH p2) as (acts3 & p3 & E3 & Hsh); [done|done| |rewrite Es1 in Hlt; lia|].
    - pose proof (fl_inv N p1 Hf1) as Hinv1. rewrite (move_n p1 _ p2 (act_move _ _ _ Hinv1 E2)).
      clear -Hf E Hn. revert p Hf E Hn. induction acts as [|a acts IHa]; intros p Hf E Hn; [by injection E as <-|].
      pose proof (fl_inv N p Hf) as Hinv.
      destruct (runActs_inv (fun q => numWorkers q = numWorkers p)) with (acts := a :: acts) (p := p) (p' := p1)
        as [_ ->]; try done. intros q b q' _ Hq Hm. by rewrite (move_n q b q' Hm).
    - exists ((acts ++ [RunStep]) ++ acts3), p3. split; [|done]. by rewrite (runActs_app _ _ _ _ E12). }
  destruct (runAt p) as [|j|c|] eqn:Hrun.
  - destruct (pi_n p (fl_inv N p Hf)) as [Hl _]. destruct (lookup_lt_is_Some_2 (workers p) 0) as [w Hw]; [unfold zlen in Hl; lia|].
    destruct (collects_soon N 4 p 0 w Hf HN Hrun Hw) as (acts & p1 & j & E & Hr & Es); [|by eapply Hcoll].
    unfold rank. destruct (wphase w); lia.
  - by apply (Hcoll p [] j).
  - exists [], p. split; [done|]. split; [by rewrite Hrun|apply Hf].
  - exists [], p. split; [done|]. split; [by rewrite Hrun|apply Hf].
Qed.

(** When Run has returned, all is handed over. *)
Lemma file_done N p : onFile N p -> N <= int_max -> runAt p = Returned ->
  packetsLeft (psrc p) = 0%nat /\ PacketsCaptured p = sumZ (fun w => handledBy (wdec w)) (workers p).
Proof.
  intros [Hinv _ _ _ Hsh He] HN Hrun. rewrite Hrun in He. split; [done|]. rewrite Hsh. clear Hsh.
  apply shares_handled. intros i w Hi. pose proof (returned_all_closed p i w Hinv Hrun Hi) as Hc.
  pose proof (lookup_worker_ok p i w Hinv Hi) as [_ _ Hs]. unfold share, owes.
  destruct (wphase w); [destruct Hs; congruence| |destruct Hs; congruence|lia].
  destruct (workReady w); [by rewrite (Hs eq_refl) in Hc|]. rewrite Hc. cbn. lia.
Qed.

End files.

(** ** A handle on a file *)

Section handle_file.
  Context {W : Type} {HPcap : PcapPkg W} (h : option Handle) (remaining : W -> nat).

(** Reading yields the remaining packets, and then the end of the input. *)
Definition file_handle : Prop := forall w, exists buf ci err w',
  ZeroCopyReadPacketData h w = Ret ((buf, ci, err), w') /\ zlen buf <= snapLen /\
  (err = None /\ remaining w = Datatypes.S (remaining w') \/
   err = Some EOF /\ remaining w = 0%nat /\ remaining w' = 0%nat).

Context (Hfile : file_handle).

Lemma file_handle_ok : handle_ok h.
Proof.
  intros w. destruct (Hfile w) as (buf & ci & err & w' & E & Hl & _). exists buf, ci, err, w'.
  split; [done|]. unfold snapLen, capMax in *. lia.
Qed.

Lemma file_read w buf ci err w' : ZeroCopyReadPacketData h w = Ret ((buf, ci, err), w') ->
  err = None /\ remaining w = Datatypes.S (remaining w') \/
  err = Some EOF /\ remaining w = 0%nat /\ remaining w' = 0%nat.
Proof. intros E. destruct (Hfile w) as (buf1 & ci1 & err1 & w1 & E1 & _ & Hor). rewrite E in E1. by injection E1 as <- <- <- <-. Qed.

Lemma file_reads w pds w' : reads h w pds w' -> remaining w = (length pds + remaining w')%nat.
Proof.
  induction 1 as [w|w pds w1 buf ci w2 _ IH E]; [done|]. destruct (file_read _ _ _ _ _ E) as [[_ Hl]|[? _]]; [|done].
  rewrite length_app. cbn. lia.
Qed.

Lemma handle_file_collects s pb ps : handle_ok h -> holdsPackets pb ps -> 0 < PacketCap pb ->
  snapLen <= dataCap (blk pb) ->
  exists err pb' s' pds, source_CollectPackets h pb s = Ret ((err, pb'), s') /\ holdsPackets pb' pds /\
    remaining s = (length pds + remaining s')%nat /\
    (err = None /\ pds <> [] \/ err = Some EOF /\ pds = [] /\ remaining s = 0%nat).
Proof.
  intros Hok Hh Hcap Hdata.
  destruct (collectLoop_spec h (Z.to_nat (PacketCap pb)) s s (Clear pb) [] Hok) as
    (err & pb' & pds & w1 & w' & E & Hr & Hh' & Hs & Hc & Hd);
    [constructor|by eapply Clear_holds|done|change (zlen []) with 0; unfold PacketCap in *; cbn; lia|].
  exists err, pb', w', pds. split; [done|]. split; [done|]. pose proof (file_reads _ _ _ Hr) as Hl.
  destruct Hs as [w1 Hfull|w1 buf ci e w2 Er He Hne|w1 buf ci e w2 Er Hnot|w1 buf ci w2 Er Hroom].
  - split; [done|]. left. split; [done|]. intros ->.
    change (0 = PacketCap pb \/ dataCap (blk pb) - 0 < snapLen) in Hfull. lia.
  - destruct (file_read _ _ _ _ _ Er) as [[? _]|(_ & Hz & Hz')]; [done|]. split; [lia|by left].
  - destruct (file_read _ _ _ _ _ Er) as [[? _]|([= ->] & Hz & Hz')]; [done|]. split; [lia|]. right. split; [done|].
    destruct pds as [|pd pds]; [split; [done|cbn in Hl; lia]|]. destruct Hnot. split; [by left|done].
  - destruct (Hfile w1) as (? & ? & ? & ? & E1 & ? & _). rewrite Er in E1. injection E1 as <- <- <- <-. lia.
Qed.

Lemma handle_file_discards s : exists err s', source_DiscardPacket h s = Ret (err, s') /\
  (err = None /\ remaining s = Datatypes.S (remaining s') \/
   err = Some EOF /\ remaining s = 0%nat /\ remaining s' = 0%nat).
Proof.
  destruct (Hfile s) as (buf & ci & err & w' & E & _ & Hor). exists err, w'. split; [|done].
  unfold source_DiscardPacket, mbind, gom_bind. by rewrite E.
Qed.

Definition handle_file : @FileLaws W (source_PacketSource h remaining) (handle_collector h remaining) :=
  @Build_FileLaws W (source_PacketSource h remaining) (handle_collector h remaining) remaining
    handle_file_collects (fun s _ => handle_file_discards s).

End handle_file.
