(* ===== verification/Assembly.v ===== *)
(** * assembly: reassembling the two directions of each connection

    pool.go partitions packets by connection over workers, worker.go feeds the
    packets of a worker to a TCP assembler, streamfactory.go joins the two
    streams of a connection into one consumer.  The assembler is the library's:
    the class [TcpAssembly] gives, for every call, the calls it makes of the
    factory and of its streams; [AssemblyLaws] is the documented protocol of
    those calls.  Streams are numbered consumers with a direction.

    HandlePackets is called from several goroutines at once: [act] is one step
    (the start of a call, a round of its sending loop, its waiting loop, a
    receive of a worker or a tick of its timer), and a list of actions is one
    interleaving. *)
From Stdlib Require Import Strings.Byte.
From S2P Require Import Prelude GoLib Buffer Reader Model McText Progress PacketBuffer Decode.
Local Open Scope Z_scope.

(** ** Connections *)

Record connectionKey `{GopacketPkg} := mkKey { netFlow : Flow; transportFlow : Flow }.

#[export] Instance connectionKey_eq_dec `{GopacketPkg} : EqDecision connectionKey.
Proof. solve_decision. Defined.

#[export] Instance connectionKey_countable `{GopacketPkg} : Countable connectionKey.
Proof.
  refine (inj_countable' (fun k => (netFlow k, transportFlow k)) (fun p => mkKey _ p.1 p.2) _).
  by intros [].
Defined.

Definition key_Reverse `{GopacketPkg} (c : connectionKey) : connectionKey :=
  mkKey _ (Flow_Reverse (netFlow c)) (Flow_Reverse (transportFlow c)).

(** The calls that an assembler makes. *)
Inductive callback `{GopacketPkg} : Type :=
  | CbNew (k : connectionKey)                              (* factory.New(k) *)
  | CbReassembled (k : connectionKey) (rs : list Reassembly)  (* on the stream of k *)
  | CbReassemblyComplete (k : connectionKey).

(** tcpassembly.Assembler; the flushing call returns how many connections were
    flushed and closed. *)
Class TcpAssembly `{LayersPkg} := {
  Assembler : Type;
  NewAssembler : Assembler;
  AssembleWithTimestamp : Flow -> TCPHeader -> Z -> Assembler -> Assembler * list callback;
  FlushOlderThan : Z -> Assembler -> Assembler * Z * Z * list callback
}.

Section assembly.
  Context `{LayersPkg}.

(** A TCP flow has two-byte ports. *)
Definition tcpFlow (f : Flow) : Prop := EndpointType f = EndpointTCPPort /\ (2 <= length (SrcRaw f))%nat.

(** The calls respect the protocol of streams, from the set [open] of keys
    with a stream to the set [open']: New once for a key without a stream, then
    data, then ReassemblyComplete at most once. *)
Inductive validCalls : gset connectionKey -> list callback -> gset connectionKey -> Prop :=
  | valid_nil open : validCalls open [] open
  | valid_new open k cbs open' : k ∉ open -> tcpFlow (transportFlow k) ->
      validCalls ({[ k ]} ∪ open) cbs open' -> validCalls open (CbNew k :: cbs) open'
  | valid_data open k rs cbs open' : k ∈ open -> Forall reassembly_ok rs ->
      validCalls open cbs open' -> validCalls open (CbReassembled k rs :: cbs) open'
  | valid_done open k cbs open' : k ∈ open ->
      validCalls (open ∖ {[ k ]}) cbs open' -> validCalls open (CbReassemblyComplete k :: cbs) open'.

Class AssemblyLaws `{!TcpAssembly} := {
  openKeys : Assembler -> gset connectionKey;
  openKeys_new : openKeys NewAssembler = ∅;
  Assemble_law nf t ts a :
    validCalls (openKeys a) (AssembleWithTimestamp nf t ts a).2 (openKeys (AssembleWithTimestamp nf t ts a).1);
  Flush_law ts a : let '(a', _, _, cbs) := FlushOlderThan ts a in validCalls (openKeys a) cbs (openKeys a')
}.

End assembly.

(** ** The stream factory and the workers *)

Section worker.
  Context `{TcpAssembly}.
  (* the ports of the servers, from the command line *)
  Context (memcachePorts : list Z).

(** What ClientStream and ServerStream return: a consumer, by its number. *)
Inductive stream : Type := ClientStream (c : nat) | ServerStream (c : nat).

Record workItem := mkWorkItem { dps : list DecodedPacket; doneCh : nat }.

Local Abbreviation C := (Consumer Source StateFn Proto).

(** A worker with its stream factory.  [consumers] holds every consumer the
    factory created; [streams] is the assembler's own table of streams;
    [bufferPool_] the reader pool as this worker finds it, and [poolChoice] what
    the pool yields at each Get. *)
Record worker := mkWorker {
  assembler : Assembler;
  halfOpen : gmap connectionKey nat;
  consumers : list C;
  streams : gmap connectionKey stream;
  bufferPool_ : list Source;
  poolChoice : nat -> option nat;
  poolGets : nat;
  wiCh : list workItem;
  mostRecent : Z;
  wlog : list (Z * Z)               (* "Flushed" f "Closed" c *)
}.

Definition set_assembler (a : Assembler) (w : worker) : worker :=
  mkWorker a (halfOpen w) (consumers w) (streams w) (bufferPool_ w) (poolChoice w) (poolGets w) (wiCh w)
    (mostRecent w) (wlog w).
Definition set_halfOpen (x : gmap connectionKey nat) (w : worker) : worker :=
  mkWorker (assembler w) x (consumers w) (streams w) (bufferPool_ w) (poolChoice w) (poolGets w) (wiCh w)
    (mostRecent w) (wlog w).
Definition set_consumers (cs : list C) (pool : list Source) (n : nat) (w : worker) : worker :=
  mkWorker (assembler w) (halfOpen w) cs (streams w) pool (poolChoice w) n (wiCh w) (mostRecent w) (wlog w).
Definition set_streams (x : gmap connectionKey stream) (w : worker) : worker :=
  mkWorker (assembler w) (halfOpen w) (consumers w) x (bufferPool_ w) (poolChoice w) (poolGets w) (wiCh w)
    (mostRecent w) (wlog w).
Definition set_wiCh (x : list workItem) (w : worker) : worker :=
  mkWorker (assembler w) (halfOpen w) (consumers w) (streams w) (bufferPool_ w) (poolChoice w) (poolGets w) x
    (mostRecent w) (wlog w).
Definition set_mostRecent (t : Z) (w : worker) : worker :=
  mkWorker (assembler w) (halfOpen w) (consumers w) (streams w) (bufferPool_ w) (poolChoice w) (poolGets w) (wiCh w)
    t (wlog w).
Definition add_wlog (f c : Z) (w : worker) : worker :=
  mkWorker (assembler w) (halfOpen w) (consumers w) (streams w) (bufferPool_ w) (poolChoice w) (poolGets w) (wiCh w)
    (mostRecent w) (wlog w ++ [(f, c)]).

(** A method of consumer [i], which finds and leaves the shared reader pool. *)
Definition onConsumer (i : nat) (m : GoM C unit) : GoM worker unit := fun w =>
  match consumers w !! i with
  | None => Panic
  | Some c =>
      '(_, c') ← m (set_pool (bufferPool_ w) c);
      Ret (tt, set_consumers (<[i := set_pool [] c']> (consumers w)) (bufferPool c') (poolGets w) w)
  end.

(** [int(binary.BigEndian.Uint16(raw))] *)
Definition srcPort (transportFlow : Flow) : outcome Z :=
  if negb (EndpointType transportFlow =? EndpointTCPPort) then Panic
  else match SrcRaw transportFlow with
       | b0 :: b1 :: _ => Ret (byteZ b0 * 256 + byteZ b1)
       | _ => Panic
       end.

Fixpoint isInPortlist (ports : list Z) (port : Z) : bool :=
  match ports with
  | [] => false
  | p :: ports' => if port =? p then true else isInPortlist ports' port
  end.

Definition IsFromServer (transportFlow : Flow) : outcome bool :=
  port ← srcPort transportFlow;
  Ret (isInPortlist memcachePorts port).

Definition createConsumer : GoM worker nat := fun w =>
  c ← NewConsumer (poolChoice w (poolGets w)) (poolChoice w (S (poolGets w))) (bufferPool_ w);
  Ret (length (consumers w),
       set_consumers (consumers w ++ [set_pool [] c]) (bufferPool c) (S (S (poolGets w))) w).

(** streamFactory.New *)
Definition factory_New (netFlow transportFlow : Flow) : GoM worker stream :=
  fromServer ← (fun w => b ← IsFromServer transportFlow; Ret (b, w));
  let ck := mkKey _ netFlow transportFlow in
  let ck := if negb fromServer then key_Reverse ck else ck in
  half ← gets halfOpen;
  c ← match half !! ck with
      | Some c => modify (set_halfOpen (delete ck half));; mret c
      | None => c ← createConsumer; modify (set_halfOpen (<[ck := c]> half));; mret c
      end;
  mret (if fromServer : bool then ServerStream c else ClientStream c).

(** ** The assembler's calls *)

Definition Reassembled (s : stream) (rs : list Reassembly) : GoM worker unit :=
  match s with
  | ClientStream c => onConsumer c (deliver (ClientData rs))
  | ServerStream c => onConsumer c (deliver (ServerData rs))
  end.

Definition ReassemblyComplete (s : stream) : GoM worker unit :=
  match s with
  | ClientStream c => onConsumer c (deliver ClientDone)
  | ServerStream c => onConsumer c (deliver ServerDone)
  end.

Definition getStream (k : connectionKey) : GoM worker stream := fun w =>
  match streams w !! k with Some s => Ret (s, w) | None => Panic end.

Definition callBack (cb : callback) : GoM worker unit :=
  match cb with
  | CbNew k =>
      s ← factory_New (netFlow k) (transportFlow k);
      modify (fun w => set_streams (<[k := s]> (streams w)) w)
  | CbReassembled k rs => s ← getStream k; Reassembled s rs
  | CbReassemblyComplete k =>
      s ← getStream k; ReassemblyComplete s;;
      modify (fun w => set_streams (delete k (streams w)) w)
  end.

Fixpoint callBacks (cbs : list callback) : GoM worker unit :=
  match cbs with
  | [] => mret tt
  | cb :: cbs' => callBack cb;; callBacks cbs'
  end.

(** ** The worker loop *)

Definition newWorker (choice : nat -> option nat) : worker :=
  mkWorker NewAssembler ∅ [] ∅ [] choice 0 [] 0 [].

(** One round of the loop over [wi.dps]. *)
Definition assemblePacket (dp : DecodedPacket) : GoM worker unit := fun w =>
  let t := ciTimestamp (dpInfo dp) in
  let '(a, cbs) := AssembleWithTimestamp (NetFlow dp) (TCP (lys dp)) t (assembler w) in
  callBacks cbs (set_assembler a (set_mostRecent t w)).

Fixpoint assembleAll (dps : list DecodedPacket) : GoM worker unit :=
  match dps with
  | [] => mret tt
  | dp :: dps' => assemblePacket dp;; assembleAll dps'
  end.

(** The case of the ticker: flush what is a minute older than the last packet. *)
Definition loopTick : GoM worker unit := fun w =>
  let '(a, f, c, cbs) := FlushOlderThan (mostRecent w - 60000000000) (assembler w) in
  (callBacks cbs;; if (0 <? f) || (0 <? c) then modify (add_wlog f c) else mret tt) (set_assembler a w).

End worker.

(** ** The pool *)

Section pool.
  Context `{TcpAssembly} (memcachePorts : list Z).

(** A call of HandlePackets: the batches its first loop has not come to yet, the
    next of them being for worker [at_]; its batchesSent; its channel doneCh (how
    many signals were sent, and its capacity); and whether it has returned. *)
Record call := mkCall {
  todo : list (list DecodedPacket);
  at_ : nat;
  batchesSent : Z;
  signals : Z;
  doneCap : Z;
  returned : bool
}.

Record Pool := mkPool { workers : list worker; calls : list call; plog : list error }.

Definition set_workers (ws : list worker) (p : Pool) : Pool := mkPool ws (calls p) (plog p).
Definition set_calls (cs : list call) (p : Pool) : Pool := mkPool (workers p) cs (plog p).

(** [make([]worker, numWorkers)] panics on a negative number. *)
Definition New (numWorkers : Z) (choice : nat -> nat -> option nat) : outcome Pool :=
  if numWorkers <? 0 then Panic
  else Ret (mkPool ((fun i => newWorker (choice i)) <$> seq 0 (Z.to_nat numWorkers)) [] []).

(** [int(dp.FlowHash % uint64(len(p.workers)))] *)
Definition slot (dp : DecodedPacket) (p : Pool) : outcome Z :=
  if zlen (workers p) =? 0 then Panic else Ret (FlowHash dp mod zlen (workers p)).

Fixpoint partitionLoop (dps : list DecodedPacket) (perWorker : list (list DecodedPacket)) (p : Pool) :
    outcome (list (list DecodedPacket)) :=
  match dps with
  | [] => Ret perWorker
  | dp :: dps' =>
      s ← slot dp p;
      batch ← index s perWorker;
      partitionLoop dps' (<[Z.to_nat s := batch ++ [dp]]> perWorker) p
  end.

Definition partition (dps : list DecodedPacket) (p : Pool) : outcome (list (list DecodedPacket)) :=
  partitionLoop dps (replicate (length (workers p)) []) p.

(** worker.handlePackets *)
Definition handlePackets (dps : list DecodedPacket) (doneCh : nat) (w : worker) : option error * worker :=
  if zlen (wiCh w) <? 128 then (None, set_wiCh (wiCh w ++ [mkWorkItem dps doneCh]) w)
  else (Some errQueueFull, w).

Definition set_call (id : nat) (c : call) (p : Pool) : Pool := set_calls (<[id := c]> (calls p)) p.
Definition addLog (err : option error) (p : Pool) : Pool :=
  match err with Some e => mkPool (workers p) (calls p) (plog p ++ [e]) | None => p end.

(** HandlePackets up to its first loop. *)
Definition HandlePackets (dps : list DecodedPacket) : GoM Pool unit := fun p =>
  perWorker ← partition dps p;
  Ret (tt, set_calls (calls p ++ [mkCall perWorker 0 0 0 (zlen (workers p)) false]) p).

(** One round of the first loop of call [id]. *)
Definition sendRound (id : nat) : GoM Pool unit := fun p =>
  match calls p !! id with
  | Some (mkCall (packets :: rest) i sent sig cap ret) =>
      if 0 <? zlen packets then
        match workers p !! i with
        | None => Panic
        | Some w =>
            let '(err, w) := handlePackets packets id w in
            Ret (tt, addLog err (set_call id (mkCall rest (S i) (sent +! 1) sig cap ret)
              (set_workers (<[i := w]> (workers p)) p)))
        end
      else Ret (tt, set_call id (mkCall rest (S i) sent sig cap ret) p)
  | _ => Blocked
  end.

(** The second loop of call [id]: it returns after batchesSent signals. *)
Definition waitLoop (id : nat) : GoM Pool unit := fun p =>
  match calls p !! id with
  | Some (mkCall [] i sent sig cap false) =>
      if sent <=? sig then Ret (tt, set_call id (mkCall [] i sent sig cap true) p) else Blocked
  | _ => Blocked
  end.

(** [wi.doneCh <- struct{}{}] *)
Definition signal (id : nat) : GoM Pool unit := fun p =>
  match calls p !! id with
  | Some c =>
      if signals c <? doneCap c
      then Ret (tt, set_call id (mkCall (todo c) (at_ c) (batchesSent c) (signals c + 1) (doneCap c) (returned c)) p)
      else Blocked
  | None => Panic
  end.

Definition onWorker (i : nat) (m : GoM worker unit) : GoM Pool unit := fun p =>
  match workers p !! i with
  | None => Blocked
  | Some w => '(_, w) ← m w; Ret (tt, set_workers (<[i := w]> (workers p)) p)
  end.

(** The case of wiCh in the worker's loop. *)
Definition loopRecv (i : nat) : GoM Pool unit := fun p =>
  match workers p !! i with
  | None => Blocked
  | Some w =>
      match wiCh w with
      | [] => Blocked
      | wi :: q =>
          (onWorker i (fun w => assembleAll memcachePorts (dps wi) (set_wiCh q w));; signal (doneCh wi)) p
      end
  end.

Inductive action : Type :=
  | ActCall (dps : list DecodedPacket)
  | ActSend (id : nat)
  | ActWait (id : nat)
  | ActRecv (i : nat)
  | ActTick (i : nat).

Definition act (a : action) : GoM Pool unit :=
  match a with
  | ActCall dps => HandlePackets dps
  | ActSend id => sendRound id
  | ActWait id => waitLoop id
  | ActRecv i => loopRecv i
  | ActTick i => onWorker i (loopTick memcachePorts)
  end.

Fixpoint runActs (acts : list action) : GoM Pool unit :=
  match acts with
  | [] => mret tt
  | a :: acts' => act a;; runActs acts'
  end.

End pool.

(** ** Lemmas: a worker survives its assembler *)

Section worker_facts.
  Context `{TcpAssembly} (memcachePorts : list Z).
  Local Abbreviation C := (Consumer Source StateFn Proto).

Definition consumerOf (s : stream) : nat := match s with ClientStream c | ServerStream c => c end.

(** [open] is the set of keys with a stream. *)
Record worker_ok (w : worker) (open : gset connectionKey) : Prop := {
  wk_consumers : Forall (fun c : C => consumer_inv c) (consumers w);
  wk_pool : Forall source_fresh (bufferPool_ w);
  wk_half : map_Forall (fun _ c => (c < length (consumers w))%nat) (halfOpen w);
  wk_streams : map_Forall (fun _ s => (consumerOf s < length (consumers w))%nat) (streams w);
  wk_open : dom (streams w) = open
}.

(** What the calls of an assembler leave alone. *)
Definition sameLoop (w w' : worker) : Prop :=
  assembler w' = assembler w /\ wiCh w' = wiCh w /\ mostRecent w' = mostRecent w.

Lemma sameLoop_trans w1 w2 w3 : sameLoop w1 w2 -> sameLoop w2 w3 -> sameLoop w1 w3.
Proof. intros (? & ? & ?) (? & ? & ?). by split_and!; etrans. Qed.

Lemma deliver_inv i (c : C) : consumer_inv c -> input_ok i -> wp (deliver i) (fun _ c' => consumer_inv c') c.
Proof.
  intros Hc Hi. destruct i; simpl in *.
  - by apply Client_Reassembled_inv.
  - by apply Server_Reassembled_inv.
  - by apply Client_ReassemblyComplete_inv.
  - by apply Server_ReassemblyComplete_inv.
Qed.

Lemma set_pool_inv pool (c : C) : consumer_inv c -> Forall source_fresh pool -> consumer_inv (set_pool pool c).
Proof. intros [? ? ? ? ?] Hp. by split. Qed.

Lemma onConsumer_ok w open i inp : worker_ok w open -> (i < length (consumers w))%nat -> input_ok inp ->
  exists w', onConsumer i (deliver inp) w = Ret (tt, w') /\ worker_ok w' open /\ sameLoop w w' /\
    streams w' = streams w.
Proof.
  intros [Hc Hp Hh Hs Ho] Hi Hinp. destruct (lookup_lt_is_Some_2 _ _ Hi) as [c Ec].
  pose proof (proj1 (Forall_lookup _ _) Hc _ _ Ec) as Hinv.
  destruct (deliver_inv inp (set_pool (bufferPool_ w) c) (set_pool_inv _ _ Hinv Hp) Hinp) as ([] & c' & E & Hinv').
  unfold onConsumer. rewrite Ec. eexists. split; [unfold mbind, outcome_bind; by rewrite E|].
  split; [|done]. split; simpl; rewrite ?length_insert; try done.
  - apply Forall_insert; [done|]. apply set_pool_inv; [done|]. constructor.
  - apply Hinv'.
Qed.

Lemma createConsumer_ok w open : worker_ok w open ->
  exists w' c, createConsumer w = Ret (length (consumers w), w') /\ worker_ok w' open /\ sameLoop w w' /\
    streams w' = streams w /\ halfOpen w' = halfOpen w /\ consumers w' = consumers w ++ [c] /\
    State c = Some PeekMagicByte /\ events c = [].
Proof.
  intros [Hc Hp Hh Hs Ho]. unfold createConsumer.
  destruct (NewConsumer_inv (poolChoice w (poolGets w)) (poolChoice w (S (poolGets w))) (bufferPool_ w) Hp)
    as (c & E & Hinv & _ & _ & Est & _ & Eev).
  eexists _, (set_pool [] c). split; [unfold mbind, outcome_bind; by rewrite E|].
  split; [|done]. split; simpl; try done.
  - apply Forall_app. split; [done|]. constructor; [|constructor]. apply set_pool_inv; [done|]. constructor.
  - apply Hinv.
  - intros k c' E'. specialize (Hh k c' E'). simpl in *. rewrite length_app. simpl. lia.
  - intros k c' E'. specialize (Hs k c' E'). simpl in *. rewrite length_app. simpl. lia.
Qed.

Lemma IsFromServer_ok tf : tcpFlow tf -> exists b, IsFromServer memcachePorts tf = Ret b.
Proof.
  intros [Et Hl]. unfold IsFromServer, srcPort. rewrite Et, Z.eqb_refl. simpl.
  destruct (SrcRaw tf) as [|b0 [|b1 raw]]; simpl in Hl; [lia..|]. by eexists.
Qed.

Definition connKey (fromServer : bool) (nf tf : Flow) : connectionKey :=
  if fromServer then mkKey _ nf tf else key_Reverse (mkKey _ nf tf).

(** The two cases of the factory. *)
Lemma factory_New_eq nf tf b w : IsFromServer memcachePorts tf = Ret b ->
  factory_New memcachePorts nf tf w =
    (c ← match halfOpen w !! connKey b nf tf with
         | Some c => modify (set_halfOpen (delete (connKey b nf tf) (halfOpen w)));; mret c
         | None => c ← createConsumer; modify (set_halfOpen (<[connKey b nf tf := c]> (halfOpen w)));; mret c
         end;
     mret (if b then ServerStream c else ClientStream c)) w.
Proof. intros E. unfold factory_New, mbind, gom_bind, outcome_bind. rewrite E. by destruct b. Qed.

Lemma factory_New_ok nf tf w open : worker_ok w open -> tcpFlow tf ->
  exists s w', factory_New memcachePorts nf tf w = Ret (s, w') /\ worker_ok w' open /\ sameLoop w w' /\
    streams w' = streams w /\ (consumerOf s < length (consumers w'))%nat.
Proof.
  intros Hw Htf. destruct (IsFromServer_ok tf Htf) as [b Eb]. rewrite (factory_New_eq nf tf b w Eb).
  destruct (halfOpen w !! connKey b nf tf) as [c|] eqn:Ec.
  - eexists _, _. split; [done|]. destruct Hw as [Hc Hp Hh Hs Ho].
    split; [split; try done; by apply map_Forall_delete|]. do 2 (split; [done|]).
    specialize (Hh _ _ Ec). simpl in *. by destruct b.
  - destruct (createConsumer_ok w open Hw) as (w1 & c & E & [Hc Hp Hh Hs Ho] & Hsame & Es & Eh & Econs & _).
    unfold mbind, gom_bind. rewrite E. eexists _, _. split; [done|].
    assert (length (consumers w) < length (consumers w1))%nat as Hlt by (rewrite Econs, length_app; simpl; lia).
    split; [|split; [done|split; [done|by destruct b]]].
    split; try done. apply map_Forall_insert_2; [done|]. rewrite <- Eh. done.
Qed.

Lemma callBacks_ok open cbs open' : validCalls open cbs open' -> forall w, worker_ok w open ->
  exists w', callBacks memcachePorts cbs w = Ret (tt, w') /\ worker_ok w' open' /\ sameLoop w w'.
Proof.
  induction 1 as [open|open k cbs open' Hk Htf Hv IH|open k rs cbs open' Hk Hrs Hv IH|open k cbs open' Hk Hv IH];
    intros w Hw; cbn [callBacks callBack].
  - by exists w.
  - destruct (factory_New_ok (netFlow k) (transportFlow k) w open Hw Htf) as (s & w1 & E & Hw1 & Hs1 & Es & Hlt).
    unfold mbind, gom_bind, modify. rewrite E.
    destruct (IH (set_streams (<[k := s]> (streams w1)) w1)) as (w' & E' & Hw' & Hs').
    { destruct Hw1 as [Hc Hp Hh Hs Ho]. split; try done; [by apply map_Forall_insert_2|]. simpl.
      by rewrite dom_insert_L, Ho. }
    exists w'. split; [done|]. split; [done|]. by eapply sameLoop_trans.
  - assert (is_Some (streams w !! k)) as [s Es] by (apply elem_of_dom; by rewrite (wk_open w open Hw)).
    pose proof (wk_streams w open Hw k s Es) as Hlt. simpl in Hlt.
    assert (exists w1, Reassembled s rs w = Ret (tt, w1) /\ worker_ok w1 open /\ sameLoop w w1) as (w1 & E & Hw1 & Hs1).
    { destruct s as [c|c]; [destruct (onConsumer_ok w open c (ClientData rs)) as (w1 & E & Hw1 & Hs1 & _)
        |destruct (onConsumer_ok w open c (ServerData rs)) as (w1 & E & Hw1 & Hs1 & _)]; try done; by exists w1. }
    destruct (IH w1 Hw1) as (w' & E' & Hw' & Hs').
    exists w'. unfold mbind, gom_bind, getStream. rewrite Es, E. split; [done|]. split; [done|].
    by eapply sameLoop_trans.
  - assert (is_Some (streams w !! k)) as [s Es] by (apply elem_of_dom; by rewrite (wk_open w open Hw)).
    pose proof (wk_streams w open Hw k s Es) as Hlt. simpl in Hlt.
    assert (exists w1, ReassemblyComplete s w = Ret (tt, w1) /\ worker_ok w1 open /\ sameLoop w w1) as (w1 & E & Hw1 & Hs1).
    { destruct s as [c|c]; [destruct (onConsumer_ok w open c ClientDone) as (w1 & E & Hw1 & Hs1 & _)
        |destruct (onConsumer_ok w open c ServerDone) as (w1 & E & Hw1 & Hs1 & _)]; try done; by exists w1. }
    destruct (IH (set_streams (delete k (streams w1)) w1)) as (w' & E' & Hw' & Hs').
    { destruct Hw1 as [Hc Hp Hh Hs Ho]. split; try done; [by apply map_Forall_delete|]. simpl.
      by rewrite dom_delete_L, Ho. }
    exists w'. unfold mbind, gom_bind, getStream, modify. rewrite Es, E. split; [done|]. split; [done|].
    by eapply sameLoop_trans.
Qed.

End worker_facts.

(** ** Lemmas: the pool *)

Section pool_facts.
  Context `{HAsm : TcpAssembly} `{HLaws : !AssemblyLaws} (memcachePorts : list Z).
  Local Abbreviation act := (act memcachePorts).
  Local Abbreviation runActs := (runActs memcachePorts).

(** The worker of every slot. *)
Definition slotOf (n : Z) (dp : DecodedPacket) : Z := FlowHash dp mod n.

Definition shardOf (n i : Z) (dps : list DecodedPacket) : list DecodedPacket :=
  List.filter (fun dp => slotOf n dp =? i) dps.

Lemma partitionLoop_ok dps p : 0 < zlen (workers p) -> forall per, zlen per = zlen (workers p) ->
  exists per', partitionLoop dps per p = Ret per' /\ length per' = length per /\
    (forall i l, per !! i = Some l -> per' !! i = Some (l ++ shardOf (zlen per) (Z.of_nat i) dps)).
Proof.
  intros Hpos. induction dps as [|dp dps IH]; intros per Hn; cbn [partitionLoop].
  { exists per. split_and!; [done..|]. intros i l. by rewrite app_nil_r. }
  unfold slot at 1. destruct (Z.eqb_spec (zlen (workers p)) 0); [lia|]. rewrite <- Hn in *.
  pose proof (Z.mod_pos_bound (FlowHash dp) (zlen per) ltac:(lia)) as Hs.
  set (s := FlowHash dp mod zlen per) in *.
  destruct (lookup_lt_is_Some_2 per (Z.to_nat s)) as [l Hl]; [unfold zlen in *; lia|].
  unfold mbind, outcome_bind, index. rewrite bool_decide_true, Hl by lia.
  set (per1 := <[Z.to_nat s := l ++ [dp]]> per).
  assert (zlen per1 = zlen per) as Hlen by (unfold zlen, per1; by rewrite length_insert).
  destruct (IH per1) as (per' & -> & Hl' & Hp'); [done|].
  exists per'. split_and!; [done|by rewrite Hl'; unfold per1; rewrite length_insert|].
  intros i li Hi. rewrite Hlen in Hp'. unfold shardOf. cbn [List.filter]. unfold slotOf at 1. fold s.
  destruct (Z.eqb_spec s (Z.of_nat i)) as [Heq|Hne].
  - assert (Z.to_nat s = i) as E by lia. subst per1. rewrite E in *. assert (li = l) as -> by congruence.
    rewrite (Hp' i (l ++ [dp])); [by rewrite <- app_assoc|].
    apply list_lookup_insert_eq. by eapply lookup_lt_Some.
  - apply Hp'. unfold per1. rewrite list_lookup_insert_ne by lia. done.
Qed.

Lemma partition_ok dps p : 0 < zlen (workers p) ->
  exists per, partition dps p = Ret per /\ length per = length (workers p) /\
    forall i, (i < length (workers p))%nat -> per !! i = Some (shardOf (zlen (workers p)) (Z.of_nat i) dps).
Proof.
  intros Hpos. assert (zlen (replicate (length (workers p)) (@nil DecodedPacket)) = zlen (workers p)) as Hn
    by (unfold zlen; by rewrite length_replicate).
  destruct (partitionLoop_ok dps p Hpos _ Hn) as (per & E & Hl & Hper). exists per. split; [done|].
  split; [by rewrite Hl, length_replicate|]. intros i Hi. rewrite (Hper i []); [by rewrite Hn|].
  by apply lookup_replicate_2.
Qed.

(** ** The invariant *)

Definition ofCall (id : nat) (wi : workItem) : Z := if decide (doneCh wi = id) then 1 else 0.

(** The batches of call [id] that no worker has taken yet. *)
Definition queued (id : nat) (ws : list worker) : Z := sumZ (fun w => sumZ (ofCall id) (wiCh w)) ws.

Definition worker_inv (w : worker) : Prop := worker_ok w (openKeys (assembler w)) /\ zlen (wiCh w) <= 128.

Record call_ok (p : Pool) (id : nat) (c : call) : Prop := {
  co_todo : (at_ c + length (todo c))%nat = length (workers p);
  co_signals : 0 <= signals c;
  co_sent : signals c + queued id (workers p) <= batchesSent c <= Z.of_nat (at_ c);
  co_cap : doneCap c = zlen (workers p);
  co_returned : returned c = true -> todo c = [] /\ batchesSent c <= signals c
}.

Record pool_inv (p : Pool) : Prop := {
  ap_n : 0 < zlen (workers p) <= int_max;
  ap_workers : Forall worker_inv (workers p);
  ap_items : Forall (fun w => Forall (fun wi => (doneCh wi < length (calls p))%nat) (wiCh w)) (workers p);
  ap_calls : forall id c, calls p !! id = Some c -> call_ok p id c
}.

(** The signals that call [id] waits for and that will never come. *)
Definition deficit (p : Pool) (id : nat) (c : call) : Z := batchesSent c - signals c - queued id (workers p).

(** No call is forgotten, and what it misses is never made good. *)
Definition noBetter (p p' : Pool) : Prop :=
  forall id c, calls p !! id = Some c ->
    exists c', calls p' !! id = Some c' /\ deficit p id c <= deficit p' id c'.

Lemma ofCall_range id wi : 0 <= ofCall id wi <= 1.
Proof. unfold ofCall. case_decide; lia. Qed.

Lemma queued_nonneg id ws : 0 <= queued id ws.
Proof.
  apply sumZ_nonneg, Forall_forall. intros w _. apply sumZ_nonneg, Forall_forall. intros wi _.
  apply ofCall_range.
Qed.

Lemma queued_insert id ws i w w' : ws !! i = Some w ->
  queued id (<[i := w']> ws) = queued id ws - sumZ (ofCall id) (wiCh w) + sumZ (ofCall id) (wiCh w').
Proof. apply (sumZ_insert (fun w => sumZ (ofCall id) (wiCh w))). Qed.

Lemma assembleAll_ok ds w : worker_ok w (openKeys (assembler w)) ->
  exists w', assembleAll memcachePorts ds w = Ret (tt, w') /\ worker_ok w' (openKeys (assembler w')) /\ wiCh w' = wiCh w.
Proof.
  revert w. induction ds as [|dp ds IH]; intros w Hw; [by exists w|]. cbn [assembleAll].
  unfold mbind, gom_bind. unfold assemblePacket.
  pose proof (Assemble_law (NetFlow dp) (TCP (lys dp)) (ciTimestamp (dpInfo dp)) (assembler w)) as Hlaw.
  destruct (AssembleWithTimestamp _ _ _ _) as [a cbs]. simpl in Hlaw.
  destruct (callBacks_ok memcachePorts _ _ _ Hlaw (set_assembler a (set_mostRecent (ciTimestamp (dpInfo dp)) w)))
    as (w1 & E & Hw1 & Ea & Eq & _); [by destruct Hw; split|].
  rewrite E. destruct (IH w1) as (w' & E' & Hw' & Eq'); [rewrite Ea; done|].
  exists w'. split; [done|]. split; [done|]. by rewrite Eq', Eq.
Qed.

Lemma loopTick_ok w : worker_ok w (openKeys (assembler w)) ->
  exists w', loopTick memcachePorts w = Ret (tt, w') /\ worker_ok w' (openKeys (assembler w')) /\ wiCh w' = wiCh w.
Proof.
  intros Hw. unfold loopTick. pose proof (Flush_law (mostRecent w - 60000000000) (assembler w)) as Hlaw.
  destruct (FlushOlderThan _ _) as [[[a f] c] cbs].
  destruct (callBacks_ok memcachePorts _ _ _ Hlaw (set_assembler a w)) as (w1 & E & Hw1 & Ea & Eq & _); [by destruct Hw; split|].
  unfold mbind, gom_bind. rewrite E. simpl in Ea, Eq. destruct (_ || _).
  - eexists. split; [done|]. simpl. rewrite Ea. split; [by destruct Hw1; split|done].
  - exists w1. rewrite Ea. by split.
Qed.


(** ** Lemmas: every step keeps the invariant *)

Definition kept (p p' : Pool) : Prop := pool_inv p' /\ noBetter p p'.

Lemma assembly_New_inv n choice : 0 < n <= int_max -> exists p, New n choice = Ret p /\ pool_inv p.
Proof.
  intros Hn. unfold New. destruct (Z.ltb_spec n 0); [lia|]. eexists. split; [done|].
  assert (zlen ((fun i => newWorker (choice i)) <$> seq 0 (Z.to_nat n)) = n) as Hlen
    by (unfold zlen; rewrite length_fmap, length_seq; lia).
  split; simpl; [by rewrite Hlen| | |done].
  - apply Forall_fmap, Forall_forall. intros i _. split; simpl; [|done].
    split; simpl; try done. by rewrite openKeys_new, dom_empty_L.
  - apply Forall_fmap, Forall_forall. intros i _. simpl. constructor.
Qed.

(** A step that changes one worker, and a call for which a batch was taken off
    its queue. *)
Lemma kept_worker p i w w' : pool_inv p -> workers p !! i = Some w -> worker_inv w' -> wiCh w' = wiCh w ->
  kept p (set_workers (<[i := w']> (workers p)) p).
Proof.
  intros [Hn Hw Hit Hc] Hi Hw' Eq.
  assert (forall id, queued id (<[i := w']> (workers p)) = queued id (workers p)) as Eqd
    by (intros id; rewrite (queued_insert id _ _ _ _ Hi), Eq; lia).
  split.
  - split; simpl.
    + unfold zlen. rewrite length_insert. done.
    + by apply Forall_insert.
    + apply Forall_insert; [done|]. rewrite Eq. exact (proj1 (Forall_lookup _ _) Hit _ _ Hi).
    + intros id c E. destruct (Hc id c E) as [H1 H2 H3 H4 H5].
      split; simpl; rewrite ?length_insert, ?Eqd; try done. rewrite H4. unfold zlen. by rewrite length_insert.
  - intros id c E. exists c. split; [done|]. unfold deficit. simpl. rewrite Eqd. lia.
Qed.

(** A step that changes one call and not its deficit. *)
Lemma kept_call p id c c' : pool_inv p -> calls p !! id = Some c -> call_ok p id c' ->
  batchesSent c - signals c <= batchesSent c' - signals c' -> kept p (set_call id c' p).
Proof.
  intros [Hn Hw Hit Hc] Ec Hc' Hd. split.
  - split; simpl; try done; rewrite ?length_insert; try done.
    intros id' d. destruct (decide (id' = id)) as [->|Hne].
    + rewrite list_lookup_insert_eq by (by eapply lookup_lt_Some). intros [= <-]. by destruct Hc'.
    + rewrite list_lookup_insert_ne by done. intros Hd'. by destruct (Hc id' d Hd').
  - intros id' d Ed. simpl. destruct (decide (id' = id)) as [->|Hne].
    + rewrite list_lookup_insert_eq by (by eapply lookup_lt_Some). exists c'. split; [done|].
      simplify_eq. unfold deficit. simpl. lia.
    + rewrite list_lookup_insert_ne by done. exists d. split; [done|]. unfold deficit. simpl. lia.
Qed.

Lemma noBetter_trans p1 p2 p3 : noBetter p1 p2 -> noBetter p2 p3 -> noBetter p1 p3.
Proof.
  intros H1 H2 id c E. destruct (H1 id c E) as (c' & E' & ?). destruct (H2 id c' E') as (c'' & ? & ?).
  exists c''. split; [done|lia].
Qed.

Lemma HandlePackets_ok dps p : pool_inv p -> exists p', HandlePackets dps p = Ret (tt, p') /\ kept p p'.
Proof.
  intros Hinv. pose proof Hinv as [Hn Hw Hit Hc].
  destruct (partition_ok dps p ltac:(lia)) as (per & E & Hl & _).
  unfold HandlePackets, mbind, outcome_bind. rewrite E. eexists. split; [done|].
  assert (queued (length (calls p)) (workers p) = 0) as Hq.
  { unfold queued. rewrite (sumZ_ext _ (fun _ => 0)).
    - clear. induction (workers p) as [|w ws IH]; simpl; [done|lia].
    - intros w Hin. pose proof (proj1 (Forall_forall _ _) Hit w Hin) as Hwi. clear -Hwi.
      induction Hwi as [|wi q Hlt Hq IH]; [done|]. simpl. rewrite IH. unfold ofCall. rewrite decide_False by lia. done. }
  split; [split; simpl; try done|].
  - rewrite length_app. simpl. eapply Forall_impl; [exact Hit|]. intros w Hwi. eapply Forall_impl; [exact Hwi|].
    simpl. intros wi. lia.
  - intros id c. rewrite lookup_app_Some. intros [Ec|[Hge Ec]].
    + destruct (Hc id c Ec) as [H1 H2 H3 H4 H5]. by split.
    + destruct (decide (id = length (calls p))) as [->|]; [|by rewrite lookup_ge_None_2 in Ec by (simpl; lia)].
      rewrite Nat.sub_diag in Ec. injection Ec as <-. split; simpl; try done; rewrite ?Hq; lia.
  - intros id c Ec. exists c. simpl. rewrite lookup_app_l by (by eapply lookup_lt_Some). by split.
Qed.

(** A round of the sending loop: the batch is queued, or refused and waited
    for all the same. *)
Lemma sendRound_ok id p : pool_inv p -> sendRound id p = Blocked \/
  exists p', sendRound id p = Ret (tt, p') /\ kept p p' /\
    (forall c packets rest w, calls p !! id = Some c -> todo c = packets :: rest -> packets <> [] ->
       workers p !! at_ c = Some w -> 128 <= zlen (wiCh w) ->
       exists c', calls p' !! id = Some c' /\ deficit p' id c' = deficit p id c + 1).
Proof.
  intros Hinv. unfold sendRound.
  destruct (calls p !! id) as [[[|packets rest] i sent sig cap ret]|] eqn:Ec; [by left| |by left]. right.
  destruct (ap_calls p Hinv id _ Ec) as [Htodo Hsig Hsent Hcap Hret]. simpl in *.
  assert (ret = false) as -> by (destruct ret; [by destruct (Hret eq_refl)|done]).
  pose proof (ap_n p Hinv) as Hn.
  destruct (Z.ltb_spec 0 (zlen packets)) as [Hne|Hz].
  2:{ eexists. split; [done|]. split.
      - eapply kept_call; [done..| |simpl; lia]. split; simpl; try done; lia.
      - intros c packets' rest' w [= <-] [= <- <-] Hp. pose proof (zlen_nonneg packets).
        destruct Hp. apply zlen_0_inv. lia. }
  destruct (lookup_lt_is_Some_2 (workers p) i) as [w Ew]; [lia|]. rewrite Ew.
  assert (sent +! 1 = sent + 1) as Ewrap.
  { apply wrap64_id. unfold in_int. pose proof (queued_nonneg id (workers p)). unfold zlen, int_min in *. lia. }
  unfold handlePackets. destruct (Z.ltb_spec (zlen (wiCh w)) 128) as [Hroom|Hfull].
  - eexists. split; [done|]. simpl.
    set (w' := set_wiCh (wiCh w ++ [mkWorkItem packets id]) w).
    pose proof (proj1 (Forall_lookup _ _) (ap_workers p Hinv) _ _ Ew) as [Hok Hlen].
    assert (forall id', queued id' (<[i := w']> (workers p)) = queued id' (workers p) + if decide (id = id') then 1 else 0) as Eq.
    { intros id'. rewrite (queued_insert id' _ _ _ _ Ew). simpl. rewrite sumZ_app. simpl.
      change (ofCall id' (mkWorkItem packets id)) with (if decide (id = id') then 1 else 0). lia. }
    split; [|intros c ps' rs w1 [= <-] _ _ Ew1 Hge; simpl in Ew1; rewrite Ew in Ew1; injection Ew1 as <-; lia]. split.
    + split; simpl.
      * unfold zlen. by rewrite length_insert.
      * apply Forall_insert; [apply Hinv|]. split; simpl; [by destruct Hok; split|]. rewrite zlen_app.
        change (zlen [_]) with 1. lia.
      * rewrite length_insert. apply Forall_insert; [apply Hinv|]. simpl. apply Forall_app. split.
        { exact (proj1 (Forall_lookup _ _) (ap_items p Hinv) _ _ Ew). }
        constructor; [|constructor]. simpl. by eapply lookup_lt_Some.
      * intros id' c. destruct (decide (id' = id)) as [->|Hne'].
        { rewrite list_lookup_insert_eq by (by eapply lookup_lt_Some). intros [= <-].
          split; simpl; rewrite ?length_insert, ?Eq, ?Ewrap; try done; [lia| |by rewrite Hcap; unfold zlen; rewrite length_insert].
          rewrite decide_True by done. lia. }
        { rewrite list_lookup_insert_ne by done. intros Ec'. destruct (ap_calls p Hinv id' c Ec') as [H1 H2 H3 H4 H5].
          split; simpl; rewrite ?length_insert, ?Eq; try done; [|by rewrite H4; unfold zlen; rewrite length_insert].
          rewrite decide_False by done. lia. }
    + intros id' c Ec'. simpl. destruct (decide (id' = id)) as [->|Hne'].
      * rewrite list_lookup_insert_eq by (by eapply lookup_lt_Some). eexists. split; [done|]. simplify_eq.
        unfold deficit. simpl. rewrite Eq, Ewrap, decide_True by done. lia.
      * rewrite list_lookup_insert_ne by done. exists c. split; [done|]. unfold deficit. simpl.
        rewrite Eq, decide_False by done. lia.
  - eexists. split; [done|]. simpl. rewrite (list_insert_id _ _ _ Ew).
    destruct (kept_call p id _ (mkCall rest (S i) (sent +! 1) sig cap false) Hinv Ec) as [Hk Hb]; [|simpl; lia|].
    { split; simpl; rewrite ?Ewrap; try done; lia. }
    split; [split|].
    + destruct Hk as [? ? ? Hk]. split; simpl in *; try done. intros id' c Ec'. by destruct (Hk id' c Ec').
    + intros id' c Ec'. destruct (Hb id' c Ec') as (c' & ? & ?). by exists c'.
    + intros c packets' rest' w' [= <-] _ _ _ _. simpl. rewrite list_lookup_insert_eq by (by eapply lookup_lt_Some).
      eexists. split; [done|]. unfold deficit. simpl. rewrite Ewrap. lia.
Qed.


(** The items in all queues. *)
Definition backlog (p : Pool) : Z := sumZ (fun w => zlen (wiCh w)) (workers p).

(** A worker takes an item: it is assembled, and its call gets its signal. *)
Lemma loopRecv_ok p i w wi q : pool_inv p -> workers p !! i = Some w -> wiCh w = wi :: q ->
  exists p', loopRecv memcachePorts i p = Ret (tt, p') /\ pool_inv p' /\ backlog p' = backlog p - 1 /\
    forall id c, calls p !! id = Some c -> exists c', calls p' !! id = Some c' /\
      deficit p' id c' = deficit p id c /\ todo c' = todo c /\ returned c' = returned c.
Proof.
  intros Hinv Ew Eq. pose proof Hinv as [Hn Hw Hit Hc].
  pose proof (proj1 (Forall_lookup _ _) Hw _ _ Ew) as [Hok Hlen].
  destruct (assembleAll_ok (dps wi) (set_wiCh q w)) as (w' & E & Hok' & Eq'); [by destruct Hok; split|]. simpl in Eq'.
  pose proof (proj1 (Forall_lookup _ _) Hit _ _ Ew) as Hwi. simpl in Hwi. rewrite Eq in Hwi.
  apply Forall_cons in Hwi as [Hid Hq]. destruct (lookup_lt_is_Some_2 _ _ Hid) as [c Ec].
  assert (forall id, queued id (<[i := w']> (workers p)) = queued id (workers p) - ofCall id wi) as Eqd.
  { intros id. rewrite (queued_insert id _ _ _ _ Ew), Eq, Eq'. simpl. lia. }
  destruct (Hc _ c Ec) as [H1 H2 H3 H4 H5].
  assert (ofCall (doneCh wi) wi = 1) as E1 by (unfold ofCall; by rewrite decide_True).
  pose proof (queued_nonneg (doneCh wi) (<[i := w']> (workers p))) as Hnn. rewrite Eqd, E1 in Hnn.
  unfold loopRecv, onWorker, mbind, gom_bind, outcome_bind. rewrite Ew, Eq, E. simpl.
  unfold signal. simpl. rewrite Ec. destruct (Z.ltb_spec (signals c) (doneCap c)) as [Hlt|Hge]; [|unfold zlen in H4; lia].
  eexists. split; [done|]. split; [|split].
  - split; simpl.
    + unfold zlen. by rewrite length_insert.
    + apply Forall_insert; [done|]. split; [done|]. rewrite Eq'. rewrite Eq, zlen_cons in Hlen. lia.
    + rewrite length_insert. apply Forall_insert; [done|]. by rewrite Eq'.
    + intros id d. destruct (decide (id = doneCh wi)) as [->|Hne].
      * rewrite list_lookup_insert_eq by done. intros [= <-].
        split; simpl; rewrite ?length_insert, ?Eqd, ?E1; try done; [lia|lia|by rewrite H4; unfold zlen; rewrite length_insert|].
        intros Hr. destruct (H5 Hr). split; [done|lia].
      * rewrite list_lookup_insert_ne by done. intros Ed. destruct (Hc id d Ed) as [G1 G2 G3 G4 G5].
        split; simpl; rewrite ?length_insert, ?Eqd; try done; [|by rewrite G4; unfold zlen; rewrite length_insert].
        unfold ofCall. rewrite decide_False by done. lia.
  - unfold backlog. simpl. rewrite (sumZ_insert _ _ _ _ _ Ew), Eq, Eq', zlen_cons. lia.
  - intros id d Ed. simpl. destruct (decide (id = doneCh wi)) as [->|Hne].
    + rewrite list_lookup_insert_eq by done. eexists. split; [done|]. simplify_eq. split; [|done].
      unfold deficit. simpl. rewrite Eqd, E1. lia.
    + rewrite list_lookup_insert_ne by done. exists d. split; [done|]. split; [|done].
      unfold deficit. simpl. rewrite Eqd. unfold ofCall. rewrite decide_False by done. lia.
Qed.

Lemma waitLoop_ok id p : pool_inv p -> waitLoop id p = Blocked \/ exists p', waitLoop id p = Ret (tt, p') /\ kept p p'.
Proof.
  intros Hinv. unfold waitLoop.
  destruct (calls p !! id) as [[[|? ?] i sent sig cap [|]]|] eqn:Ec; try by left.
  destruct (Z.leb_spec sent sig) as [Hle|]; [|by left]. right. eexists. split; [done|].
  destruct (ap_calls p Hinv id _ Ec) as [H1 H2 H3 H4 H5]. simpl in *.
  eapply kept_call; [done..| |simpl; lia]. by split.
Qed.

(** Every step returns, or its goroutine waits. *)
Lemma act_ok a p : pool_inv p -> act a p = Blocked \/ exists p', act a p = Ret (tt, p') /\ kept p p'.
Proof.
  intros Hinv. destruct a as [ds|id|id|i|i]; simpl.
  - right. by apply HandlePackets_ok.
  - destruct (sendRound_ok id p Hinv) as [?|(p' & ? & ? & _)]; [by left|right; by exists p'].
  - by apply waitLoop_ok.
  - destruct (workers p !! i) as [w|] eqn:Ew; [|left; unfold loopRecv; by rewrite Ew].
    destruct (wiCh w) as [|wi q] eqn:Eq; [left; unfold loopRecv; by rewrite Ew, Eq|]. right.
    destruct (loopRecv_ok p i w wi q Hinv Ew Eq) as (p' & E & Hinv' & _ & Hall). exists p'. split; [done|]. split; [done|].
    intros id c Ec. destruct (Hall id c Ec) as (c' & ? & Hd & _). exists c'. split; [done|lia].
  - unfold onWorker. destruct (workers p !! i) as [w|] eqn:Ew; [|by left]. right.
    destruct (loopTick_ok w) as (w' & E & Hw' & Eq); [exact (proj1 (proj1 (Forall_lookup _ _) (ap_workers p Hinv) _ _ Ew))|].
    eexists. split; [unfold mbind, outcome_bind; by rewrite E|]. eapply kept_worker; try done.
    split; [done|]. rewrite Eq. exact (proj2 (proj1 (Forall_lookup _ _) (ap_workers p Hinv) _ _ Ew)).
Qed.

Inductive reachable (n : Z) (choice : nat -> nat -> option nat) : Pool -> Prop :=
  | reach_new p : New n choice = Ret p -> reachable n choice p
  | reach_step p a p' : reachable n choice p -> act a p = Ret (tt, p') -> reachable n choice p'.

Lemma act_kept a p p' : pool_inv p -> act a p = Ret (tt, p') -> kept p p'.
Proof. intros Hinv E. destruct (act_ok a p Hinv) as [E'|(p1 & E' & Hk)]; congruence. Qed.

Lemma assembly_reachable_inv n choice p : 0 < n <= int_max -> reachable n choice p -> pool_inv p.
Proof.
  intros Hn. induction 1 as [p E|p a p' _ IH E]; [|by eapply act_kept].
  destruct (assembly_New_inv n choice Hn) as (p0 & E' & ?). congruence.
Qed.

Lemma runActs_kept acts : forall p p', pool_inv p -> runActs acts p = Ret (tt, p') -> kept p p'.
Proof.
  induction acts as [|a acts IH]; intros p p' Hinv E; cbn in E.
  { injection E as <-. split; [done|]. intros id c ?. by exists c. }
  unfold mbind, gom_bind in E. destruct (act a p) as [[[] p1]| | |] eqn:E1; try done.
  destruct (act_kept a p p1 Hinv E1) as [Hinv1 Hb1]. destruct (IH p1 p' Hinv1 E) as [Hinv' Hb].
  split; [done|]. by eapply noBetter_trans.
Qed.

Lemma assembly_runActs_reachable n choice acts : forall p p', reachable n choice p ->
  runActs acts p = Ret (tt, p') -> reachable n choice p'.
Proof.
  induction acts as [|a acts IH]; intros p p' Hr E; cbn in E; [by injection E as <-|].
  unfold mbind, gom_bind in E. destruct (act a p) as [[[] p1]| | |] eqn:E1; try done.
  eapply IH; [|done]. by eapply reach_step.
Qed.

(** A call with a deficit waits. *)
Lemma waits p id c : pool_inv p -> calls p !! id = Some c -> 0 < deficit p id c ->
  waitLoop id p = Blocked /\ returned c = false.
Proof.
  intros Hinv Ec Hd. unfold deficit in Hd. pose proof (queued_nonneg id (workers p)).
  destruct (ap_calls p Hinv id c Ec) as [G1 G2 G3 G4 G5]. unfold waitLoop. rewrite Ec.
  assert (returned c = false) as Hr by (destruct (returned c); [destruct (G5 eq_refl); lia|done]).
  split; [|done]. destruct c as [[|? ?] i sent sig cap [|]]; simpl in *; try done. destruct (Z.leb_spec sent sig); [lia|done].
Qed.

(** A call whose batches are all taken returns. *)
Lemma drained p id c : pool_inv p -> calls p !! id = Some c -> todo c = [] -> deficit p id c = 0 ->
  queued id (workers p) = 0 ->
  exists acts p' c', runActs acts p = Ret (tt, p') /\ calls p' !! id = Some c' /\ returned c' = true /\
    signals c' = batchesSent c'.
Proof.
  intros Hinv Ec Et Hd Hq. unfold deficit in Hd. destruct (returned c) eqn:Hr.
  { exists [], p, c. split_and!; try done. lia. }
  exists [ActWait id]. cbn. unfold waitLoop, mbind, gom_bind. rewrite Ec.
  destruct c as [t i sent sig cap ret]; simpl in *; subst. destruct (Z.leb_spec sent sig); [|lia].
  eexists _, _. split; [done|]. simpl. rewrite list_lookup_insert_eq by (by eapply lookup_lt_Some).
  split_and!; [done..|]. simpl. lia.
Qed.

Lemma queued_item id ws : queued id ws <> 0 ->
  exists i w wi q, ws !! i = Some w /\ wiCh w = wi :: q.
Proof.
  induction ws as [|w ws IH]; [done|]. intros Hq. destruct (wiCh w) as [|wi q] eqn:Eq.
  - destruct IH as (i & w' & wi & q & ? & ?).
    { intros Hz. apply Hq. unfold queued in *. simpl. rewrite Eq. simpl. lia. }
    by exists (S i), w', wi, q.
  - by exists 0%nat, w, wi, q.
Qed.

Lemma queued_backlog id ws : queued id ws <= sumZ (fun w => zlen (wiCh w)) ws.
Proof.
  unfold queued. induction ws as [|w ws IH]; [done|]. simpl.
  assert (sumZ (ofCall id) (wiCh w) <= zlen (wiCh w)); [|lia].
  induction (wiCh w) as [|wi q IHq]; [done|]. simpl. rewrite zlen_cons. pose proof (ofCall_range id wi). lia.
Qed.

(** ** Theorems *)

(** C12: the workers survive anything.  Whatever packets are handed in, from how
    many goroutines and in whatever order, and whatever an assembler that keeps
    to the protocol of streams delivers, no step panics; each returns or its
    goroutine waits, and no queue exceeds its capacity. *)
Theorem assembly_survives n choice p a : 0 < n <= int_max -> reachable n choice p ->
  (act a p = Blocked \/ exists p', act a p = Ret (tt, p')) /\
  Forall (fun w => zlen (wiCh w) <= 128 /\ Forall (fun c => is_Some (State c)) (consumers w)) (workers p).
Proof.
  intros Hn Hr. pose proof (assembly_reachable_inv n choice p Hn Hr) as Hinv. split.
  - destruct (act_ok a p Hinv) as [?|(p' & ? & _)]; [by left|right; by exists p'].
  - eapply Forall_impl; [apply Hinv|]. intros w [Hok Hlen]. split; [done|].
    eapply Forall_impl; [apply Hok|]. intros c Hc. destruct (inv_state c Hc) as (s & Hs & _). by rewrite Hs.
Qed.

(** C13: a call returns when nothing of it was refused.  Once its batches are
    sent, a call whose deficit is zero can be run to its end: the workers take
    everything they have queued, and the call gets all its signals. *)
Theorem HandlePackets_completes n choice p id c : 0 < n <= int_max -> reachable n choice p ->
  calls p !! id = Some c -> todo c = [] -> deficit p id c = 0 ->
  exists acts p' c', runActs acts p = Ret (tt, p') /\ calls p' !! id = Some c' /\ returned c' = true /\
    signals c' = batchesSent c'.
Proof.
  intros Hn Hr. pose proof (assembly_reachable_inv n choice p Hn Hr) as Hinv. clear Hr.
  remember (Z.to_nat (backlog p)) as m eqn:Em. assert (backlog p <= Z.of_nat m) as Hm by lia. clear Em.
  revert p c Hinv Hm. induction m as [|m IH]; intros p c Hinv Hm Ec Et Hd.
  - apply (drained p id c Hinv Ec Et Hd). pose proof (queued_backlog id (workers p)). unfold backlog in Hm.
    pose proof (queued_nonneg id (workers p)). lia.
  - destruct (decide (queued id (workers p) = 0)) as [Hq|Hq]; [by apply (drained p id c)|].
    destruct (queued_item id (workers p) Hq) as (i & w & wi & q & Ew & Eq).
    destruct (loopRecv_ok p i w wi q Hinv Ew Eq) as (p1 & E1 & Hinv1 & Hb & Hall).
    destruct (Hall id c Ec) as (c1 & Ec1 & Hd1 & Et1 & _).
    destruct (IH p1 c1 Hinv1 ltac:(lia) Ec1 ltac:(congruence) ltac:(lia)) as (acts & p' & c' & E & ?).
    exists (ActRecv i :: acts), p', c'. split; [|done]. cbn. unfold mbind, gom_bind. by rewrite E1.
Qed.

(** C35: a refused batch is waited for all the same.  When the queue of a worker
    is full as its batch is sent, the call never returns, whatever happens
    afterwards. *)
Theorem HandlePackets_lost_signal n choice p id c packets rest w p1 : 0 < n <= int_max ->
  reachable n choice p -> calls p !! id = Some c -> todo c = packets :: rest -> packets <> [] ->
  workers p !! at_ c = Some w -> zlen (wiCh w) = 128 -> act (ActSend id) p = Ret (tt, p1) ->
  forall acts p2, runActs acts p1 = Ret (tt, p2) ->
    act (ActWait id) p2 = Blocked /\ exists c2, calls p2 !! id = Some c2 /\ returned c2 = false.
Proof.
  intros Hn Hr Ec Et Hne Ew Hfull E1 acts p2 E2. pose proof (assembly_reachable_inv n choice p Hn Hr) as Hinv.
  simpl in E1. destruct (sendRound_ok id p Hinv) as [E|(p1' & E & [Hinv1 _] & Hd)]; [congruence|].
  assert (p1' = p1) as -> by congruence.
  destruct (Hd c packets rest w Ec Et Hne Ew ltac:(lia)) as (c1 & Ec1 & Hd1).
  pose proof (co_sent _ _ _ (ap_calls p Hinv id c Ec)) as Hs.
  destruct (runActs_kept acts p1 p2 Hinv1 E2) as [Hinv2 Hb]. destruct (Hb id c1 Ec1) as (c2 & Ec2 & Hd2).
  destruct (waits p2 id c2 Hinv2 Ec2) as [? ?]; [unfold deficit in *; lia|]. split; [done|]. by exists c2.
Qed.

End pool_facts.

(** ** Connections *)

Section connections.
  Context `{HAsm : TcpAssembly} `{HFlows : !GopacketLaws} (memcachePorts : list Z).

(** The hash of a decoded TCP packet. *)
Definition hashed (dp : DecodedPacket) : Prop :=
  FlowHash dp = hashCombine (FastHash (NetFlow dp)) (FastHash (TransportFlow (TCP (lys dp)))).

Definition keyOf (dp : DecodedPacket) : connectionKey := mkKey _ (NetFlow dp) (TransportFlow (TCP (lys dp))).

(** A connection has one worker.  The partition gives every worker, in
    order, exactly the packets of its slot, so none is lost or duplicated; and
    two TCP packets of one connection, in the same or in opposite directions,
    have the same slot. *)
Theorem partition_by_connection ds p : 0 < zlen (workers p) -> exists per,
  partition ds p = Ret per /\ length per = length (workers p) /\
  (forall i, (i < length (workers p))%nat -> per !! i = Some (shardOf (zlen (workers p)) (Z.of_nat i) ds)) /\
  (forall dp dp', hashed dp -> hashed dp' -> keyOf dp' = keyOf dp \/ keyOf dp' = key_Reverse (keyOf dp) ->
     slotOf (zlen (workers p)) dp' = slotOf (zlen (workers p)) dp).
Proof.
  intros Hn. destruct (partition_ok ds p Hn) as (per & E & Hl & Hper). exists per. do 3 (split; [done|]).
  intros dp dp' Hh Hh' Hk. unfold slotOf. f_equal. rewrite Hh, Hh'. unfold keyOf, key_Reverse in Hk. simpl in Hk.
  destruct Hk as [E1|E1]; injection E1 as -> ->; [done|]. by rewrite !FastHash_Reverse.
Qed.

(** The first stream of a connection makes a consumer, the second finds it. *)
Lemma factory_first b nf tf w c w0 : IsFromServer memcachePorts tf = Ret b ->
  halfOpen w !! connKey b nf tf = None -> createConsumer w = Ret (c, w0) ->
  factory_New memcachePorts nf tf w =
    Ret (if b then ServerStream c else ClientStream c, set_halfOpen (<[connKey b nf tf := c]> (halfOpen w)) w0).
Proof.
  intros Hb Hn Ec. rewrite (factory_New_eq memcachePorts nf tf b w Hb), Hn. unfold mbind, gom_bind. by rewrite Ec.
Qed.

Lemma factory_second b nf tf w c : IsFromServer memcachePorts tf = Ret b -> halfOpen w !! connKey b nf tf = Some c ->
  factory_New memcachePorts nf tf w =
    Ret (if b then ServerStream c else ClientStream c, set_halfOpen (delete (connKey b nf tf) (halfOpen w)) w).
Proof. intros Hb Hs. by rewrite (factory_New_eq memcachePorts nf tf b w Hb), Hs. Qed.

(** The two directions of a connection meet.  For a connection that is not
    half open, whichever direction is seen first, the two streams are the server
    and the client end of one new consumer, and the factory forgets the
    connection again. *)
Theorem New_pairs nf tf w : Forall source_fresh (bufferPool_ w) ->
  IsFromServer memcachePorts tf = Ret true -> IsFromServer memcachePorts (Flow_Reverse tf) = Ret false ->
  halfOpen w !! mkKey _ nf tf = None ->
  let c := length (consumers w) in
  exists w1 w2 w1' w2' c0,
    factory_New memcachePorts nf tf w = Ret (ServerStream c, w1) /\
    factory_New memcachePorts (Flow_Reverse nf) (Flow_Reverse tf) w1 = Ret (ClientStream c, w2) /\
    factory_New memcachePorts (Flow_Reverse nf) (Flow_Reverse tf) w = Ret (ClientStream c, w1') /\
    factory_New memcachePorts nf tf w1' = Ret (ServerStream c, w2') /\
    halfOpen w2 = halfOpen w /\ halfOpen w2' = halfOpen w /\
    consumers w2 = consumers w ++ [c0] /\ consumers w2' = consumers w ++ [c0] /\
    State c0 = Some PeekMagicByte /\ events c0 = [].
Proof.
  intros Hp Hs Hc Hnone c.
  assert (connKey false (Flow_Reverse nf) (Flow_Reverse tf) = mkKey _ nf tf) as Ek
    by (unfold connKey, key_Reverse; simpl; by rewrite !Reverse_Reverse).
  destruct (NewConsumer_inv (poolChoice w (poolGets w)) (poolChoice w (S (poolGets w))) (bufferPool_ w) Hp)
    as (c0 & E0 & _ & _ & _ & Est & _ & Eev).
  assert (createConsumer w = Ret (c, set_consumers (consumers w ++ [set_pool [] c0]) (bufferPool c0)
    (S (S (poolGets w))) w)) as Ecreate by (unfold createConsumer, mbind, outcome_bind; by rewrite E0).
  set (w0 := set_consumers _ _ _ w) in *.
  pose proof (factory_first true nf tf w c w0 Hs Hnone Ecreate) as E1.
  pose proof (factory_first false _ _ w c w0 Hc ltac:(by rewrite Ek) Ecreate) as E1'. rewrite Ek in E1'.
  change (connKey true nf tf) with (mkKey _ nf tf) in E1.
  set (wh := set_halfOpen (<[mkKey _ nf tf := c]> (halfOpen w)) w0) in *.
  assert (halfOpen wh !! mkKey _ nf tf = Some c) as Ehalf by apply lookup_insert_eq.
  pose proof (factory_second true nf tf wh c Hs Ehalf) as E2'.
  pose proof (factory_second false _ _ wh c Hc ltac:(by rewrite Ek)) as E2. rewrite Ek in E2.
  change (connKey true nf tf) with (mkKey _ nf tf) in E2'.
  assert (delete (mkKey _ nf tf) (halfOpen wh) = halfOpen w) as Edel by by apply delete_insert_id.
  exists wh, (set_halfOpen (halfOpen w) wh), wh, (set_halfOpen (halfOpen w) wh), (set_pool [] c0).
  rewrite Edel in E2, E2'. by split_and!.
Qed.

(** Calls that no other stream of connection [ck] is made by. *)
Definition notOpening (ck : connectionKey) (cb : callback) : Prop :=
  forall k b, cb = CbNew k -> IsFromServer memcachePorts (transportFlow k) = Ret b ->
    connKey b (netFlow k) (transportFlow k) <> ck.

Lemma onConsumer_half i m w w' : onConsumer i m w = Ret (tt, w') -> halfOpen w' = halfOpen w.
Proof.
  unfold onConsumer. destruct (consumers w !! i) as [c|]; [|done]. unfold mbind, outcome_bind.
  destruct (m _) as [[[] c']| | |]; [|done..]. by intros [= <-].
Qed.

Lemma factory_New_half nf tf w s w' ck : factory_New memcachePorts nf tf w = Ret (s, w') ->
  (forall b, IsFromServer memcachePorts tf = Ret b -> connKey b nf tf <> ck) ->
  halfOpen w' !! ck = halfOpen w !! ck.
Proof.
  intros E Hne. destruct (IsFromServer memcachePorts tf) as [b| | |] eqn:Eb;
    [|unfold factory_New, mbind, gom_bind, outcome_bind in E; by rewrite Eb in E..].
  specialize (Hne b eq_refl). rewrite (factory_New_eq memcachePorts nf tf b w Eb) in E.
  unfold mbind, gom_bind, modify in E. destruct (halfOpen w !! connKey b nf tf) as [c|].
  - injection E as <- <-. simpl. by rewrite lookup_delete_ne.
  - unfold createConsumer, mbind, outcome_bind in E. destruct (NewConsumer _ _ _) as [c| | |]; [|done..].
    injection E as <- <-. simpl. by rewrite lookup_insert_ne.
Qed.

(** Only a stream of a connection changes its entry. *)
Lemma callBacks_half ck cbs : forall w w', callBacks memcachePorts cbs w = Ret (tt, w') -> Forall (notOpening ck) cbs ->
  halfOpen w' !! ck = halfOpen w !! ck.
Proof.
  induction cbs as [|cb cbs IH]; intros w w'; [by intros [= <-]|]. cbn [callBacks].
  unfold mbind, gom_bind. destruct (callBack memcachePorts cb w) as [[[] w1]| | |] eqn:E1; [|done..].
  intros E [Hcb Hcbs]%Forall_cons. rewrite (IH w1 w' E Hcbs). clear IH E.
  destruct cb as [k|k rs|k]; cbn [callBack] in E1; unfold mbind, gom_bind, modify, getStream in E1.
  - destruct (factory_New _ _ _ w) as [[s w2]| | |] eqn:E; [|done..]. injection E1 as <-.
    exact (factory_New_half _ _ _ _ _ ck E (fun b Hb => Hcb k b eq_refl Hb)).
  - destruct (streams w !! k) as [[c|c]|]; [by erewrite onConsumer_half..|done].
  - destruct (streams w !! k) as [[c|c]|]; [| |done]; cbn [ReassemblyComplete] in E1;
      destruct (onConsumer c _ w) as [[[] w2]| | |] eqn:E; try done; injection E1 as <-; by rewrite <- (onConsumer_half _ _ _ _ E).
Qed.

(** C36: a half-open connection that is given up is never forgotten.  A worker
    opens a stream of a connection that is not half open, and then makes any calls
    that end with this stream completed (its connection closed, or flushed as
    idle), none of them for a stream of the other direction or again of this one.
    Then the next stream of the same direction and addresses, which belongs to a
    new connection, is joined with the consumer of the old one, and no new consumer
    is made. *)
Theorem New_reuses_half_open k b w open cbs open' :
  worker_ok w open -> k ∉ open -> tcpFlow (transportFlow k) ->
  IsFromServer memcachePorts (transportFlow k) = Ret b ->
  let ck := connKey b (netFlow k) (transportFlow k) in
  halfOpen w !! ck = None ->
  validCalls ({[ k ]} ∪ open) cbs open' -> k ∉ open' -> Forall (notOpening ck) cbs ->
  exists s w1 w2 w3, factory_New memcachePorts (netFlow k) (transportFlow k) w = Ret (s, w1) /\
    consumerOf s = length (consumers w) /\
    callBacks memcachePorts (CbNew k :: cbs) w = Ret (tt, w2) /\ streams w2 !! k = None /\
    factory_New memcachePorts (netFlow k) (transportFlow k) w2 = Ret (s, w3) /\ consumers w3 = consumers w2.
Proof.
  intros Hw Hk Htf Hb ck Hnone Hv Hk' Hcbs.
  destruct (createConsumer_ok w open Hw) as (w0 & c0 & Ec & _ & _ & _ & Eh & _).
  pose proof (factory_first b (netFlow k) (transportFlow k) w _ w0 Hb Hnone Ec) as E1. fold ck in E1.
  set (w1 := set_halfOpen _ w0) in *.
  destruct (callBacks_ok memcachePorts open (CbNew k :: cbs) open' ltac:(by constructor) w Hw) as (w2 & E2 & Hw2 & _).
  assert (halfOpen w2 !! ck = Some (length (consumers w))) as Ehalf.
  { pose proof E2 as E2'. cbn [callBacks callBack] in E2'. unfold mbind, gom_bind, modify in E2'. rewrite E1 in E2'.
    rewrite (callBacks_half ck cbs _ _ E2' Hcbs). simpl. apply lookup_insert_eq. }
  eexists _, w1, w2, _. split; [exact E1|]. split; [by destruct b|]. split; [exact E2|].
  split; [apply not_elem_of_dom; by rewrite (wk_open _ _ Hw2)|].
  split; [by apply (factory_second b _ _ w2)|done].
Qed.

End connections.
