(* ===== verification/Dispatch.v ===== *)
(** * What the workers of the assembly pool are given

    A pool is run by any schedule of its goroutines.  For each worker, its work is
    the sequence of batches it took and of ticks; this file shows that its state is
    what this work, done alone, gives, and that the batches are the shards of the
    calls of HandlePackets, each once, in the order in which they were sent. *)
From Stdlib Require Import Strings.Byte.
From S2P Require Import Prelude GoLib Buffer Reader Model McText Progress PacketBuffer Decode Assembly.
Local Open Scope Z_scope.

Section dispatch.
  Context `{HAsm : TcpAssembly} (memcachePorts : list Z).
  Local Abbreviation act := (act memcachePorts).
  Local Abbreviation runActs := (runActs memcachePorts).

(** ** The work of a worker *)

Inductive work := Took (batch : list DecodedPacket) | Ticked.

Definition perform (x : work) : GoM worker unit :=
  match x with Took ds => assembleAll memcachePorts ds | Ticked => loopTick memcachePorts end.

Fixpoint performAll (xs : list work) : GoM worker unit :=
  match xs with
  | [] => mret tt
  | x :: xs => perform x;; performAll xs
  end.

Definition taken (xs : list work) : list (list DecodedPacket) :=
  omap (fun x => match x with Took ds => Some ds | Ticked => None end) xs.

(** What worker [i] does in one step of the pool, and in a run. *)
Definition workOf (i : nat) (a : action) (p : Pool) : list work :=
  match a with
  | ActRecv j =>
      if decide (j = i) then
        match workers p !! i with
        | Some w => match wiCh w with wi :: _ => [Took (dps wi)] | [] => [] end
        | None => []
        end
      else []
  | ActTick j => if decide (j = i) then [Ticked] else []
  | _ => []
  end.

Fixpoint workIn (i : nat) (acts : list action) (p : Pool) : list work :=
  match acts with
  | [] => []
  | a :: acts =>
      match act a p with
      | Ret (_, p') => workOf i a p ++ workIn i acts p'
      | _ => []
      end
  end.

(** The calls whose batches the queue of worker [i] accepts in a step, and in a run. *)
Definition sentOf (i : nat) (a : action) (p : Pool) : list nat :=
  match a with
  | ActSend id =>
      match calls p !! id, workers p !! i with
      | Some c, Some w =>
          match todo c with
          | packets :: _ => if decide (at_ c = i /\ packets <> [] /\ zlen (wiCh w) < 128) then [id] else []
          | [] => []
          end
      | _, _ => []
      end
  | _ => []
  end.

Fixpoint sentIn (i : nat) (acts : list action) (p : Pool) : list nat :=
  match acts with
  | [] => []
  | a :: acts =>
      match act a p with
      | Ret (_, p') => sentOf i a p ++ sentIn i acts p'
      | _ => []
      end
  end.

(** The packets given to the calls of HandlePackets. *)
Definition argOf (a : action) : list (list DecodedPacket) := match a with ActCall ds => [ds] | _ => [] end.
Definition argsIn (acts : list action) : list (list DecodedPacket) := concat (argOf <$> acts).

(** ** Lemmas: what the calls of an assembler do not touch *)

(** The worker with another assembler, queue, time and log. *)
Definition tagged (a : Assembler) (q : list workItem) (t : Z) (l : list (Z * Z)) (w : worker) : worker :=
  mkWorker a (halfOpen w) (consumers w) (streams w) (bufferPool_ w) (poolChoice w) (poolGets w) q t l.

Lemma tagged_same w : tagged (assembler w) (wiCh w) (mostRecent w) (wlog w) w = w.
Proof. by destruct w. Qed.

(** [m] neither uses nor changes them. *)
Definition ignores {A} (m : GoM worker A) : Prop := forall a q t l w,
  m (tagged a q t l w) = ('(x, w') ← m w; Ret (x, tagged a q t l w')).

Lemma ignores_ret {A} (x : A) : ignores (mret x).
Proof. done. Qed.

Lemma ignores_bind {A B} (m : GoM worker A) (k : A -> GoM worker B) :
  ignores m -> (forall x, ignores (k x)) -> ignores (m ≫= k).
Proof.
  intros Hm Hk a q t l w. unfold mbind, gom_bind. rewrite Hm. unfold mbind, outcome_bind.
  destruct (m w) as [[x w1]| | |]; try done. apply Hk.
Qed.

Lemma ignores_onConsumer c m : ignores (onConsumer c m).
Proof.
  intros a q t l w. unfold onConsumer. simpl. destruct (consumers w !! c); [|done].
  unfold mbind, outcome_bind. by destruct (m _) as [[[] ?]| | |].
Qed.

Lemma ignores_createConsumer : ignores createConsumer.
Proof.
  intros a q t l w. unfold createConsumer, mbind, outcome_bind. simpl. by destruct (NewConsumer _ _ _).
Qed.

Lemma ignores_factory nf tf : ignores (factory_New memcachePorts nf tf).
Proof.
  unfold factory_New. apply ignores_bind.
  { intros a q t l w. unfold mbind, outcome_bind. by destruct (IsFromServer _ _). }
  intros b. apply ignores_bind; [done|]. intros half. apply ignores_bind; [|done].
  destruct (half !! _); apply ignores_bind; try done. { apply ignores_createConsumer. }
Qed.

Lemma ignores_callBack cb : ignores (callBack memcachePorts cb).
Proof.
  assert (forall k, ignores (getStream k)) as Hget
    by (intros k a q t l w; unfold getStream; simpl; by destruct (streams w !! k)).
  destruct cb; cbn [callBack]; apply ignores_bind; try done; try apply ignores_factory; intros s.
  - destruct s; apply ignores_onConsumer.
  - apply ignores_bind; [|done]. destruct s; apply ignores_onConsumer.
Qed.

Lemma ignores_callBacks cbs : ignores (callBacks memcachePorts cbs).
Proof.
  induction cbs as [|cb cbs IH]; [done|]. cbn [callBacks]. by apply ignores_bind; [apply ignores_callBack|].
Qed.

Lemma callBacks_app cbs1 cbs2 w :
  callBacks memcachePorts (cbs1 ++ cbs2) w = (callBacks memcachePorts cbs1;; callBacks memcachePorts cbs2)%go w.
Proof.
  revert w. induction cbs1 as [|cb cbs1 IH]; intros w; [done|]. cbn [app callBacks]. unfold mbind, gom_bind in *.
  by destruct (callBack memcachePorts cb w) as [[[] w1]| | |].
Qed.

(** ** The calls of an assembler in the course of the work *)

(** The assembler as a worker drives it: with the time of the last packet and what
    was logged. *)
Definition driven : Type := Assembler * Z * list (Z * Z).

Fixpoint drivePackets (ds : list DecodedPacket) (s : driven) : driven * list callback :=
  match ds with
  | [] => (s, [])
  | dp :: ds =>
      let '(a, _, l) := s in
      let t := ciTimestamp (dpInfo dp) in
      let '(a, cbs) := AssembleWithTimestamp (NetFlow dp) (TCP (lys dp)) t a in
      let '(s, cbs') := drivePackets ds (a, t, l) in (s, cbs ++ cbs')
  end.

Definition drive (x : work) (s : driven) : driven * list callback :=
  match x with
  | Took ds => drivePackets ds s
  | Ticked =>
      let '(a, t, l) := s in
      let '(a, f, c, cbs) := FlushOlderThan (t - 60000000000) a in
      ((a, t, if (0 <? f) || (0 <? c) then l ++ [(f, c)] else l), cbs)
  end.

Fixpoint driveAll (xs : list work) (s : driven) : driven * list callback :=
  match xs with
  | [] => (s, [])
  | x :: xs => let '(s, cbs) := drive x s in let '(s, cbs') := driveAll xs s in (s, cbs ++ cbs')
  end.

(** The calls that work [xs] makes of a new worker. *)
Definition callsMade (xs : list work) : list callback := (driveAll xs (NewAssembler, 0, [])).2.

(** ** Lemmas: the work done alone *)

Definition driverOf (w : worker) : driven := (assembler w, mostRecent w, wlog w).
Definition withDriver (s : driven) (w : worker) : worker := tagged s.1.1 (wiCh w) s.1.2 s.2 w.

(** [m] makes the calls [cbs] and leaves the assembler as [s]. *)
Definition makes (m : GoM worker unit) (w : worker) (o : driven * list callback) : Prop :=
  m w = ('(x, w') ← callBacks memcachePorts o.2 w; Ret (x, withDriver o.1 w')).

Lemma callBacks_wiCh cbs w w' : callBacks memcachePorts cbs w = Ret (tt, w') -> wiCh w' = wiCh w /\ driverOf w' = driverOf w.
Proof.
  intros E. pose proof (ignores_callBacks cbs (assembler w) (wiCh w) (mostRecent w) (wlog w) w) as Hi.
  rewrite tagged_same, E in Hi. injection Hi as ->. done.
Qed.

Lemma makes_bind m k w s1 cbs1 s2 cbs2 : makes m w (s1, cbs1) ->
  (forall w1, makes k (withDriver s1 w1) (s2, cbs2)) -> makes (m;; k)%go w (s2, cbs1 ++ cbs2).
Proof.
  unfold makes. cbn [fst snd]. intros Hm Hk. rewrite callBacks_app. unfold mbind at 1, gom_bind. rewrite Hm.
  unfold mbind, outcome_bind, gom_bind. destruct (callBacks memcachePorts cbs1 w) as [[[] w1]| | |] eqn:E1; try done.
  rewrite Hk. pose proof (ignores_callBacks cbs2 s1.1.1 (wiCh w1) s1.1.2 s1.2 w1) as Hi.
  fold (withDriver s1 w1) in Hi. rewrite Hi. unfold mbind, outcome_bind.
  destruct (callBacks memcachePorts cbs2 w1) as [[[] w2]| | |] eqn:E2; try done.
  destruct (callBacks_wiCh _ _ _ E2) as [Eq _]. unfold withDriver. simpl. by rewrite Eq.
Qed.

Lemma assemblePacket_makes dp w : makes (assemblePacket memcachePorts dp) w (drivePackets [dp] (driverOf w)).
Proof.
  unfold makes, assemblePacket, driverOf. cbn [drivePackets].
  destruct (AssembleWithTimestamp _ _ _ _) as [a cbs]. cbn [fst snd]. rewrite app_nil_r.
  change (set_assembler a (set_mostRecent (ciTimestamp (dpInfo dp)) w)) with
    (tagged a (wiCh w) (ciTimestamp (dpInfo dp)) (wlog w) w).
  rewrite ignores_callBacks. unfold mbind, outcome_bind.
  destruct (callBacks memcachePorts cbs w) as [[[] w1]| | |] eqn:E; try done.
  destruct (callBacks_wiCh _ _ _ E) as [<- _]. done.
Qed.

Lemma assembleAll_makes ds w : makes (assembleAll memcachePorts ds) w (drivePackets ds (driverOf w)).
Proof.
  revert w. induction ds as [|dp ds IH]; intros w.
  { unfold makes, withDriver. cbn. by rewrite tagged_same. }
  pose proof (assemblePacket_makes dp w) as Hp. cbn [assembleAll drivePackets driverOf] in *.
  destruct (AssembleWithTimestamp _ _ _ _) as [a cbs]. cbn in Hp. rewrite app_nil_r in Hp.
  destruct (drivePackets ds _) as [s cbs'] eqn:E. eapply makes_bind; [exact Hp|].
  intros w1. specialize (IH (withDriver (a, ciTimestamp (dpInfo dp), wlog w) w1)).
  change (driverOf _) with ((a, ciTimestamp (dpInfo dp), wlog w) : driven) in IH. by rewrite E in IH.
Qed.

Lemma loopTick_makes w : makes (loopTick memcachePorts) w (drive Ticked (driverOf w)).
Proof.
  unfold makes, loopTick, drive, driverOf.
  destruct (FlushOlderThan _ _) as [[[a f] c] cbs]. cbn [fst snd].
  change (set_assembler a w) with (tagged a (wiCh w) (mostRecent w) (wlog w) w).
  unfold mbind at 1, gom_bind. rewrite ignores_callBacks. unfold mbind, outcome_bind.
  destruct (callBacks memcachePorts cbs w) as [[[] w1]| | |] eqn:E; try done.
  destruct (callBacks_wiCh _ _ _ E) as [<- _]. by destruct (_ || _).
Qed.

Lemma perform_makes x w : makes (perform x) w (drive x (driverOf w)).
Proof. destruct x; [apply assembleAll_makes|apply loopTick_makes]. Qed.

Lemma performAll_makes xs w : makes (performAll xs) w (driveAll xs (driverOf w)).
Proof.
  revert w. induction xs as [|x xs IH]; intros w.
  { unfold makes, withDriver. cbn. by rewrite tagged_same. }
  pose proof (perform_makes x w) as Hp. cbn [performAll driveAll] in *. destruct (drive x (driverOf w)) as [s cbs].
  destruct (driveAll xs s) as [s' cbs'] eqn:E. eapply makes_bind; [exact Hp|]. intros w1.
  specialize (IH (withDriver s w1)). destruct s as [[a t] l].
  change (driverOf _) with ((a, t, l) : driven) in IH. by rewrite E in IH.
Qed.

(** The queue does not matter. *)
Lemma makes_queue m w o q w' : (forall w, makes m w (o (driverOf w))) -> m w = Ret (tt, w') ->
  wiCh w' = wiCh w /\ m (set_wiCh q w) = Ret (tt, set_wiCh q w').
Proof.
  intros Hm E. pose proof (Hm w) as Hw. pose proof (Hm (set_wiCh q w)) as Hq. unfold makes in *. rewrite Hw in E.
  rewrite Hq. change (driverOf (set_wiCh q w)) with (driverOf w).
  change (set_wiCh q w) with (tagged (assembler w) q (mostRecent w) (wlog w) w). rewrite ignores_callBacks.
  unfold mbind, outcome_bind in *. destruct (callBacks _ _ w) as [[[] w1]| | |] eqn:E1; try done.
  injection E as <-. split; [apply (callBacks_wiCh _ _ _ E1)|done].
Qed.

Lemma perform_queue x w q w' : perform x w = Ret (tt, w') ->
  wiCh w' = wiCh w /\ perform x (set_wiCh q w) = Ret (tt, set_wiCh q w').
Proof. apply (makes_queue _ _ (drive x)). apply perform_makes. Qed.

(** What a new worker makes of its work. *)
Lemma performAll_callBacks xs choice w' : performAll xs (newWorker choice) = Ret (tt, w') ->
  exists w1, callBacks memcachePorts (callsMade xs) (newWorker choice) = Ret (tt, w1) /\
    consumers w' = consumers w1 /\ halfOpen w' = halfOpen w1.
Proof.
  pose proof (performAll_makes xs (newWorker choice)) as Hm. unfold makes in Hm. intros E. rewrite Hm in E.
  unfold callsMade. change (driverOf (newWorker choice)) with ((NewAssembler, 0, []) : driven) in E.
  unfold mbind, outcome_bind in E. destruct (callBacks _ _ _) as [[[] w1]| | |]; try done.
  injection E as <-. by exists w1.
Qed.

(** ** Lemmas: the work done in a run *)

Lemma onWorker_spec i m p p' : onWorker i m p = Ret (tt, p') -> exists w w', workers p !! i = Some w /\
  m w = Ret (tt, w') /\ workers p' = <[i := w']> (workers p) /\ calls p' = calls p /\ plog p' = plog p.
Proof.
  unfold onWorker. destruct (workers p !! i) as [w|]; [|done]. unfold mbind, outcome_bind.
  destruct (m w) as [[[] w']| | |] eqn:E; try done. intros [= <-]. by exists w, w'.
Qed.

Lemma signal_spec id p p' : signal id p = Ret (tt, p') -> workers p' = workers p /\ plog p' = plog p /\
  exists c c', calls p !! id = Some c /\ calls p' = <[id := c']> (calls p) /\ todo c' = todo c /\ at_ c' = at_ c.
Proof.
  unfold signal. destruct (calls p !! id) as [c|]; [|done]. destruct (_ <? _); [|done].
  intros [= <-]. split_and!; [done..|]. by eexists c, _.
Qed.

(** A worker takes a batch. *)
Lemma loopRecv_spec i p p' : loopRecv memcachePorts i p = Ret (tt, p') -> exists w wi q w' c c',
  workers p !! i = Some w /\ wiCh w = wi :: q /\ assembleAll memcachePorts (dps wi) (set_wiCh q w) = Ret (tt, w') /\
  workers p' = <[i := w']> (workers p) /\ plog p' = plog p /\
  calls p !! doneCh wi = Some c /\ calls p' = <[doneCh wi := c']> (calls p) /\ todo c' = todo c /\ at_ c' = at_ c.
Proof.
  unfold loopRecv. destruct (workers p !! i) as [w|] eqn:Ew; [|done]. destruct (wiCh w) as [|wi q] eqn:Eq; [done|].
  unfold mbind, gom_bind. destruct (onWorker _ _ p) as [[[] p1]| | |] eqn:E1; try done. intros E2.
  apply onWorker_spec in E1 as (w0 & w' & Ew0 & E & Hw & Hc & Hl). rewrite Ew in Ew0. injection Ew0 as <-.
  apply signal_spec in E2 as (Hw2 & Hl2 & c & c' & Ec & Ec' & ? & ?). rewrite Hc in *.
  exists w, wi, q, w', c, c'. split_and!; congruence.
Qed.

(** The shards of a call, one for each worker. *)
Definition shards (n : nat) (ds : list DecodedPacket) : list (list DecodedPacket) :=
  (fun i => shardOf (Z.of_nat n) (Z.of_nat i) ds) <$> seq 0 n.

Lemma partition_shards ds p : 0 < zlen (workers p) -> partition ds p = Ret (shards (length (workers p)) ds).
Proof.
  intros Hn. destruct (partition_ok ds p Hn) as (per & -> & Hl & Hper). f_equal. apply list_eq. intros i.
  unfold shards. rewrite list_lookup_fmap. destruct (decide (i < length (workers p))%nat) as [Hi|Hi].
  - rewrite (Hper i Hi), lookup_seq_lt by done. done.
  - rewrite !lookup_ge_None_2 by (rewrite ?length_seq; lia). done.
Qed.

Definition argAt (args : list (list DecodedPacket)) (id : nat) : list DecodedPacket := default [] (args !! id).

(** The batch for worker [i] in call [id]. *)
Definition batchOf (n : nat) (args : list (list DecodedPacket)) (i id : nat) : list DecodedPacket :=
  shardOf (Z.of_nat n) (Z.of_nat i) (argAt args id).

(** What happened so far: the calls were given [args], worker [i] has done [wk i],
    and was sent batches of the calls [ord i], in this order. *)
Record traced (n : nat) (args : list (list DecodedPacket)) (wk : nat -> list work) (ord : nat -> list nat)
    (p : Pool) : Prop := {
  td_workers : length (workers p) = n;
  td_calls : length args = length (calls p);
  td_todo id c : calls p !! id = Some c -> todo c = drop (at_ c) (shards n (argAt args id));
  td_taken i w : workers p !! i = Some w -> taken (wk i) ++ (dps <$> wiCh w) = batchOf n args i <$> ord i;
  td_once i : NoDup (ord i);
  td_sent i id : id ∈ ord i -> exists c, calls p !! id = Some c /\ (i < at_ c)%nat /\ batchOf n args i id <> [];
  td_all : plog p = [] -> forall i id c, calls p !! id = Some c -> (i < at_ c)%nat -> (i < n)%nat ->
    batchOf n args i id <> [] -> id ∈ ord i
}.

Definition more (i : nat) {A} (l : list A) (f : nat -> list A) : nat -> list A :=
  fun j => if decide (j = i) then f j ++ l else f j.

Lemma taken_app xs ys : taken (xs ++ ys) = taken xs ++ taken ys.
Proof. apply omap_app. Qed.

Lemma argAt_app args ds id : (id < length args)%nat -> argAt (args ++ ds) id = argAt args id.
Proof. intros Hid. unfold argAt. by rewrite lookup_app_l. Qed.

Lemma batchOf_app n args ds i id : (id < length args)%nat -> batchOf n (args ++ ds) i id = batchOf n args i id.
Proof. intros Hid. unfold batchOf. by rewrite argAt_app. Qed.

Lemma drop_cons {A} (l : list A) k x r : x :: r = drop k l -> l !! k = Some x /\ r = drop (S k) l.
Proof.
  revert l. induction k as [|k IH]; intros [|y l] E; simplify_eq/=; [done|]. by apply IH.
Qed.

Lemma shards_lookup n ds i : (i < n)%nat -> shards n ds !! i = Some (shardOf (Z.of_nat n) (Z.of_nat i) ds).
Proof. intros Hi. unfold shards. by rewrite list_lookup_fmap, lookup_seq_lt. Qed.

(** Where the loop of a call is. *)
Definition progressOf (p : Pool) (id : nat) : option (list (list DecodedPacket) * nat) :=
  (fun c => (todo c, at_ c)) <$> calls p !! id.

Lemma progressOf_Some p id c : calls p !! id = Some c -> progressOf p id = Some (todo c, at_ c).
Proof. unfold progressOf. by intros ->. Qed.

Lemma progressOf_inv p id td k : progressOf p id = Some (td, k) ->
  exists c, calls p !! id = Some c /\ todo c = td /\ at_ c = k.
Proof. unfold progressOf. destruct (calls p !! id) as [c|]; [|done]. intros [= <- <-]. by exists c. Qed.

Lemma progressOf_insert p p' id c c' : calls p !! id = Some c -> calls p' = <[id := c']> (calls p) ->
  todo c' = todo c -> at_ c' = at_ c -> length (calls p') = length (calls p) /\ forall id', progressOf p' id' = progressOf p id'.
Proof.
  intros Ec E Ht Ha. rewrite E, length_insert. split; [done|]. intros id'. unfold progressOf. rewrite E.
  destruct (decide (id' = id)) as [->|Hne].
  - rewrite list_lookup_insert_eq by (by eapply lookup_lt_Some). rewrite Ec. simpl. by rewrite Ht, Ha.
  - by rewrite list_lookup_insert_ne.
Qed.

(** A step that moves no call. *)
Lemma traced_same n args wk wk' ord p p' : traced n args wk ord p ->
  length (calls p') = length (calls p) /\ (forall id, progressOf p' id = progressOf p id) ->
  length (workers p') = length (workers p) -> plog p' = plog p ->
  (forall i w', workers p' !! i = Some w' -> exists w, workers p !! i = Some w /\
     taken (wk' i) ++ (dps <$> wiCh w') = taken (wk i) ++ (dps <$> wiCh w)) ->
  traced n args wk' ord p'.
Proof.
  intros [Hw Hc Ht Htk Ho Hs Ha] [Hlen Hpr] Hlw Hlog Hwk. split; try congruence.
  - intros id c Ec. apply progressOf_Some in Ec. rewrite Hpr in Ec.
    apply progressOf_inv in Ec as (c0 & Ec & <- & <-). by apply Ht.
  - intros i w' Ew. destruct (Hwk i w' Ew) as (w & Ew0 & ->). by apply Htk.
  - done.
  - intros i id (c & Ec & Hi & Hb)%Hs. apply progressOf_Some in Ec. rewrite <- Hpr in Ec.
    apply progressOf_inv in Ec as (c' & ? & _ & Ek). exists c'. by rewrite Ek.
  - rewrite Hlog. intros Hnil i id c Ec. apply progressOf_Some in Ec. rewrite Hpr in Ec.
    apply progressOf_inv in Ec as (c0 & Ec & _ & Ek). rewrite <- Ek. by apply Ha.
Qed.

Lemma traced_call n args wk ord ds p p' : (0 < n)%nat -> traced n args wk ord p -> HandlePackets ds p = Ret (tt, p') ->
  traced n (args ++ [ds]) wk ord p'.
Proof.
  intros Hn [Hw Hc Ht Htk Ho Hs Ha]. unfold HandlePackets.
  rewrite partition_shards by (unfold zlen; lia). unfold mbind, outcome_bind. intros [= <-]. rewrite Hw.
  assert (forall i id, id ∈ ord i -> (id < length args)%nat) as Hlt.
  { intros i id (c & Ec & _)%Hs. rewrite Hc. by eapply lookup_lt_Some. }
  split; cbn [workers calls plog set_calls]; [done|by rewrite !length_app, Hc| | |done| |].
  - intros id c [[_ Ec]|[Hid <-]]%lookup_snoc_Some.
    + rewrite argAt_app by (rewrite Hc; by eapply lookup_lt_Some). by apply Ht.
    + simpl. unfold argAt. rewrite lookup_app_r by lia. by rewrite Hid, Hc, Nat.sub_diag, drop_0.
  - intros i w Ew. rewrite (Htk i w Ew). apply list_fmap_ext. intros k id Ek. symmetry. apply batchOf_app.
    eapply (Hlt i), list_elem_of_lookup_2, Ek.
  - intros i id Hid. destruct (Hs i id Hid) as (c & Ec & ? & ?). exists c. rewrite batchOf_app by (by eapply Hlt).
    split; [by apply lookup_app_l_Some|done].
  - intros Hnil i id c [[_ Ec]|[Hid <-]]%lookup_snoc_Some; [|simpl; lia].
    rewrite batchOf_app by (rewrite Hc; by eapply lookup_lt_Some). by apply Ha.
Qed.

(** A round of the sending loop: nothing to send, or a batch sent or refused. *)
Lemma sendRound_spec id p p' : sendRound id p = Ret (tt, p') -> exists packets rest c c',
  calls p !! id = Some c /\ todo c = packets :: rest /\ calls p' = <[id := c']> (calls p) /\
  todo c' = rest /\ at_ c' = S (at_ c) /\
  ((packets = [] /\ workers p' = workers p /\ plog p' = plog p) \/
   (packets <> [] /\ exists w, workers p !! at_ c = Some w /\ zlen (wiCh w) < 128 /\
     workers p' = <[at_ c := set_wiCh (wiCh w ++ [mkWorkItem packets id]) w]> (workers p) /\ plog p' = plog p) \/
   (packets <> [] /\ workers p' = workers p /\ plog p' = plog p ++ [errQueueFull] /\
     exists w, workers p !! at_ c = Some w /\ 128 <= zlen (wiCh w))).
Proof.
  unfold sendRound. destruct (calls p !! id) as [[[|packets rest] i sent sig cap ret]|] eqn:Ec; try done.
  destruct (Z.ltb_spec 0 (zlen packets)) as [Hp|Hp].
  - assert (packets <> []) as Hne by (intros ->; done).
    destruct (workers p !! i) as [w|] eqn:Ew; [|done]. unfold handlePackets. destruct (Z.ltb_spec (zlen (wiCh w)) 128); intros [= <-].
    + eexists packets, rest, _, _. do 5 (split; [done|]). right. left. split; [done|]. by exists w.
    + eexists packets, rest, _, _. do 5 (split; [done|]). right. right. split; [done|]. simpl.
      rewrite list_insert_id by done. split_and!; [done..|]. by exists w.
  - intros [= <-]. eexists packets, rest, _, _. do 5 (split; [done|]). left. split; [|done].
    destruct packets; [done|]. rewrite zlen_cons in Hp. pose proof (zlen_nonneg packets). lia.
Qed.

Lemma traced_send n args wk ord id p p' : traced n args wk ord p -> sendRound id p = Ret (tt, p') ->
  exists ord', traced n args wk ord' p' /\ forall i, (i < n)%nat -> ord' i = ord i ++ sentOf i (ActSend id) p.
Proof.
  intros Htr (packets & rest & c & c' & Ec & Etd & Ec' & Etd' & Eat & Hcase)%sendRound_spec.
  destruct Htr as [Hw Hc Ht Htk Ho Hs Ha]. pose proof (Ht id c Ec) as Edrop. rewrite Etd in Edrop.
  apply drop_cons in Edrop as [Epk ->].
  assert (at_ c < n)%nat as Hlt.
  { apply lookup_lt_Some in Epk. unfold shards in Epk. by rewrite length_fmap, length_seq in Epk. }
  rewrite shards_lookup in Epk by done. injection Epk as Epk. change (batchOf n args (at_ c) id = packets) in Epk.
  assert (forall id' d, calls p' !! id' = Some d -> (id' = id /\ d = c') \/ (id' <> id /\ calls p !! id' = Some d)) as Hcalls.
  { intros id' d. rewrite Ec'. destruct (decide (id' = id)) as [->|Hne].
    - rewrite list_lookup_insert_eq by (by eapply lookup_lt_Some). intros [= <-]. by left.
    - rewrite list_lookup_insert_ne by done. by right. }
  assert (forall id' d, calls p !! id' = Some d -> exists d', calls p' !! id' = Some d' /\ (at_ d <= at_ d')%nat) as Hold.
  { intros id' d Ed. rewrite Ec'. destruct (decide (id' = id)) as [->|Hne].
    - rewrite list_lookup_insert_eq by (by eapply lookup_lt_Some). exists c'. simplify_eq. split; [done|lia].
    - rewrite list_lookup_insert_ne by done. by exists d. }
  assert (forall id' d, calls p' !! id' = Some d -> todo d = drop (at_ d) (shards n (argAt args id'))) as Ht'.
  { intros id' d [[-> ->]|[_ Ed]]%Hcalls; [by rewrite Etd', Eat|by apply Ht]. }
  assert (forall i id', id' ∈ ord i -> exists d, calls p' !! id' = Some d /\ (i < at_ d)%nat /\ batchOf n args i id' <> []) as Hs'.
  { intros i id' (d & Ed & Hi & Hb)%Hs. destruct (Hold id' d Ed) as (d' & ? & ?). exists d'. split_and!; [done|lia|done]. }
  assert (length args = length (calls p')) as Hc' by (by rewrite Ec', length_insert).
  destruct Hcase as [(-> & Hw' & Hlog)|[(Hne & w & Ew & Hroom & Hw' & Hlog)|(Hne & Hw' & Hlog & w & Ew & Hfull)]].
  - exists ord. split; [|intros i _; cbn [sentOf]; rewrite Ec, Etd; destruct (workers p !! i); [|by rewrite app_nil_r];
      rewrite decide_False by tauto; by rewrite app_nil_r].
    split; [congruence|done|done|by rewrite Hw'|done|done|].
    rewrite Hlog. intros Hnil i id' d [[-> ->]|[_ Ed]]%Hcalls Hi Hin Hb; [|by eapply Ha].
    destruct (decide (i = at_ c)) as [->|]; [done|]. eapply Ha; [done|exact Ec|lia|done..].
  - assert (id ∉ ord (at_ c)) as Hnew.
    { intros (d & Ed & Hi & _)%Hs. simplify_eq. lia. }
    exists (more (at_ c) [id] ord). split.
    2:{ intros i Hi. cbn [sentOf]. rewrite Ec, Etd. destruct (lookup_lt_is_Some_2 (workers p) i) as [wi Ewi]; [lia|].
        rewrite Ewi. unfold more. destruct (decide (i = at_ c)) as [->|Hni].
        - simplify_eq. by rewrite decide_True.
        - rewrite decide_False by (by intros (E & _); apply Hni). by rewrite app_nil_r. }
    split; [by rewrite Hw', length_insert|done|done| | | |].
    + intros i w'. unfold more. rewrite Hw'. destruct (decide (i = at_ c)) as [->|Hi].
      * rewrite list_lookup_insert_eq by (by eapply lookup_lt_Some). intros [= <-]. cbn [wiCh set_wiCh].
        rewrite !fmap_app, app_assoc, (Htk _ _ Ew). simpl. by rewrite Epk.
      * rewrite list_lookup_insert_ne by done. apply Htk.
    + intros i. unfold more. destruct (decide (i = at_ c)) as [->|]; [|done]. apply NoDup_app. split; [done|].
      split; [|apply NoDup_singleton]. intros x Hx ->%list_elem_of_singleton. done.
    + intros i id'. unfold more. destruct (decide (i = at_ c)) as [->|]; [|apply Hs'].
      intros [Hin| ->%list_elem_of_singleton]%elem_of_app; [by apply Hs'|].
      exists c'. rewrite Ec', list_lookup_insert_eq by (by eapply lookup_lt_Some). split_and!; [done|lia|by rewrite Epk].
    + rewrite Hlog. intros Hnil i id' d [[-> ->]|[Hid Ed]]%Hcalls Hi Hin Hb; unfold more; case_decide; subst.
      * apply elem_of_app. right. by apply list_elem_of_singleton.
      * eapply Ha; [done|exact Ec|lia|done..].
      * apply elem_of_app. left. by eapply Ha.
      * by eapply Ha.
  - exists ord. split.
    2:{ intros i Hi. cbn [sentOf]. rewrite Ec, Etd. destruct (workers p !! i) as [wi|] eqn:Ewi; [|by rewrite app_nil_r].
        rewrite decide_False; [by rewrite app_nil_r|]. intros (<- & _ & ?). simplify_eq. lia. }
    split; [congruence|done|done|by rewrite Hw'|done|done|].
    rewrite Hlog. intros Hnil. by apply app_nil in Hnil as [_ ?].
Qed.

(** One step, and a run. *)
Lemma traced_step n args wk ord a p p' : (0 < n)%nat -> traced n args wk ord p -> act a p = Ret (tt, p') ->
  exists ord', traced n (args ++ argOf a) (fun i => wk i ++ workOf i a p) ord' p' /\
    forall i, (i < n)%nat -> ord' i = ord i ++ sentOf i a p.
Proof.
  intros Hn Htr E. assert (forall i w, workers p !! i = Some w -> exists w0, workers p !! i = Some w0 /\
    taken (wk i ++ []) ++ (dps <$> wiCh w) = taken (wk i) ++ (dps <$> wiCh w0)) as Hsame.
  { intros i w Ew. exists w. by rewrite app_nil_r. }
  destruct a as [ds|id|id|i|i]; cbn [Assembly.act argOf workOf] in *; rewrite ?app_nil_r.
  - exists ord. split; [|intros; by rewrite app_nil_r]. pose proof (traced_call n args wk ord ds p p' Hn Htr E) as H'.
    eapply traced_same; [exact H'|done..|]. intros i w Ew. exists w. by rewrite app_nil_r.
  - destruct (traced_send n args wk ord id p p' Htr E) as (ord' & H' & Ho). exists ord'. split; [|done].
    eapply traced_same; [exact H'|done..|]. intros i w Ew. exists w. by rewrite app_nil_r.
  - exists ord. split; [|intros; by rewrite app_nil_r]. unfold waitLoop in E. destruct (calls p !! id) as [[[|] i sent sig cap []]|] eqn:Ec; try done.
    destruct (_ <=? _); [|done]. injection E as <-. eapply traced_same; [exact Htr| |done|done|exact Hsame].
    by eapply progressOf_insert.
  - exists ord. split; [|intros; by rewrite app_nil_r]. apply loopRecv_spec in E as (w & wi & q & w' & c & c' & Ew & Eq & Ea & Hw' & Hlog & Ec & Ec' & Ht & Hat).
    pose proof (perform_queue (Took (dps wi)) _ q _ Ea) as [Eqw _]. cbn [wiCh set_wiCh] in Eqw.
    eapply traced_same; [exact Htr|by eapply progressOf_insert|by rewrite Hw', length_insert|done|].
    intros j wj. rewrite Hw'. destruct (decide (j = i)) as [->|Hne].
    + rewrite list_lookup_insert_eq by (by eapply lookup_lt_Some). intros [= <-]. exists w. split; [done|].
      rewrite decide_True, Ew, Eq, Eqw, taken_app by done. simpl. by rewrite <- app_assoc.
    + rewrite list_lookup_insert_ne, decide_False by done. intros Ej. by apply Hsame.
  - exists ord. split; [|intros; by rewrite app_nil_r]. apply onWorker_spec in E as (w & w' & Ew & Ea & Hw' & Hc & Hlog).
    pose proof (perform_queue Ticked _ [] _ Ea) as [Eqw _].
    eapply traced_same; [exact Htr| |by rewrite Hw', length_insert|done|].
    { unfold progressOf. by rewrite Hc. }
    intros j wj. rewrite Hw'. destruct (decide (j = i)) as [->|Hne].
    + rewrite list_lookup_insert_eq by (by eapply lookup_lt_Some). intros [= <-]. exists w. split; [done|].
      rewrite decide_True, Eqw, taken_app by done. simpl. by rewrite app_nil_r.
    + rewrite list_lookup_insert_ne, decide_False by done. intros Ej. by apply Hsame.
Qed.

Lemma performAll_app xs ys w w1 w2 : performAll xs w = Ret (tt, w1) -> performAll ys w1 = Ret (tt, w2) ->
  performAll (xs ++ ys) w = Ret (tt, w2).
Proof.
  revert w. induction xs as [|x xs IH]; intros w E1 E2; [by injection E1 as ->|].
  cbn [app performAll] in *. unfold mbind, gom_bind in *.
  destruct (perform x w) as [[[] w0]| | |]; try done. by apply IH.
Qed.

Lemma workOf_done i a p p' w : act a p = Ret (tt, p') -> workers p !! i = Some w ->
  exists w', workers p' !! i = Some w' /\ performAll (workOf i a p) (set_wiCh [] w) = Ret (tt, set_wiCh [] w').
Proof.
  intros E Ew. destruct a as [ds|id|id|j|j]; cbn [Assembly.act workOf] in *.
  - exists w. split; [|done]. unfold HandlePackets, mbind, outcome_bind in E.
    destruct (partition ds p); try done. by injection E as <-.
  - apply sendRound_spec in E as (packets & rest & c & c' & _ & _ & _ & _ & _ & Hcase).
    destruct Hcase as [(_ & -> & _)|[(_ & w0 & Ew0 & _ & -> & _)|(_ & -> & _)]]; [by exists w| |by exists w].
    destruct (decide (i = at_ c)) as [->|Hne]; [|exists w; by rewrite list_lookup_insert_ne].
    rewrite list_lookup_insert_eq by (by eapply lookup_lt_Some). simplify_eq. by eexists.
  - exists w. split; [|done]. unfold waitLoop in E. destruct (calls p !! id) as [[[|] k sent sig cap []]|]; try done.
    destruct (_ <=? _); [|done]. by injection E as <-.
  - apply loopRecv_spec in E as (w0 & wi & q & w' & c & c' & Ew0 & Eq & Ea & -> & _).
    destruct (decide (j = i)) as [->|Hne]; [|exists w; by rewrite list_lookup_insert_ne]. simplify_eq.
    rewrite list_lookup_insert_eq, Ew0, Eq by (by eapply lookup_lt_Some). exists w'. split; [done|].
    destruct (perform_queue (Took (dps wi)) _ [] _ Ea) as [_ E]. cbn [performAll]. unfold mbind, gom_bind.
    change (set_wiCh [] (set_wiCh q w0)) with (set_wiCh [] w0) in E. by rewrite E.
  - apply onWorker_spec in E as (w0 & w' & Ew0 & Ea & -> & _).
    destruct (decide (j = i)) as [->|Hne]; [|exists w; by rewrite list_lookup_insert_ne]. simplify_eq.
    rewrite list_lookup_insert_eq by (by eapply lookup_lt_Some). exists w'. split; [done|].
    destruct (perform_queue Ticked _ [] _ Ea) as [_ E]. cbn [performAll]. unfold mbind, gom_bind. by rewrite E.
Qed.

Lemma workIn_done i acts p p' w : runActs acts p = Ret (tt, p') -> workers p !! i = Some w ->
  exists w', workers p' !! i = Some w' /\ performAll (workIn i acts p) (set_wiCh [] w) = Ret (tt, set_wiCh [] w').
Proof.
  revert p w. induction acts as [|a acts IH]; intros p w E Ew; cbn [Assembly.runActs workIn] in *.
  - injection E as <-. by exists w.
  - unfold mbind, gom_bind in E. destruct (act a p) as [[[] p1]| | |] eqn:Ea; try done.
    destruct (workOf_done i a p p1 w Ea Ew) as (w1 & Ew1 & E1). destruct (IH p1 w1 E Ew1) as (w' & Ew' & E').
    exists w'. split; [done|]. by eapply performAll_app.
Qed.

Lemma traced_run n acts : (0 < n)%nat -> forall args wk ord p p', traced n args wk ord p -> runActs acts p = Ret (tt, p') ->
  exists ord', traced n (args ++ argsIn acts) (fun i => wk i ++ workIn i acts p) ord' p' /\
    forall i, (i < n)%nat -> ord' i = ord i ++ sentIn i acts p.
Proof.
  intros Hn. induction acts as [|a acts IH]; intros args wk ord p p' Htr E; cbn [Assembly.runActs workIn sentIn] in *.
  - injection E as <-. exists ord. split; [|intros; by rewrite app_nil_r]. unfold argsIn. simpl. rewrite app_nil_r.
    eapply traced_same; [exact Htr|done..|]. intros i w Ew. exists w. by rewrite app_nil_r.
  - unfold mbind, gom_bind in E. destruct (act a p) as [[[] p1]| | |] eqn:Ea; try done.
    destruct (traced_step n args wk ord a p p1 Hn Htr Ea) as (ord1 & Htr1 & Ho1).
    destruct (IH _ _ _ _ _ Htr1 E) as (ord2 & Htr2 & Ho2). exists ord2.
    split; [|intros i Hi; by rewrite Ho2, Ho1, app_assoc by done]. unfold argsIn in *. rewrite fmap_cons. cbn [concat].
    rewrite app_assoc. eapply traced_same; [exact Htr2|done..|]. intros i w Ew. exists w. by rewrite <- app_assoc.
Qed.

Lemma New_workers n choice p i w : New n choice = Ret p -> workers p !! i = Some w ->
  w = newWorker (choice i) /\ (i < Z.to_nat n)%nat.
Proof.
  unfold New. destruct (n <? 0); [done|]. intros [= <-]. simpl. rewrite list_lookup_fmap.
  intros (j & [-> Hj]%lookup_seq & ->)%fmap_Some. done.
Qed.

Lemma New_traced n choice p : 0 < n -> New n choice = Ret p ->
  traced (Z.to_nat n) [] (fun _ => []) (fun _ => []) p.
Proof.
  intros Hn E. unfold New in E. destruct (Z.ltb_spec n 0); [lia|]. injection E as <-.
  split; try done; cbn [workers calls plog].
  - by rewrite length_fmap, length_seq.
  - intros i w Ew. rewrite list_lookup_fmap in Ew.
    destruct (seq 0 (Z.to_nat n) !! i); [|done]. injection Ew as <-. done.
  - intros i. constructor.
  - intros i id Hid. by apply elem_of_nil in Hid.
Qed.

(** The state of a worker is what its work alone gives. *)
Lemma workIn_new n choice acts p0 p i w : 0 < n -> New n choice = Ret p0 -> runActs acts p0 = Ret (tt, p) ->
  workers p !! i = Some w -> performAll (workIn i acts p0) (newWorker (choice i)) = Ret (tt, set_wiCh [] w).
Proof.
  intros Hn E0 E Ew. pose proof (New_traced n choice p0 Hn E0) as Htr0.
  destruct (traced_run (Z.to_nat n) acts ltac:(lia) [] _ _ p0 p Htr0 E) as (ord & Htr & _).
  destruct (lookup_lt_is_Some_2 (workers p0) i) as [w0 Ew0].
  { rewrite (td_workers _ _ _ _ _ Htr0), <- (td_workers _ _ _ _ _ Htr). by eapply lookup_lt_Some. }
  destruct (workIn_done i acts p0 p w0 E Ew0) as (w' & Ew' & Ed). apply (New_workers n choice p0 i w0 E0) in Ew0 as [-> _].
  by simplify_eq.
Qed.

Lemma worker_alone n choice acts p0 p i w : 0 < n -> New n choice = Ret p0 -> runActs acts p0 = Ret (tt, p) ->
  workers p !! i = Some w ->
  exists w1, callBacks memcachePorts (callsMade (workIn i acts p0)) (newWorker (choice i)) = Ret (tt, w1) /\
    consumers w = consumers w1 /\ halfOpen w = halfOpen w1.
Proof. intros Hn E0 E Ew. exact (performAll_callBacks _ _ _ (workIn_new n choice acts p0 p i w Hn E0 E Ew)). Qed.

(** C4: what the workers are given.  In every run of the pool, under any schedule of
    its callers, workers and tickers, the state of every worker is what it gives
    when the worker does its work alone: it took batches, and its ticker ticked.
    These batches, followed by those in its queue, are its shards of the calls of
    HandlePackets that sent it one, in the order in which they did, and of no call
    twice; if no queue was ever full, these are all calls that have finished sending
    and have packets for it. *)
Theorem workers_get_shards n choice acts p0 p : 0 < n -> New n choice = Ret p0 -> runActs acts p0 = Ret (tt, p) ->
  forall i w, workers p !! i = Some w ->
    performAll (workIn i acts p0) (newWorker (choice i)) = Ret (tt, set_wiCh [] w) /\
    taken (workIn i acts p0) ++ (dps <$> wiCh w) = batchOf (Z.to_nat n) (argsIn acts) i <$> sentIn i acts p0 /\
    NoDup (sentIn i acts p0) /\
    (plog p = [] -> forall id c, calls p !! id = Some c -> todo c = [] ->
       batchOf (Z.to_nat n) (argsIn acts) i id <> [] -> id ∈ sentIn i acts p0).
Proof.
  intros Hn E0 E i w Ew. pose proof (New_traced n choice p0 Hn E0) as Htr0.
  destruct (traced_run (Z.to_nat n) acts ltac:(lia) [] _ _ p0 p Htr0 E) as (ord & [Hw Hc Ht Htk Ho Hs Ha] & Hord).
  assert (i < Z.to_nat n)%nat as Hi by (rewrite <- Hw; by eapply lookup_lt_Some).
  pose proof (Hord i Hi) as Eo. cbn [app] in Eo. rewrite <- Eo. split; [|split; [by apply Htk|split; [done|]]].
  - by eapply workIn_new.
  - intros Hlog id c Ec Etd Hb. apply (Ha Hlog i id c Ec); [|done..].
    destruct (decide (i < at_ c)%nat) as [|Hge]; [done|]. exfalso. apply Hb.
    pose proof (Ht id c Ec) as Edrop. rewrite Etd in Edrop. symmetry in Edrop.
    apply (f_equal length) in Edrop. rewrite length_drop in Edrop. unfold shards in Edrop.
    rewrite length_fmap, length_seq in Edrop. simpl in Edrop. lia.
Qed.

End dispatch.
