(* ===== verification/Conservation.v ===== *)
(** * From capture to assembly: no packet is lost

    The decode workers pass their batches to HandlePackets of the assembly pool.
    When both pools have come to rest, and no queue was ever full, the packets that
    the assembly workers have taken are those that CollectPackets delivered, decoded,
    each exactly once. *)
From S2P Require Import Prelude GoLib Buffer Reader Model McText Progress PacketBuffer Capture Replay Decode.
From S2P Require Import DecodePool Batches Assembly Dispatch.
Local Open Scope Z_scope.

(** ** Lemmas: sums of lists *)

Lemma concat_swap {A} (f : nat -> nat -> list A) (ks js : list nat) :
  concat ((fun i => concat (f i <$> js)) <$> ks) ≡ₚ concat ((fun j => concat ((fun i => f i j) <$> ks)) <$> js).
Proof.
  induction ks as [|i ks IH].
  - change (@nil A ≡ₚ concat ((fun j => concat ((fun i => f i j) <$> [])) <$> js)).
    induction js as [|j js IHj]; [done|]. by csimpl.
  - rewrite fmap_cons. cbn [concat]. rewrite IH. clear IH. induction js as [|j js IH]; [done|].
    csimpl. csimpl in IH. rewrite <- IH, <- !app_assoc.
    apply Permutation_app_head. rewrite !app_assoc. apply Permutation_app_tail, Permutation_app_comm.
Qed.

Lemma concat_perm_map {A} (f g : nat -> list A) (ks : list nat) : (forall i, i ∈ ks -> f i ≡ₚ g i) ->
  concat (f <$> ks) ≡ₚ concat (g <$> ks).
Proof.
  induction ks as [|i ks IH]; intros Hfg; [done|]. rewrite !fmap_cons. cbn [concat].
  rewrite (Hfg i) by (by left). rewrite IH; [done|]. intros j Hj. apply Hfg. by right.
Qed.

(** A list without the indices whose part is empty has all the parts. *)
Lemma concat_nonempty {A} (f : nat -> list A) (ks : list nat) n : NoDup ks ->
  (forall i, i ∈ ks -> (i < n)%nat) -> (forall i, (i < n)%nat -> f i <> [] -> i ∈ ks) ->
  concat (f <$> ks) ≡ₚ concat (f <$> seq 0 n).
Proof.
  intros Hnd Hlt Hall. assert (exists js, seq 0 n ≡ₚ ks ++ js) as [js Hp].
  { apply submseteq_Permutation, NoDup_submseteq; [done|]. intros i Hi. apply elem_of_seq. specialize (Hlt i Hi). lia. }
  rewrite Hp, fmap_app, concat_app. assert (NoDup (ks ++ js)) as Hnd2 by (rewrite <- Hp; apply NoDup_seq).
  apply NoDup_app in Hnd2 as (_ & Hdis & _).
  assert (concat (f <$> js) = []) as ->; [|by rewrite app_nil_r].
  assert (forall j, j ∈ js -> f j = []) as Hnil.
  { intros j Hj. destruct (f j) eqn:Ej; [done|]. exfalso. apply (Hdis j); [|done]. apply Hall; [|by rewrite Ej].
    assert (j ∈ seq 0 n) as [_ ?]%elem_of_seq; [|lia]. rewrite Hp. apply elem_of_app. by right. }
  clear -Hnil. induction js as [|j js IH]; [done|]. rewrite fmap_cons. cbn [concat]. rewrite Hnil by (by left).
  apply IH. intros k Hk. apply Hnil. by right.
Qed.

Lemma Forall2_concat {A B} (R : A -> B -> Prop) ls ls' : Forall2 (Forall2 R) ls ls' -> Forall2 R (concat ls) (concat ls').
Proof. induction 1; [constructor|]. by apply Forall2_app. Qed.

(** What belongs to each of [n] classes is everything. *)
Lemma concat_classes {A} (P : nat -> A -> bool) n (l : list A) :
  (forall x, x ∈ l -> exists i, (i < n)%nat /\ forall j, (j < n)%nat -> P j x = bool_decide (j = i)) ->
  concat ((fun i => List.filter (P i) l) <$> seq 0 n) ≡ₚ l.
Proof.
  induction l as [|x l IH]; intros Hx.
  { assert (forall js, concat ((fun i => List.filter (P i) (@nil A)) <$> js) = []) as ->; [|done].
    induction js; [done|]. by csimpl. }
  destruct (Hx x ltac:(by left)) as (i & Hi & Hp).
  assert (concat ((fun i => List.filter (P i) l) <$> seq 0 n) ≡ₚ l) as IHl by (apply IH; intros y Hy; apply Hx; by right).
  revert IHl. assert (seq 0 n = seq 0 i ++ i :: seq (S i) (n - S i)) as ->.
  { replace n with (i + S (n - S i))%nat at 1 by lia. by rewrite seq_app. }
  assert (forall js, (forall j, j ∈ js -> (j < n)%nat /\ j <> i) ->
    (fun j => List.filter (P j) (x :: l)) <$> js =@{list (list A)} (fun j => List.filter (P j) l) <$> js) as Hsame.
  { intros js Hjs. apply list_fmap_ext. intros k j Ej. apply list_elem_of_lookup_2, Hjs in Ej as [Hj Hne].
    cbn [List.filter]. by rewrite Hp, bool_decide_false. }
  rewrite !fmap_app, !fmap_cons, !concat_app. cbn [concat].
  rewrite !Hsame by (intros j Hj%elem_of_seq; lia).
  assert (List.filter (P i) (x :: l) = x :: List.filter (P i) l) as -> by (cbn [List.filter]; by rewrite Hp, bool_decide_true).
  intros IHl. etrans; [|by apply perm_skip, IHl]. cbn [app]. symmetry. apply Permutation_middle.
Qed.

Section conservation.
  Context {GP : GopacketPkg} {LP : LayersPkg} {HAsm : TcpAssembly}.
  Context {Src : Type} {HSrc : PacketSource Src} {HColl : CollectorLaws Src} (memcachePorts : list Z).

(** ** Lemmas: what the assembly workers take *)

Lemma shards_perm n ds : (0 < n)%nat -> concat (shards n ds) ≡ₚ ds.
Proof.
  intros Hn. unfold shards, shardOf. apply (concat_classes (fun i dp => slotOf (Z.of_nat n) dp =? Z.of_nat i)).
  intros dp _. pose proof (Z.mod_pos_bound (FlowHash dp) (Z.of_nat n) ltac:(lia)) as Hb. fold (slotOf (Z.of_nat n) dp) in Hb.
  exists (Z.to_nat (slotOf (Z.of_nat n) dp)). split; [lia|]. intros j Hj. case_bool_decide; lia.
Qed.

Lemma args_at (args : list (list DecodedPacket)) : argAt args <$> seq 0 (length args) = args.
Proof.
  apply list_eq. intros i. rewrite list_lookup_fmap. destruct (decide (i < length args)%nat) as [Hi|Hi].
  - rewrite lookup_seq_lt by done. simpl. unfold argAt.
    by destruct (lookup_lt_is_Some_2 args i Hi) as [ds ->].
  - by rewrite !lookup_ge_None_2 by (rewrite ?length_seq; lia).
Qed.

(** The pool is at rest: everything is sent, and everything is taken. *)
Definition atRest (p : Assembly.Pool) : Prop :=
  (forall id c, Assembly.calls p !! id = Some c -> todo c = []) /\ Forall (fun w => wiCh w = []) (Assembly.workers p).

Lemma taken_everything n args wk ord p : (0 < n)%nat -> traced n args wk ord p -> plog p = [] -> atRest p ->
  concat ((fun i => concat (taken (wk i))) <$> seq 0 n) ≡ₚ concat args.
Proof.
  intros Hn [Hw Hc Ht Htk Ho Hs Ha] Hlog [Htodo Hq].
  etrans; [apply (concat_perm_map _ (fun i => concat (batchOf n args i <$> seq 0 (length args))))|].
  { intros i [_ Hi]%elem_of_seq. destruct (lookup_lt_is_Some_2 (Assembly.workers p) i) as [w Ew]; [lia|].
    pose proof (Htk i w Ew) as Et. pose proof (Forall_lookup_1 _ _ _ _ Hq Ew) as Eq. cbn in Eq.
    rewrite Eq in Et. cbn in Et. rewrite app_nil_r in Et. rewrite Et. apply concat_nonempty; [done| |].
    - intros id (c & Ec & _)%Hs. rewrite Hc. by eapply lookup_lt_Some.
    - intros id Hid Hb. rewrite Hc in Hid. destruct (lookup_lt_is_Some_2 _ _ Hid) as [c Ec].
      apply (Ha Hlog i id c Ec); [|lia|done]. pose proof (Ht id c Ec) as Ed. rewrite (Htodo id c Ec) in Ed.
      apply (f_equal length) in Ed. rewrite length_drop in Ed. unfold shards in Ed.
      rewrite length_fmap, length_seq in Ed. simpl in Ed. lia. }
  etrans; [apply (concat_swap (batchOf n args))|].
  transitivity (concat (argAt args <$> seq 0 (length args))); [|by rewrite args_at].
  apply concat_perm_map. intros id _. by apply (shards_perm n (argAt args id)).
Qed.

(** ** Lemmas: what the decode workers hand over *)

(** Nothing is in the hands of a decode worker. *)
Definition allDecoded (p : DecodePool.Pool (Src := Src)) : Prop :=
  Forall (fun w => inHand w = []) (DecodePool.workers p).

Lemma buffers_perm n (l : list (nat * PacketBuffer)) : Forall (fun x => (x.1 < n)%nat) l ->
  concat ((fun i => buffersOf i l) <$> seq 0 n) ≡ₚ l.*2.
Proof.
  intros Hl. assert (forall i, buffersOf i l = (List.filter (fun x => bool_decide (x.1 = i)) l).*2) as Hb.
  { intros i. unfold buffersOf. induction l as [|[j pb] l IH]; [done|]. apply Forall_cons in Hl as [_ Hl]. cbn.
    case_decide; [rewrite bool_decide_true by done|rewrite bool_decide_false by done]; cbn; by rewrite IH. }
  transitivity (concat ((fun i => List.filter (fun x => bool_decide (x.1 = i)) l) <$> seq 0 n)).*2.
  - rewrite fmap_concat, <- list_fmap_compose. apply Permutation_refl', f_equal, list_fmap_ext. intros k i _. apply Hb.
  - apply fmap_Permutation, concat_classes. intros x Hx%list_elem_of_lookup. destruct Hx as [k Hk].
    exists x.1. split; [by apply (Forall_lookup_1 _ _ _ _ Hl Hk)|]. intros j _. by apply bool_decide_ext.
Qed.

Lemma collected_workers n acts : forall p p' : DecodePool.Pool (Src := Src), DecodePool.pool_inv p ->
  numWorkers p = Z.of_nat n -> DecodePool.runActs acts p = Ret (tt, p') ->
  length (DecodePool.workers p') = n /\ Forall (fun x => (x.1 < n)%nat) (collectedIn acts p).
Proof.
  assert (forall p : DecodePool.Pool (Src := Src), DecodePool.pool_inv p -> numWorkers p = Z.of_nat n ->
    length (DecodePool.workers p) = n) as Hlen.
  { intros p Hinv En. destruct (pi_n p Hinv) as [Hl _]. unfold zlen in Hl. lia. }
  induction acts as [|a acts IH]; intros p p' Hinv En E; cbn [collectedIn].
  - cbn in E. injection E as <-. split; [by apply Hlen|constructor].
  - apply runActs_cons in E as (p1 & E1 & E). rewrite E1.
    destruct (IH p1 p' (pool_act_inv p a p1 Hinv E1)) as [Hl Hf]; [|done|].
    { by rewrite (move_n p a p1 (act_move p a p1 Hinv E1)). }
    split; [done|]. apply Forall_app. split; [|done]. unfold collectedOf. destruct a; [|constructor].
    destruct (runAt p); try constructor. destruct (DecodePool.workers p !! w) as [w0|] eqn:Ew; [|constructor].
    apply lookup_lt_Some in Ew. rewrite (Hlen p Hinv En) in Ew.
    destruct (CollectPackets _ _) as [[[[e|] pb] s]| | |]; try constructor.
    destruct (0 <? PacketLen pb); by repeat constructor.
Qed.

(** The buffers that were collected, and the batches that the handlers got. *)
Lemma decoded_everything n s acts p0 p : 0 <= n <= int_max -> coll_ok s -> NewPool n s = Ret p0 ->
  DecodePool.runActs acts p0 = Ret (tt, p) -> allDecoded p ->
  exists dss, Forall2 decodedBatch (collectedIn acts p0).*2 dss /\
    dss ≡ₚ concat ((fun w => handlerCalls (wdec w)) <$> DecodePool.workers p).
Proof.
  intros Hn Hs E0 E Hall. destruct (NewPool_inv n s Hn Hs) as (p1 & E1 & Hinv). rewrite E0 in E1. injection E1 as <-.
  assert (numWorkers p0 = Z.of_nat (Z.to_nat n)) as En.
  { unfold NewPool, startWorker in E0. destruct (n <? 0); [done|]. destruct (NewPacketBuffer _ _); try done.
    injection E0 as <-. simpl. lia. }
  destruct (collected_workers _ acts p0 p Hinv En E) as [Hl Hf].
  destruct (Permutation_Forall2 (buffers_perm _ _ Hf) (l2 := concat ((fun w => handlerCalls (wdec w)) <$> DecodePool.workers p))
    (P := decodedBatch)) as (dss & Hp & Hd); [|by exists dss].
  apply Forall2_concat. rewrite <- Hl. apply Forall2_same_length_lookup. rewrite !length_fmap, length_seq. split; [done|].
  intros i bs hs Eb Eh. rewrite list_lookup_fmap in Eb. rewrite list_lookup_fmap in Eh. destruct (DecodePool.workers p !! i) as [w|] eqn:Ew; [|done].
  injection Eh as <-. rewrite lookup_seq_lt in Eb by (by eapply lookup_lt_Some). injection Eb as <-.
  destruct (handed_over n s acts p0 p Hn Hs E0 E i w Ew) as (don & -> & Hd).
  rewrite (Forall_lookup_1 _ _ _ _ Hall Ew), app_nil_r. done.
Qed.

(** ** The theorem *)

(** C5: no packet is lost or handled twice between capture and assembly.  The decode
    workers call HandlePackets with the batches they hand over, under any schedules
    of the two pools.  When no decode worker has a buffer in hand, the assembly
    pool is at rest and none of its queues was ever full, the packets that all
    assembly workers together have taken are exactly the packets of the buffers that
    CollectPackets filled, each decoded once. *)
Theorem packets_conserved n s dacts d0 d nw choice aacts a0 a :
  0 <= n <= int_max -> coll_ok s -> NewPool n s = Ret d0 ->
  DecodePool.runActs dacts d0 = Ret (tt, d) -> allDecoded d ->
  0 < nw -> Assembly.New nw choice = Ret a0 -> Assembly.runActs memcachePorts aacts a0 = Ret (tt, a) ->
  plog a = [] -> atRest a ->
  interleaves ((fun w => handlerCalls (wdec w)) <$> DecodePool.workers d) (argsIn aacts) ->
  exists pdss dss, Forall2 holdsPackets (collectedIn dacts d0).*2 pdss /\
    Forall2 (Forall2 (fun pd dp1 => exists dp, decodedFrom pd dp dp1)) pdss dss /\
    concat ((fun i => concat (taken (workIn memcachePorts i aacts a0))) <$> seq 0 (Z.to_nat nw)) ≡ₚ concat dss.
Proof.
  intros Hn Hs Ed0 Ed Hall Hnw Ea0 Ea Hlog Hrest Hint.
  destruct (decoded_everything n s dacts d0 d Hn Hs Ed0 Ed Hall) as (dss & Hd & Hp).
  pose proof (New_traced nw choice a0 Hnw Ea0) as Htr0.
  destruct (traced_run memcachePorts (Z.to_nat nw) aacts ltac:(lia) [] _ _ a0 a Htr0 Ea) as (ord & Htr & _).
  pose proof (taken_everything (Z.to_nat nw) _ _ _ _ ltac:(lia) Htr Hlog Hrest) as Ht. cbn [app] in Ht.
  assert (exists pdss, Forall2 holdsPackets (collectedIn dacts d0).*2 pdss /\
    Forall2 (Forall2 (fun pd dp1 => exists dp, decodedFrom pd dp dp1)) pdss dss) as (pdss & ? & ?).
  { clear -Hd. induction Hd as [|pb ds pbs dss (pds & Hpb & Hds) _ (pdss & ? & ?)]; [by exists []|].
    exists (pds :: pdss). by split; constructor. }
  exists pdss, dss. split_and!; [done..|]. by rewrite Ht, Hp, (interleaves_perm _ _ Hint).
Qed.

End conservation.
