(* ===== verification/Pipeline.v ===== *)
(** * The connections of a worker

    The calls an assembler makes for the connections of a worker, interleaved in any
    way, create a consumer for each (Assembly), which parses its own calls into
    events and hands them over (Conversation).  Either direction of a connection may
    be seen first, and either may end first; calls without data may come anywhere
    between (Deliveries).  Traffic.v goes on to the report. *)
From Stdlib Require Import Strings.Byte.
From S2P Require Import Prelude GoLib Buffer Stream Reader Model McText Progress Transaction Deliveries Conversation.
From S2P Require Import Hotlist Analysis Callers Concurrent PacketBuffer Decode Assembly.
Local Open Scope Z_scope.

(** The inputs of transactions are within bounds. *)
Lemma segments_ok srv segs : Forall (fun s => s <> [] /\ zlen s <= segment_max) segs ->
  Forall input_ok ((fun s => dataOf srv (segment s)) <$> segs).
Proof.
  intros Hsegs. apply Forall_fmap. eapply Forall_impl; [exact Hsegs|]. intros s [_ Hs].
  cbn. rewrite dataOf_ok. apply Forall_singleton. unfold reassembly_ok, delivery, segment_max, big in *. simpl. lia.
Qed.

Lemma tx_inputs_ok ts : Forall tx_ok ts -> Forall input_ok (concat (tx_inputs <$> ts)).
Proof.
  intros Hts. apply Forall_concat, Forall_fmap. eapply Forall_impl; [exact Hts|].
  intros t [_ [_ Ha] [_ Hs]]. apply Forall_app. split; [by apply (segments_ok false)|by apply (segments_ok true)].
Qed.

(** ** The calls of a connection *)

Section pipeline.
  Context `{HAsm : TcpAssembly} `{HFlows : !GopacketLaws} (memcachePorts : list Z).
  Local Abbreviation C := (Consumer Source StateFn Proto).

(** A call that the assembler makes for a connection: it creates the stream of a
    direction, or calls one. *)
Inductive connCall := Opens (fromServer : bool) | Gives (i : input).

(** A connection, by the flows of its server's stream, its traffic, and the calls
    that carry it. *)
Record connection := mkConn {
  connNet : Flow;
  connTransport : Flow;
  connTxs : list transaction;
  connScript : list connCall
}.

Definition serverKey (x : connection) : connectionKey := mkKey _ (connNet x) (connTransport x).
Definition clientKey (x : connection) : connectionKey := key_Reverse (serverKey x).
Definition keyFor (fromServer : bool) (x : connection) : connectionKey :=
  if fromServer then serverKey x else clientKey x.
Definition streamFor (fromServer : bool) (n : nat) : stream :=
  if fromServer then ServerStream n else ClientStream n.
Definition connEvents (x : connection) : list Event := concat (tx_events <$> connTxs x).

Definition given (calls : list connCall) : list input :=
  omap (fun a => match a with Gives i => Some i | Opens _ => None end) calls.

(** What becomes of the two directions, true for the server's. *)
Inductive side := Unopened | Opened | Completed.

Definition sideOf (i : input) : bool := match i with ServerData _ | ServerDone => true | _ => false end.
Definition isDone (i : input) : bool := match i with ClientDone | ServerDone => true | _ => false end.
Definition become (srv : bool) (x : side) (sides : bool -> side) : bool -> side :=
  fun srv' => if eqb srv' srv then x else sides srv'.

(** A stream is created once, and called from then on until it completes. *)
Fixpoint orderly (sides : bool -> side) (calls : list connCall) : Prop :=
  match calls with
  | [] => True
  | Opens srv :: calls => sides srv = Unopened /\ orderly (become srv Opened sides) calls
  | Gives i :: calls => sides (sideOf i) = Opened /\
      orderly (if isDone i then become (sideOf i) Completed sides else sides) calls
  end.

(** The data of the conversation, then the end of the two directions. *)
Definition carries (ts : list transaction) (ins : list input) : Prop :=
  exists body, delivered (concat (tx_inputs <$> ts)) body /\ completed body ins.

Record connection_ok (x : connection) : Prop := {
  co_server : IsFromServer memcachePorts (connTransport x) = Ret true;
  co_client : IsFromServer memcachePorts (Flow_Reverse (connTransport x)) = Ret false;
  co_txs : Forall tx_ok (connTxs x);
  co_orderly : orderly (fun _ => Unopened) (connScript x);
  co_carries : carries (connTxs x) (given (connScript x))
}.

(** The calls, by the key of their stream. *)
Definition callOf (x : connection) (a : connCall) : callback :=
  match a with
  | Opens srv => CbNew (keyFor srv x)
  | Gives (ClientData rs) => CbReassembled (clientKey x) rs
  | Gives (ServerData rs) => CbReassembled (serverKey x) rs
  | Gives ClientDone => CbReassemblyComplete (clientKey x)
  | Gives ServerDone => CbReassemblyComplete (serverKey x)
  end.

Definition connectionCalls (x : connection) : list callback := callOf x <$> connScript x.

Lemma connKey_keyFor srv x : connKey srv (netFlow (keyFor srv x)) (transportFlow (keyFor srv x)) = serverKey x.
Proof. destruct srv; unfold connKey, keyFor, clientKey, key_Reverse; simpl; rewrite ?Reverse_Reverse; by destruct x. Qed.

Lemma keyFor_server srv x : connection_ok x -> IsFromServer memcachePorts (transportFlow (keyFor srv x)) = Ret srv.
Proof. intros []. by destruct srv. Qed.

(** A client's key is never a server's. *)
Lemma keyFor_inj srv srv' x y : connection_ok x -> connection_ok y -> keyFor srv x = keyFor srv' y ->
  srv = srv' /\ serverKey x = serverKey y.
Proof.
  intros Hx Hy E. pose proof (keyFor_server srv x Hx) as Hk. rewrite E, (keyFor_server srv' y Hy) in Hk.
  injection Hk as Es. subst srv'. split; [done|]. rewrite <- (connKey_keyFor srv x), <- (connKey_keyFor srv y). by rewrite E.
Qed.

(** What is delivered hands exactly the events of the connection over. *)
Lemma carries_ok ts ins : Forall tx_ok ts -> carries ts ins -> Forall input_ok ins.
Proof.
  intros Hts (body & Hd & Hc). eapply completed_ok, delivered_ok; [exact Hc|exact Hd|by apply tx_inputs_ok].
Qed.

Lemma carries_conversed ts ins (c : C) : Forall tx_ok ts -> carries ts ins -> idle c -> events c = [] ->
  conversed ins (handedOver (concat (tx_events <$> ts))) c.
Proof.
  intros Hts (body & Hd & Hc) Hidle Hev. eapply completed_handedOver; [exact Hc|].
  eapply settles_delivered; [|exact Hd]. eapply settles_mono; [|by apply transactions_idle].
  intros c' [? He]. split; [done|]. by rewrite He, Hev.
Qed.

(** ** Lemmas: one connection among others *)

(** What a call for connection [x], with consumer [n], may change. *)
Record frame (x : connection) (n : nat) (w w' : worker) : Prop := {
  fr_half k : k <> serverKey x -> halfOpen w' !! k = halfOpen w !! k;
  fr_streams k : (forall srv, k <> keyFor srv x) -> streams w' !! k = streams w !! k;
  fr_consumers m c : m <> n -> consumers w !! m = Some c -> consumers w' !! m = Some c;
  fr_pool : Forall source_fresh (bufferPool_ w')
}.

(** Consumer [n] has still to be given [ins], and then has reported [evs]. *)
Definition serving (w : worker) (n : nat) (ins : list input) (evs : list Event) : Prop :=
  exists c, consumers w !! n = Some c /\ consumer_inv c /\ conversed ins (handedOver evs) c.

(** The directions that were created and are not complete have their stream, and
    one that is still to be created finds the consumer. *)
Record attached (x : connection) (w : worker) (n : nat) (sides : bool -> side) : Prop := {
  at_streams srv : sides srv = Opened -> streams w !! keyFor srv x = Some (streamFor srv n);
  at_half srv : sides srv = Unopened -> sides (negb srv) <> Unopened /\ halfOpen w !! serverKey x = Some n
}.

(** How far connection [x] has come, when the calls [rem] are left: its consumer
    is [o], if it has one. *)
Inductive progress (x : connection) (w : worker) : option nat -> list callback -> Prop :=
  | progress_new : halfOpen w !! serverKey x = None -> progress x w None (connectionCalls x)
  | progress_on n sides calls : orderly sides calls -> attached x w n sides -> Forall input_ok (given calls) ->
      serving w n (given calls) (connEvents x) -> progress x w (Some n) (callOf x <$> calls).

Lemma serving_frame x n w w' m ins evs : frame x n w w' -> m <> n -> serving w m ins evs -> serving w' m ins evs.
Proof. intros Hf Hm (c & Hc & ?). exists c. split; [by eapply fr_consumers|done]. Qed.

(** The calls of a connection do not disturb the others. *)
Lemma progress_frame x y n w w' o rem : connection_ok x -> connection_ok y -> serverKey y <> serverKey x ->
  o <> Some n -> frame x n w w' -> progress y w o rem -> progress y w' o rem.
Proof.
  intros Hx Hy Hne Ho Hf Hpr. destruct Hpr as [Hn|m sides calls Hord [Hs Hh] Hok Hserv].
  - constructor. by rewrite (fr_half _ _ _ _ Hf).
  - eapply progress_on; [exact Hord| |done|apply (serving_frame x n w); [done|intros ->; by apply Ho|done]]. split.
    + intros srv Hsrv. rewrite (fr_streams _ _ _ _ Hf); [by apply Hs|].
      intros srv' E. by destruct (keyFor_inj _ _ _ _ Hy Hx E).
    + intros srv Hsrv. rewrite (fr_half _ _ _ _ Hf) by done. by apply Hh.
Qed.

(** A call that delivers an input to the consumer of [x]. *)
Lemma onConsumer_serving x n inp ins evs w : Forall source_fresh (bufferPool_ w) -> input_ok inp ->
  serving w n (inp :: ins) evs ->
  exists w', onConsumer n (deliver inp) w = Ret (tt, w') /\ serving w' n ins evs /\ frame x n w w' /\
    streams w' = streams w /\ halfOpen w' = halfOpen w /\ length (consumers w') = length (consumers w).
Proof.
  intros Hp Hok (c & Ec & Hinv & Hconv).
  destruct (wp_and _ _ _ _ (Hconv (bufferPool_ w))
    (deliver_inv inp _ (set_pool_inv (bufferPool_ w) c Hinv Hp) Hok)) as ([] & c' & E & Hconv' & Hinv').
  unfold onConsumer. rewrite Ec. unfold mbind, outcome_bind. rewrite E. eexists. split; [done|].
  split; [|split; [split; simpl; try done; [|apply Hinv']|simpl; by rewrite length_insert]].
  - exists (set_pool [] c'). simpl. split; [apply list_lookup_insert_eq; by eapply lookup_lt_Some|].
    split; [apply set_pool_inv; [done|constructor]|]. by destruct ins.
  - intros m cm Hm Ecm. by rewrite list_lookup_insert_ne.
Qed.

(** One call. *)
Definition advanced (x : connection) (o : option nat) (w : worker) (rem : list callback) (w' : worker) : Prop :=
  exists n, progress x w' (Some n) rem /\ frame x n w w' /\
    ((o = Some n /\ length (consumers w') = length (consumers w)) \/
     (o = None /\ n = length (consumers w) /\ length (consumers w') = S n)).

(** The first stream of a connection makes its consumer. *)
Lemma advance_first x w srv calls : connection_ok x -> Forall source_fresh (bufferPool_ w) ->
  halfOpen w !! serverKey x = None -> connScript x = Opens srv :: calls ->
  exists w', callBack memcachePorts (CbNew (keyFor srv x)) w = Ret (tt, w') /\
    advanced x None w (callOf x <$> calls) w'.
Proof.
  intros Hok Hp Hnone Escr. pose proof (co_orderly _ Hok) as Hord. pose proof (co_carries _ Hok) as Hcar.
  rewrite Escr in Hord, Hcar. destruct Hord as [_ Hord].
  destruct (NewConsumer_inv (poolChoice w (poolGets w)) (poolChoice w (S (poolGets w))) (bufferPool_ w) Hp)
    as (c & E0 & Hinv & Hcl & Hsv & Est & Hrun & Hev).
  assert (createConsumer w = Ret (length (consumers w), set_consumers (consumers w ++ [set_pool [] c]) (bufferPool c)
    (S (S (poolGets w))) w)) as Ecreate by (unfold createConsumer, mbind, outcome_bind; by rewrite E0).
  pose proof (factory_first memcachePorts srv (netFlow (keyFor srv x)) (transportFlow (keyFor srv x)) w _ _
    (keyFor_server srv x Hok) ltac:(by rewrite connKey_keyFor) Ecreate) as E1. rewrite connKey_keyFor in E1.
  eexists. split; [cbn [callBack]; unfold mbind, gom_bind, modify; by rewrite E1|].
  exists (length (consumers w)). split; [|split; [split; simpl|right; simpl; rewrite length_app; simpl; by rewrite Nat.add_1_r]].
  - eapply progress_on; [exact Hord| |by eapply carries_ok; [apply Hok|]|].
    + split; simpl; intros srv' Hsrv'; unfold become in *; destruct srv, srv'; simpl in *; try done;
        rewrite ?lookup_insert_eq; done.
    + exists (set_pool [] c). simpl. split; [by rewrite lookup_app_r, Nat.sub_diag by lia|].
      split; [apply set_pool_inv; [done|constructor]|]. apply carries_conversed; [apply Hok|done| |exact Hev].
      apply idle_pool. split; [by left|done|rewrite Hcl; apply holds_new|rewrite Hsv; apply holds_new|apply Hinv].
  - intros k Hk. by rewrite lookup_insert_ne.
  - intros k Hk. rewrite lookup_insert_ne; [done|]. by apply not_eq_sym.
  - intros m cm Hm Em. by apply lookup_app_l_Some.
  - apply Hinv.
Qed.

(** The second finds it. *)
Lemma advance_second x n w sides srv calls : connection_ok x -> Forall source_fresh (bufferPool_ w) ->
  orderly sides (Opens srv :: calls) -> attached x w n sides -> Forall input_ok (given calls) ->
  serving w n (given calls) (connEvents x) ->
  exists w', callBack memcachePorts (CbNew (keyFor srv x)) w = Ret (tt, w') /\
    advanced x (Some n) w (callOf x <$> calls) w'.
Proof.
  intros Hok Hp [Hsrv Hord] [Hs Hh] Hins Hserv. destruct (Hh srv Hsrv) as [Hother Hhalf].
  pose proof (factory_second memcachePorts srv (netFlow (keyFor srv x)) (transportFlow (keyFor srv x)) w n
    (keyFor_server srv x Hok) ltac:(by rewrite connKey_keyFor)) as E. rewrite connKey_keyFor in E.
  eexists. split; [cbn [callBack]; unfold mbind, gom_bind, modify; by rewrite E|].
  exists n. split; [|split; [split; simpl; try done|by left]].
  - eapply progress_on; [exact Hord| |done|exact Hserv]. split; simpl; intros srv' Hsrv'.
    + unfold become in Hsrv'. destruct (eqb srv' srv) eqn:Eb.
      * apply eqb_prop in Eb as ->. by rewrite lookup_insert_eq; destruct srv.
      * rewrite lookup_insert_ne; [by apply Hs|]. intros Ek. apply keyFor_inj in Ek as [-> _]; try done.
        by rewrite eqb_reflx in Eb.
    + exfalso. unfold become in Hsrv'. by destruct srv, srv'.
  - intros k Hk. by rewrite lookup_delete_ne.
  - intros k Hk. rewrite lookup_insert_ne; [done|]. by apply not_eq_sym.
Qed.

(** Data, or the end of it, reaches the consumer of the connection. *)
Lemma callBack_gives x n i w : streams w !! keyFor (sideOf i) x = Some (streamFor (sideOf i) n) ->
  callBack memcachePorts (callOf x (Gives i)) w =
    (onConsumer n (deliver i);; if isDone i then modify (fun w => set_streams (delete (keyFor (sideOf i) x) (streams w)) w)
     else mret tt)%go w.
Proof.
  intros Hs. destruct i; cbn [callOf callBack sideOf keyFor isDone streamFor] in *; unfold mbind, gom_bind, getStream;
    rewrite Hs; cbn [Reassembled ReassemblyComplete]; try done;
    by destruct (onConsumer n _ w) as [[[] ?]| | |].
Qed.

Lemma frame_close x srv n w w' : frame x n w w' ->
  frame x n w (set_streams (delete (keyFor srv x) (streams w')) w').
Proof.
  intros [Hh Hs Hc Hp]. split; simpl; [done| |done|done]. intros k Hk.
  rewrite lookup_delete_ne; [by apply Hs|]. by apply not_eq_sym.
Qed.

Lemma advance_gives x n w sides i calls : connection_ok x -> Forall source_fresh (bufferPool_ w) ->
  orderly sides (Gives i :: calls) -> attached x w n sides -> Forall input_ok (i :: given calls) ->
  serving w n (i :: given calls) (connEvents x) ->
  exists w', callBack memcachePorts (callOf x (Gives i)) w = Ret (tt, w') /\
    advanced x (Some n) w (callOf x <$> calls) w'.
Proof.
  intros Hok Hp [Hside Hord] [Hs Hh] [Hi Hins]%Forall_cons Hserv. rewrite (callBack_gives x n) by auto.
  destruct (onConsumer_serving x n i _ _ w Hp Hi Hserv) as (w' & E & Hserv' & Hf & Es & Eh & El).
  unfold mbind, gom_bind. rewrite E. destruct (isDone i); (eexists; split; [done|]);
    exists n; (split; [|split; [by try apply frame_close|by left]]);
    (eapply progress_on; [exact Hord| |done|exact Hserv']).
  - split; simpl; rewrite ?Es, ?Eh; intros srv Hsrv; unfold become in *; destruct (eqb srv (sideOf i)) eqn:Eb; try done.
    + rewrite lookup_delete_ne; [by apply Hs|]. intros Ek. apply keyFor_inj in Ek as [Ek _]; try done.
      by rewrite Ek, eqb_reflx in Eb.
    + destruct (Hh srv Hsrv) as [? ?]. split; [|done]. by destruct (eqb (negb srv) (sideOf i)).
  - split; rewrite ?Es, ?Eh; [apply Hs|apply Hh].
Qed.

Lemma progress_step x w o cb rem : connection_ok x -> Forall source_fresh (bufferPool_ w) ->
  progress x w o (cb :: rem) ->
  exists w', callBack memcachePorts cb w = Ret (tt, w') /\ advanced x o w rem w'.
Proof.
  intros Hok Hp Hpr. inversion Hpr as [Hn Eo Er|n sides calls Hord Hatt Hins Hserv Eo Er]; subst.
  - unfold connectionCalls in Er. pose proof (co_orderly _ Hok) as Hord.
    destruct (connScript x) as [|[srv|i] calls] eqn:Escr; simplify_eq/=; [|by destruct Hord].
    by apply advance_first.
  - destruct calls as [|[srv|i] calls]; simplify_eq/=.
    + by eapply advance_second.
    + by eapply advance_gives.
Qed.

(** ** Lemmas: all connections *)

(** Where every connection stands: [owners] are their consumers. *)
Record standing (xs : list connection) (w : worker) (owners : list (option nat)) (rems : list (list callback)) : Prop := {
  st_pool : Forall source_fresh (bufferPool_ w);
  st_length : length owners = length xs /\ length rems = length xs;
  st_progress i x o rem : xs !! i = Some x -> owners !! i = Some o -> rems !! i = Some rem -> progress x w o rem;
  st_owners i j n : owners !! i = Some (Some n) -> owners !! j = Some (Some n) -> i = j;
  st_bound i n : owners !! i = Some (Some n) -> (n < length (consumers w))%nat;
  st_covered n : (n < length (consumers w))%nat -> exists i, owners !! i = Some (Some n)
}.

Lemma standing_start xs w : Forall source_fresh (bufferPool_ w) -> consumers w = [] ->
  Forall (fun x => halfOpen w !! serverKey x = None) xs ->
  standing xs w ((fun _ => None) <$> xs) (connectionCalls <$> xs).
Proof.
  intros Hp Hnil Hx. split; [done|by rewrite !length_fmap| | | |rewrite Hnil; simpl; lia].
  - intros i x o rem Ex Eo Er. rewrite list_lookup_fmap, Ex in Eo. rewrite list_lookup_fmap, Ex in Er. simplify_eq/=.
    apply progress_new. by apply (Forall_lookup_1 _ _ _ _ Hx Ex).
  - intros i j n Ei. rewrite list_lookup_fmap in Ei. by destruct (xs !! i).
  - intros i n Ei. rewrite list_lookup_fmap in Ei. by destruct (xs !! i).
Qed.

Lemma serving_bound w n ins evs : serving w n ins evs -> (n < length (consumers w))%nat.
Proof. intros (c & Ec & _). by eapply lookup_lt_Some. Qed.

(** A connection without calls left is served. *)
Lemma progress_end x w o : connection_ok x -> progress x w o [] ->
  exists n, o = Some n /\ serving w n [] (connEvents x).
Proof.
  intros Hok Hpr. inversion Hpr as [Hn Eo Er|n sides calls Hord Hatt Hins Hserv Eo Er]; subst.
  - pose proof (co_carries _ Hok) as (body & _ & first & tail & _ & E). unfold connectionCalls in Er.
    destruct (connScript x); [|done]. symmetry in E. by apply app_nil in E as [_ ?].
  - destruct calls; [|done]. by exists n.
Qed.

Lemma progress_owner x w n rem : progress x w (Some n) rem -> (n < length (consumers w))%nat.
Proof. inversion 1; by eapply serving_bound. Qed.

Lemma frame_length x n w w' : frame x n w w' -> (n < length (consumers w'))%nat ->
  forall m, (m < length (consumers w))%nat -> (m < length (consumers w'))%nat.
Proof.
  intros Hf Hn m Hm. destruct (decide (m = n)) as [->|]; [done|].
  destruct (lookup_lt_is_Some_2 _ _ Hm) as [c Ec]. eapply lookup_lt_Some. by eapply (fr_consumers _ _ _ _ Hf).
Qed.

Lemma standing_step xs w owners rems i cb rem : Forall connection_ok xs -> NoDup (serverKey <$> xs) ->
  standing xs w owners rems -> rems !! i = Some (cb :: rem) ->
  exists w' owners', callBack memcachePorts cb w = Ret (tt, w') /\ standing xs w' owners' (<[i := rem]> rems).
Proof.
  intros Hxs Hnd [Hp [Hlo Hlr] Hpr Hinj Hb Hcov] Hi.
  destruct (lookup_lt_is_Some_2 xs i) as [x Ex]; [rewrite <- Hlr; by eapply lookup_lt_Some|].
  destruct (lookup_lt_is_Some_2 owners i) as [o Eo]; [rewrite Hlo; by eapply lookup_lt_Some|].
  pose proof (Forall_lookup_1 _ _ _ _ Hxs Ex) as Hx.
  destruct (progress_step x w o cb rem Hx Hp (Hpr i x o _ Ex Eo Hi)) as (w' & E & n & Hpr' & Hf & Hn).
  pose proof (progress_owner _ _ _ _ Hpr') as Hbn.
  assert (forall j m, owners !! j = Some (Some m) -> j <> i -> m <> n) as Hother.
  { intros j m Ej Hj ->. destruct Hn as [[-> _]|(-> & -> & _)]; [by apply Hj; eapply Hinj|]. apply Hb in Ej. lia. }
  exists w', (<[i := Some n]> owners). split; [done|]. split.
  - apply Hf.
  - by rewrite !length_insert.
  - intros j y oy ry Ey Ej Er. destruct (decide (j = i)) as [->|Hj].
    + rewrite list_lookup_insert_eq in Ej by (by eapply lookup_lt_Some).
      rewrite list_lookup_insert_eq in Er by (by eapply lookup_lt_Some). by simplify_eq.
    + rewrite list_lookup_insert_ne in Ej by done. rewrite list_lookup_insert_ne in Er by done. eapply (progress_frame x y n w w'); [done| | | |done|by eapply Hpr].
      * by apply (Forall_lookup_1 _ _ _ _ Hxs Ey).
      * intros Ek. apply Hj. eapply (NoDup_lookup _ _ _ _ Hnd); rewrite list_lookup_fmap; [by rewrite Ey|by rewrite Ex, Ek].
      * intros ->. by eapply Hother.
  - intros j k m Ej Ek. destruct (decide (j = i)) as [->|Hj], (decide (k = i)) as [->|Hk]; [done|..];
      rewrite ?list_lookup_insert_eq, ?list_lookup_insert_ne in Ej by (done || by eapply lookup_lt_Some);
      rewrite ?list_lookup_insert_eq, ?list_lookup_insert_ne in Ek by (done || by eapply lookup_lt_Some); simplify_eq.
    + by destruct (Hother _ _ Ek Hk).
    + by destruct (Hother _ _ Ej Hj).
    + by eapply Hinj.
  - intros j m Ej. destruct (decide (j = i)) as [->|Hj].
    + rewrite list_lookup_insert_eq in Ej by (by eapply lookup_lt_Some). by simplify_eq.
    + rewrite list_lookup_insert_ne in Ej by done. apply (frame_length x n w w' Hf Hbn). by eapply Hb.
  - intros m Hm. destruct (decide (m = n)) as [->|Hmn].
    { exists i. apply list_lookup_insert_eq. by eapply lookup_lt_Some. }
    destruct (Hcov m) as [j Ej]; [destruct Hn as [[_ El]|(_ & -> & El)]; lia|]. exists j.
    rewrite list_lookup_insert_ne; [done|]. intros <-. destruct Hn as [[-> _]|[-> _]]; by simplify_eq.
Qed.

Lemma standing_run xs cbs : Forall connection_ok xs -> NoDup (serverKey <$> xs) ->
  forall rems, interleaves rems cbs -> forall w owners, standing xs w owners rems ->
  exists w' owners' rems', callBacks memcachePorts cbs w = Ret (tt, w') /\
    standing xs w' owners' rems' /\ Forall (fun l => l = []) rems'.
Proof.
  intros Hxs Hnd rems Hint. induction Hint as [rems Hnil|rems i cb rem rest Hi _ IH]; intros w owners Hst.
  { by exists w, owners, rems. }
  destruct (standing_step xs w owners rems i cb rem Hxs Hnd Hst Hi) as (w1 & owners1 & E1 & Hst1).
  destruct (IH w1 owners1 Hst1) as (w2 & owners2 & rems2 & E2 & ?). exists w2, owners2, rems2.
  split; [|done]. cbn. unfold mbind, gom_bind. by rewrite E1.
Qed.

(** The consumers are one for each connection, which has handed its events over. *)
Definition reported (xs : list connection) (cs : list C) : Prop :=
  exists cs', cs ≡ₚ cs' /\ Forall2 (fun x c => handedOver (connEvents x) c) xs cs'.

Lemma Forall_is_Some {A} (l : list (option A)) : Forall is_Some l -> exists l', l = Some <$> l'.
Proof. induction 1 as [|o l [a ->] _ [l' ->]]; [by exists []|by exists (a :: l')]. Qed.

Lemma served xs w ns : length ns = length xs ->
  (forall i x n, xs !! i = Some x -> ns !! i = Some n -> serving w n [] (connEvents x)) ->
  exists cs, Forall2 (fun n c => consumers w !! n = Some c) ns cs /\
    Forall2 (fun x c => handedOver (connEvents x) c) xs cs.
Proof.
  revert ns. induction xs as [|x xs IH]; intros [|n ns] Hl Hs; simplify_eq/=; [by exists []|].
  destruct (Hs 0%nat x n eq_refl eq_refl) as (c & Ec & _ & Hc).
  destruct (IH ns ltac:(lia) (fun i => Hs (S i))) as (cs & ? & ?). exists (c :: cs). by split; constructor.
Qed.

Lemma looked_up (w : worker) ns (cs : list C) : Forall2 (fun n c => consumers w !! n = Some c) ns cs ->
  omap (fun n => consumers w !! n) ns = cs.
Proof. induction 1 as [|n c ns cs E _ IH]; [done|]. cbn. by rewrite E, IH. Qed.

(** All connections served: the consumers are exactly theirs. *)
Lemma standing_reported xs w owners rems : Forall connection_ok xs -> standing xs w owners rems ->
  Forall (fun l => l = []) rems -> reported xs (consumers w).
Proof.
  intros Hxs [_ [Hlo Hlr] Hpr Hinj Hb Hcov] Hnil.
  assert (forall i x o, xs !! i = Some x -> owners !! i = Some o ->
    exists n, o = Some n /\ serving w n [] (connEvents x)) as Hdone.
  { intros i x o Ex Eo. destruct (lookup_lt_is_Some_2 rems i) as [rem Er]; [rewrite Hlr; by eapply lookup_lt_Some|].
    pose proof (Forall_lookup_1 _ _ _ _ Hnil Er) as ->. specialize (Hpr i x o [] Ex Eo Er).
    apply progress_end; [|done]. by apply (Forall_lookup_1 _ _ _ _ Hxs Ex). }
  destruct (Forall_is_Some owners) as [ns ->].
  { apply Forall_lookup. intros i o Eo. destruct (lookup_lt_is_Some_2 xs i) as [x Ex].
    - rewrite <- Hlo. by eapply lookup_lt_Some.
    - destruct (Hdone i x o Ex Eo) as (n & -> & _). done. }
  rewrite length_fmap in Hlo. destruct (served xs w ns Hlo) as (cs & Hcs & Hh).
  - intros i x n Ex En. destruct (Hdone i x (Some n) Ex) as (? & [= ->] & ?); [|done]. by rewrite list_lookup_fmap, En.
  - exists cs. split; [|done]. rewrite <- (looked_up w ns cs Hcs), <- (looked_up w (seq 0 (length (consumers w))) (consumers w)) at 1.
    2:{ apply Forall2_same_length_lookup. rewrite length_seq. split; [done|].
        intros i n c [-> _]%lookup_seq Ec. done. }
    apply omap_Permutation. apply NoDup_Permutation; [apply NoDup_seq| |].
    + apply NoDup_alt. intros i j n Ei Ej. apply (Hinj i j n); by rewrite list_lookup_fmap, ?Ei, ?Ej.
    + intros n. rewrite elem_of_seq, list_elem_of_lookup. split.
      * intros [_ [i Ei]%Hcov]. exists i. rewrite list_lookup_fmap in Ei. by destruct (ns !! i); simplify_eq/=.
      * intros [i Ei]. split; [lia|]. apply (Hb i). by rewrite list_lookup_fmap, Ei.
Qed.

(** Whole connections, their calls interleaved in any way, of a new worker. *)
Lemma connections_run xs cbs choice : Forall connection_ok xs -> NoDup (serverKey <$> xs) ->
  interleaves (connectionCalls <$> xs) cbs ->
  exists w', callBacks memcachePorts cbs (newWorker choice) = Ret (tt, w') /\ reported xs (consumers w').
Proof.
  intros Hxs Hnd Hint.
  destruct (standing_run xs cbs Hxs Hnd _ Hint (newWorker choice) _ (standing_start xs (newWorker choice)
    ltac:(constructor) eq_refl ltac:(by apply Forall_true))) as (w' & os & rems & E & Hst & Hnil).
  exists w'. split; [done|]. by eapply standing_reported.
Qed.

End pipeline.
