(* ===== verification/Traffic.v ===== *)
(** * From packets to the report

    The whole pipeline behind the decoder: any run of the assembly pool on calls of
    HandlePackets (Assembly, Dispatch), the conversations of the connections that
    its workers serve (Pipeline), and the concurrent calls of HandleEvents and
    Report that count what they report (Callers, Concurrent). *)
From Stdlib Require Import Strings.Byte.
From S2P Require Import Prelude GoLib Buffer Stream Reader Model McText Progress Transaction Deliveries Conversation.
From S2P Require Import Hotlist Analysis Callers Concurrent PacketBuffer Decode Assembly Dispatch Pipeline.
Local Open Scope Z_scope.

Section traffic.
  Context `{HAsm : TcpAssembly} `{HFlows : !GopacketLaws} (memcachePorts : list Z).
  Context {Hl : Type} {HHot : HotList Hl keyInfo} {HRe : RegexpPkg} {HSort : SortPkg}.
  Context (iteration : nat -> Hl -> list (keyInfo * Z)) (clock : nat -> Z).
  Context (iteration_ok : forall t h, iteration t h ≡ₚ map_to_list (hl_counts h)).

(** The calls that the assembler of worker [i] makes in a run are those of the
    connections [xs], interleaved. *)
Record serves (acts : list action) (p0 : Assembly.Pool) (i : nat) (xs : list connection) : Prop := {
  sv_conns : Forall (connection_ok memcachePorts) xs;
  sv_distinct : NoDup (serverKey <$> xs);
  sv_calls : interleaves (connectionCalls <$> xs) (callsMade (workIn memcachePorts i acts p0))
}.

(** The batches that the consumers of a pool have handed over. *)
Definition batches (p : Assembly.Pool) : list (list Event) :=
  concat (handled <$> concat (consumers <$> Assembly.workers p)).

Lemma conn_hits xs : Forall (fun e => isHit e = true) (concat (connEvents <$> xs)).
Proof.
  apply Forall_concat, Forall_fmap, Forall_true. intros x. apply Forall_concat, Forall_fmap, Forall_true.
  intros t. cbn. unfold tx_events. destruct (tx_command t); [|constructor..]. by apply Forall_fmap, Forall_true.
Qed.

Lemma reported_events xs cs : reported xs cs -> concat (concat (handled <$> cs)) ≡ₚ concat (connEvents <$> xs).
Proof.
  intros (cs' & Hp & Hh). rewrite Hp. clear Hp cs. induction Hh as [|x c xs cs [Hc _] _ IH]; [done|].
  rewrite !fmap_cons. cbn [concat]. by rewrite concat_app, Hc, IH.
Qed.

Lemma pool_reported n choice acts p0 p conns : 0 < n -> Assembly.New n choice = Ret p0 ->
  Assembly.runActs memcachePorts acts p0 = Ret (tt, p) -> length conns = Z.to_nat n ->
  (forall i xs, conns !! i = Some xs -> serves acts p0 i xs) ->
  Forall2 (fun xs w => reported xs (consumers w)) conns (Assembly.workers p).
Proof.
  intros Hn E0 E Hlen Hs. pose proof (New_traced n choice p0 Hn E0) as Htr0.
  destruct (traced_run memcachePorts (Z.to_nat n) acts ltac:(lia) [] _ _ p0 p Htr0 E) as (ord & Htr & _).
  apply Forall2_same_length_lookup. rewrite (td_workers _ _ _ _ _ Htr). split; [done|]. intros i xs w Exs Ew.
  destruct (Hs i xs Exs) as [Hxs Hnd Hint].
  destruct (connections_run memcachePorts xs _ (choice i) Hxs Hnd Hint) as (w1 & E1 & Hrep).
  destruct (worker_alone memcachePorts n choice acts p0 p i w Hn E0 E Ew) as (w2 & E2 & Econs & _).
  rewrite E1 in E2. injection E2 as <-. by rewrite Econs.
Qed.

Lemma batches_events conns p : Forall2 (fun xs w => reported xs (consumers w)) conns (Assembly.workers p) ->
  concat (batches p) ≡ₚ concat (connEvents <$> concat conns).
Proof.
  unfold batches. generalize (Assembly.workers p). induction 1 as [|xs w conns ws Hrep _ IH]; [done|].
  rewrite !fmap_cons. cbn [concat]. rewrite !fmap_app, !concat_app, IH. by rewrite (reported_events _ _ Hrep).
Qed.

Lemma filterEvents_perm es es' f : es ≡ₚ es' -> filterEvents es f ≡ₚ filterEvents es' f.
Proof. intros Hp. destruct f; simpl; by rewrite Hp. Qed.

(** C1: the report shows the traffic.  The assembly pool is run on any packets, by
    any schedule of its callers, workers and tickers; the calls that the assembler of
    each worker makes of it are those for any number of connections, interleaved
    in any way, each opened and closed by either direction, its commands and answers
    delivered in segments with empty calls between them.  As in
    [get_conversation], a segment is not empty and has at most 16384 bytes, half of
    a reassembly buffer (a longer one can be refused, and its values are then not
    reported), words and VALUE lines fit such a segment, a retrieval has a key, an answer or a data block
    has at most 2^60 bytes, and a command is delivered before its answer.  Every
    batch that a consumer of the pool has handed over is a call of HandleEvents, and
    all of these calls run at once on a new analysis pool, their steps and those of
    its workers interleaved in any way.  When they are finished, nothing was dropped
    and the queues are drained, then every one of the reports that run at once has,
    when it is finished, exactly one line per distinct key and size among the values
    returned on all connections that pass the filter, with the number of times it
    was returned, heaviest traffic first.  This needs that there are at most
    reportSize such pairs of a key and a size (with more, each worker cuts its list
    off there), and that the number of values returned fits an int. *)
Theorem traffic_report nw choice asm a0 a conns n k f reports :
  0 < nw -> Assembly.New nw choice = Ret a0 -> Assembly.runActs memcachePorts asm a0 = Ret (tt, a) ->
  length conns = Z.to_nat nw -> (forall i xs, conns !! i = Some xs -> serves asm a0 i xs) ->
  0 < n <= int_max -> 0 <= k ->
  let evts := concat (connEvents <$> concat conns) in
  zlen evts <= int_max ->
  let l := kiOf <$> filterEvents evts f in
  Z.of_nat (length (remove_dups l)) <= k ->
  exists p0, Analysis.New n k = Ret p0 /\
    forall acts s, goAll iteration clock acts (start (set_filter f p0) (CallHandleEvents <$> batches a)) = Ret (tt, s) ->
      allFinished s = true -> EventsDropped (pool s) = 0 ->
      Forall (fun w => kisChan w = []) (Analysis.workers (pool s)) ->
      forall racts s', goAll iteration clock racts (start (pool s) (replicate reports (CallReport false))) = Ret (tt, s') ->
        forall j rep err, callers s' !! j = Some (Finished rep err) ->
          exists r, rep = Some r /\ err = None /\ Keys r ≡ₚ lineOf l <$> remove_dups l /\
            StronglySorted (fun a b => TrafficEstimate b <= TrafficEstimate a) (Keys r).
Proof.
  intros Hnw E0 E Hlen Hs Hn Hk evts Hsize l Hl'.
  pose proof (batches_events _ _ (pool_reported nw choice asm a0 a conns Hnw E0 E Hlen Hs)) as He.
  assert (kiOf <$> filterEvents (concat (batches a)) f ≡ₚ l) as Hp by (by apply fmap_Permutation, filterEvents_perm).
  destruct (reports_exact iteration clock iteration_ok n k f (batches a) reports Hn Hk) as (p0 & Ep0 & Hp0).
  - rewrite He. apply conn_hits.
  - unfold zlen in *. by rewrite He.
  - by rewrite Hp.
  - exists p0. split; [done|]. intros acts s Es Hfin Hd Hq racts s' Er j rep err Hj.
    destruct (Hp0 acts s Es Hfin Hd Hq racts s' Er j rep err Hj) as (r & ? & ? & HK & ?).
    exists r. split_and!; [done..| |done]. by rewrite HK, (lines_perm _ _ Hp).
Qed.

End traffic.
