(* ===== verification/GoFmt.v ===== *)
(** * Runes, padding and the printing of floats

    What the screen needs of Go's conversions and of package fmt: a string as its
    runes, [%10d], and [%5.2f] of a float64.  Floats are the binary64 numbers of the
    library's SpecFloat, whose operations round to nearest, ties to even. *)
From Stdlib Require Import Strings.Byte.
From Stdlib Require SpecFloat.
From S2P Require Import Prelude GoLib.
Local Open Scope Z_scope.

(** ** Runes *)

(** The runes are code points; an invalid byte reads as U+FFFD. *)
Definition runeError : Z := 65533.

(** How many bytes follow the first byte of an encoding, and the range of the
    second byte. *)
Definition leading (b : Z) : option (nat * Z * Z) :=
  if b <? 194 then None
  else if b <? 224 then Some (1%nat, 128, 191)
  else if b =? 224 then Some (2%nat, 160, 191)
  else if b =? 237 then Some (2%nat, 128, 159)
  else if b <? 240 then Some (2%nat, 128, 191)
  else if b =? 240 then Some (3%nat, 144, 191)
  else if b <? 244 then Some (3%nat, 128, 191)
  else if b =? 244 then Some (3%nat, 128, 143)
  else None.

(** Read [n] continuation bytes, the first between [lo] and [hi]. *)
Fixpoint continuation (n : nat) (lo hi acc : Z) (s : bytes) : option Z :=
  match n, s with
  | O, _ => Some acc
  | S n, b :: s' =>
      let c := byteZ b in
      if (lo <=? c) && (c <=? hi) then continuation n 128 191 (acc * 64 + (c - 128)) s' else None
  | _, [] => None
  end.

(** The first rune of [b :: s], and how many more bytes it takes. *)
Definition decodeRune (b : byte) (s : bytes) : Z * nat :=
  let b := byteZ b in
  if b <? 128 then (b, 0%nat)
  else match leading b with
       | None => (runeError, 0%nat)
       | Some (n, lo, hi) =>
           let top := match n with 1%nat => b - 192 | 2%nat => b - 224 | _ => b - 240 end in
           match continuation n lo hi top s with
           | Some r => (r, n)
           | None => (runeError, 0%nat)
           end
       end.

(** [[]rune(s)]: [skip] bytes belong to the rune before. *)
Fixpoint runesFrom (skip : nat) (s : bytes) : list Z :=
  match s with
  | [] => []
  | b :: s' =>
      match skip with
      | S skip => runesFrom skip s'
      | O => let '(r, n) := decodeRune b s' in r :: runesFrom n s'
      end
  end.

Definition runes (s : bytes) : list Z := runesFrom 0 s.

Lemma runes_ascii s : Forall (fun b => byteZ b < 128) s -> runes s = byteZ <$> s.
Proof.
  unfold runes. induction 1 as [|b s Hb _ IH]; [done|]. cbn [runesFrom]. unfold decodeRune.
  destruct (Z.ltb_spec (byteZ b) 128); [|lia]. by rewrite IH.
Qed.

(** ** Package fmt *)

(** A minimal width, filled with spaces on the left. *)
Definition padLeft (w : nat) (s : bytes) : bytes := replicate (w - length s) " "%byte ++ s.

(** [float64(n)], [x / y] and [x * y]. *)
Abbreviation float64 := SpecFloat.spec_float.
Definition ofInt (n : Z) : float64 := SpecFloat.binary_normalize 53 1024 n 0 false.
Definition fdiv (x y : float64) : float64 := SpecFloat.SFdiv 53 1024 x y.
Definition fmul (x y : float64) : float64 := SpecFloat.SFmul 53 1024 x y.

(** [p / q] rounded to an integer, ties to even; [0 < q]. *)
Definition roundEven (p q : Z) : Z :=
  let d := p / q in
  let r := 2 * (p mod q) in
  if r <? q then d else if q <? r then d + 1 else if Z.even d then d else d + 1.

(** Hundredths of [m * 2^e]. *)
Definition hundredths (m e : Z) : Z :=
  if 0 <=? e then m * 2 ^ e * 100 else roundEven (m * 100) (2 ^ (- e)).

(** The decimal digits of [n >= 0], of any size. *)
Definition decimal (n : Z) : bytes := itoa_digits (S (Z.to_nat (Z.log2 n))) n [].

(** [%.2f] *)
Definition fixed2 (x : float64) : bytes :=
  let digits sign n :=
    (if sign : bool then bs "-" else []) ++ decimal (n / 100) ++ bs "." ++ decimal (n / 10 mod 10) ++ decimal (n mod 10) in
  match x with
  | SpecFloat.S754_zero s => digits s 0
  | SpecFloat.S754_finite s m e => digits s (hundredths (Z.pos m) e)
  | SpecFloat.S754_infinity s => if s then bs "-Inf" else bs "+Inf"
  | SpecFloat.S754_nan => bs "NaN"
  end.

Example fixed2_half_even : fixed2 (fdiv (ofInt 1) (ofInt 8)) = bs "0.12".
Proof. vm_compute. reflexivity. Qed.

Example fixed2_third : fixed2 (fmul (fdiv (ofInt (-1)) (ofInt 3)) (ofInt 100)) = bs "-33.33".
Proof. vm_compute. reflexivity. Qed.

Example runes_utf8 : runes ["x"; "226"; "130"; "172"; "128"; "y"]%byte = [120; 8364; runeError; 121].
Proof. vm_compute. reflexivity. Qed.
