(* ===== verification/Logger.v ===== *)
(** * log/logger.go: loggers, and the goroutines that share them

    A logger is a value; the objects behind the pointers (a BufferLogger, a
    ProxyLogger) live in a store and are named by their number.  What a goroutine
    still has to do with loggers is a list of calls; [exec] is the first of
    them up to its next wait for a lock or a channel, where a deferred unlock is
    pushed below the calls it outlasts.  Every interleaving of goroutines is a
    list of [action]s.  The user interface is one more logger: its Log sends the
    printed message into a channel of capacity 128. *)
From Stdlib Require Import Strings.Byte.
From S2P Require Import Prelude GoLib.
Local Open Scope Z_scope.

(** ** Messages *)

(** The dynamic types of the values that memsniff logs. *)
Inductive item : Type :=
  | ItemString (s : bytes)
  | ItemInt (n : Z)
  | ItemError (e : error).

#[export] Instance item_eq_decision : EqDecision item.
Proof. solve_decision. Defined.

(** The arguments of one call of Log. *)
Abbreviation message := (list item).

Section printing.
  (* the Error method of errors of the standard library and of gopacket *)
  Context (errorText : error -> bytes).

Definition itemText (x : item) : bytes :=
  match x with ItemString s => s | ItemInt n => Itoa n | ItemError e => errorText e end.

(** [fmt.Sprintln(items...)]: operands separated by spaces, then a newline. *)
Fixpoint Sprintln (items : message) : bytes :=
  match items with
  | [] => ["010"%byte]
  | [x] => itemText x ++ ["010"%byte]
  | x :: items' => itemText x ++ bs " " ++ Sprintln items'
  end.

End printing.

(** ** Loggers *)

Inductive Logger : Type :=
  | ConsoleLogger
  | BufferLogger (b : nat)
  | ProxyLogger (p : nat)
  | ContextLogger (context : bytes) (l : Logger)
  | UILogger.                        (* presentation.uiContext *)

#[export] Instance Logger_eq_decision : EqDecision Logger.
Proof. intros x y. unfold Decision. decide equality; first [apply Nat.eq_dec|apply (_ : EqDecision bytes)]. Defined.

Record bufferLogger := mkBuffer { bLocked : bool; buf : list message }.

(** A ProxyLogger with its RWMutex: how many goroutines hold it for reading, and
    whether a writer waits for them (which keeps new readers out). *)
Record proxyLogger := mkProxy { readers : Z; pending : bool; pl : option Logger }.

Record logs := mkLogs {
  stderr : list message;             (* what log.Println was given *)
  buffers : list bufferLogger;
  proxies : list proxyLogger;
  msgChan : list bytes               (* of the user interface *)
}.

Definition set_stderr (x : list message) (h : logs) : logs := mkLogs x (buffers h) (proxies h) (msgChan h).
Definition set_buffer (b : nat) (x : bufferLogger) (h : logs) : logs :=
  mkLogs (stderr h) (<[b := x]> (buffers h)) (proxies h) (msgChan h).
Definition set_proxy (p : nat) (x : proxyLogger) (h : logs) : logs :=
  mkLogs (stderr h) (buffers h) (<[p := x]> (proxies h)) (msgChan h).
Definition set_msgChan (x : list bytes) (h : logs) : logs := mkLogs (stderr h) (buffers h) (proxies h) x.

(** NewContext, for an interface value that may be nil. *)
Definition NewContext (l : option Logger) (context : bytes) : option Logger :=
  match l with None => None | Some l => Some (ContextLogger context l) end.

(** ** Goroutines *)

(** A call on a logger, or what is left of one: [RUnlock] and [Unlock] are the
    deferred unlocks, [Store] is SetLogger when it has announced itself. *)
Inductive instr : Type :=
  | Log (l : option Logger) (items : message)
  | RUnlock (p : nat)
  | WriteTo (b : nat) (l : option Logger)
  | Unlock (b : nat)
  | SetLogger (p : nat) (l : option Logger)
  | Store (p : nat) (l : option Logger).

#[export] Instance instr_eq_decision : EqDecision instr.
Proof. solve_decision. Defined.

Section exec.
  Context (errorText : error -> bytes).

(** The result of a call: the calls it turns into, and the new store. *)
Abbreviation result := (outcome (list instr * logs)).

Definition ConsoleLogger_Log (items : message) (h : logs) : result :=
  Ret ([], set_stderr (stderr h ++ [items]) h).

Definition BufferLogger_Log (b : nat) (items : message) (h : logs) : result :=
  match buffers h !! b with
  | None => Panic
  | Some x =>
      if bLocked x then Blocked
      else Ret ([], set_buffer b (mkBuffer false (buf x ++ [items])) h)
  end.

Definition ProxyLogger_Log (p : nat) (items : message) (h : logs) : result :=
  match proxies h !! p with
  | None => Panic
  | Some x =>
      if pending x then Blocked
      else Ret ([Log (pl x) items; RUnlock p], set_proxy p (mkProxy (readers x + 1) false (pl x)) h)
  end.

Definition ContextLogger_Log (context : bytes) (l : Logger) (items : message) (h : logs) : result :=
  Ret ([Log (Some l) (ItemString context :: items)], h).

(** [u.msgChan <- fmt.Sprintln(items...)] *)
Definition UILogger_Log (items : message) (h : logs) : result :=
  if zlen (msgChan h) <? 128 then Ret ([], set_msgChan (msgChan h ++ [Sprintln errorText items]) h)
  else Blocked.

(** Log of an interface value; nil panics. *)
Definition doLog (l : option Logger) (items : message) (h : logs) : result :=
  match l with
  | None => Panic
  | Some ConsoleLogger => ConsoleLogger_Log items h
  | Some (BufferLogger b) => BufferLogger_Log b items h
  | Some (ProxyLogger p) => ProxyLogger_Log p items h
  | Some (ContextLogger context l) => ContextLogger_Log context l items h
  | Some UILogger => UILogger_Log items h
  end.

Definition doRUnlock (p : nat) (h : logs) : result :=
  match proxies h !! p with
  | None => Panic
  | Some x => Ret ([], set_proxy p (mkProxy (readers x - 1) (pending x) (pl x)) h)
  end.

Definition BufferLogger_WriteTo (b : nat) (l : option Logger) (h : logs) : result :=
  match buffers h !! b with
  | None => Panic
  | Some x =>
      if bLocked x then Blocked
      else Ret ((Log l <$> buf x) ++ [Unlock b], set_buffer b (mkBuffer true (buf x)) h)
  end.

Definition doUnlock (b : nat) (h : logs) : result :=
  match buffers h !! b with
  | None => Panic
  | Some x => Ret ([], set_buffer b (mkBuffer false (buf x)) h)
  end.

(** [p.Lock()] announces the writer and then waits for the readers. *)
Definition ProxyLogger_SetLogger (p : nat) (l : option Logger) (h : logs) : result :=
  match proxies h !! p with
  | None => Panic
  | Some x =>
      if pending x then Blocked
      else Ret ([Store p l], set_proxy p (mkProxy (readers x) true (pl x)) h)
  end.

Definition ProxyLogger_Store (p : nat) (l : option Logger) (h : logs) : result :=
  match proxies h !! p with
  | None => Panic
  | Some x => if readers x =? 0 then Ret ([], set_proxy p (mkProxy 0 false l) h) else Blocked
  end.

(** Run a call up to its next wait. *)
Definition exec (i : instr) (h : logs) : result :=
  match i with
  | Log l items => doLog l items h
  | RUnlock p => doRUnlock p h
  | WriteTo b l => BufferLogger_WriteTo b l h
  | Unlock b => doUnlock b h
  | SetLogger p l => ProxyLogger_SetLogger p l h
  | Store p l => ProxyLogger_Store p l h
  end.

#[global] Arguments ConsoleLogger_Log _ _ /.
#[global] Arguments BufferLogger_Log _ _ _ /.
#[global] Arguments ProxyLogger_Log _ _ _ /.
#[global] Arguments ContextLogger_Log _ _ _ _ /.
#[global] Arguments UILogger_Log _ _ /.
#[global] Arguments doRUnlock _ _ /.
#[global] Arguments BufferLogger_WriteTo _ _ _ /.
#[global] Arguments doUnlock _ _ /.
#[global] Arguments ProxyLogger_SetLogger _ _ _ /.
#[global] Arguments ProxyLogger_Store _ _ _ /.

Record machine := mkMachine { heap : logs; threads : list (list instr); shown : list bytes }.

(** A step of a goroutine, or a receive by the user interface's event loop. *)
Inductive action : Type := Thread (i : nat) | Receive.

Definition act (a : action) : GoM machine unit := fun m =>
  match a with
  | Thread i =>
      match threads m !! i with
      | Some (c :: k) =>
          '(pre, h) ← exec c (heap m);
          Ret (tt, mkMachine h (<[i := pre ++ k]> (threads m)) (shown m))
      | _ => Blocked
      end
  | Receive =>
      match msgChan (heap m) with
      | msg :: q => Ret (tt, mkMachine (set_msgChan q (heap m)) (threads m) (shown m ++ [msg]))
      | [] => Blocked
      end
  end.

Fixpoint runActs (acts : list action) : GoM machine unit :=
  match acts with
  | [] => mret tt
  | a :: acts' => act a;; runActs acts'
  end.

Definition finished (m : machine) : Prop := Forall (fun t => t = []) (threads m).

End exec.

(** ** The handover at start-up

    main logs into a BufferLogger until it knows where messages go, and then
    runs [logger.SetLogger(log.ConsoleLogger{}); buffered.WriteTo(logger)] while
    the other goroutines log through the proxy. *)

Section handover.
  Context (errorText : error -> bytes).

Definition handover : list instr :=
  [SetLogger 0 (Some ConsoleLogger); WriteTo 0 (Some (ProxyLogger 0))].

Definition logAll (msgs : list message) : list instr := Log (Some (ProxyLogger 0)) <$> msgs.

(** What was recorded before, and what the other goroutines are going to log. *)
Definition startup (recorded : list message) (msgs : list (list message)) : machine :=
  mkMachine (mkLogs [] [mkBuffer false recorded] [mkProxy 0 false (Some (BufferLogger 0))] [])
    (handover :: (logAll <$> msgs)) [].

(** *** An abstract view of the goroutines *)

(** Where a goroutine is in its present call of Log: none, holding the proxy with
    the message not delivered, and holding it with the message delivered. *)
Inductive stage : Type := Outside | Inside (m : message) | Leaving.

#[export] Instance stage_eq_decision : EqDecision stage.
Proof. solve_decision. Defined.

Definition busy (s : stage) : Z := match s with Outside => 0 | _ => 1 end.

(** A goroutine with the messages it is still going to log. *)
Abbreviation client := (stage * list message)%type.

Definition clientBusy (c : client) : Z := busy c.1.

Inductive mainStage : Type := Before | Storing | Stored | Writing (c : client) | Done.

#[export] Instance mainStage_eq_decision : EqDecision mainStage.
Proof. solve_decision. Defined.

Record view := mkView { vmain : mainStage; vclients : list client; vbuf : list message; vout : list message }.

Definition vtarget (v : view) : Logger :=
  match vmain v with Before | Storing => BufferLogger 0 | _ => ConsoleLogger end.
Definition vpending (v : view) : bool := match vmain v with Storing => true | _ => false end.
Definition vlocked (v : view) : bool := match vmain v with Writing _ => true | _ => false end.
Definition mainBusy (s : mainStage) : Z := match s with Writing c => clientBusy c | _ => 0 end.
Definition vreaders (v : view) : Z := mainBusy (vmain v) + sumZ clientBusy (vclients v).

Definition clientCode (t : Logger) (c : client) : list instr :=
  match c.1 with
  | Outside => []
  | Inside m => [Log (Some t) m; RUnlock 0]
  | Leaving => [RUnlock 0]
  end ++ logAll c.2.

Definition mainCode (s : mainStage) : list instr :=
  match s with
  | Before => handover
  | Storing => [Store 0 (Some ConsoleLogger); WriteTo 0 (Some (ProxyLogger 0))]
  | Stored => [WriteTo 0 (Some (ProxyLogger 0))]
  | Writing c => clientCode ConsoleLogger c ++ [Unlock 0]
  | Done => []
  end.

Definition conc (v : view) : machine :=
  mkMachine (mkLogs (vout v) [mkBuffer (vlocked v) (vbuf v)]
      [mkProxy (vreaders v) (vpending v) (Some (vtarget v))] [])
    (mainCode (vmain v) :: (clientCode (vtarget v) <$> vclients v)) [].

(** One step of a client: its new state, and the message it delivers. *)
Definition clientStep (pend : bool) (c : client) : option (client * list message) :=
  match c with
  | (Outside, []) => None
  | (Outside, m :: ms) => if pend then None else Some ((Inside m, ms), [])
  | (Inside m, ms) => Some ((Leaving, ms), [m])
  | (Leaving, ms) => Some ((Outside, ms), [])
  end.

Definition deliverTo (t : Logger) (out : list message) (v : view) : view :=
  match t with
  | ConsoleLogger => mkView (vmain v) (vclients v) (vbuf v) (vout v ++ out)
  | _ => mkView (vmain v) (vclients v) (vbuf v ++ out) (vout v)
  end.

Definition set_vmain (s : mainStage) (v : view) : view := mkView s (vclients v) (vbuf v) (vout v).

Inductive vstep (v : view) : nat -> view -> Prop :=
  | v_announce : vmain v = Before -> vstep v 0 (set_vmain Storing v)
  | v_store : vmain v = Storing -> vreaders v = 0 -> vstep v 0 (set_vmain Stored v)
  | v_lock : vmain v = Stored -> vstep v 0 (set_vmain (Writing (Outside, vbuf v)) v)
  | v_write c c' out : vmain v = Writing c -> clientStep false c = Some (c', out) ->
      vstep v 0 (deliverTo ConsoleLogger out (set_vmain (Writing c') v))
  | v_unlock : vmain v = Writing (Outside, []) -> vstep v 0 (set_vmain Done v)
  | v_client i c c' out : vclients v !! i = Some c -> clientStep (vpending v) c = Some (c', out) ->
      vstep v (S i) (deliverTo (vtarget v) out
        (mkView (vmain v) (<[i := c']> (vclients v)) (vbuf v) (vout v))).

(** *** The machine follows the view *)

#[local] Arguments sumZ : simpl never.

Lemma vreaders_deliver t out v : vreaders (deliverTo t out v) = vreaders v.
Proof. by destruct t. Qed.

Lemma vreaders_client v i c c' : vclients v !! i = Some c ->
  vreaders (mkView (vmain v) (<[i := c']> (vclients v)) (vbuf v) (vout v)) =
  vreaders v - clientBusy c + clientBusy c'.
Proof. intros Hi. unfold vreaders. cbn [vmain vclients]. rewrite (sumZ_insert _ _ _ _ _ Hi). lia. Qed.

Lemma busy_nonneg (cs : list client) : 0 <= sumZ clientBusy cs.
Proof. apply sumZ_nonneg, Forall_forall. intros [[]] _; cbn; lia. Qed.

(** Nobody reads: the code of the clients does not name the target. *)
Lemma outside_code t t' (cs : list client) : sumZ clientBusy cs = 0 ->
  clientCode t <$> cs = clientCode t' <$> cs.
Proof.
  induction cs as [|[[] ms] cs IH]; intros E; [done| | |];
    pose proof (busy_nonneg cs); unfold sumZ in *; cbn in *; [by rewrite IH|lia..].
Qed.

(** Two machines that agree up to arithmetic and empty lists. *)
Ltac same_machine :=
  unfold conc, vreaders, clientCode, set_stderr, set_buffer, set_proxy; cbn;
  rewrite ?app_nil_r, ?list_fmap_insert; cbn; repeat (f_equal; try lia).
Ltac client_machine Ei :=
  unfold conc; rewrite vreaders_deliver; erewrite vreaders_client by exact Ei;
  match goal with v : view |- _ => destruct v as [[] ? ? ?] | _ => idtac end; cbn in *;
  same_machine.

(** The main goroutine. *)
Lemma main_conc v : let r := act errorText (Thread 0) (conc v) in
  (exists v', vstep v 0 v' /\ r = Ret (tt, conc v')) \/ r = Blocked /\ forall v', ~ vstep v 0 v'.
Proof.
  destruct v as [[| | |[[|m|] ms]|] cs b out]; cbn.
  - left. eexists. split; [by apply v_announce|]. done.
  - pose proof (busy_nonneg cs). unfold vreaders. cbn. rewrite Z.add_0_l. destruct (Z.eqb_spec (sumZ clientBusy cs) 0) as [E|E].
    + left. eexists. split; [by apply v_store|]. unfold conc, vreaders. cbn.
      rewrite E. by rewrite (outside_code ConsoleLogger (BufferLogger 0) cs E).
    + right. split; [done|]. intros v' Hv. inversion Hv; simplify_eq/=.
  - left. eexists. split; [by apply v_lock|]. same_machine.
  - destruct ms as [|m ms]; cbn; left; eexists.
    + split; [by apply v_unlock|]. same_machine.
    + split; [by eapply v_write|]. same_machine.
  - left. eexists. split; [by eapply v_write|]. same_machine.
  - left. eexists. split; [by eapply v_write|]. same_machine.
  - right. split; [done|]. intros v' Hv. inversion Hv; simplify_eq.
Qed.

Lemma client_conc v i : let r := act errorText (Thread (S i)) (conc v) in
  (exists v', vstep v (S i) v' /\ r = Ret (tt, conc v')) \/ r = Blocked /\ forall v', ~ vstep v (S i) v'.
Proof.
  unfold act. change (threads (conc v) !! S i) with ((clientCode (vtarget v) <$> vclients v) !! i).
  rewrite list_lookup_fmap. destruct (vclients v !! i) as [[[|m|] ms]|] eqn:Ei; cbn.
  - destruct ms as [|m ms]; cbn.
    + right. split; [done|]. intros v' Hv. inversion Hv; simplify_eq.
    + destruct (vpending v) eqn:Ep.
      { right. split; [done|]. intros v' Hv. inversion Hv; simplify_eq/=. by rewrite Ep in *. }
      left. eexists. split; [eapply v_client; [exact Ei|by rewrite Ep]|]. client_machine Ei.
  - destruct v as [[] cs b out]; cbn in *; left; eexists; (split; [by eapply v_client|]); client_machine Ei.
  - left. eexists. split; [by eapply v_client|]. client_machine Ei.
  - right. split; [done|]. intros v' Hv. inversion Hv; simplify_eq.
Qed.

Lemma act_conc v i : let r := act errorText (Thread i) (conc v) in
  (exists v', vstep v i v' /\ r = Ret (tt, conc v')) \/ r = Blocked /\ forall v', ~ vstep v i v'.
Proof. destruct i; [apply main_conc|apply client_conc]. Qed.

(** *** What the view keeps *)

(** The messages a client still has to deliver. *)
Definition clientTodo (c : client) : list message :=
  match c.1 with Inside m => m :: c.2 | _ => c.2 end.

Definition mainTodo (v : view) : list message :=
  match vmain v with
  | Before | Storing | Stored => vbuf v
  | Writing c => clientTodo c
  | Done => []
  end.

Definition accounts (v : view) : list message := vout v ++ mainTodo v ++ concat (clientTodo <$> vclients v).

(** The recorded messages are delivered in their order. *)
Definition inOrder (recorded : list message) (v : view) : Prop :=
  match vmain v with
  | Before | Storing | Stored => recorded `sublist_of` vbuf v
  | Writing c => exists written, recorded `sublist_of` written ++ clientTodo c /\ written `sublist_of` vout v
  | Done => recorded `sublist_of` vout v
  end.

Lemma clientStep_todo p c c' out : clientStep p c = Some (c', out) -> clientTodo c = out ++ clientTodo c'.
Proof.
  destruct c as [[|m|] [|x ms]], p; cbn; intros E; simplify_eq; done.
Qed.

Lemma todo_insert (cs : list client) i c c' out : cs !! i = Some c -> clientTodo c = out ++ clientTodo c' ->
  concat (clientTodo <$> cs) ≡ₚ out ++ concat (clientTodo <$> <[i := c']> cs).
Proof.
  intros Hi E. revert i Hi. induction cs as [|x cs IH]; intros [|i] Hi; simplify_eq/=.
  - by rewrite E, app_assoc.
  - rewrite (IH i Hi). by rewrite !app_assoc, (Permutation_app_comm _ out).
Qed.

(** Rotate a delivered message to where the accounts have it. *)
Lemma accounts_step v i v' : vstep v i v' -> accounts v' ≡ₚ accounts v.
Proof.
  destruct v as [s cs b out]. intros Hv. unfold accounts, mainTodo.
  inversion Hv as [E|E|E|c c' d E Ec|E|j c c' d Ei Ec]; subst; cbn in *; subst; cbn; try done.
  - rewrite (clientStep_todo _ _ _ _ Ec). by rewrite <- !app_assoc.
  - pose proof (todo_insert _ _ _ _ _ Ei (clientStep_todo _ _ _ _ Ec)) as Hp.
    unfold vtarget. destruct s as [| | |x|]; cbn; rewrite Hp; solve_Permutation.
Qed.

Lemma inOrder_step recorded v i v' : vstep v i v' -> inOrder recorded v -> inOrder recorded v'.
Proof.
  destruct v as [s cs b out]. unfold inOrder.
  intros Hv. inversion Hv as [E|E|E|c c' d E Ec|E|j c c' d Ei Ec]; subst; cbn in *; subst; cbn; try done.
  - intros Hr. exists []. split; [done|apply sublist_nil_l].
  - intros (written & Hr & Hw). exists (written ++ d). rewrite (clientStep_todo _ _ _ _ Ec) in Hr.
    rewrite <- app_assoc. split; [done|by apply sublist_app].
  - intros (written & Hr & Hw). rewrite app_nil_r in Hr. by etrans.
  - unfold vtarget. destruct s; cbn; try done; intros Hr; try (by apply sublist_inserts_r).
    destruct Hr as (written & Hr & Hw). exists written. split; [done|by apply sublist_inserts_r].
Qed.

(** *** Progress and termination *)

Definition clientCost (per inside : Z) (c : client) : Z :=
  per * zlen c.2 + match c.1 with Outside => 0 | Inside _ => inside | Leaving => 1 end.

(** A bound on the steps left: a message that goes through the buffer takes
    three steps to get there and three to leave it. *)
Definition cost (v : view) : Z :=
  sumZ (clientCost 6 5) (vclients v) +
  match vmain v with
  | Before => 4 + 3 * zlen (vbuf v)
  | Storing => 3 + 3 * zlen (vbuf v)
  | Stored => 2 + 3 * zlen (vbuf v)
  | Writing c => clientCost 3 2 c + 1
  | Done => 0
  end.

Lemma cost_nonneg v : 0 <= cost v.
Proof.
  unfold cost. assert (forall c, 0 <= clientCost 3 2 c) by (intros [[] ms]; unfold clientCost; golia).
  pose proof (sumZ_nonneg (clientCost 6 5) (vclients v)
    ltac:(apply Forall_forall; intros [[] ms] _; unfold clientCost; golia)).
  pose proof (zlen_nonneg (vbuf v)). destruct (vmain v) as [| | |c|]; try lia. specialize (H c). lia.
Qed.

Lemma cost_step v i v' : vstep v i v' -> cost v' < cost v.
Proof.
  destruct v as [s cs b out]. unfold cost, clientCost.
  intros Hv. inversion Hv as [E|E|E|c c' d E Ec|E|j c c' d Ei Ec]; subst; cbn in *; subst; cbn;
    try (golia || lia).
  - destruct c as [[|m|] [|x ms]]; cbn in Ec; simplify_eq/=; golia.
  - assert (forall t, vclients (deliverTo t d (mkView s (<[j := c']> cs) b out)) = <[j := c']> cs) as -> by by intros [].
    rewrite (sumZ_insert _ _ _ _ _ Ei). unfold vtarget.
    destruct c as [[|m|] [|x ms]], s; cbn in Ec; simplify_eq/=; golia.
Qed.

Definition vfinished (v : view) : Prop := vmain v = Done /\ Forall (fun c => c = (Outside, [])) (vclients v).

(** While work is left, some goroutine can go on. *)
Lemma vprogress v : ~ vfinished v -> exists i v', vstep v i v'.
Proof.
  intros Hn. destruct v as [s cs b out].
  destruct (decide (Forall (fun c : client => c.1 = Outside) cs)) as [Hout|Hin].
  - assert (vreaders (mkView s cs b out) = mainBusy s) as Hr.
    { unfold vreaders. cbn. assert (sumZ clientBusy cs = 0) as ->; [|lia].
      clear Hn. induction Hout as [|[? ?] cs' E _ IH]; [done|]. cbn in E. subst. unfold sumZ in *. cbn. lia. }
    destruct s as [| | |[[|m|] [|x ms]]|].
    + eexists _, _. by apply v_announce.
    + eexists _, _. by apply v_store.
    + eexists _, _. by apply v_lock.
    + eexists _, _. by apply v_unlock.
    + eexists _, _. by eapply v_write.
    + eexists _, _. by eapply v_write.
    + eexists _, _. by eapply v_write.
    + eexists _, _. by eapply v_write.
    + eexists _, _. by eapply v_write.
    + destruct (decide (Forall (fun c : client => c.2 = []) cs)) as [Hdone|Hmore].
      { destruct Hn. split; [done|]. cbn. rewrite Forall_forall in Hout, Hdone |- *.
        intros [x y] Hx. specialize (Hout _ Hx). specialize (Hdone _ Hx). cbn in *. by subst. }
      apply not_Forall_Exists in Hmore; [|apply _].
      apply Exists_exists in Hmore as ([x [|m ms]] & Hx & Hms); [by destruct Hms|].
      rewrite Forall_forall in Hout. specialize (Hout _ Hx). cbn in Hout. subst.
      apply list_elem_of_lookup in Hx as [i Hi]. eexists _, _. by eapply v_client.
  - apply not_Forall_Exists in Hin; [|apply _].
    apply Exists_exists in Hin as ([[|m|] ms] & Hx & Hms); [by destruct Hms| |];
      apply list_elem_of_lookup in Hx as [i Hi]; eexists _, _; by eapply v_client.
Qed.

(** *** Runs of the machine *)

Lemma conc_finished v : finished (conc v) -> vfinished v.
Proof.
  intros Hf. apply Forall_cons in Hf as [Hm Hc]. split.
  - destruct v as [[| | |[[|m|] ms]|] cs b out]; cbn in *; try done. by apply app_nil in Hm as [_ ?].
  - apply Forall_fmap in Hc. eapply Forall_impl; [exact Hc|]. intros [[|m|] [|x ms]] E; by cbn in E.
Qed.

Lemma finished_conc v : vfinished v -> finished (conc v).
Proof.
  intros [E Hc]. constructor; [by rewrite E|]. apply Forall_fmap.
  eapply Forall_impl; [exact Hc|]. by intros c ->.
Qed.

(** A run stays inside the view and is no longer than the cost it has spent. *)
Lemma run_conc recorded acts v m : runActs errorText acts (conc v) = Ret (tt, m) ->
  inOrder recorded v ->
  exists v', m = conc v' /\ accounts v' ≡ₚ accounts v /\ inOrder recorded v' /\
    Z.of_nat (length acts) + cost v' <= cost v.
Proof.
  revert v. induction acts as [|a acts IH]; intros v E Hord; cbn in E.
  { injection E as <-. exists v. split_and!; [done..|cbn; lia]. }
  destruct a as [i|]; [|by cbn in E].
  unfold mbind, gom_bind in E. destruct (act_conc v i) as [(v1 & Hv & E1)|[E1 _]]; rewrite E1 in E; [|done].
  destruct (IH v1 E (inOrder_step _ _ _ _ Hv Hord)) as (v' & -> & Ha & Ho & Hc).
  exists v'. split_and!; [done| |done|].
  - by rewrite Ha, (accounts_step _ _ _ Hv).
  - pose proof (cost_step _ _ _ Hv). cbn [length]. lia.
Qed.

(** Whatever the state, the rest can be run to its end. *)
Lemma conc_completes v : exists acts m, runActs errorText acts (conc v) = Ret (tt, m) /\ finished m.
Proof.
  remember (Z.to_nat (cost v)) as n eqn:En. revert v En.
  induction n as [n IH] using lt_wf_ind. intros v ->.
  destruct (decide (vmain v = Done /\ Forall (fun c => c = (Outside, [])) (vclients v))) as [Hf|Hn].
  { exists [], (conc v). split; [done|]. by apply finished_conc. }
  destruct (vprogress v Hn) as (i & v1 & Hv).
  destruct (act_conc v i) as [(v2 & Hv2 & E2)|[_ Hno]]; [|by destruct (Hno v1)].
  pose proof (cost_step _ _ _ Hv2). pose proof (cost_nonneg v2).
  destruct (IH (Z.to_nat (cost v2)) ltac:(lia) v2 eq_refl) as (acts & m & E & Hf).
  exists (Thread i :: acts), m. split; [|done]. cbn. unfold mbind, gom_bind. by rewrite E2.
Qed.

Lemma startup_conc recorded msgs :
  startup recorded msgs = conc (mkView Before ((fun ms => (Outside, ms)) <$> msgs) recorded []).
Proof.
  unfold startup, conc, vreaders. cbn. do 2 f_equal.
  - do 3 f_equal. symmetry. induction msgs as [|ms msgs IH]; [done|]. unfold sumZ in *. cbn in *. lia.
  - f_equal. rewrite <- list_fmap_compose. by apply list_fmap_ext.
Qed.

(** C17: no message is lost at start-up.  While main hands the proxy over to the
    console and copies the buffer, and any number of goroutines log through the
    proxy, in every interleaving: nothing panics; no schedule is longer than
    three steps per recorded and six per new message, plus four; the goroutines
    can always run to their ends, so they never deadlock; and when all have
    ended, the console has received every message exactly once, those recorded
    before in their order. *)
Theorem handover_delivers recorded msgs acts m :
  runActs errorText acts (startup recorded msgs) = Ret (tt, m) ->
  Z.of_nat (length acts) <= 4 + 3 * zlen recorded + 6 * zlen (concat msgs) /\
  (forall a, act errorText a m <> Panic) /\
  (exists acts' m', runActs errorText acts' m = Ret (tt, m') /\ finished m') /\
  (finished m -> stderr (heap m) ≡ₚ recorded ++ concat msgs /\ recorded `sublist_of` stderr (heap m)).
Proof.
  rewrite startup_conc. intros E.
  destruct (run_conc recorded acts _ m E) as (v & -> & Ha & Ho & Hc); [by cbn|].
  assert (concat (clientTodo <$> ((fun ms => (Outside, ms)) <$> msgs)) = concat msgs) as Hmsgs.
  { rewrite <- list_fmap_compose. f_equal. rewrite <- (list_fmap_id msgs) at 2. by apply list_fmap_ext. }
  split_and!.
  - pose proof (cost_nonneg v). cut (cost (mkView Before ((fun ms => (Outside, ms)) <$> msgs) recorded []) =
      4 + 3 * zlen recorded + 6 * zlen (concat msgs)); [lia|].
    unfold cost. cbn. cut (sumZ (clientCost 6 5) ((fun ms => (Outside, ms)) <$> msgs) = 6 * zlen (concat msgs)); [lia|].
    clear. induction msgs as [|ms msgs IH]; [done|]. unfold sumZ, clientCost in *. cbn in *. rewrite zlen_app. lia.
  - intros [i|]; [|done]. by destruct (act_conc v i) as [(? & _ & ->)|[-> _]].
  - apply conc_completes.
  - intros [Em Hcl]%conc_finished. unfold accounts, inOrder, mainTodo in *. rewrite Em in *. cbn in *.
    split; [|done]. rewrite Hmsgs in Ha. rewrite <- Ha.
    assert (concat (clientTodo <$> vclients v) = []) as ->; [|by rewrite app_nil_r].
    induction Hcl as [|c cs -> _ IH]; [done|]. cbn. by rewrite IH.
Qed.

End handover.

(** ** When the user interface ends with an error

    main then runs [logger.SetLogger(log.ConsoleLogger{})], which waits for the
    goroutines that hold the proxy for reading; but nobody receives from the
    channel any more that those goroutines may be sending to. *)

Section deadlock.
  Context (errorText : error -> bytes).
  #[local] Arguments sumZ : simpl never.

(** How many deferred RUnlocks of proxy [p] a goroutine has. *)
Definition unlocks (p : nat) (t : list instr) : Z := sumZ (fun i => if decide (i = RUnlock p) then 1 else 0) t.

Definition readersAt (p : nat) (h : logs) : Z :=
  match proxies h !! p with Some x => readers x | None => 0 end.

Definition lock_inv (m : machine) : Prop := forall p x, proxies (heap m) !! p = Some x ->
  readers x = sumZ (unlocks p) (threads m).

(** Nobody holds a lock. *)
Definition unlocked (m : machine) : Prop :=
  Forall (fun x => readers x = 0) (proxies (heap m)) /\ Forall (Forall (fun i => forall p, i <> RUnlock p)) (threads m).

Lemma unlocks_none p t : Forall (fun i => forall p, i <> RUnlock p) t -> unlocks p t = 0.
Proof. induction 1 as [|i t Hi _ IH]; [done|]. unfold unlocks, sumZ in *. cbn. rewrite decide_False by done. lia. Qed.

Lemma unlocks_nonneg p t : 0 <= unlocks p t.
Proof. apply sumZ_nonneg, Forall_forall. intros i _. by case_decide. Qed.

Lemma unlocked_inv m : unlocked m -> lock_inv m.
Proof.
  intros [Hr Ht] p x Hx. rewrite (Forall_lookup_1 _ _ _ _ Hr Hx). symmetry.
  induction Ht as [|t ts Hi _ IH]; [done|]. unfold sumZ in *. cbn. by rewrite unlocks_none, IH.
Qed.

Lemma set_proxy_readers p q x y h : proxies h !! p = Some x ->
  readersAt q (set_proxy p y h) = readersAt q h + if decide (q = p) then readers y - readers x else 0.
Proof.
  intros Hx. unfold readersAt, set_proxy. cbn. case_decide as E; [subst q|].
  - rewrite list_lookup_insert_eq by (by eapply lookup_lt_Some). rewrite Hx. lia.
  - rewrite list_lookup_insert_ne by done. lia.
Qed.

Lemma unlocks_app p t t' : unlocks p (t ++ t') = unlocks p t + unlocks p t'.
Proof. apply sumZ_app. Qed.

Lemma proxies_kept p h c pre h' : exec errorText c h = Ret (pre, h') ->
  is_Some (proxies h' !! p) <-> is_Some (proxies h !! p).
Proof.
  assert (forall q y h, is_Some (proxies (set_proxy q y h) !! p) <-> is_Some (proxies h !! p)) as Hset.
  { intros q y g. unfold set_proxy. cbn. by rewrite !lookup_lt_is_Some, length_insert. }
  destruct c as [[[]|] items| | | | |]; cbn; intros E; repeat case_match; simplify_eq/=; rewrite ?Hset; done.
Qed.

Lemma unlocks_logs p lg msgs : unlocks p (Log lg <$> msgs) = 0.
Proof. apply unlocks_none, Forall_fmap, Forall_forall. by intros m _ q. Qed.

(** A call changes the number of readers by the unlocks it leaves behind. *)
Lemma exec_balance p c h pre h' : exec errorText c h = Ret (pre, h') ->
  readersAt p h' - unlocks p pre = readersAt p h - unlocks p [c].
Proof.
  destruct c as [[[]|] items| | b | | |]; intros E; cbn in E; repeat case_match; simplify_eq/=;
    try (erewrite set_proxy_readers by done); rewrite ?unlocks_app, ?unlocks_logs; unfold unlocks, sumZ; cbn; try done.
  all: repeat case_decide; cbn; try lia; congruence.
Qed.

Lemma act_lock_inv a m m' : act errorText a m = Ret (tt, m') -> lock_inv m -> lock_inv m'.
Proof.
  destruct a as [i|]; cbn.
  2:{ destruct (msgChan (heap m)); [done|]. by intros [= <-]. }
  destruct (threads m !! i) as [[|c k]|] eqn:Ei; [done| |done]. unfold mbind, outcome_bind.
  destruct (exec errorText c (heap m)) as [[pre h]| | |] eqn:E; [|done..]. intros [= <-] Hinv p x Hx.
  cbn in *. rewrite (sumZ_insert _ _ _ _ _ Ei), unlocks_app.
  destruct (proj1 (proxies_kept p _ _ _ _ E)) as [y Hy]; [by rewrite Hx|].
  pose proof (exec_balance p _ _ _ _ E) as Hb. unfold readersAt in Hb. rewrite Hx, Hy in Hb.
  rewrite (Hinv p y Hy) in Hb. change (c :: k) with ([c] ++ k). rewrite unlocks_app. lia.
Qed.

Lemma run_lock_inv acts m m' : runActs errorText acts m = Ret (tt, m') -> lock_inv m -> lock_inv m'.
Proof.
  revert m. induction acts as [|a acts IH]; intros m E Hinv; cbn in E; [by injection E as <-|].
  unfold mbind, gom_bind in E. destruct (act errorText a m) as [[[] m1]| | |] eqn:E1; [|done..].
  eapply IH; [exact E|]. by eapply act_lock_inv.
Qed.

(** A goroutine that holds proxy [p] while it sends to the full channel, and one
    that is at a call of SetLogger. *)
Definition jammed (p i j : nat) (k : list instr) (items : message) (lg : option Logger) (t : list instr) (m : machine) : Prop :=
  lock_inv m /\ 128 <= zlen (msgChan (heap m)) /\ is_Some (proxies (heap m) !! p) /\
  threads m !! i = Some (Log (Some UILogger) items :: k) /\ RUnlock p ∈ k /\
  (threads m !! j = Some (SetLogger p lg :: t) \/ threads m !! j = Some (Store p lg :: t)).

Lemma exec_chan c h pre h' : exec errorText c h = Ret (pre, h') -> zlen (msgChan h) <= zlen (msgChan h').
Proof.
  destruct c as [[[]|] items| | | | |]; intros E; cbn in E; repeat case_match; simplify_eq/=; rewrite ?zlen_app; golia.
Qed.

Lemma elem_of_unlocks p k : RUnlock p ∈ k -> 0 < unlocks p k.
Proof.
  intros (k1 & k2 & ->)%list_elem_of_split. rewrite unlocks_app.
  change (RUnlock p :: k2) with ([RUnlock p] ++ k2). rewrite unlocks_app.
  pose proof (unlocks_nonneg p k1). pose proof (unlocks_nonneg p k2).
  unfold unlocks, sumZ at 2. cbn. rewrite decide_True by done. unfold unlocks, sumZ in *. lia.
Qed.

Lemma jammed_blocks p i j k items lg t m : jammed p i j k items lg t m ->
  act errorText (Thread i) m = Blocked /\
  (threads m !! j = Some (Store p lg :: t) -> act errorText (Thread j) m = Blocked).
Proof.
  intros (Hinv & Hfull & [x Hx] & Hi & Hk & _). split.
  - cbn. rewrite Hi. cbn. by destruct (Z.ltb_spec (zlen (msgChan (heap m))) 128); [lia|].
  - intros Hj. cbn. rewrite Hj. cbn. rewrite Hx. destruct (Z.eqb_spec (readers x) 0) as [E|]; [|done].
    rewrite (Hinv p x Hx) in E. pose proof (elem_of_unlocks p k Hk) as Hpos.
    pose proof (sumZ_insert (unlocks p) _ _ _ [] Hi) as Hs.
    change (Log (Some UILogger) items :: k) with ([Log (Some UILogger) items] ++ k) in Hs.
    rewrite unlocks_app in Hs. change (unlocks p [Log (Some UILogger) items]) with 0 in Hs.
    change (unlocks p []) with 0 in Hs.
    pose proof (sumZ_nonneg (unlocks p) (<[i := []]> (threads m)) ltac:(apply Forall_forall; intros; apply unlocks_nonneg)).
    lia.
Qed.

Lemma jammed_step p i j k items lg t m a m' : i <> j -> a <> Receive -> jammed p i j k items lg t m ->
  act errorText a m = Ret (tt, m') -> jammed p i j k items lg t m'.
Proof.
  intros Hij Ha Hjam E. pose proof (jammed_blocks _ _ _ _ _ _ _ _ Hjam) as [Hbi Hbj].
  destruct Hjam as (Hinv & Hfull & Hp & Hi & Hk & Hj). destruct a as [n|]; [|done].
  pose proof (act_lock_inv _ _ _ E Hinv) as Hinv'. pose proof E as E0. cbn in E.
  destruct (threads m !! n) as [[|c r]|] eqn:En; [done| |done]. unfold mbind, outcome_bind in E.
  destruct (exec errorText c (heap m)) as [[pre h]| | |] eqn:Ex; [|done..]. injection E as <-.
  assert (n <> i) as Hni by (intros ->; congruence).
  split_and!; cbn; [done|pose proof (exec_chan _ _ _ _ Ex); lia|by eapply proxies_kept| |done|].
  - by rewrite list_lookup_insert_ne.
  - destruct (decide (n = j)) as [->|Hnj]; [|by rewrite list_lookup_insert_ne].
    rewrite list_lookup_insert_eq by (by eapply lookup_lt_Some).
    destruct Hj as [Hj|Hj]; rewrite Hj in En; injection En as <- <-; [|by rewrite (Hbj Hj) in E0].
    right. cbn in Ex. repeat case_match; by simplify_eq.
Qed.

(** C31: after the user interface has failed, its messages can stop main for
    good.  When its channel is full, a goroutine that holds the proxy waits to
    send to it, and main calls SetLogger, then without a receive nobody ever gets
    on: SetLogger does not return, whatever the goroutines do. *)
Theorem failed_ui_deadlocks m0 acts0 m p i j k items lg t acts m' :
  unlocked m0 -> runActs errorText acts0 m0 = Ret (tt, m) -> i <> j -> is_Some (proxies (heap m) !! p) ->
  threads m !! i = Some (Log (Some UILogger) items :: k) -> RUnlock p ∈ k -> 128 <= zlen (msgChan (heap m)) ->
  threads m !! j = Some (SetLogger p lg :: t) ->
  Forall (fun a => a <> Receive) acts -> runActs errorText acts m = Ret (tt, m') ->
  act errorText (Thread i) m' = Blocked /\
  (threads m' !! j = Some (SetLogger p lg :: t) \/
   threads m' !! j = Some (Store p lg :: t) /\ act errorText (Thread j) m' = Blocked).
Proof.
  intros Hu E0 Hij Hp Hi Hk Hfull Hj Hacts E.
  assert (jammed p i j k items lg t m) as Hjam.
  { split_and!; try done; [|by left]. eapply run_lock_inv; [exact E0|]. by apply unlocked_inv. }
  clear E0 Hp Hi Hk Hfull Hj. revert m Hjam E. induction Hacts as [|a acts Ha _ IH]; intros m Hjam E; cbn in E.
  - injection E as <-. destruct (jammed_blocks _ _ _ _ _ _ _ _ Hjam) as [Hbi Hbj]. split; [done|].
    destruct Hjam as (_ & _ & _ & _ & _ & [Hj|Hj]); [by left|right]. split; [done|by apply Hbj].
  - unfold mbind, gom_bind in E. destruct (act errorText a m) as [[[] m1]| | |] eqn:E1; [|done..].
    eapply IH; [|exact E]. by eapply jammed_step.
Qed.

End deadlock.
