(* ===== verification/Presentation.v ===== *)
(** * presentation: the user interface

    presentation.go is the context of the interface and its channel of messages,
    termbox.go draws the screen and runs the event loop.  Run has a value receiver:
    the loop works on a copy of the context, with which only the channel and
    the analysis pool are shared.  The terminal library is the class
    [TermboxPkg]; every cell is drawn in the default colors, which are left out.
    The event loop is a sequence of [input]s, one for each round of its select;
    other goroutines send into the channel in between.  How it starts and ends, and
    the goroutine that its events come from, are in Terminal. *)
From Stdlib Require Import Strings.Byte.
From S2P Require Import Prelude GoLib Hotlist Analysis GoFmt Logger.
Local Open Scope Z_scope.

(** ** The terminal library *)

(** Package termbox and package runewidth.  Clear, Flush and Sync may fail and,
    when the window was resized, change the size. *)
Class TermboxPkg := {
  Terminal : Type;
  Size : Terminal -> Z * Z;
  SetCell : Z -> Z -> Z -> Terminal -> Terminal;
  Clear : Terminal -> option error * Terminal;
  Flush : Terminal -> option error * Terminal;
  Sync : Terminal -> option error * Terminal;
  RuneWidth : Z -> Z
}.

(** What their documentation says of the back buffer and of ASCII. *)
Class TermboxLaws `{TermboxPkg} := {
  cell : Terminal -> Z -> Z -> Z;
  Size_bounds t : 0 <= (Size t).1 <= 65535 /\ 0 <= (Size t).2 <= 65535;
  Size_SetCell x y r t : Size (SetCell x y r t) = Size t;
  cell_SetCell x y r t x' y' : cell (SetCell x y r t) x' y' =
    if bool_decide (x' = x /\ y' = y /\ 0 <= x < (Size t).1 /\ 0 <= y < (Size t).2) then r else cell t x' y';
  cell_Clear t x y : cell (Clear t).2 x y = 32;
  RuneWidth_bounds r : 0 <= RuneWidth r <= 2;
  RuneWidth_ascii r : 32 <= r < 127 -> RuneWidth r = 1
}.

(** An event of the terminal: a key with its character or key code, a resize, or
    another kind. *)
Inductive termboxEvent : Type :=
  | EventKey (Ch : Z) (Key : Z)
  | EventResize
  | EventOther.

Definition KeyCtrlC : Z := 3.
Definition KeyCtrlL : Z := 12.

(** ** presentation.go *)

Record Stats := mkStats {
  PacketsEnteredFilter : Z;
  PacketsPassedFilter : Z;
  PacketsCaptured : Z;
  PacketsDroppedKernel : Z;
  PacketsDroppedParser : Z;
  PacketsDroppedAnalysis : Z;
  PacketsDroppedTotal : Z;
  ResponsesParsed : Z
}.

Section ui.
  Context {H : Type} {HHot : HotList H keyInfo} {HRe : RegexpPkg} {HSort : SortPkg} {HTerm : TermboxPkg}.
  (* errors as text, and times in the layout 15:04:05.000 *)
  Context (errorText : error -> bytes) (formatTime : Z -> bytes).

Local Abbreviation Pool := (@Analysis.Pool H HRe).

Record uiContext := mkUI {
  analysis : Pool;
  interval : Z;
  messages : list bytes;
  msgChan : list bytes;
  prevReport : ReportT;
  cumulative : bool;
  paused : bool;
  term : Terminal
}.

Definition set_analysis (x : Pool) (u : uiContext) : uiContext :=
  mkUI x (interval u) (messages u) (msgChan u) (prevReport u) (cumulative u) (paused u) (term u).
Definition set_messages (x : list bytes) (u : uiContext) : uiContext :=
  mkUI (analysis u) (interval u) x (msgChan u) (prevReport u) (cumulative u) (paused u) (term u).
Definition set_msgChan (x : list bytes) (u : uiContext) : uiContext :=
  mkUI (analysis u) (interval u) (messages u) x (prevReport u) (cumulative u) (paused u) (term u).
Definition set_prevReport (x : ReportT) (u : uiContext) : uiContext :=
  mkUI (analysis u) (interval u) (messages u) (msgChan u) x (cumulative u) (paused u) (term u).
Definition set_paused (x : bool) (u : uiContext) : uiContext :=
  mkUI (analysis u) (interval u) (messages u) (msgChan u) (prevReport u) (cumulative u) x (term u).
Definition set_term (x : Terminal) (u : uiContext) : uiContext :=
  mkUI (analysis u) (interval u) (messages u) (msgChan u) (prevReport u) (cumulative u) (paused u) x.

(** [zero] is the zero time of the report made by [analysis.Report{}]. *)
Definition New (analysisPool : Pool) (interval : Z) (cumulative : bool) (zero : Z) (t : Terminal) : uiContext :=
  mkUI analysisPool interval [] [] (mkReport zero []) cumulative false t.

(** [u.msgChan <- fmt.Sprintln(items...)] *)
Definition Log (items : message) : GoM uiContext unit := fun u =>
  if zlen (msgChan u) <? 128 then Ret (tt, set_msgChan (msgChan u ++ [Sprintln errorText items]) u) else Blocked.

(** ** termbox.go: drawing *)

Definition numColumns : Z := 12.
Definition statusLines : Z := 1.
Definition logLines : Z := 4.

Definition columnX (col : Z) (t : Terminal) : Z :=
  let w := (Size t).1 in
  if numColumns <=? col then w else Z.quot (w *! col) numColumns.

Definition yFromBottom (n : Z) (t : Terminal) : Z := (Size t).2 -! 1 -! n.

(** The loop of renderText. *)
Fixpoint renderRunes (x y : Z) (rs : list Z) (t : Terminal) : Terminal :=
  match rs with
  | [] => t
  | r :: rs' => renderRunes (x +! RuneWidth r) y rs' (SetCell x y r t)
  end.

Definition renderText (column y : Z) (txt : bytes) : GoM Terminal unit := fun t =>
  Ret (tt, renderRunes (columnX column t) y (runes txt) t).

Fixpoint renderLineLoop (fuel : nat) (column span x y w ch : Z) : GoM Terminal unit := fun t =>
  if x <? columnX (column +! span) t then
    match fuel with
    | O => OutOfFuel
    | S fuel => renderLineLoop fuel column span (x +! w) y w ch (SetCell x y ch t)
    end
  else Ret (tt, t).

(** The loop has a round for every cell of the line at most. *)
Definition renderLine (column span y ch : Z) : GoM Terminal unit := fun t =>
  renderLineLoop (Z.to_nat (columnX (column +! span) t - columnX column t)) column span
    (columnX column t) y (RuneWidth ch) ch t.

Definition renderHeader : GoM Terminal unit :=
  renderText 0 0 (bs "Key");;
  renderText 8 0 (bs "Requests (est)");;
  renderText 9 0 (bs "Size");;
  renderText 10 0 (bs "Bandwidth (est)");;
  renderLine 0 12 1 45.

Fixpoint reportRows (i lastY : Z) (keys : list KeyReport) : GoM Terminal unit :=
  match keys with
  | [] => mret tt
  | kr :: keys' =>
      let y := i +! 2 in
      if lastY <? y then mret tt
      else
        renderText 0 y (Name kr);;
        renderText 8 y (Itoa (RequestsEstimate kr));;
        renderText 9 y (Itoa (ReportedSize kr));;
        renderText 10 y (Itoa (TrafficEstimate kr));;
        reportRows (i +! 1) lastY keys'
  end.

Definition renderReport (rep : ReportT) : GoM Terminal unit :=
  lastY ← gets (yFromBottom (statusLines +! logLines));
  reportRows 0 lastY (Keys rep).

Fixpoint messageRows (i : Z) (msgs : list bytes) : GoM Terminal unit :=
  match msgs with
  | [] => mret tt
  | msg :: msgs' =>
      y ← gets (yFromBottom (i +! statusLines));
      renderText 0 y msg;;
      messageRows (i +! 1) msgs'
  end.

Definition renderMessages (u : uiContext) : GoM Terminal unit := messageRows 0 (messages u).

(** [fmt.Sprintf("Dropped: %d+%d+%d=%d (%5.2f%%)", ...)] *)
Definition dropLabel (s : Stats) : bytes :=
  let dropRate :=
    if PacketsPassedFilter s =? 0 then ofInt 0
    else fdiv (ofInt (PacketsDroppedTotal s)) (ofInt (PacketsPassedFilter s)) in
  bs "Dropped: " ++ Itoa (PacketsDroppedKernel s) ++ bs "+" ++ Itoa (PacketsDroppedParser s) ++ bs "+" ++
  Itoa (PacketsDroppedAnalysis s) ++ bs "=" ++ Itoa (PacketsDroppedTotal s) ++
  bs " (" ++ padLeft 5 (fixed2 (fmul dropRate (ofInt 100))) ++ bs "%)".

Definition renderFooter (rep : ReportT) (stats : Stats) : GoM Terminal unit :=
  y ← gets (yFromBottom 0);
  renderText 0 y (formatTime (Timestamp rep));;
  renderText 2 y (dropLabel stats);;
  renderText 4 y (bs "Packets: " ++ padLeft 10 (Itoa (PacketsPassedFilter stats)));;
  renderText 6 y (bs "GET responses: " ++ padLeft 10 (Itoa (ResponsesParsed stats))).

(** What one update finds: the time, the iteration orders of the workers' maps,
    and the statistics. *)
Record reading := mkReading { rNow : Z; rOrders : list (list (keyInfo * Z)); rStats : Stats }.

(** A terminal call that may fail. *)
Definition onTerm (f : Terminal -> option error * Terminal) : GoM uiContext (option error) := fun u =>
  let '(err, t) := f (term u) in Ret (err, set_term t u).

Definition update (r : reading) : GoM uiContext (option error) :=
  err ← onTerm Clear;
  match err with
  | Some e => mret (Some e)
  | None =>
      cum ← gets cumulative;
      rep ← zoom analysis set_analysis (Report (rNow r) (rOrders r) (negb cum));
      isPaused ← gets paused;
      (if isPaused : bool then mret tt else modify (set_prevReport rep));;
      u ← gets id;
      zoom term set_term
        (renderHeader;; renderReport (prevReport u);; renderFooter (prevReport u) (rStats r);; renderMessages u);;
      onTerm Flush
  end.

(** ** termbox.go: the event loop *)

Definition handlePause : GoM uiContext unit :=
  modify (fun u => set_paused (negb (paused u)) u);;
  isPaused ← gets paused;
  if isPaused : bool then Log [ItemString (bs "Updates paused")] else Log [ItemString (bs "Updates unpaused")].

Definition handleNewMessage (msg : bytes) : GoM uiContext unit :=
  modify (fun u =>
    if zlen (messages u) <? logLines then set_messages (messages u ++ [msg]) u
    else set_messages (drop 1 (messages u) ++ [msg]) u).

Definition handleEvent (ev : termboxEvent) (r : reading) : GoM uiContext (option error) :=
  match ev with
  | EventKey Ch Key =>
      (if Ch =? 112 then handlePause else mret tt);;
      if (Ch =? 113) || (Key =? KeyCtrlC) then mret (Some errQuitRequested)
      else if Key =? KeyCtrlL then
        err ← update r;
        match err with
        | Some e => mret (Some e)
        | None => onTerm Sync
        end
      else mret None
  | EventResize => update r
  | EventOther => mret None
  end.

(** A round of the loop: a tick, a message from the channel, or an event. *)
Inductive input : Type :=
  | Tick (r : reading)
  | Message
  | TermEvent (ev : termboxEvent) (r : reading).

(** [None] goes round again, [Some err] returns [err]. *)
Definition loopRound (i : input) : GoM uiContext (option (option error)) :=
  match i with
  | Tick r => err ← update r; mret (match err with Some e => Some (Some e) | None => None end)
  | Message => fun u =>
      match msgChan u with
      | [] => Blocked
      | msg :: q => (handleNewMessage msg;; mret None) (set_msgChan q u)
      end
  | TermEvent ev r =>
      err ← handleEvent ev r;
      match err with
      | None => mret None
      | Some e => mret (Some (if bool_decide (e = errQuitRequested) then None else Some e))
      end
  end.

(** A round of the loop, or a message sent by another goroutine. *)
Inductive action : Type := Round (i : input) | Send (items : message).

(** The loop from its select on: [Some err] once it has returned [err]. *)
Fixpoint eventLoopFrom (acts : list action) : GoM uiContext (option (option error)) :=
  match acts with
  | [] => mret None
  | Send items :: acts' => Log items;; eventLoopFrom acts'
  | Round i :: acts' =>
      res ← loopRound i;
      match res with Some err => mret (Some err) | None => eventLoopFrom acts' end
  end.

End ui.

(** ** Lemmas: drawing *)

(** The last [n] elements. *)
Definition lastN {A} (n : nat) (l : list A) : list A := drop (length l - n) l.

Section drawing.
  Context `{HLaws : TermboxLaws}.

(** A drawing that keeps the size and touches only rows in [R]. *)
Definition paints (R : Z -> Prop) (m : GoM Terminal unit) : Prop := forall t, exists t',
  m t = Ret (tt, t') /\ Size t' = Size t /\ forall x y, ~ R y -> cell t' x y = cell t x y.

Lemma paints_mono (R R' : Z -> Prop) m : (forall y, R y -> R' y) -> paints R m -> paints R' m.
Proof. intros HR Hm t. destruct (Hm t) as (t' & E & Hs & Hc). exists t'. split_and!; [done..|]. eauto. Qed.

Lemma paints_ret R : paints R (mret tt).
Proof. intros t. by exists t. Qed.

Lemma paints_seq R m m' : paints R m -> paints R m' -> paints R (m;; m').
Proof.
  intros Hm Hm' t. destruct (Hm t) as (t1 & E1 & Hs1 & Hc1). destruct (Hm' t1) as (t2 & E2 & Hs2 & Hc2).
  exists t2. split_and!; [by unfold mbind, gom_bind; rewrite E1|congruence|].
  intros x y Hy. by rewrite Hc2, Hc1.
Qed.

Lemma renderRunes_paints y rs : forall x t, Size (renderRunes x y rs t) = Size t /\
  forall x' y', y' <> y -> cell (renderRunes x y rs t) x' y' = cell t x' y'.
Proof.
  induction rs as [|r rs IH]; intros x t; [done|]. cbn.
  destruct (IH (x +! RuneWidth r) (SetCell x y r t)) as [Hs Hc]. split; [by rewrite Hs, Size_SetCell|].
  intros x' y' Hy. rewrite Hc, cell_SetCell by done. by rewrite bool_decide_false by intuition congruence.
Qed.

Lemma renderText_paints col y txt : paints (eq y) (renderText col y txt).
Proof.
  intros t. destruct (renderRunes_paints y (runes txt) (columnX col t) t) as [Hs Hc].
  eexists. split; [done|]. split; [done|]. intros x' y' Hy. by apply Hc.
Qed.

Lemma columnX_mono a b t : 0 <= a <= b -> 0 <= columnX a t <= columnX b t /\ columnX b t <= (Size t).1.
Proof.
  intros Hab. destruct (Size_bounds t) as [Hw _]. unfold columnX, numColumns.
  set (w := (Size t).1) in *.
  assert (forall c, 0 <= c < 12 -> w *! c = w * c) as Hm by (intros c Hc; apply wrap64_id; unfold in_int, int_min, int_max; nia).
  assert (forall c, 0 <= c < 12 -> 0 <= w * c / 12 <= w) as Hd.
  { intros c Hc. split; [apply Z.div_pos; nia|]. apply Z.div_le_upper_bound; nia. }
  destruct (Z.leb_spec 12 a), (Z.leb_spec 12 b); try lia.
  - rewrite Hm, Z.quot_div_nonneg by nia. specialize (Hd a ltac:(lia)). lia.
  - rewrite !Hm, !Z.quot_div_nonneg by nia. pose proof (Hd a ltac:(lia)). pose proof (Hd b ltac:(lia)).
    split; [|lia]. split; [lia|]. apply Z.div_le_mono; nia.
Qed.

Lemma renderLine_paints col span y : 0 <= col -> 0 <= span -> col + span <= 12 ->
  paints (eq y) (renderLine col span y 45).
Proof.
  intros Hc Hs Hcs t. unfold renderLine. rewrite RuneWidth_ascii by lia.
  assert (col +! span = col + span) as -> by (apply wrap64_id; golia).
  pose proof (columnX_mono col (col + span) t ltac:(lia)) as [Hx1 Hx2].
  destruct (Size_bounds t) as [Hw _]. remember (columnX (col + span) t) as x1 eqn:Ex1.
  assert (forall fuel x t0, Size t0 = Size t -> (forall x' y', ~ y = y' -> cell t0 x' y' = cell t x' y') ->
    0 <= x -> x1 - x <= Z.of_nat fuel -> exists t',
      renderLineLoop fuel col span x y 1 45 t0 = Ret (tt, t') /\ Size t' = Size t /\
      forall x' y', ~ y = y' -> cell t' x' y' = cell t x' y') as Hloop.
  { induction fuel as [|fuel IH]; intros x t0 Hs0 Hc0 Hx0 Hf; cbn;
      assert (col +! span = col + span) as -> by (apply wrap64_id; golia);
      assert (columnX (col + span) t0 = x1) as -> by (unfold columnX in *; by rewrite Hs0);
      destruct (Z.ltb_spec x x1); try lia; try (by exists t0).
    rewrite (wrap64_id (x + 1)) by golia. apply IH; [by rewrite Size_SetCell| |lia|lia].
    intros x' y' Hy. rewrite cell_SetCell, bool_decide_false by intuition congruence. by apply Hc0. }
  apply Hloop; [done|done|lia|lia].
Qed.

(** *** Texts that can be read *)

(** The bytes of ASCII that show. *)
Definition printable (b : byte) : Prop := 32 <= byteZ b < 127.

(** Row [y] shows the text [txt] from column [x0] to [x1] at most. *)
Definition shows (t : Terminal) (x0 x1 y : Z) (txt : bytes) : Prop :=
  forall j b, txt !! j = Some b -> x0 + Z.of_nat j < x1 -> cell t (x0 + Z.of_nat j) y = byteZ b.

Lemma renderRunes_left y rs : forall x t x', x' < x -> 0 <= x -> x + 2 * zlen rs <= int_max ->
  cell (renderRunes x y rs t) x' y = cell t x' y.
Proof.
  induction rs as [|r rs IH]; intros x t x' Hx' Hx Hn; [done|]. cbn. rewrite zlen_cons in Hn.
  pose proof (RuneWidth_bounds r). pose proof (zlen_nonneg rs). rewrite wrap64_id by golia.
  rewrite IH by lia. rewrite cell_SetCell. by rewrite bool_decide_false by lia.
Qed.

(** A printable start of a text is readable as far as the screen goes. *)
Lemma renderRunes_shows y p : forall rs x t, Forall printable p -> 0 <= x -> 0 <= y < (Size t).2 ->
  x + 2 * (zlen p + zlen rs) <= int_max ->
  shows (renderRunes x y ((byteZ <$> p) ++ rs) t) x (Size t).1 y p.
Proof.
  induction p as [|b p IH]; intros rs x t Hp Hx Hy Hn j c Hj Hlt; [done|].
  apply Forall_cons in Hp as [Hb Hp]. rewrite zlen_cons in Hn. pose proof (zlen_nonneg p). pose proof (zlen_nonneg rs).
  cbn. rewrite RuneWidth_ascii by done. rewrite wrap64_id by golia. destruct j as [|j]; simplify_eq/=.
  - rewrite Z.add_0_r in *. rewrite renderRunes_left; [|lia|lia|rewrite zlen_app; unfold zlen in *; rewrite length_fmap; lia].
    rewrite cell_SetCell, bool_decide_true by lia. done.
  - pose proof (IH rs (x + 1) (SetCell x y (byteZ b) t) Hp ltac:(lia) ltac:(by rewrite Size_SetCell) ltac:(lia) j c Hj) as Hc.
    rewrite Size_SetCell in Hc. replace (x + Z.of_nat (S j)) with (x + 1 + Z.of_nat j) by lia. apply Hc. lia.
Qed.

Lemma runes_app_ascii p s : Forall printable p -> runes (p ++ s) = (byteZ <$> p) ++ runes s.
Proof.
  unfold runes. induction 1 as [|b p Hb _ IH]; [done|]. cbn. unfold decodeRune.
  destruct (Z.ltb_spec (byteZ b) 128); [by rewrite IH|]. unfold printable in Hb. lia.
Qed.

Lemma runes_length s : zlen (runes s) <= zlen s.
Proof.
  unfold runes. cut (forall n, zlen (runesFrom n s) <= zlen s); [done|].
  induction s as [|b s IH]; intros n; [done|]. cbn [runesFrom]. rewrite zlen_cons. destruct n as [|n].
  - destruct (decodeRune b s) as [r k]. rewrite zlen_cons. specialize (IH k). lia.
  - specialize (IH n). lia.
Qed.

(** A text small enough for its width to be an int. *)
Definition fits (s : bytes) : Prop := zlen s <= 1152921504606846976.

Lemma renderText_shows col y p s t : 0 <= col <= 12 -> 0 <= y < (Size t).2 -> Forall printable p -> fits (p ++ s) ->
  exists t', renderText col y (p ++ s) t = Ret (tt, t') /\ Size t' = Size t /\
    shows t' (columnX col t) (Size t).1 y p /\
    (forall x, x < columnX col t -> cell t' x y = cell t x y) /\
    forall x y', y' <> y -> cell t' x y' = cell t x y'.
Proof.
  intros Hc Hy Hp Hfit. unfold fits in Hfit. pose proof (columnX_mono col 12 t ltac:(lia)) as [Hx Hw].
  destruct (Size_bounds t) as [Hb _]. pose proof (runes_length s). rewrite zlen_app in Hfit.
  pose proof (zlen_nonneg p). pose proof (zlen_nonneg (runes s)).
  destruct (renderRunes_paints y (runes (p ++ s)) (columnX col t) t) as [Hs Ho].
  eexists. split; [done|]. split_and!; [done| | |done]; rewrite runes_app_ascii by done.
  - apply renderRunes_shows; [done|lia|lia|golia].
  - intros x Hlt. apply renderRunes_left; [done|lia|]. rewrite zlen_app. unfold zlen at 1. rewrite length_fmap. golia.
Qed.

(** *** Rows *)

(** The row [f] of a screen [w] wide once the runes [rs] are written into it from
    column [x] on, and once some texts are, one after the other. *)
Fixpoint overlay (w x : Z) (rs : list Z) (f : Z -> Z) : Z -> Z :=
  match rs with
  | [] => f
  | r :: rs' => overlay w (x +! RuneWidth r) rs' (fun x' => if bool_decide (x' = x /\ 0 <= x < w) then r else f x')
  end.

Definition written (w : Z) (texts : list (Z * bytes)) (f : Z -> Z) : Z -> Z :=
  foldl (fun f t => overlay w t.1 (runes t.2) f) f texts.

Lemma written_cons w x txt l f : written w ((x, txt) :: l) f = written w l (overlay w x (runes txt) f).
Proof. done. Qed.

Lemma overlay_ext w rs : forall x f g x', (forall x, f x = g x) -> overlay w x rs f x' = overlay w x rs g x'.
Proof.
  induction rs as [|r rs IH]; intros x f g x' E; cbn; [done|]. apply IH. intros x1. by case_bool_decide.
Qed.

Lemma written_ext w l : forall f g x, (forall x, f x = g x) -> written w l f x = written w l g x.
Proof.
  induction l as [|t l IH]; intros f g x E; cbn; [done|]. apply IH. intros x1. by apply overlay_ext.
Qed.

(** What a drawing makes of every row, on screens of the size of [t0]. *)
Definition draws (t0 : Terminal) (m : GoM Terminal unit) (texts : Z -> list (Z * bytes)) : Prop :=
  forall t, Size t = Size t0 -> exists t', m t = Ret (tt, t') /\ Size t' = Size t0 /\
    forall x y, 0 <= y < (Size t0).2 -> cell t' x y = written (Size t0).1 (texts y) (fun x => cell t x y) x.

Lemma draws_ext t0 m f g : (forall y, 0 <= y < (Size t0).2 -> f y = g y) -> draws t0 m f -> draws t0 m g.
Proof.
  intros E Hm t Ht. destruct (Hm t Ht) as (t' & ? & ? & Hc). exists t'. split_and!; [done..|]. intros x y Hy.
  by rewrite Hc, E.
Qed.

Lemma draws_nothing t0 : draws t0 (mret tt) (fun _ => []).
Proof. intros t Ht. by exists t. Qed.

Lemma draws_seq t0 m m' f g : draws t0 m f -> draws t0 m' g -> draws t0 (m;; m') (fun y => f y ++ g y).
Proof.
  intros Hm Hm' t Ht. destruct (Hm t Ht) as (t1 & E1 & Hs1 & Hc1). destruct (Hm' t1 Hs1) as (t2 & E2 & Hs2 & Hc2).
  exists t2. split_and!; [by unfold mbind, gom_bind; rewrite E1|done|]. intros x y Hy. rewrite Hc2 by done.
  unfold written. rewrite foldl_app. apply written_ext. intros x1. by apply Hc1.
Qed.

(** A drawing that depends on the size only. *)
Lemma draws_gets {A} t0 (get : Terminal -> A) (k : A -> GoM Terminal unit) f :
  (forall t, Size t = Size t0 -> get t = get t0) -> draws t0 (k (get t0)) f -> draws t0 (v ← gets get; k v) f.
Proof. intros Hg Hk t Ht. unfold mbind, gom_bind, gets. rewrite (Hg t Ht). by apply Hk. Qed.

Lemma renderRunes_overlay y rs : forall x t, 0 <= y < (Size t).2 -> Size (renderRunes x y rs t) = Size t /\
  forall x' y', cell (renderRunes x y rs t) x' y' =
    if decide (y' = y) then overlay (Size t).1 x rs (fun x => cell t x y) x' else cell t x' y'.
Proof.
  induction rs as [|r rs IH]; intros x t Hy; cbn; [split; [done|]; intros x' y'; by destruct (decide _) as [->|]|].
  destruct (IH (x +! RuneWidth r) (SetCell x y r t)) as [Hs Hc]; [by rewrite Size_SetCell|].
  rewrite Size_SetCell in *. split; [done|]. intros x' y'. rewrite Hc. destruct (decide (y' = y)) as [->|Hne].
  - apply overlay_ext. intros x1. rewrite cell_SetCell. by do 2 case_bool_decide; intuition.
  - rewrite cell_SetCell. by rewrite bool_decide_false by tauto.
Qed.

Lemma columnX_size a t t' : Size t' = Size t -> columnX a t' = columnX a t.
Proof. unfold columnX. by intros ->. Qed.

(** The texts [l], given by their columns, in row [y]. *)
Definition inRow (t : Terminal) (y : Z) (l : list (Z * bytes)) (y' : Z) : list (Z * bytes) :=
  if y' =? y then (fun t' => (columnX t'.1 t, t'.2)) <$> l else [].

Lemma inRow_app t y l k y' : inRow t y l y' ++ inRow t y k y' = inRow t y (l ++ k) y'.
Proof. unfold inRow. destruct (y' =? y); [by rewrite fmap_app|done]. Qed.

Lemma renderText_draws t0 col y txt : draws t0 (renderText col y txt) (inRow t0 y [(col, txt)]).
Proof.
  intros t Ht. eexists. split; [done|]. unfold inRow. rewrite (columnX_size col t0 t Ht).
  destruct (renderRunes_paints y (runes txt) (columnX col t0) t) as [Hs Ho]. split; [congruence|].
  intros x y' Hy. destruct (Z.eqb_spec y' y) as [->|Hne]; [|by apply Ho].
  destruct (renderRunes_overlay y (runes txt) (columnX col t0) t) as [_ Hc]; [by rewrite Ht|].
  rewrite Hc, decide_True by done. by rewrite Ht.
Qed.

(** A line is a text of dashes. *)
Lemma renderLine_draws t0 y : draws t0 (renderLine 0 12 y 45) (inRow t0 y [(0, replicate (Z.to_nat (Size t0).1) "-"%byte)]).
Proof.
  intros t Ht. unfold renderLine. rewrite RuneWidth_ascii by lia. change (0 +! 12) with 12.
  assert (forall t1, Size t1 = Size t0 -> columnX 12 t1 = (Size t0).1) as H12 by (intros t1 E; unfold columnX; by rewrite E).
  assert (columnX 0 t = 0 /\ columnX 0 t0 = 0) as [E0 E0'] by (unfold columnX; cbn; by rewrite !Z.mul_0_r).
  rewrite (H12 t Ht), E0, Z.sub_0_r. destruct (Size_bounds t0) as [[Hw0 Hw] _].
  assert (forall n x t1, Size t1 = Size t0 -> 0 <= x -> x + Z.of_nat n = (Size t0).1 ->
    renderLineLoop n 0 12 x y 1 45 t1 = Ret (tt, renderRunes x y (replicate n 45) t1)) as Hloop.
  { induction n as [|n IH]; intros x t1 Hs1 Hx Hn; cbn; change (0 +! 12) with 12; rewrite (H12 t1 Hs1);
      destruct (Z.ltb_spec x (Size t0).1); try lia; [done|].
    rewrite (RuneWidth_ascii 45), (wrap64_id (x + 1)) by golia. apply IH; [by rewrite Size_SetCell|lia|lia]. }
  rewrite (Hloop (Z.to_nat (Size t0).1)) by (done || lia).
  destruct (renderText_draws t0 0 y (replicate (Z.to_nat (Size t0).1) "-"%byte) t Ht) as (t' & E & Hr).
  exists t'. split; [|done]. rewrite <- E. unfold renderText. rewrite E0, runes_ascii by by apply Forall_replicate.
  by rewrite fmap_replicate.
Qed.

(** Texts in columns, each readable up to the next. *)
Definition columnsShown (t : Terminal) (y : Z) (l : list (Z * bytes)) : Prop :=
  forall i col txt, l !! i = Some (col, txt) ->
    shows t (columnX col t) (match l !! S i with Some (next, _) => columnX next t | None => (Size t).1 end) y txt.

(** *** Reading a row *)

Lemma overlay_left w rs : forall x f x', x' < x -> 0 <= x -> x + 2 * zlen rs <= int_max ->
  overlay w x rs f x' = f x'.
Proof.
  induction rs as [|r rs IH]; intros x f x' Hx' Hx Hn; [done|]. cbn. rewrite zlen_cons in Hn.
  pose proof (RuneWidth_bounds r). pose proof (zlen_nonneg rs). rewrite wrap64_id by golia.
  rewrite IH by lia. by rewrite bool_decide_false by lia.
Qed.

Lemma overlay_text w p : forall x f j b, Forall printable p -> 0 <= x -> x + 2 * zlen p <= int_max ->
  p !! j = Some b -> x + Z.of_nat j < w -> overlay w x (byteZ <$> p) f (x + Z.of_nat j) = byteZ b.
Proof.
  induction p as [|c p IH]; intros x f j b Hp Hx Hn Hj Hlt; [done|]. apply Forall_cons in Hp as [Hc Hp].
  rewrite zlen_cons in Hn. pose proof (zlen_nonneg p). cbn. rewrite RuneWidth_ascii by done. rewrite wrap64_id by golia.
  destruct j as [|j]; simplify_eq/=.
  - rewrite overlay_left; [|lia|lia|unfold zlen in *; rewrite length_fmap; lia]. by rewrite bool_decide_true by lia.
  - replace (x + Z.of_nat (S j)) with (x + 1 + Z.of_nat j) by lia. apply IH; [done|lia|lia|done|lia].
Qed.

(** Texts in columns of a screen, from left to right. *)
Definition columns (l : list (Z * bytes)) : Prop :=
  StronglySorted (fun a b => a.1 <= b.1) l /\
  Forall (fun t => 0 <= t.1 <= 12 /\ Forall printable t.2 /\ zlen t.2 <= 65536) l.

Lemma runes_printable p : Forall printable p -> runes p = byteZ <$> p.
Proof. intros Hp. apply runes_ascii. eapply Forall_impl; [exact Hp|]. unfold printable. lia. Qed.

Lemma written_left t l : forall f x, Forall (fun u => x < columnX u.1 t) l ->
  Forall (fun u => 0 <= u.1 <= 12 /\ Forall printable u.2 /\ zlen u.2 <= 65536) l ->
  written (Size t).1 ((fun u => (columnX u.1 t, u.2)) <$> l) f x = f x.
Proof.
  induction l as [|u l IH]; intros f x Hx Hl; [done|]. apply Forall_cons in Hx as [Hx Hxs].
  apply Forall_cons in Hl as [(Hc & Hp & Hz) Hl]. rewrite fmap_cons, written_cons, (IH _ _ Hxs Hl).
  destruct (columnX_mono u.1 12 t ltac:(lia)) as [? ?]. destruct (Size_bounds t) as [? _].
  rewrite runes_printable by done. apply overlay_left; [done|lia|]. unfold zlen in *. rewrite length_fmap. golia.
Qed.

Lemma columns_written t l : columns l -> forall f i col txt j b, l !! i = Some (col, txt) -> txt !! j = Some b ->
  columnX col t + Z.of_nat j < match l !! S i with Some (next, _) => columnX next t | None => (Size t).1 end ->
  written (Size t).1 ((fun u => (columnX u.1 t, u.2)) <$> l) f (columnX col t + Z.of_nat j) = byteZ b.
Proof.
  intros [Hs Hl]. induction Hs as [|u l Hs IH Hle]; intros f i col txt j b Hi Hj Hlt; [done|].
  apply Forall_cons in Hl as [(Hc & Hp & Hz) Hl]. destruct i as [|i]; [|by apply (IH Hl _ i _ txt)].
  injection Hi as ->. cbn [fst snd] in *. destruct (columnX_mono col 12 t ltac:(lia)) as [? ?].
  destruct (Size_bounds t) as [? _]. rewrite fmap_cons, written_cons, written_left; [| |done].
  - rewrite runes_printable by done. apply overlay_text; [done|lia|golia|done|].
    destruct l as [|[next s] l]; [done|]. cbn in Hlt. apply Forall_cons in Hl as [[Hn _] _]. cbn in Hn.
    destruct (columnX_mono next 12 t ltac:(lia)) as [? ?]. lia.
  - destruct l as [|[next s] l]; [constructor|]. cbn in Hlt. apply StronglySorted_inv in Hs as [_ Hnext].
    apply Forall_cons in Hl as [[Hn _] Hl]. cbn in Hn. constructor; [done|]. apply Forall_forall. intros v Hv.
    rewrite Forall_forall in Hnext. specialize (Hnext v Hv). cbn in Hnext. rewrite Forall_forall in Hl.
    destruct (Hl v Hv) as [? _]. destruct (columnX_mono next v.1 t ltac:(lia)) as [? _]. lia.
Qed.

End drawing.

(** ** Lemmas: the screen *)

Section screen.
  Context {H : Type} {HHot : HotList H keyInfo} {HRe : RegexpPkg} {HSort : SortPkg}.
  Context {HTerm : TermboxPkg} {HLaws : TermboxLaws}.
  Context (errorText : error -> bytes) (formatTime : Z -> bytes).

Lemma digit_printable b : is_Some (digit_val b) -> printable b.
Proof. unfold digit_val, printable. intros [v E]. case_bool_decide; [|done]. lia. Qed.

Lemma Itoa_printable n : Forall printable (Itoa n).
Proof.
  unfold Itoa. assert (forall m, 0 <= m -> Forall printable (itoa_digits 20 m [])) as Hd.
  { intros m Hm. eapply Forall_impl; [by apply itoa_digits_all|apply digit_printable]. }
  destruct (Z.ltb_spec n 0); [|by apply Hd]. constructor; [done|apply Hd; lia].
Qed.

Lemma itoa_digits_length fuel : forall n acc, zlen (itoa_digits fuel n acc) <= Z.of_nat fuel + zlen acc.
Proof.
  induction fuel as [|fuel IH]; intros n acc; cbn [itoa_digits]; [lia|].
  destruct (n <? 10); [rewrite zlen_cons; lia|]. etrans; [apply IH|]. rewrite zlen_cons. lia.
Qed.

Lemma Itoa_fits n : fits (Itoa n ++ []).
Proof.
  rewrite app_nil_r. unfold fits, Itoa.
  pose proof (itoa_digits_length 20 n []). pose proof (itoa_digits_length 20 (- n) []).
  assert (zlen (@nil byte) = 0) by done. destruct (n <? 0); rewrite ?zlen_cons; lia.
Qed.

Lemma columnX_0 t : columnX 0 t = 0.
Proof. unfold columnX. cbn. by rewrite Z.mul_0_r. Qed.

(* unification does not look into these *)
#[local] Opaque Itoa columnX.

Lemma shows_weaken t t' x0 x1 x2 y txt : shows t x0 x1 y txt -> x2 <= x1 ->
  (forall x, x < x2 -> cell t' x y = cell t x y) -> shows t' x0 x2 y txt.
Proof. intros Hs Hx Hc j b Hj Hlt. rewrite Hc by done. apply Hs; [done|lia]. Qed.

Lemma shows_ext t t' x0 x1 y txt : shows t x0 x1 y txt -> (forall x, cell t' x y = cell t x y) -> shows t' x0 x1 y txt.
Proof. intros Hs Hc j b Hj Hlt. rewrite Hc. by apply Hs. Qed.

(** Row [y] shows an entry of a report: the start of its name up to the column of
    the requests, the numbers up to the next column each. *)
Definition rowShown (t : Terminal) (y : Z) (kr : KeyReport) : Prop :=
  (forall p s, Name kr = p ++ s -> Forall printable p -> shows t 0 (columnX 8 t) y p) /\
  shows t (columnX 8 t) (columnX 9 t) y (Itoa (RequestsEstimate kr)) /\
  shows t (columnX 9 t) (columnX 10 t) y (Itoa (ReportedSize kr)) /\
  shows t (columnX 10 t) (Size t).1 y (Itoa (TrafficEstimate kr)).

Lemma rowShown_ext t t' y kr : rowShown t y kr -> Size t' = Size t ->
  (forall x, cell t' x y = cell t x y) -> rowShown t' y kr.
Proof.
  intros (Hn & H8 & H9 & H10) Hs Hc. unfold rowShown. rewrite !(columnX_size _ _ _ Hs), Hs.
  split; [intros p s E Hp; by apply (shows_ext t); [apply (Hn p s)|]|].
  split; [exact (shows_ext _ _ _ _ _ _ H8 Hc)|].
  split; [exact (shows_ext _ _ _ _ _ _ H9 Hc)|exact (shows_ext _ _ _ _ _ _ H10 Hc)].
Qed.

Lemma renderNumber col y n t : 0 <= col <= 12 -> 0 <= y < (Size t).2 -> exists t',
  renderText col y (Itoa n) t = Ret (tt, t') /\ Size t' = Size t /\
  shows t' (columnX col t) (Size t).1 y (Itoa n) /\
  (forall x, x < columnX col t -> cell t' x y = cell t x y) /\ forall x y', y' <> y -> cell t' x y' = cell t x y'.
Proof.
  intros Hc Hy. destruct (renderText_shows col y (Itoa n) [] t Hc Hy (Itoa_printable n) (Itoa_fits n)) as (t' & E & Hr).
  rewrite app_nil_r in E. by exists t'.
Qed.

(** The four texts of one entry. *)
Lemma row_drawn kr y t : 0 <= y < (Size t).2 -> fits (Name kr) -> exists t',
  (renderText 0 y (Name kr);; renderText 8 y (Itoa (RequestsEstimate kr));;
   renderText 9 y (Itoa (ReportedSize kr));; renderText 10 y (Itoa (TrafficEstimate kr))) t = Ret (tt, t') /\
  Size t' = Size t /\ rowShown t' y kr /\ forall x y', y' <> y -> cell t' x y' = cell t x y'.
Proof.
  intros Hy Hfit.
  pose proof (columnX_mono 8 9 t ltac:(lia)) as [H8 _]. pose proof (columnX_mono 9 10 t ltac:(lia)) as [H9 _].
  pose proof (columnX_mono 10 12 t ltac:(lia)) as [H10 Hw].
  destruct (renderText_paints 0 y (Name kr) t) as (t1 & E1 & Hs1 & Ho1).
  destruct (renderNumber 8 y (RequestsEstimate kr) t1) as (t2 & E2 & Hs2 & Hsh2 & Hl2 & Ho2); [lia|by rewrite Hs1|].
  destruct (renderNumber 9 y (ReportedSize kr) t2) as (t3 & E3 & Hs3 & Hsh3 & Hl3 & Ho3); [lia|congruence|].
  destruct (renderNumber 10 y (TrafficEstimate kr) t3) as (t4 & E4 & Hs4 & Hsh4 & Hl4 & Ho4); [lia|congruence|].
  assert (Size t4 = Size t) as Hs by congruence.
  assert (forall a, columnX a t4 = columnX a t) as Hcol by (intros a; by apply columnX_size).
  rewrite (columnX_size _ _ _ Hs1) in Hsh2, Hl2. rewrite Hs1 in Hsh2.
  rewrite (columnX_size 9 t t2) in Hsh3, Hl3 by congruence. rewrite Hs2, Hs1 in Hsh3.
  rewrite (columnX_size 10 t t3) in Hsh4, Hl4 by congruence. rewrite Hs3, Hs2, Hs1 in Hsh4.
  exists t4. split_and!; [by unfold mbind, gom_bind; rewrite E1, E2, E3|done| |].
  - unfold rowShown. rewrite !Hcol, Hs. split_and!.
    + intros p s En Hp. rewrite En in Hfit, E1.
      destruct (renderText_shows 0 y p s t ltac:(lia) Hy Hp Hfit) as (t1' & E1' & _ & Hsh1 & _).
      assert (t1' = t1) as -> by congruence. rewrite columnX_0 in Hsh1.
      eapply shows_weaken; [exact Hsh1|lia|]. intros x Hx. rewrite Hl4, Hl3, Hl2 by lia. done.
    + eapply shows_weaken; [exact Hsh2|lia|]. intros x Hx. rewrite Hl4, Hl3 by lia. done.
    + eapply shows_weaken; [exact Hsh3|lia|]. intros x Hx. by rewrite Hl4 by lia.
    + done.
  - intros x y' Hy'. by rewrite Ho4, Ho3, Ho2, Ho1 by congruence.
Qed.

Lemma reportRows_drawn keys : forall i lastY t, Forall (fun kr => fits (Name kr)) keys ->
  0 <= i <= 65536 -> lastY < (Size t).2 -> exists t',
  reportRows i lastY keys t = Ret (tt, t') /\ Size t' = Size t /\
  (forall x y, ~ (i + 2 <= y < i + 2 + zlen keys /\ y <= lastY) -> cell t' x y = cell t x y) /\
  forall n kr, keys !! n = Some kr -> i + Z.of_nat n + 2 <= lastY -> rowShown t' (i + Z.of_nat n + 2) kr.
Proof.
  induction keys as [|kr keys IH]; intros i lastY t Hfit Hi Hl; [by exists t|].
  apply Forall_cons in Hfit as [Hk Hfit]. cbn [reportRows]. rewrite (wrap64_id (i + 2)) by golia.
  destruct (Size_bounds t) as [_ Hb]. destruct (Z.ltb_spec lastY (i + 2)).
  { exists t. split_and!; [done..|]. intros n kr' _ Hn. lia. }
  destruct (row_drawn kr (i + 2) t ltac:(lia) Hk) as (t1 & E1 & Hs1 & Hrow & Ho1).
  rewrite (wrap64_id (i + 1)) by golia.
  destruct (IH (i + 1) lastY t1 Hfit ltac:(lia) ltac:(by rewrite Hs1)) as (t2 & E2 & Hs2 & Ho2 & Hrows).
  exists t2. split_and!; [|congruence| |].
  - unfold mbind, gom_bind in *. destruct (renderText 0 (i + 2) (Name kr) t) as [[[] ?]| | |]; [|done..].
    destruct (renderText 8 _ _ _) as [[[] ?]| | |]; [|done..]. destruct (renderText 9 _ _ _) as [[[] ?]| | |]; [|done..].
    by rewrite E1.
  - intros x y Hy. rewrite zlen_cons in Hy. pose proof (zlen_nonneg keys). rewrite Ho2 by lia. apply Ho1. lia.
  - intros [|n] kr' Hn Hle; cbn in Hn; [injection Hn as <-|].
    + replace (i + Z.of_nat 0 + 2) with (i + 2) by lia. apply (rowShown_ext t1); [exact Hrow|exact Hs2|]. intros x. apply Ho2. lia.
    + replace (i + Z.of_nat (S n) + 2) with (i + 1 + Z.of_nat n + 2) by lia. apply Hrows; [done|lia].
Qed.

(** Row [y] shows the printable start of a message. *)
Definition messageShown (t : Terminal) (y : Z) (msg : bytes) : Prop :=
  forall p s, msg = p ++ s -> Forall printable p -> 0 <= y -> shows t 0 (Size t).1 y p.

Lemma messageRows_drawn msgs : forall i t, Forall fits msgs -> 0 <= i -> i + zlen msgs <= 4 -> exists t',
  messageRows i msgs t = Ret (tt, t') /\ Size t' = Size t /\
  (forall x y, ~ (y <= (Size t).2 - 2 - i /\ (Size t).2 - 2 - i - zlen msgs < y) -> cell t' x y = cell t x y) /\
  forall n msg, msgs !! n = Some msg -> messageShown t' ((Size t).2 - 2 - i - Z.of_nat n) msg.
Proof.
  induction msgs as [|msg msgs IH]; intros i t Hfit Hi Hn; [by exists t|].
  apply Forall_cons in Hfit as [Hk Hfit]. rewrite zlen_cons in *. pose proof (zlen_nonneg msgs).
  destruct (Size_bounds t) as [_ Hb]. cbn [messageRows].
  assert (yFromBottom (i +! statusLines) t = (Size t).2 - 2 - i) as Ey.
  { unfold yFromBottom, statusLines. rewrite (wrap64_id (i + 1)), (wrap64_id ((Size t).2 - 1)), wrap64_id by golia. lia. }
  unfold mbind, gom_bind, gets. rewrite Ey. set (y := (Size t).2 - 2 - i) in *.
  destruct (renderText_paints 0 y msg t) as (t1 & E1 & Hs1 & Ho1). rewrite E1. rewrite (wrap64_id (i + 1)) by golia.
  destruct (IH (i + 1) t1 Hfit ltac:(lia) ltac:(lia)) as (t2 & E2 & Hs2 & Ho2 & Hrows). rewrite Hs1 in Ho2, Hrows.
  exists t2. split_and!; [done|congruence| |].
  - intros x y' Hy. rewrite Ho2 by lia. apply Ho1. lia.
  - intros [|n] m Hm; cbn in Hm; [injection Hm as <-|].
    + intros p s -> Hp Hy. rewrite Z.sub_0_r in *.
      destruct (renderText_shows 0 y p s t ltac:(lia) ltac:(lia) Hp Hk) as (t1' & E1' & _ & Hsh & _).
      assert (t1' = t1) as -> by congruence. rewrite columnX_0 in Hsh. rewrite Hs2, Hs1.
      eapply shows_ext; [exact Hsh|]. intros x. apply Ho2. lia.
    + replace (y - Z.of_nat (S n)) with ((Size t).2 - 2 - (i + 1) - Z.of_nat n) by lia. by apply Hrows.
Qed.

End screen.

(** ** Properties of the screen *)

Section properties.
  Context {H : Type} {HHot : HotList H keyInfo} {HRe : RegexpPkg} {HSort : SortPkg}.
  Context {HTerm : TermboxPkg}.
  Context (errorText : error -> bytes) (formatTime : Z -> bytes).

Local Abbreviation UI := (@uiContext H HRe HTerm).

(** The texts of a screen, by their columns. *)
Definition headerTexts : list (Z * bytes) :=
  [(0, bs "Key"); (8, bs "Requests (est)"); (9, bs "Size"); (10, bs "Bandwidth (est)")].
Definition entryTexts (kr : KeyReport) : list (Z * bytes) :=
  [(0, Name kr); (8, Itoa (RequestsEstimate kr)); (9, Itoa (ReportedSize kr)); (10, Itoa (TrafficEstimate kr))].
Definition footerTexts (rep : ReportT) (stats : Stats) : list (Z * bytes) :=
  [(0, formatTime (Timestamp rep)); (2, dropLabel stats);
   (4, bs "Packets: " ++ padLeft 10 (Itoa (PacketsPassedFilter stats)));
   (6, bs "GET responses: " ++ padLeft 10 (Itoa (ResponsesParsed stats)))].

(** The texts of row [y] of a screen, in the order they are written: the labels in
    row 0 and dashes in row 1; from row 2 on an entry of the report in each row, down
    to the sixth row from the bottom; the footer in the last row; and the messages
    from the last row but one upwards.  (On a screen of less than ten rows some of
    these meet in one row.) *)
Definition rowTexts (t : Terminal) (rep : ReportT) (stats : Stats) (msgs : list bytes) (y : Z) : list (Z * bytes) :=
  let h := (Size t).2 in
  inRow t 0 headerTexts y ++ inRow t 1 [(0, replicate (Z.to_nat (Size t).1) "-"%byte)] y ++
  (if bool_decide (2 <= y <= h - 6)
   then match Keys rep !! Z.to_nat (y - 2) with Some kr => inRow t y (entryTexts kr) y | None => [] end else []) ++
  inRow t (h - 1) (footerTexts rep stats) y ++
  (if bool_decide (y <= h - 2)
   then match msgs !! Z.to_nat (h - 2 - y) with Some msg => inRow t y [(0, msg)] y | None => [] end else []).

(** What a screen with the report [rep], the statistics [stats] and the messages
    [msgs] shows.  Every cell is as its row has it: blank but for its texts.  And the
    texts can be read: the labels of the header, unless messages reach it; from the
    third row an entry of the report in each row, as far as the last five rows are
    left free, and empty rows after them; a message in each of the rows from the last
    but one upwards. *)
Record screenOf `{!TermboxLaws} (t : Terminal) (rep : ReportT) (stats : Stats) (msgs : list bytes) : Prop := {
  sc_cells : forall x y, 0 <= y < (Size t).2 ->
    cell t x y = written (Size t).1 (rowTexts t rep stats msgs y) (fun _ => 32) x;
  sc_header : 3 + zlen msgs <= (Size t).2 ->
    columnsShown t 0 headerTexts /\ forall x, 0 <= x < (Size t).1 -> cell t x 1 = 45;
  sc_rows : forall i kr, Keys rep !! i = Some kr -> Z.of_nat i + 2 <= (Size t).2 - 6 ->
    rowShown t (Z.of_nat i + 2) kr;
  sc_blank : forall x y, zlen (Keys rep) + 2 <= y <= (Size t).2 - 6 -> cell t x y = 32;
  sc_messages : forall i msg, msgs !! i = Some msg -> messageShown t ((Size t).2 - 2 - Z.of_nat i) msg
}.

Context `{!TermboxLaws}.

Lemma renderHeader_paints : paints (fun y => 0 <= y <= 1) renderHeader.
Proof.
  unfold renderHeader. repeat apply paints_seq; (eapply paints_mono; [|
    first [apply renderText_paints|apply (renderLine_paints 0 12 1); lia]]); intros y <-; lia.
Qed.

Lemma yFromBottom_eq n t : 0 <= n <= 5 -> yFromBottom n t = (Size t).2 - 1 - n.
Proof.
  intros Hn. destruct (Size_bounds t) as [_ Hb]. unfold yFromBottom.
  by rewrite (wrap64_id ((Size t).2 - 1)), wrap64_id by golia.
Qed.

Lemma renderFooter_paints rep stats t : exists t', renderFooter formatTime rep stats t = Ret (tt, t') /\
  Size t' = Size t /\ forall x y, y <> (Size t).2 - 1 -> cell t' x y = cell t x y.
Proof.
  unfold renderFooter, gets. unfold mbind at 1, gom_bind at 1. rewrite yFromBottom_eq, Z.sub_0_r by lia.
  assert (forall y, paints (eq y) (renderText 0 y (formatTime (Timestamp rep));; renderText 2 y (dropLabel stats);;
    renderText 4 y (bs "Packets: " ++ padLeft 10 (Itoa (PacketsPassedFilter stats)));;
    renderText 6 y (bs "GET responses: " ++ padLeft 10 (Itoa (ResponsesParsed stats))))) as Hp
    by (intros y; repeat apply paints_seq; apply renderText_paints).
  destruct (Hp ((Size t).2 - 1) t) as (t' & E & Hs & Hc). exists t'. split_and!; [exact E|done|]. intros x y Hy. apply Hc. congruence.
Qed.

(** *** Row by row *)

Lemma entry_draws t0 kr y m f : draws t0 m f ->
  draws t0 (renderText 0 y (Name kr);; renderText 8 y (Itoa (RequestsEstimate kr));;
    renderText 9 y (Itoa (ReportedSize kr));; renderText 10 y (Itoa (TrafficEstimate kr));; m)
    (fun y' => inRow t0 y (entryTexts kr) y' ++ f y').
Proof.
  intros Hm. eapply draws_ext; [|do 4 (eapply draws_seq; [apply renderText_draws|]); exact Hm].
  intros y' _. cbn beta. rewrite !app_assoc, !inRow_app. done.
Qed.

Lemma reportRows_draws t0 keys : forall i lastY, 0 <= i <= 65536 -> lastY < (Size t0).2 ->
  draws t0 (reportRows i lastY keys) (fun y =>
    if bool_decide (i + 2 <= y <= lastY)
    then match keys !! Z.to_nat (y - i - 2) with Some kr => inRow t0 y (entryTexts kr) y | None => [] end else []).
Proof.
  induction keys as [|kr keys IH]; intros i lastY Hi Hl; cbn [reportRows].
  { eapply draws_ext; [|apply draws_nothing]. intros y _. cbn beta. by case_bool_decide. }
  rewrite (wrap64_id (i + 2)), (wrap64_id (i + 1)) by golia. destruct (Size_bounds t0) as [_ Hb].
  destruct (Z.ltb_spec lastY (i + 2)).
  { eapply draws_ext; [|apply draws_nothing]. intros y _. cbn beta. by rewrite bool_decide_false by lia. }
  eapply draws_ext; [|apply entry_draws, IH; lia]. intros y _. cbn beta. unfold inRow at 1.
  destruct (Z.eqb_spec y (i + 2)) as [->|Hne].
  - rewrite (bool_decide_false (i + 1 + 2 <= _ <= _)), bool_decide_true, app_nil_r by lia.
    replace (i + 2 - i - 2) with 0 by lia. cbn. unfold inRow. by rewrite Z.eqb_refl.
  - cbn [app]. case_bool_decide as Hy1; case_bool_decide as Hy2; try lia; try done.
    replace (Z.to_nat (y - i - 2)) with (S (Z.to_nat (y - (i + 1) - 2))) by lia. done.
Qed.

Lemma messageRows_draws t0 msgs : forall i, 0 <= i -> i + zlen msgs <= 4 ->
  draws t0 (messageRows i msgs) (fun y =>
    if bool_decide (y <= (Size t0).2 - 2 - i)
    then match msgs !! Z.to_nat ((Size t0).2 - 2 - i - y) with Some msg => inRow t0 y [(0, msg)] y | None => [] end else []).
Proof.
  induction msgs as [|msg msgs IH]; intros i Hi Hn; cbn [messageRows].
  { eapply draws_ext; [|apply draws_nothing]. intros y _. cbn beta. by case_bool_decide. }
  rewrite zlen_cons in Hn. pose proof (zlen_nonneg msgs). unfold statusLines.
  rewrite (wrap64_id (i + 1)) by golia.
  apply (draws_gets _ _ (fun y => renderText 0 y msg;; messageRows (i + 1) msgs)).
  { intros t Ht. unfold yFromBottom. by rewrite Ht. }
  rewrite yFromBottom_eq by lia. eapply draws_ext; [|eapply draws_seq; [apply renderText_draws|apply IH; lia]].
  intros y _. cbn beta. unfold inRow at 1. destruct (Z.eqb_spec y ((Size t0).2 - 1 - (i + 1))) as [->|Hne].
  - rewrite (bool_decide_false (_ <= _ - (i + 1))), bool_decide_true, app_nil_r by lia.
    replace (Z.to_nat ((Size t0).2 - 2 - i - ((Size t0).2 - 1 - (i + 1)))) with 0%nat by lia. cbn. unfold inRow. by rewrite Z.eqb_refl.
  - cbn [app]. case_bool_decide as Hy1; case_bool_decide as Hy2; try lia; try done.
    replace (Z.to_nat ((Size t0).2 - 2 - i - y)) with (S (Z.to_nat ((Size t0).2 - 2 - (i + 1) - y))) by lia. done.
Qed.

Lemma header_draws t0 : draws t0 renderHeader (fun y =>
  inRow t0 0 headerTexts y ++ inRow t0 1 [(0, replicate (Z.to_nat (Size t0).1) "-"%byte)] y).
Proof.
  eapply draws_ext; [|unfold renderHeader; do 4 (eapply draws_seq; [apply renderText_draws|]); apply renderLine_draws].
  intros y _. cbn beta. rewrite !app_assoc, !inRow_app. done.
Qed.

Lemma footer_draws t0 rep stats : draws t0 (renderFooter formatTime rep stats)
  (inRow t0 ((Size t0).2 - 1) (footerTexts rep stats)).
Proof.
  unfold renderFooter. apply draws_gets.
  { intros t Ht. unfold yFromBottom. by rewrite Ht. }
  rewrite yFromBottom_eq, Z.sub_0_r by lia.
  eapply draws_ext; [|do 3 (eapply draws_seq; [apply renderText_draws|]); apply renderText_draws].
  intros y _. cbn beta. rewrite !app_assoc, !inRow_app. done.
Qed.

Lemma screen_draws t0 (u : UI) rep stats : zlen (messages u) <= 4 ->
  draws t0 (renderHeader;; renderReport rep;; renderFooter formatTime rep stats;; renderMessages u)
    (rowTexts t0 rep stats (messages u)).
Proof.
  intros Hm. destruct (Size_bounds t0) as [_ Hb]. eapply draws_ext.
  2:{ eapply draws_seq; [apply header_draws|]. eapply draws_seq; [|eapply draws_seq; [apply footer_draws|]].
      - unfold renderReport. apply draws_gets; [intros t Ht; unfold yFromBottom; by rewrite Ht|].
        change (statusLines +! logLines) with 5. rewrite yFromBottom_eq by lia. apply reportRows_draws; lia.
      - apply messageRows_draws; lia. }
  intros y _. cbn beta. unfold rowTexts. rewrite <- app_assoc, Z.sub_0_r.
  replace ((Size t0).2 - 1 - 5) with ((Size t0).2 - 6) by lia. by rewrite !Z.sub_0_r.
Qed.

Lemma headerTexts_columns : columns headerTexts.
Proof.
  split; [repeat constructor; cbn; lia|]. repeat constructor; cbn; try lia; try done.
Qed.

(** The header of a screen, when no message reaches it. *)
Lemma header_read t rep stats msgs :
  (forall x y, 0 <= y < (Size t).2 ->
    cell t x y = written (Size t).1 (rowTexts t rep stats msgs y) (fun _ => 32) x) ->
  3 + zlen msgs <= (Size t).2 ->
  columnsShown t 0 headerTexts /\ forall x, 0 <= x < (Size t).1 -> cell t x 1 = 45.
Proof.
  intros Hcells Hh. pose proof (zlen_nonneg msgs).
  assert (forall y, 0 <= y <= 1 -> rowTexts t rep stats msgs y =
    inRow t 0 headerTexts y ++ inRow t 1 [(0, replicate (Z.to_nat (Size t).1) "-"%byte)] y) as Hrow.
  { intros y Hy. unfold rowTexts. rewrite (bool_decide_false (2 <= y <= _)), bool_decide_true by lia.
    unfold inRow at 3. destruct (Z.eqb_spec y ((Size t).2 - 1)); [lia|].
    rewrite (lookup_ge_None_2 msgs) by (unfold zlen in *; lia). by rewrite !app_nil_r. }
  split.
  - intros i col txt Hi j b Hj Hlt. rewrite Hcells, Hrow by lia. cbn [inRow Z.eqb]. unfold inRow. cbn [Z.eqb].
    rewrite app_nil_r. by apply (columns_written t headerTexts headerTexts_columns _ i _ txt).
  - intros x Hx. rewrite Hcells, Hrow by lia. unfold inRow. cbn [Z.eqb Pos.eqb app].
    assert (columnX 0 t = 0) as E0 by (unfold columnX; cbn; by rewrite Z.mul_0_r).
    rewrite fmap_cons, written_cons. cbn [fst snd fmap list_fmap]. rewrite E0. unfold written. cbn [foldl].
    destruct (Size_bounds t) as [? _]. set (n := Z.to_nat (Size t).1).
    assert (Forall printable (replicate n "-"%byte)) as Hp by by apply Forall_replicate.
    rewrite runes_printable by done. replace x with (0 + Z.of_nat (Z.to_nat x)) by lia.
    rewrite (overlay_text _ _ 0 _ _ "-"%byte); [done|done|lia|unfold zlen; rewrite length_replicate; golia| |lia].
    apply lookup_replicate_2. unfold n. lia.
Qed.

(** Drawing on a cleared terminal. *)
Lemma screen_drawn (u : UI) rep stats t :
  (forall x y, cell t x y = 32) -> zlen (messages u) <= 4 -> Forall fits (messages u) ->
  Forall (fun kr => fits (Name kr)) (Keys rep) -> exists t',
  (renderHeader;; renderReport rep;; renderFooter formatTime rep stats;; renderMessages u) t = Ret (tt, t') /\
  Size t' = Size t /\ screenOf t' rep stats (messages u).
Proof.
  intros Hclear Hm Hfm Hfk. pose proof (zlen_nonneg (messages u)). pose proof (zlen_nonneg (Keys rep)).
  destruct (renderHeader_paints t) as (t1 & E1 & Hs1 & Hc1).
  destruct (reportRows_drawn (Keys rep) 0 ((Size t).2 - 6) t1) as (t2 & E2 & Hs2 & Hc2 & Hrows); [done|lia|rewrite Hs1; lia|].
  destruct (renderFooter_paints rep stats t2) as (t3 & E3 & Hs3 & Hc3).
  destruct (messageRows_drawn (messages u) 0 t3) as (t4 & E4 & Hs4 & Hc4 & Hmsgs); [done|lia|lia|].
  rewrite Hs2, Hs1 in Hc3. rewrite Hs3, Hs2, Hs1 in Hc4, Hmsgs. rewrite Z.sub_0_r in Hc4.
  assert (Size t4 = Size t) as Hs by congruence.
  assert ((renderHeader;; renderReport rep;; renderFooter formatTime rep stats;; renderMessages u) t = Ret (tt, t4)) as E.
  { unfold renderReport, renderMessages, gets. unfold mbind, gom_bind in *. rewrite E1.
    change (statusLines +! logLines) with 5. rewrite yFromBottom_eq, Hs1 by lia.
    replace ((Size t).2 - 1 - 5) with ((Size t).2 - 6) by lia. by rewrite E2, E3. }
  assert (forall x y, 0 <= y < (Size t4).2 ->
    cell t4 x y = written (Size t4).1 (rowTexts t4 rep stats (messages u) y) (fun _ => 32) x) as Hcells.
  { destruct (screen_draws t4 u rep stats Hm t (eq_sym Hs)) as (t' & E' & _ & Hc). assert (t' = t4) as -> by congruence.
    intros x y Hy. rewrite Hc by done. by apply written_ext. }
  exists t4. split_and!; [done..|]. constructor; [exact Hcells|by apply (header_read t4 rep stats (messages u))|..]; rewrite Hs.
  - intros i kr Hi Hle. replace (Z.of_nat i + 2) with (0 + Z.of_nat i + 2) in * by lia.
    apply (rowShown_ext t2); [by apply Hrows|congruence|]. intros x. rewrite Hc4 by lia. apply Hc3. lia.
  - intros x y Hy. rewrite Hc4, Hc3, Hc2, Hc1 by lia. apply Hclear.
  - intros i msg Hi. specialize (Hmsgs i msg Hi). by rewrite Z.sub_0_r in Hmsgs.
Qed.

(** C16: an update draws the report.  When clearing the screen fails, update
    returns that error and has touched nothing else.  Otherwise it takes a report
    from the analysis pool, which is reset unless reports are cumulative; keeps
    it, or the one before while updates are paused; draws on the cleared screen
    what belongs there and nothing more, which determines every cell: the labels and
    the line of the header; one entry of the report to a row with its name and its
    three numbers in their columns, as many as leave the last five rows free; the
    statistics in the last row; and the messages from the last row but one upwards;
    and ends with what flushing the screen returns.  (Names and messages are taken to
    be shorter than 2^60 bytes.) *)
Theorem update_draws (u : UI) r :
  Forall2 iterates (rOrders r) (workers (analysis u)) -> Forall worker_ok (workers (analysis u)) ->
  0 <= reportSize (analysis u) -> 0 <= reportSize (analysis u) * zlen (workers (analysis u)) <= int_max ->
  zlen (messages u) <= 4 -> Forall fits (messages u) ->
  Forall (fun kr => fits (Name kr)) (Keys (prevReport u)) ->
  match Clear (term u) with
  | (Some e, t) => update formatTime r u = Ret (Some e, set_term t u)
  | (None, t0) => exists rep p', Report (rNow r) (rOrders r) (negb (cumulative u)) (analysis u) = Ret (rep, p') /\
      let shown := if paused u then prevReport u else rep in
      (Forall (fun kr => fits (Name kr)) (Keys rep) -> exists t, Size t = Size t0 /\ screenOf t shown (rStats r) (messages u) /\
         update formatTime r u =
           Ret ((Flush t).1, set_term (Flush t).2 (set_prevReport shown (set_analysis p' u))))
  end.
Proof.
  intros Ho Hok Hk Hkn Hm Hfm Hfp. destruct (Clear (term u)) as [[e|] t0] eqn:Ec.
  { unfold update, onTerm, mbind, gom_bind. by rewrite Ec. }
  destruct (Report_spec (negb (cumulative u)) (rNow r) (rOrders r) (analysis u) Ho Hok Hk Hkn) as (rep & p' & E & _).
  exists rep, p'. split; [done|]. intros shown Hfk.
  destruct (screen_drawn u shown (rStats r) t0) as (t & Ed & Hs & Hsc); [|done..|by unfold shown; destruct (paused u)|].
  { intros x y. replace t0 with (Clear (term u)).2 by (by rewrite Ec). apply cell_Clear. }
  exists t. split_and!; [done..|].
  unfold update, onTerm, gets, zoom, modify, mret, gom_ret, mbind, gom_bind in *. rewrite Ec.
  unfold shown in *. destruct u as [an iv ms ch prev cum pau tm]. cbn -[renderHeader] in *. rewrite E.
  destruct pau; cbn -[renderHeader]; unfold renderMessages in *; cbn -[renderHeader] in *; rewrite Ed; cbn; by destruct (Flush t).
Qed.

End properties.

(** ** Properties of the event loop *)

Section loop.
  Context {H : Type} {HHot : HotList H keyInfo} {HRe : RegexpPkg} {HSort : SortPkg}.
  Context {HTerm : TermboxPkg}.
  Context (errorText : error -> bytes) (formatTime : Z -> bytes).
  Local Abbreviation UI := (@uiContext H HRe HTerm).

Lemma lastN_app {A} n (l k : list A) : lastN n (lastN n l ++ k) = lastN n (l ++ k).
Proof.
  unfold lastN. rewrite !length_app, length_drop. set (d := (length l - n)%nat).
  transitivity (drop (d + (length l - d + length k - n)) (take d l ++ drop d l ++ k)).
  - rewrite drop_app_add'; [done|]. rewrite length_take. lia.
  - rewrite app_assoc, take_drop. f_equal. lia.
Qed.

Lemma lastN_short {A} n (l : list A) : (length l <= n)%nat -> lastN n l = l.
Proof. intros Hl. unfold lastN. by replace (length l - n)%nat with 0%nat by lia. Qed.

Lemma lastN_length {A} n (l : list A) : (length (lastN n l) <= n)%nat.
Proof. unfold lastN. rewrite length_drop. lia. Qed.

(** A call that leaves the messages and the channel alone. *)
Definition quiet {A} (m : GoM UI A) : Prop := forall u a u', m u = Ret (a, u') ->
  messages u' = messages u /\ msgChan u' = msgChan u /\ paused u' = paused u.

Lemma quiet_bind {A B} (m : GoM UI A) (k : A -> GoM UI B) : quiet m -> (forall a, quiet (k a)) -> quiet (m ≫= k).
Proof.
  intros Hm Hk u b u' E. unfold mbind, gom_bind in E. destruct (m u) as [[a u1]| | |] eqn:E1; [|done..].
  destruct (Hm _ _ _ E1) as (Em & Ec & Ep). destruct (Hk _ _ _ _ E) as (Em' & Ec' & Ep'). split_and!; congruence.
Qed.

Lemma quiet_ret {A} (a : A) : quiet (mret a).
Proof. by intros u b u' [= _ ->]. Qed.

Lemma quiet_gets {A} (f : UI -> A) : quiet (gets f).
Proof. by intros u b u' [= _ ->]. Qed.

Lemma quiet_onTerm f : quiet (onTerm f).
Proof. intros u a u' E. unfold onTerm in E. destruct (f (term u)). by injection E as <- <-. Qed.

Lemma quiet_zoom {F A} (get : UI -> F) set (m : GoM F A) :
  (forall f u, messages (set f u) = messages u /\ msgChan (set f u) = msgChan u /\ paused (set f u) = paused u) ->
  quiet (zoom get set m).
Proof.
  intros Hset u a u' E. unfold zoom in E. destruct (m (get u)) as [[? f]| | |]; [|done..].
  injection E as <- <-. apply Hset.
Qed.

Lemma quiet_update r : quiet (update formatTime r).
Proof.
  unfold update. apply quiet_bind; [apply quiet_onTerm|]. intros [e|]; [apply quiet_ret|].
  apply quiet_bind; [apply quiet_gets|intros cum]. apply quiet_bind.
  { by apply quiet_zoom. }
  intros rep. apply quiet_bind; [apply quiet_gets|intros pau]. apply quiet_bind.
  { destruct pau; [apply quiet_ret|]. by intros u a u' [= _ <-]. }
  intros _. apply quiet_bind; [apply quiet_gets|intros u0]. apply quiet_bind; [|intros; apply quiet_onTerm].
  by apply quiet_zoom.
Qed.

(** The channel is a queue, and the messages are the last four received. *)
Definition recent (u : UI) (sent received : list bytes) (u' : UI) : Prop :=
  msgChan u ++ sent = received ++ msgChan u' /\ messages u' = lastN 4 (messages u ++ received) /\
  (zlen (msgChan u) <= 128 -> zlen (msgChan u') <= 128).

Lemma recent_quiet (u u' : UI) : (length (messages u) <= 4)%nat -> messages u' = messages u -> msgChan u' = msgChan u ->
  recent u [] [] u'.
Proof. intros Hm E1 E2. unfold recent. rewrite E1, E2, !app_nil_r, lastN_short by done. done. Qed.

Lemma recent_trans (u1 u2 u3 : UI) s1 r1 s2 r2 : recent u1 s1 r1 u2 -> recent u2 s2 r2 u3 -> recent u1 (s1 ++ s2) (r1 ++ r2) u3.
Proof.
  intros (E1 & M1 & B1) (E2 & M2 & B2). unfold recent. split_and!; [|by rewrite M2, M1, lastN_app, app_assoc|auto].
  by rewrite app_assoc, E1, <- !app_assoc, E2.
Qed.

Lemma Log_recent items (u u' : UI) a : (length (messages u) <= 4)%nat -> Log errorText items u = Ret (a, u') ->
  recent u [Sprintln errorText items] [] u'.
Proof.
  intros Hm E. unfold Log in E. destruct (Z.ltb_spec (zlen (msgChan u)) 128); [|done]. injection E as <- <-.
  unfold recent. cbn. rewrite app_nil_r, lastN_short by done. split_and!; [done..|]. rewrite zlen_app. golia.
Qed.

(** The pause key, and what handlePause logs when updates are paused or not. *)
Definition isPause (i : input) : bool :=
  match i with TermEvent (EventKey Ch _) _ => Ch =? 112 | _ => false end.
Definition notice (isPaused : bool) : bytes :=
  Sprintln errorText [ItemString (if isPaused then bs "Updates unpaused" else bs "Updates paused")].

(** What an action puts into the channel, how many messages it takes from it, and
    whether updates are paused after it. *)
Definition entered (isPaused : bool) (a : action) : list bytes :=
  match a with
  | Send items => [Sprintln errorText items]
  | Round i => if isPause i then [notice isPaused] else []
  end.
Definition taken (a : action) : nat := match a with Round Message => 1 | _ => 0 end.
Definition pausedBy (isPaused : bool) (a : action) : bool :=
  match a with Round i => xorb isPaused (isPause i) | Send _ => isPaused end.

Lemma pause_recent (Ch : Z) (u u0 : UI) : (length (messages u) <= 4)%nat ->
  (if Ch =? 112 then handlePause errorText else mret tt) u = Ret (tt, u0) ->
  recent u (if Ch =? 112 then [notice (paused u)] else []) [] u0 /\ paused u0 = xorb (paused u) (Ch =? 112).
Proof.
  intros Hm. destruct (Ch =? 112); [|intros [= <-]; rewrite xorb_false_r; split; [by apply recent_quiet|done]].
  unfold handlePause, modify, gets, mbind, gom_bind, notice. destruct (paused u) eqn:Ep; cbn; rewrite ?Ep; cbn;
    intros E; split; try (apply Log_recent in E; [exact E|done]);
    unfold Log in E; cbn in E; (destruct (_ <? _); [|done]); by injection E as <-.
Qed.

Lemma loopRound_recent i (u u' : UI) res : (length (messages u) <= 4)%nat ->
  loopRound errorText formatTime i u = Ret (res, u') -> exists received,
    recent u (entered (paused u) (Round i)) received u' /\ length received = taken (Round i) /\
    paused u' = pausedBy (paused u) (Round i).
Proof.
  intros Hm E. destruct i as [r| |ev r]; cbn in E.
  - unfold mbind, gom_bind in E. destruct (update formatTime r u) as [[e u1]| | |] eqn:E1; [|done..].
    destruct (quiet_update _ _ _ _ E1) as (? & ? & ?). exists []. cbn. rewrite xorb_false_r.
    assert (u' = u1) as -> by (destruct e; by injection E). split_and!; [by apply recent_quiet|done..].
  - destruct (msgChan u) as [|msg q] eqn:Eq; [done|]. unfold handleNewMessage, modify, mbind, gom_bind in E.
    injection E as <- <-. exists [msg]. unfold recent. rewrite Eq. cbn. rewrite xorb_false_r.
    destruct u as [an iv ms ch prev cum pau tm]. cbn in *. unfold logLines. destruct (Z.ltb_spec (zlen ms) 4); cbn.
    + split_and!; [by rewrite app_nil_r| |rewrite zlen_cons; lia|done..].
      symmetry. apply lastN_short. rewrite length_app. cbn. unfold zlen in *. lia.
    + split_and!; [by rewrite app_nil_r| |rewrite zlen_cons; lia|done..]. unfold lastN. rewrite length_app. cbn.
      assert (length ms = 4%nat) as -> by (unfold zlen in *; lia). cbn. by rewrite drop_app_le by (unfold zlen in *; lia).
  - unfold mbind, gom_bind in E. destruct (handleEvent errorText formatTime ev r u) as [[e u1]| | |] eqn:Ev; [|done..].
    assert (u' = u1) as -> by (destruct e; by injection E). clear E. exists [].
    cut (recent u (entered (paused u) (Round (TermEvent ev r))) [] u1 /\
      paused u1 = pausedBy (paused u) (Round (TermEvent ev r))); [by intros [? ?]|].
    destruct ev as [Ch Key| |]; cbn in Ev |- *.
    + unfold mbind at 1, gom_bind at 1 in Ev.
      destruct ((if Ch =? 112 then handlePause errorText else mret tt) u) as [[[] u0]| | |] eqn:E0; [|done..].
      destruct (pause_recent Ch u u0 Hm E0) as [Hr <-].
      cut (messages u1 = messages u0 /\ msgChan u1 = msgChan u0 /\ paused u1 = paused u0).
      { intros (? & ? & ->). split; [|done]. 
        match goal with |- recent _ ?l _ _ => rewrite <- (app_nil_r l) end.
        eapply (recent_trans _ _ _ _ []); [exact Hr|]. apply recent_quiet; [|done..].
        destruct Hr as (_ & -> & _). apply lastN_length. }
      destruct (_ || _); [by injection Ev as <- <-|]. destruct (Key =? KeyCtrlL); [|by injection Ev as <- <-].
      unfold mbind, gom_bind in Ev. destruct (update formatTime r u0) as [[e1 u2]| | |] eqn:Eu; [|done..].
      destruct (quiet_update _ _ _ _ Eu) as (? & ? & ?). destruct e1; [by injection Ev as <- <-|].
      destruct (quiet_onTerm _ _ _ _ Ev) as (? & ? & ?). split_and!; congruence.
    + destruct (quiet_update _ _ _ _ Ev) as (? & ? & ?). rewrite xorb_false_r. split; [by apply recent_quiet|done].
    + injection Ev as <- <-. rewrite xorb_false_r. split; [by apply recent_quiet|done].
Qed.

(** Whether a round has to wait: the loop never chooses an empty channel, but the
    pause key sends to the channel that only the loop itself receives from. *)
Definition waits (i : input) (u : UI) : Prop :=
  match i with
  | Message => msgChan u = []
  | TermEvent (EventKey Ch _) _ => Ch = 112 /\ 128 <= zlen (msgChan u)
  | _ => False
  end.

(** The analysis pool is well formed. *)
Definition ui_ok (u : UI) : Prop :=
  Forall worker_ok (workers (analysis u)) /\ 0 <= reportSize (analysis u) /\
  0 <= reportSize (analysis u) * zlen (workers (analysis u)) <= int_max.

(** The reading of a round fits the pool. *)
Definition reading_ok (i : input) (u : UI) : Prop :=
  match i with
  | Tick r | TermEvent _ r => Forall2 iterates (rOrders r) (workers (analysis u))
  | Message => True
  end.

Context `{!TermboxLaws}.

Lemma renderMessages_returns msgs : forall i t, exists t', messageRows i msgs t = Ret (tt, t').
Proof.
  induction msgs as [|msg msgs IH]; intros i t; [by exists t|]. cbn. unfold mbind, gom_bind, gets, renderText. apply IH.
Qed.

Lemma reportRows_returns keys : forall i lastY t, exists t', reportRows i lastY keys t = Ret (tt, t').
Proof.
  induction keys as [|kr keys IH]; intros i lastY t; [by exists t|]. cbn.
  destruct (lastY <? i +! 2); [by exists t|]. unfold mbind, gom_bind, renderText. apply IH.
Qed.

Lemma update_returns r (u : UI) : ui_ok u -> Forall2 iterates (rOrders r) (workers (analysis u)) ->
  wp (update formatTime r) (fun _ u' => ui_ok u' /\ msgChan u' = msgChan u) u.
Proof.
  intros (Hok & Hk & Hkn) Ho.
  destruct (Report_spec (negb (cumulative u)) (rNow r) (rOrders r) (analysis u) Ho Hok Hk Hkn) as (rep & p' & E & _ & _ & _ & _ & Hp).
  assert (forall b p'', (fun _ : unit => p'' = set_workers (if b : bool then resetW <$> workers (analysis u) else workers (analysis u)) (analysis u)) tt ->
    Forall worker_ok (workers p'') /\ 0 <= reportSize p'' /\ 0 <= reportSize p'' * zlen (workers p'') <= int_max) as Hui.
  { intros b p'' ->. cbn. destruct b; cbn; [|done]. unfold zlen. rewrite length_fmap. split; [|done].
    apply Forall_fmap. eapply Forall_impl; [exact Hok|]. done. }
  unfold wp, update, onTerm, mbind, gom_bind. destruct (Clear (term u)) as [[e|] t0] eqn:Ec; [by eexists _, _|].
  unfold gets, zoom, modify, mret, gom_ret. destruct u as [an iv ms ch prev cum pau tm]. cbn -[renderHeader] in *. rewrite E.
  destruct (renderHeader_paints t0) as (t1 & E1 & _).
  assert (forall rp, exists t', match renderHeader t0 with
      | Ret (_, s) => match renderReport rp s with
          | Ret (_, s) => match renderFooter formatTime rp (rStats r) s with
              | Ret (_, s) => messageRows 0 ms s | Panic => Panic | Blocked => Blocked | OutOfFuel => OutOfFuel end
          | Panic => Panic | Blocked => Blocked | OutOfFuel => OutOfFuel end
      | Panic => Panic | Blocked => Blocked | OutOfFuel => OutOfFuel end = Ret (tt, t')) as Hdraw.
  { intros rp. rewrite E1. unfold renderReport, gets, mbind, gom_bind.
    destruct (reportRows_returns (Keys rp) 0 (yFromBottom (statusLines +! logLines) t1) t1) as [t2 ->].
    destruct (renderFooter_paints formatTime rp (rStats r) t2) as (t3 & -> & _). apply renderMessages_returns. }
  destruct pau; cbn -[renderHeader]; unfold renderMessages; cbn -[renderHeader].
  - destruct (Hdraw prev) as [t' ->]. destruct (Flush t') as [e t''] eqn:Ef. cbn. rewrite Ef. eexists _, _. split; [done|]. split; [|done].
    by apply (Hui (negb cum)).
  - destruct (Hdraw rep) as [t' ->]. destruct (Flush t') as [e t''] eqn:Ef. cbn. rewrite Ef. eexists _, _. split; [done|]. split; [|done].
    by apply (Hui (negb cum)).
Qed.

Lemma handlePause_eq (u : UI) : handlePause errorText u =
  let text := if paused u then bs "Updates unpaused" else bs "Updates paused" in
  if zlen (msgChan u) <? 128
  then Ret (tt, set_msgChan (msgChan u ++ [Sprintln errorText [ItemString text]]) (set_paused (negb (paused u)) u))
  else Blocked.
Proof.
  unfold handlePause, Log, modify, gets, mbind, gom_bind. destruct u as [an iv ms ch prev cum [] tm]; cbn; done.
Qed.

Definition quits (ev : termboxEvent) : Prop :=
  match ev with EventKey Ch Key => Ch = 113 \/ Key = KeyCtrlC | _ => False end.

Lemma pause_returns Ch (u : UI) : ui_ok u -> ~ (Ch = 112 /\ 128 <= zlen (msgChan u)) ->
  wp (if Ch =? 112 then handlePause errorText else mret tt) (fun _ u' => analysis u' = analysis u) u.
Proof.
  intros Hu Hw. destruct (Z.eqb_spec Ch 112); [|by apply wp_ret]. unfold wp. rewrite handlePause_eq. cbv zeta.
  destruct (Z.ltb_spec (zlen (msgChan u)) 128); [by eexists _, _|]. by destruct Hw.
Qed.

Lemma handleEvent_returns ev r (u : UI) : ui_ok u -> reading_ok (TermEvent ev r) u -> ~ waits (TermEvent ev r) u ->
  wp (handleEvent errorText formatTime ev r) (fun e u' => ui_ok u' /\ (quits ev -> e = Some errQuitRequested)) u.
Proof.
  intros Hu Hr Hw.
  assert (forall u0, analysis u0 = analysis u -> Forall2 iterates (rOrders r) (workers (analysis u)) ->
    wp (update formatTime r) (fun e u' => ui_ok u') u0) as Hup.
  { intros u0 Ea Ho. eapply wp_mono; [|apply update_returns; unfold ui_ok; by rewrite Ea]. by intros ? ? [? _]. }
  destruct ev as [Ch Key| |]; cbn in *.
  - apply wp_bind. eapply wp_mono; [|by apply pause_returns]. intros [] u0 Ea. cbn.
    assert (ui_ok u0) as Hu0 by (unfold ui_ok; by rewrite Ea).
    destruct (Z.eqb_spec Ch 113); [by apply wp_ret|]. destruct (Z.eqb_spec Key KeyCtrlC); [by apply wp_ret|]. cbn.
    assert (Ch = 113 \/ Key = KeyCtrlC -> False) as Hnq by tauto.
    destruct (Key =? KeyCtrlL); [|by apply wp_ret].
    apply wp_bind. eapply wp_mono; [|by apply Hup]. intros e u1 Hu1. cbn.
    destruct e; [by apply wp_ret|]. unfold wp, onTerm. destruct (Sync (term u1)). by eexists _, _.
  - eapply wp_mono; [|by apply Hup]. by intros e u'.
  - by apply wp_ret.
Qed.

(** C34: the event loop waits only when it must.  With a well formed analysis
    pool, a round of the loop neither panics nor runs for ever, and returns to a
    well formed state, except that it waits for a message on an empty channel
    (which the select does not choose), and that the pause key waits for ever when
    the channel is full: the loop that would make room is the one that waits.  The
    quit keys end the loop without an error. *)
Theorem loop_waits i (u : UI) : ui_ok u -> reading_ok i u ->
  (waits i u -> loopRound errorText formatTime i u = Blocked) /\
  (~ waits i u -> exists res u', loopRound errorText formatTime i u = Ret (res, u') /\ ui_ok u' /\
    forall ev r, i = TermEvent ev r -> quits ev -> res = Some None).
Proof.
  intros Hu Hr. split.
  - destruct i as [r| |[Ch Key| |] r]; cbn; try done; [by intros ->|]. intros [-> Hfull].
    unfold mbind, gom_bind. rewrite handlePause_eq. cbv zeta.
    by destruct (Z.ltb_spec (zlen (msgChan u)) 128); [lia|].
  - intros Hw. destruct i as [r| |ev r]; cbn [loopRound].
    + destruct (update_returns r u Hu Hr) as (e & u' & E & Hu' & _). unfold mbind, gom_bind. rewrite E.
      by destruct e; eexists _, u'.
    + cbn in Hw. destruct (msgChan u) as [|msg q]; [done|]. unfold handleNewMessage, modify, mbind, gom_bind.
      eexists _, _. split; [done|]. split; [|done]. by destruct (_ <? _).
    + destruct (handleEvent_returns ev r u Hu Hr Hw) as (e & u' & E & Hu' & Hq). unfold mbind, gom_bind. rewrite E.
      destruct e as [e|]; eexists _, u'; (split; [done|]); (split; [done|]); intros ev' r' [= -> ->] H'; [|by apply Hq in H'].
      by injection (Hq H') as ->.
Qed.

(** What a run puts into the channel, in order, and how many messages it takes. *)
Fixpoint sentIn (isPaused : bool) (acts : list action) : list bytes :=
  match acts with
  | [] => []
  | a :: acts' => entered isPaused a ++ sentIn (pausedBy isPaused a) acts'
  end.
Definition takenIn (acts : list action) : nat := sum_list (taken <$> acts).

Lemma run_recent acts : forall u u' : UI, (length (messages u) <= 4)%nat ->
  eventLoopFrom errorText formatTime acts u = Ret (None, u') -> exists received,
    recent u (sentIn (paused u) acts) received u' /\ length received = takenIn acts /\
    paused u' = foldl pausedBy (paused u) acts.
Proof.
  induction acts as [|a acts IH]; intros u u' Hm E; cbn in E.
  { injection E as <-. exists []. split_and!; [by apply recent_quiet|done..]. }
  unfold mbind, gom_bind in E.
  assert (exists u1 r1, eventLoopFrom errorText formatTime acts u1 = Ret (None, u') /\
    recent u (entered (paused u) a) r1 u1 /\ length r1 = taken a /\ paused u1 = pausedBy (paused u) a)
    as (u1 & r1 & E1 & H1 & Hl1 & Hp1).
  { destruct a as [i|items].
    - destruct (loopRound errorText formatTime i u) as [[[res|] u1]| | |] eqn:E1; [done| |done..].
      destruct (loopRound_recent _ _ _ _ Hm E1) as (r1 & ?). by exists u1, r1.
    - destruct (Log errorText items u) as [[[] u1]| | |] eqn:E1; [|done..]. exists u1, [].
      split_and!; [done|by apply (Log_recent _ _ _ tt)|done|].
      unfold Log in E1. destruct (_ <? _); [|done]. by injection E1 as <-. }
  destruct (IH u1 u') as (r2 & H2 & Hl2 & Hp2); [destruct H1 as (_ & -> & _); apply lastN_length|done|].
  rewrite Hp1 in H2, Hp2. exists (r1 ++ r2). split_and!; [by eapply recent_trans| |done].
  rewrite length_app, Hl1, Hl2. done.
Qed.

(** C24: the interface shows the latest messages.  In a run of the event loop, with
    messages sent by other goroutines in between, the channel is a queue: what enters
    it are the texts of the messages sent and the notices of the pause key, in the
    order of the run, and every round for a message takes the oldest; so what is left
    is all but the first as many, none lost or made up, and never more than the
    capacity of the channel.  The messages displayed are the last four of those
    displayed before and those taken; and updates are paused exactly after an odd
    number of presses of the pause key, or an even number if they were before. *)
Theorem messages_are_recent acts (u u' : UI) : (length (messages u) <= 4)%nat -> zlen (msgChan u) <= 128 ->
  eventLoopFrom errorText formatTime acts u = Ret (None, u') ->
  let queue := msgChan u ++ sentIn (paused u) acts in
  let n := takenIn acts in
  (n <= length queue)%nat /\ msgChan u' = drop n queue /\ zlen (msgChan u') <= 128 /\
  messages u' = lastN 4 (messages u ++ take n queue) /\ paused u' = foldl pausedBy (paused u) acts.
Proof.
  intros Hm Hc E queue n. destruct (run_recent acts u u' Hm E) as (received & (Eq & Em & Hb) & Hl & Hp).
  fold queue in Eq. fold n in Hl. rewrite Eq, <- Hl, drop_app_length, take_app_length, length_app.
  split_and!; [lia|done|by apply Hb|done..].
Qed.

End loop.
