(* ===== verification/Terminal.v ===== *)
(** * presentation: the life of the interface

    termbox.go from the start of runTermbox to its return.  Two goroutines take part:
    the event loop, whose rounds are those of Presentation, and the one started by
    termboxEvents, which waits for events of the terminal and forwards them over a
    channel without room.  Once the loop is done, whether it returned or panicked, the
    deferred function interrupts the other goroutine, which waits until that is in
    PollEvent. *)
From S2P Require Import Prelude GoLib Hotlist Analysis GoFmt Logger Presentation.
Local Open Scope Z_scope.

(** ** The state *)

(** Where the goroutine of termboxEvents is: not started, in PollEvent, sending an
    event to the loop, or at its end. *)
Inductive feeder : Type :=
  | NotStarted
  | Polling
  | Forwarding (ev : termboxEvent)
  | FeederDone.

(** Where runTermbox is: at the select of the loop, within a round that never ends,
    in termbox.Interrupt of its deferred function, or at its end.  The last two come
    with what the loop returned, or [None] when it panicked. *)
Inductive phase : Type :=
  | LoopSelects
  | LoopStuck
  | Interrupting (res : option (option error))
  | RunReturned (res : option (option error)).

Section terminal.
  Context {H : Type} {HHot : HotList H keyInfo} {HRe : RegexpPkg} {HSort : SortPkg} {HTerm : TermboxPkg}.
  Context (errorText : error -> bytes) (formatTime : Z -> bytes).
  Local Abbreviation UI := (@uiContext H HRe HTerm).

Record running := mkRunning {
  ui : UI;
  feederAt : feeder;
  phaseAt : phase
}.

Definition set_ui (x : UI) (s : running) : running := mkRunning x (feederAt s) (phaseAt s).
Definition set_feeder (x : feeder) (s : running) : running := mkRunning (ui s) x (phaseAt s).
Definition set_phase (x : phase) (s : running) : running := mkRunning (ui s) (feederAt s) x.

(** ** The start *)

(** time.NewTicker panics unless the duration is positive. *)
Definition NewTicker (d : Z) : GoM UI unit := fun u => if 0 <? d then Ret (tt, u) else Panic.

(** A part of the loop under the deferred function of runTermbox: [None] goes on,
    [Some err] returns [err], and a panic runs the deferred function too.  The
    result tells whether the loop goes on. *)
Definition deferring (m : GoM UI (option (option error))) : GoM running bool := fun s =>
  match m (ui s) with
  | Ret (None, u) => Ret (true, set_ui u s)
  | Ret (Some err, u) => Ret (false, set_phase (Interrupting (Some err)) (set_ui u s))
  | Panic => Ret (false, set_phase (Interrupting None) s)
  | Blocked => Ret (false, set_phase LoopStuck s)
  | OutOfFuel => OutOfFuel
  end.

(** The goroutine starts, and calls PollEvent. *)
Definition termboxEvents : GoM running unit := modify (set_feeder Polling).

(** The loop up to its select. *)
Definition eventLoop (r : reading) : GoM running unit :=
  ok ← deferring (d ← gets interval; NewTicker d;; mret None);
  if ok : bool then
    termboxEvents;;
    _ ← deferring (err ← update formatTime r; mret (match err with Some e => Some (Some e) | None => None end));
    mret tt
  else mret tt.

(** [init] is what termbox.Init returns; when it fails nothing is deferred yet. *)
Definition runTermbox (init : option error) (r : reading) (u : UI) : outcome (unit * running) :=
  match init with
  | Some e => Ret (tt, mkRunning u NotStarted (RunReturned (Some (Some e))))
  | None => eventLoop r (mkRunning u NotStarted LoopSelects)
  end.

(** ** The steps *)

Inductive termAction : Type :=
  | PollReturns (ev : termboxEvent)   (* the terminal has an event for PollEvent *)
  | Forward (r : reading)             (* the goroutine and the select meet on the channel *)
  | Ticked (r : reading)              (* the other cases of the select *)
  | Received
  | Logged (items : message)          (* another goroutine logs *)
  | Interrupted.                      (* termbox.Interrupt meets PollEvent; termbox.Close *)

(** A round of the loop. *)
Definition round (i : input) : GoM running unit := _ ← deferring (loopRound errorText formatTime i); mret tt.

Definition termAct (a : termAction) : GoM running unit := fun s =>
  match a, feederAt s, phaseAt s with
  | PollReturns ev, Polling, _ => Ret (tt, set_feeder (Forwarding ev) s)
  | Forward r, Forwarding ev, LoopSelects => round (TermEvent ev r) (set_feeder Polling s)
  | Ticked r, _, LoopSelects => round (Tick r) s
  | Received, _, LoopSelects =>
      match msgChan (ui s) with [] => Blocked | _ => round Message s end
  | Logged items, _, _ => zoom ui set_ui (Log errorText items) s
  | Interrupted, Polling, Interrupting res => Ret (tt, set_phase (RunReturned res) (set_feeder FeederDone s))
  | _, _, _ => Blocked
  end.

Fixpoint termRun (acts : list termAction) : GoM running unit :=
  match acts with
  | [] => mret tt
  | a :: acts => termAct a;; termRun acts
  end.

(** ** What a run hands to the loop *)

(** The rounds of the loop and the messages in between. *)
Definition roundOf (a : termAction) (s : running) : list Presentation.action :=
  match a, feederAt s with
  | Forward r, Forwarding ev => [Round (TermEvent ev r)]
  | Ticked r, _ => [Round (Tick r)]
  | Received, _ => [Round Message]
  | Logged items, _ => [Send items]
  | _, _ => []
  end.

Fixpoint roundsIn (acts : list termAction) (s : running) : list Presentation.action :=
  match acts with
  | [] => []
  | a :: acts => match termAct a s with Ret (_, s1) => roundOf a s ++ roundsIn acts s1 | _ => [] end
  end.

(** The events that PollEvent returns in a run, those that the loop gets, and the one
    that is on its way. *)
Definition polled (acts : list termAction) : list termboxEvent :=
  omap (fun a => match a with PollReturns ev => Some ev | _ => None end) acts.
Definition handled (las : list Presentation.action) : list termboxEvent :=
  omap (fun a => match a with Round (TermEvent ev _) => Some ev | _ => None end) las.
Definition underway (s : running) : list termboxEvent :=
  match feederAt s with Forwarding ev => [ev] | _ => [] end.

(** What the loop of Presentation does with the same rounds. *)
Definition loopDid (las : list Presentation.action) (u : UI) (s : running) : Prop :=
  let did := eventLoopFrom errorText formatTime las u in
  match phaseAt s with
  | LoopSelects => did = Ret (None, ui s)
  | LoopStuck => did = Blocked
  | Interrupting (Some err) | RunReturned (Some err) => exists u', did = Ret (Some err, u')
  | Interrupting None | RunReturned None => did = Panic
  end.

End terminal.

(** ** Lemmas: the steps *)

Section facts.
  Context {H : Type} {HHot : HotList H keyInfo} {HRe : RegexpPkg} {HSort : SortPkg} {HTerm : TermboxPkg}.
  Context {HTLaws : TermboxLaws} (errorText : error -> bytes) (formatTime : Z -> bytes).
  Local Abbreviation running := (@running H HRe HTerm).
  Local Abbreviation termAct := (termAct errorText formatTime).
  Local Abbreviation termRun := (termRun errorText formatTime).
  Local Abbreviation roundsIn := (roundsIn errorText formatTime).
  Local Abbreviation loopDid := (loopDid errorText formatTime).

#[local] Instance selects_dec p : Decision (p = LoopSelects).
Proof. destruct p; [left; done|right; done..]. Defined.

(** What the loop returned, once it has. *)
Definition result (p : phase) : option (option (option error)) :=
  match p with Interrupting res | RunReturned res => Some res | _ => None end.

Lemma termRun_cons a acts (s s' : running) : termRun (a :: acts) s = Ret (tt, s') ->
  exists s1, termAct a s = Ret (tt, s1) /\ termRun acts s1 = Ret (tt, s').
Proof.
  cbn [Terminal.termRun]. unfold mbind, gom_bind. destruct (termAct a s) as [[[] s1]| | |]; try done. by exists s1.
Qed.

(** A round is one of the loop of Presentation. *)
Lemma round_did i (s s' : running) : phaseAt s = LoopSelects -> round errorText formatTime i s = Ret (tt, s') ->
  feederAt s' = feederAt s /\ loopDid [Round i] (ui s) s'.
Proof.
  unfold round, deferring, loopDid, mbind, gom_bind. cbn. unfold mbind, gom_bind. intros Hp.
  destruct (loopRound errorText formatTime i (ui s)) as [[[res|] u]| | |]; intros [= <-]; cbn; rewrite ?Hp; try done.
  split; [done|]. by exists u.
Qed.

Lemma eventLoop_app las las' (u : @uiContext H HRe HTerm) :
  eventLoopFrom errorText formatTime (las ++ las') u =
  match eventLoopFrom errorText formatTime las u with
  | Ret (None, u1) => eventLoopFrom errorText formatTime las' u1
  | r => r
  end.
Proof.
  revert u. induction las as [|[i|items] las IH]; intros u; cbn; [done| |]; unfold mbind, gom_bind.
  - destruct (loopRound errorText formatTime i u) as [[[res|] u1]| | |]; [done|apply IH|done..].
  - destruct (Presentation.Log errorText items u) as [[[] u1]| | |]; [apply IH|done..].
Qed.

(** A step of a loop that goes on. *)
Lemma termAct_did a (s s' : running) : phaseAt s = LoopSelects -> termAct a s = Ret (tt, s') ->
  loopDid (roundOf a s) (ui s) s' /\
  underway s ++ polled [a] = handled (roundOf a s) ++ underway s'.
Proof.
  intros Hp. unfold termAct, Terminal.termAct. rewrite Hp.
  assert (forall i s1 (s2 : running), phaseAt s1 = LoopSelects -> round errorText formatTime i s1 = Ret (tt, s2) ->
    loopDid [Round i] (ui s1) s2 /\ underway s2 = underway s1) as Hround.
  { intros i s1 s2 Hp1 E. destruct (round_did i s1 s2 Hp1 E) as [Hf Hd]. split; [done|]. unfold underway. by rewrite Hf. }
  destruct a as [ev|r|r| |items|].
  - destruct (feederAt s) eqn:Ef; try done. intros [= <-]. unfold underway, roundOf. cbn. rewrite Ef. split; [|done].
    unfold loopDid, Terminal.loopDid. cbn. by rewrite Hp.
  - destruct (feederAt s) as [| |ev|] eqn:Ef; try done. intros E. apply Hround in E as [Hd Hu]; [|done].
    unfold roundOf. rewrite Ef. split; [done|]. rewrite Hu. unfold underway. by rewrite Ef.
  - intros E. apply Hround in E as [Hd Hu]; [|done]. unfold roundOf. rewrite Hu. split; [done|]. cbn. by rewrite app_nil_r.
  - destruct (msgChan (ui s)) eqn:Em; [done|]. intros E. apply Hround in E as [Hd Hu]; [|done].
    unfold roundOf. rewrite Hu. split; [done|]. cbn. by rewrite app_nil_r.
  - unfold zoom. destruct (Presentation.Log errorText items (ui s)) as [[[] u]| | |] eqn:E; try done. intros [= <-].
    unfold roundOf, underway. cbn. rewrite app_nil_r. split; [|done]. unfold loopDid, Terminal.loopDid. cbn.
    unfold mbind, gom_bind. rewrite Hp. by rewrite E.
  - by destruct (feederAt s).
Qed.

(** After the loop, its result stays, and no event reaches it any more. *)
Lemma termAct_after a (s s' : running) : phaseAt s <> LoopSelects -> termAct a s = Ret (tt, s') ->
  phaseAt s' <> LoopSelects /\ result (phaseAt s') = result (phaseAt s) /\
  (phaseAt s = LoopStuck <-> phaseAt s' = LoopStuck).
Proof.
  intros Hp. unfold termAct, Terminal.termAct. destruct s as [u f p]. cbn in *.
  destruct a, f, p; try done; try (by intros [= <-]); unfold zoom; cbn;
    (destruct (Presentation.Log errorText items u) as [[[] u1]| | |]; try done; by intros [= <-]).
Qed.

(** No event is lost on the way, nor after the loop. *)
Lemma termAct_events a (s s' : running) : termAct a s = Ret (tt, s') ->
  underway s ++ polled [a] = handled (roundOf a s) ++ underway s'.
Proof.
  intros E. destruct (decide (phaseAt s = LoopSelects)) as [Hp|Hp]; [by apply termAct_did|].
  unfold termAct, Terminal.termAct in E. destruct s as [u f p]. cbn in *.
  destruct a, f, p; try done; try (by injection E as <-); unfold zoom in E; cbn in E;
    (destruct (Presentation.Log errorText items u) as [[[] u1]| | |]; try done; by injection E as <-).
Qed.

Lemma termRun_events acts : forall s s' : running, termRun acts s = Ret (tt, s') ->
  underway s ++ polled acts = handled (roundsIn acts s) ++ underway s'.
Proof.
  induction acts as [|a acts IH]; intros s s' E.
  { injection E as <-. cbn. by rewrite app_nil_r. }
  apply termRun_cons in E as (s1 & E1 & E). cbn [Terminal.roundsIn]. rewrite E1.
  change (a :: acts) with ([a] ++ acts). unfold polled, handled. rewrite !omap_app, app_assoc.
  pose proof (termAct_events a s s1 E1) as Ha. unfold polled, handled in Ha. rewrite Ha, <- !app_assoc. f_equal. by apply IH.
Qed.

Lemma termRun_after acts : forall s s' : running, phaseAt s <> LoopSelects -> termRun acts s = Ret (tt, s') ->
  phaseAt s' <> LoopSelects /\ result (phaseAt s') = result (phaseAt s) /\
  (phaseAt s = LoopStuck <-> phaseAt s' = LoopStuck).
Proof.
  induction acts as [|a acts IH]; intros s s' Hp E; [by injection E as <-|].
  apply termRun_cons in E as (s1 & E1 & E). destruct (termAct_after a s s1 Hp E1) as (Hp1 & Hr1 & Hs1).
  destruct (IH s1 s' Hp1 E) as (Hp' & Hr' & Hs'). split_and!; [done|congruence|tauto].
Qed.

(** What the loop did before it ended is what it did. *)
Lemma loopDid_after las las' (u : @uiContext H HRe HTerm) (s s' : running) : loopDid las u s ->
  phaseAt s <> LoopSelects -> phaseAt s' <> LoopSelects -> result (phaseAt s') = result (phaseAt s) ->
  loopDid (las ++ las') u s'.
Proof.
  unfold loopDid, Terminal.loopDid. rewrite eventLoop_app. intros Hd Hp Hp' Hr.
  destruct (phaseAt s) as [| |[err|]|[err|]]; try done; destruct (phaseAt s') as [| |[err'|]|[err'|]]; try done;
    cbn in Hr; try injection Hr as ->; try (by rewrite Hd); destruct Hd as [u' ->]; by exists u'.
Qed.

Lemma termRun_did acts : forall s s' : running, phaseAt s = LoopSelects -> termRun acts s = Ret (tt, s') ->
  loopDid (roundsIn acts s) (ui s) s'.
Proof.
  induction acts as [|a acts IH]; intros s s' Hp E.
  { injection E as <-. unfold loopDid, Terminal.loopDid. by rewrite Hp. }
  apply termRun_cons in E as (s1 & E1 & E). cbn [Terminal.roundsIn]. rewrite E1.
  destruct (termAct_did a s s1 Hp E1) as [Hd _]. destruct (decide (phaseAt s1 = LoopSelects)) as [Hp1|Hp1].
  - unfold loopDid, Terminal.loopDid in *. rewrite Hp1 in Hd. rewrite eventLoop_app, Hd. by apply IH.
  - destruct (termRun_after acts s1 s' Hp1 E) as (Hp' & Hr & _). by eapply loopDid_after.
Qed.

(** While the deferred function waits for a goroutine that is not in PollEvent and
    will not come back to it, runTermbox does not return. *)
Lemma termRun_waits acts res : forall s : running, phaseAt s = Interrupting res -> feederAt s <> Polling ->
  match termRun acts s with Ret (_, s') => phaseAt s' = Interrupting res | Blocked => True | _ => False end.
Proof.
  induction acts as [|a acts IH]; intros s Hp Hf; [done|]. cbn [Terminal.termRun]. unfold mbind, gom_bind.
  assert (match termAct a s with
          | Ret (_, s1) => phaseAt s1 = Interrupting res /\ feederAt s1 <> Polling
          | Blocked => True
          | _ => False
          end) as Hstep.
  { unfold termAct, Terminal.termAct. rewrite Hp. destruct s as [u f p]. cbn in *.
    destruct a, f; try done; unfold zoom, Presentation.Log; cbn; by destruct (_ <? _). }
  destruct (termAct a s) as [[[] s1]| | |]; try done. destruct Hstep. by apply IH.
Qed.

Lemma termRun_hangs acts res (s s' : running) : phaseAt s = Interrupting res -> feederAt s <> Polling ->
  termRun acts s = Ret (tt, s') -> phaseAt s' = Interrupting res.
Proof. intros Hp Hf E. pose proof (termRun_waits acts res s Hp Hf) as Hw. by rewrite E in Hw. Qed.

(** ** Properties *)

(** C29: the event loop gets what the terminal and the other goroutines send.  In
    every interleaving of the goroutine of termboxEvents with the loop, the loop does
    what the loop of Presentation does with the same rounds, whether it goes on, has
    returned, panicked or waits for ever; and the events that it handles are those
    that PollEvent returned, in order, each once, but for one that the goroutine is
    sending. *)
Theorem loop_gets_events acts (s s' : running) : phaseAt s = LoopSelects -> termRun acts s = Ret (tt, s') ->
  loopDid (roundsIn acts s) (ui s) s' /\ underway s ++ polled acts = handled (roundsIn acts s) ++ underway s'.
Proof. intros Hp E. split; [by apply termRun_did|by apply (termRun_events acts s s')]. Qed.

(** C25: the interface returns only if no event comes at the wrong time.  A quit key
    ends the loop, with no error, and leaves the terminal's goroutine in PollEvent.
    While the deferred function interrupts it, runTermbox can still return exactly
    if that goroutine is in PollEvent: then the interrupt makes it return what the
    loop returned.  But when PollEvent returns one more event first, which nobody
    receives any more, or the goroutine was never started, no schedule makes
    runTermbox return. *)
Theorem quit_may_hang (s : running) :
  (forall ev r, phaseAt s = LoopSelects -> feederAt s = Forwarding ev -> quits ev ->
     ui_ok (ui s) -> reading_ok (TermEvent ev r) (ui s) -> ~ waits (TermEvent ev r) (ui s) ->
     exists s', termAct (Forward r) s = Ret (tt, s') /\ phaseAt s' = Interrupting (Some None) /\ feederAt s' = Polling) /\
  (forall res, phaseAt s = Interrupting res ->
     (feederAt s = Polling -> exists s', termAct Interrupted s = Ret (tt, s') /\ phaseAt s' = RunReturned res /\
        feederAt s' = FeederDone) /\
     (feederAt s = Polling -> forall ev, exists s', termAct (PollReturns ev) s = Ret (tt, s') /\
        forall acts s2, termRun acts s' = Ret (tt, s2) -> phaseAt s2 = Interrupting res) /\
     (feederAt s <> Polling -> forall acts s2, termRun acts s = Ret (tt, s2) -> phaseAt s2 = Interrupting res)).
Proof.
  split.
  - intros ev r Hp Hf Hq Hu Hr Hw.
    destruct (handleEvent_returns errorText formatTime ev r (ui s) Hu Hr Hw) as (e & u' & E & _ & He).
    rewrite (He Hq) in E. unfold termAct, Terminal.termAct, round, deferring, mbind, gom_bind. rewrite Hp, Hf. cbn.
    unfold mbind, gom_bind. rewrite E. by eexists.
  - intros res Hp. split_and!.
    + intros Hf. unfold termAct, Terminal.termAct. rewrite Hp, Hf. by eexists.
    + intros Hf ev. unfold termAct, Terminal.termAct. rewrite Hf. eexists. split; [done|].
      intros acts s2. by apply termRun_hangs.
    + intros Hf acts s2. by apply termRun_hangs.
Qed.

End facts.
