(* ===== verification/Profiling.v ===== *)
(** * profiling.go: the profiles of a run

    The program's calls of os, runtime and runtime/pprof are recorded as
    [effect]s, in order; [fails] is the environment, which decides which call
    returns an error, and [known] says which profiles runtime/pprof has.
    log.Fatalln ends the process, without running deferred functions: a [Prog]
    then returns no value. *)
From Stdlib Require Import Strings.Byte.
From S2P Require Import Prelude GoLib.
Local Open Scope Z_scope.

Inductive effect : Type :=
  | Create (name : bytes)              (* os.Create *)
  | StartCPUProfile
  | StopCPUProfile
  | SetBlockProfileRate (rate : Z)
  | SetMemProfileRate (rate : Z)       (* runtime.MemProfileRate = rate *)
  | WriteProfile (profile name : bytes)     (* pprof.Lookup(profile).WriteProfile(file, 1) *)
  | CloseFile (name : bytes)
  | Fatalln (e : error).

Definition trace : Type := list effect.

Section profiling.
  Context (fails : trace -> effect -> option error) (known : bytes -> bool).

(** ** Programs that may end the process *)

Definition Prog (A : Type) : Type := trace -> option A * trace.

Definition ret {A} (a : A) : Prog A := fun t => (Some a, t).
Definition bind {A B} (m : Prog A) (k : A -> Prog B) : Prog B := fun t =>
  match m t with (Some a, t) => k a t | (None, t) => (None, t) end.

(** A call, and its error. *)
Definition call (e : effect) : Prog (option error) := fun t => (Some (fails t e), t ++ [e]).
Definition fatal {A} (e : error) : Prog A := fun t => (None, t ++ [Fatalln e]).

(** A call whose error is fatal. *)
Definition must (e : effect) : Prog unit :=
  bind (call e) (fun err => match err with Some err => fatal err | None => ret tt end).

Definition seq_ (m1 m2 : Prog unit) : Prog unit := bind m1 (fun _ => m2).

(** ** The program *)

Fixpoint isProfileEnabled (profiles : list bytes) (profile : bytes) : bool :=
  match profiles with
  | [] => false
  | p :: ps => if bool_decide (p = profile) then true else isProfileEnabled ps profile
  end.

(** A call that has no error. *)
Definition perform (e : effect) : Prog unit := bind (call e) (fun _ => ret tt).

Definition startProfiling (profiles : list bytes) : Prog unit :=
  seq_ (if isProfileEnabled profiles (bs "cpu")
        then seq_ (must (Create (bs "cpu.pprof"))) (must StartCPUProfile) else ret tt)
  (seq_ (if isProfileEnabled profiles (bs "block") then perform (SetBlockProfileRate 1) else ret tt)
        (if isProfileEnabled profiles (bs "heap") then perform (SetMemProfileRate (16 * 1024)) else ret tt)).

(** The deferred Close runs when dumpProfile returns, not when the process ends. *)
Definition dumpProfile (p : bytes) : Prog unit :=
  if bool_decide (p = bs "cpu") then perform StopCPUProfile
  else
    let f := p ++ bs ".pprof" in
    seq_ (must (Create f))
    (seq_ (if known p then must (WriteProfile p f) else ret tt)
          (must (CloseFile f))).

Fixpoint dumpProfiles (profiles : list bytes) : Prog unit :=
  match profiles with
  | [] => ret tt
  | p :: ps => seq_ (dumpProfile p) (dumpProfiles ps)
  end.

(** ** Lemmas *)

Lemma isProfileEnabled_spec profiles p : isProfileEnabled profiles p = bool_decide (p ∈ profiles).
Proof.
  induction profiles as [|p' ps IH]; simpl; [done|]. destruct (bool_decide_reflect (p' = p)) as [Hp|Hp].
  - subst. symmetry. apply bool_decide_eq_true_2. by left.
  - rewrite IH. apply bool_decide_ext. rewrite elem_of_cons.
    split; [by right|by intros [->|]].
Qed.

(** Whether an effect may fail; the others have no error result. *)
Definition fallible (e : effect) : bool :=
  match e with Create _ | StartCPUProfile | WriteProfile _ _ | CloseFile _ => true | _ => false end.

(** What a program adds to the trace: [es] if it returns; if it ends the process,
    it stops at the first failure, which it reports. *)
Definition performs (m : Prog unit) (es : list effect) : Prop := forall t,
  match m t with
  | (Some _, t') => t' = t ++ es /\
      (forall es1 e es2, es = es1 ++ e :: es2 -> fallible e = true -> fails (t ++ es1) e = None)
  | (None, t') => exists es1 e es2 err, es = es1 ++ e :: es2 /\ fallible e = true /\
      fails (t ++ es1) e = Some err /\ t' = t ++ es1 ++ [e; Fatalln err]
  end.

Lemma performs_ret : performs (ret tt) [].
Proof. intros t. simpl. rewrite app_nil_r. split; [done|]. by intros []. Qed.

Lemma performs_must e : fallible e = true -> performs (must e) [e].
Proof.
  intros He t. unfold must, bind, call. destruct (fails t e) as [err|] eqn:E; simpl.
  - exists [], e, [], err. rewrite app_nil_r, <- app_assoc. by split_and!.
  - split; [done|]. intros es1 e' es2 Es _. destruct es1 as [|? [|]]; simplify_eq/=. by rewrite app_nil_r.
Qed.

Lemma performs_perform e : fallible e = false -> performs (perform e) [e].
Proof.
  intros He t. simpl. split; [done|]. intros es1 e' es2 Es He'. destruct es1 as [|? [|]]; simplify_eq/=.
  congruence.
Qed.

Lemma performs_seq m1 m2 es1 es2 : performs m1 es1 -> performs m2 es2 -> performs (seq_ m1 m2) (es1 ++ es2).
Proof.
  intros H1 H2 t. unfold seq_, bind. specialize (H1 t). destruct (m1 t) as [[[]|] t1].
  - destruct H1 as [-> H1]. specialize (H2 (t ++ es1)). destruct (m2 (t ++ es1)) as [[[]|] t2].
    + destruct H2 as [-> H2]. split; [by rewrite <- app_assoc|]. intros l e r E He.
      apply app_eq_app in E as (k & [[-> E]|[-> E]]).
      * destruct k as [|e' k]; simpl in E; simplify_eq; [|by eapply H1].
        specialize (H2 [] e r eq_refl He). by rewrite !app_nil_r in H2.
      * rewrite app_assoc. by eapply H2.
    + destruct H2 as (l & e & r & err & -> & He & Ef & ->).
      exists (es1 ++ l), e, r, err. rewrite <- !app_assoc in *. by split_and!.
  - destruct H1 as (l & e & r & err & -> & He & Ef & ->). exists l, e, (r ++ es2), err. by rewrite <- app_assoc.
Qed.

Lemma performs_if (b : bool) m es : performs m es -> performs (if b then m else ret tt) (if b then es else []).
Proof. destruct b; [done|]. intros _. apply performs_ret. Qed.

(** What start-up asks for, and what one profile and all of them take at the end. *)
Definition startEffects (profiles : list bytes) : list effect :=
  (if isProfileEnabled profiles (bs "cpu") then [Create (bs "cpu.pprof"); StartCPUProfile] else []) ++
  (if isProfileEnabled profiles (bs "block") then [SetBlockProfileRate 1] else []) ++
  (if isProfileEnabled profiles (bs "heap") then [SetMemProfileRate (16 * 1024)] else []).

Definition dumpEffects (p : bytes) : list effect :=
  if bool_decide (p = bs "cpu") then [StopCPUProfile]
  else let f := p ++ bs ".pprof" in
    Create f :: (if known p then [WriteProfile p f] else []) ++ [CloseFile f].

Lemma startProfiling_performs profiles : performs (startProfiling profiles) (startEffects profiles).
Proof.
  unfold startProfiling, startEffects. apply performs_seq; [|apply performs_seq]; apply performs_if;
    [|by apply performs_perform..].
  apply (performs_seq _ _ [_] [_]); by apply performs_must.
Qed.

Lemma dumpProfile_performs p : performs (dumpProfile p) (dumpEffects p).
Proof.
  unfold dumpProfile, dumpEffects. case_bool_decide; [by apply performs_perform|].
  apply (performs_seq _ _ [_]); [by apply performs_must|]. apply performs_seq; [|by apply performs_must].
  by apply performs_if, performs_must.
Qed.

Lemma dumpProfiles_performs profiles : performs (dumpProfiles profiles) (concat (dumpEffects <$> profiles)).
Proof.
  induction profiles as [|p ps IH]; [apply performs_ret|].
  rewrite fmap_cons. apply performs_seq; [apply dumpProfile_performs|done].
Qed.

End profiling.
