(* ===== verification/Main.v ===== *)
(** * main.go: start-up and statistics

    [mainStart] is main from its flags to the point where the goroutine of the decoder
    and the user interface are started, and [main] puts it, and what main does from
    there on, between the start and the end of the profiles (Profiling.v).  The latter
    is an argument here; Session.v has it.
    [statGenerator] is the closure that collects the statistics of the components for
    the screen, with the global they are kept in as its state. *)
From Stdlib Require Import Strings.Byte.
From S2P Require Import Prelude GoLib Hotlist Analysis PacketBuffer Capture Replay Decode GoFmt Presentation Profiling.
From S2P Require DecodePool Assembly.
Local Open Scope Z_scope.

(** ** Statistics *)

Section stats.
  Context `{LayersPkg} {Src : Type} `{PacketSource Src} {HRe : Analysis.RegexpPkg} {HL : Type}.

(** What the pools report: decode.Pool.Stats and analysis.Pool.Stats. *)
Definition statGenerator (decodePool : DecodePool.Pool (Src:=Src)) (analysisPool : @Analysis.Pool HL HRe) :
    GoM (Src * Stats) Stats := fun '(captureProvider, stats) =>
  '((captureStats, err), captureProvider) ← SourceStats captureProvider;
  let '(entered, kernel) :=
    match err with
    | None => (PacketsReceived captureStats, PacketsIfDropped captureStats +! Capture.PacketsDropped captureStats)
    | Some _ => (PacketsEnteredFilter stats, PacketsDroppedKernel stats)
    end in
  let '(captured, parser) := DecodePool.poolStats decodePool in
  let '(handled, dropped) := Analysis.Stats analysisPool in
  let stats := mkStats entered (kernel +! captured) captured kernel parser dropped
    (kernel +! parser +! dropped) handled in
  Ret (stats, (captureProvider, stats)).

End stats.

(** ** Start-up *)

(** The command line flags that reach the components. *)
Record flags := mkFlags {
  netInterface : bytes;
  infile : bytes;
  bufferSize : Z;
  ports : list Z;
  assemblyWorkers : Z;
  decodeWorkers : Z;
  analysisWorkers : Z;
  filter : bytes;
  reportSize : Z;
  interval : Z;
  cumulative : bool;
  noDelay : bool;
  noGui : bool;
  displayVersion : bool;
  profiles : list bytes
}.

(** Their values when the command line does not set them. *)
Definition defaultFlags : flags :=
  mkFlags (bs "") (bs "") 8 [11211] 8 8 32 (bs "") 100 1 false false false false [].

Section main.
  Context {W : Type} {HPcap : PcapPkg W} `{LayersPkg} {HAsm : Assembly.TcpAssembly}.
  Context {HRe : Analysis.RegexpPkg} {HL : Type} {HHot : HotList HL Analysis.keyInfo}.
  (* what the reader pools of the assembly workers yield, and the wall clock *)
  Context (choice : nat -> nat -> option nat) (clk : nat -> Z).

(** packetHandler: the pool that its closure calls HandlePackets of. *)
Definition packetHandler (f : flags) : outcome Assembly.Pool := Assembly.New (assemblyWorkers f) choice.

(** The decode pool, on the packet source that was opened. *)
Inductive decoders : Type :=
  | FromHandle (h : option Handle) (p : DecodePool.Pool (Src:=W))
  | FromReplayer (h : option Handle) (p : DecodePool.Pool (Src:=replayer W)).

(** decode.NewPool, of a source that has read nothing yet. *)
Definition newDecoders (f : flags) (src : openedSource) : GoM W decoders := fun w =>
  match src with
  | PSource h => p ← DecodePool.NewPool (decodeWorkers f) w; Ret (FromHandle h p, w)
  | PReplayer h buf =>
      p ← DecodePool.NewPool (decodeWorkers f) (mkReplayer 0 0 buf 0 0 0 w clk 0);
      Ret (FromReplayer h p, w)
  end.

(** Where start-up ends: the version was printed, the process exited with a code
    and printed the error, or the components are ready. *)
Inductive started : Type :=
  | PrintedVersion
  | Exited (code : Z) (err : error)
  | Ready (analysisPool : @Analysis.Pool HL HRe) (decodePool : decoders) (pool : Assembly.Pool).

Definition mainStart (f : flags) : GoM W started :=
  if displayVersion f then mret PrintedVersion
  else
    analysisPool ← liftW (Analysis.New (analysisWorkers f) (reportSize f));
    '(err, analysisPool) ← liftW (Analysis.SetFilterPattern (filter f) analysisPool);
    match err with
    | Some err => mret (Exited 1 err)
    | None =>
        '(packetSource, err) ← Replay.New (netInterface f) (infile f) (bufferSize f) (noDelay f) (ports f);
        match err, packetSource with
        | Some err, _ => mret (Exited 2 err)
        | None, Some packetSource =>
            pool ← liftW (packetHandler f);
            decodePool ← newDecoders f packetSource;
            mret (Ready analysisPool decodePool pool)
        | None, None => go_panic   (* New has no such result *)
        end
    end.

(** How the process ends. *)
Inductive ended : Type := MainReturned | ProcessExited (code : Z).

Section run.
  Context (fails : trace -> effect -> option error) (known : bytes -> bool).
  (* what main does with the components, from the start of the decoder on *)
  Context (body : @Analysis.Pool HL HRe -> decoders -> Assembly.Pool -> outcome unit).

(** The deferred call, when main ends in [r]. *)
Definition deferredDump (f : flags) (r : ended) (t : trace) : outcome (ended * trace) :=
  match dumpProfiles fails known (profiles f) t with
  | (None, t) => Ret (ProcessExited 1, t)
  | (Some _, t) => Ret (r, t)
  end.

(** The deferred call runs when main returns or panics, which ends the process with
    code 2; os.Exit and log.Fatalln, which exits with code 1, do not run it. *)
Definition main (f : flags) (w : W) (t : trace) : outcome (ended * trace) :=
  if displayVersion f then Ret (MainReturned, t)
  else
    match startProfiling fails (profiles f) t with
    | (None, t) => Ret (ProcessExited 1, t)
    | (Some _, t) =>
        match mainStart f w with
        | Ret (Exited code _, _) => Ret (ProcessExited code, t)
        | Ret (PrintedVersion, _) => deferredDump f MainReturned t
        | Ret (Ready analysisPool decodePool pool, _) =>
            match body analysisPool decodePool pool with
            | Ret _ => deferredDump f MainReturned t
            | Panic => deferredDump f (ProcessExited 2) t
            | Blocked => Blocked
            | OutOfFuel => OutOfFuel
            end
        | Panic => deferredDump f (ProcessExited 2) t
        | Blocked => Blocked
        | OutOfFuel => OutOfFuel
        end
    end.
End run.

End main.

(** ** Properties *)

Section stats_facts.
  Context `{LayersPkg} {Src : Type} `{PacketSource Src} {HRe : Analysis.RegexpPkg} {HL : Type}.

(** The footer adds up.  Whatever the packet source answers, and when the sums
    fit an int, the statistics are a fresh snapshot of the decoder's and the
    analysis pool's counters together with the kernel's, which are kept from the
    call before when the source has none; the drops shown in the label are the
    summands of the total shown; and the percentage is 0.00 when no packet passed
    the filter. *)
Theorem statGenerator_totals (decodePool : DecodePool.Pool (Src:=Src)) (analysisPool : @Analysis.Pool HL HRe)
    src stats cs err src' :
  SourceStats src = Ret ((cs, err), src') ->
  let kernel := match err with
    | None => PacketsIfDropped cs + Capture.PacketsDropped cs
    | Some _ => PacketsDroppedKernel stats
    end in
  let captured := DecodePool.PacketsCaptured decodePool in
  let parser := DecodePool.PacketsDropped decodePool in
  let dropped := Analysis.EventsDropped analysisPool in
  0 <= kernel -> 0 <= captured -> 0 <= parser -> 0 <= dropped -> kernel + captured <= int_max ->
  kernel + parser + dropped <= int_max ->
  exists st, statGenerator decodePool analysisPool (src, stats) = Ret (st, (src', st)) /\
    (err <> None -> PacketsEnteredFilter st = PacketsEnteredFilter stats) /\
    PacketsCaptured st = captured /\ PacketsPassedFilter st = kernel + captured /\
    ResponsesParsed st = Analysis.EventsHandled analysisPool /\ PacketsDroppedTotal st = kernel + parser + dropped /\
    exists percent, dropLabel st =
      bs "Dropped: " ++ Itoa kernel ++ bs "+" ++ Itoa parser ++ bs "+" ++ Itoa dropped ++ bs "=" ++
      Itoa (kernel + parser + dropped) ++ bs " (" ++ padLeft 5 percent ++ bs "%)" /\
      (kernel + captured = 0 -> percent = bs "0.00").
Proof.
  intros E kernel captured parser dropped Hk Hc Hp Hd Hkc Hsum.
  unfold statGenerator. rewrite E. unfold mbind, outcome_bind.
  assert (match err with
    | None => (PacketsReceived cs, PacketsIfDropped cs +! Capture.PacketsDropped cs)
    | Some _ => (PacketsEnteredFilter stats, PacketsDroppedKernel stats)
    end = (match err with None => PacketsReceived cs | Some _ => PacketsEnteredFilter stats end, kernel)) as ->.
  { unfold kernel in *. destruct err; [done|]. by rewrite wrap64_id by golia. }
  cbn -[int_max]. eexists. split; [done|]. cbn. fold captured parser dropped.
  rewrite (wrap64_id (kernel + captured)), (wrap64_id (kernel + parser)), wrap64_id by golia.
  split_and!; [by destruct err|done..|]. eexists. unfold dropLabel. cbn. split; [done|].
  intros ->. by vm_compute.
Qed.

End stats_facts.

Section main_facts.
  Context {W : Type} {HPcap : PcapPkg W} `{LayersPkg} {HAsm : Assembly.TcpAssembly} {HLaws : Assembly.AssemblyLaws}.
  Context {HRe : Analysis.RegexpPkg} {HL : Type} {HHot : HotList HL Analysis.keyInfo}.
  Context (choice : nat -> nat -> option nat) (clk : nat -> Z).

(** The decode pool of [n] workers, on the source that was opened in the world [w]. *)
Definition decodersNew (n : Z) (src : openedSource) (w : W) (d : decoders) : Prop :=
  match src with
  | PSource h => exists p, d = FromHandle h p /\ DecodePool.NewPool n w = Ret p
  | PReplayer h buf => exists p, d = FromReplayer h p /\
      DecodePool.NewPool n (mkReplayer 0 0 buf 0 0 0 w clk 0) = Ret p
  end.

Lemma NewPool_returns {Src : Type} n (s : Src) : 0 <= n -> exists p, DecodePool.NewPool n s = Ret p.
Proof.
  intros Hn. unfold DecodePool.NewPool, DecodePool.startWorker. destruct (Z.ltb_spec n 0); [lia|].
  destruct (NewPacketBuffer_holds 1000 (8 * 1024 * 1024)) as (pb & -> & _); [done..|]. by eexists.
Qed.

(** Start-up ends in one of its three ways.  With sensible numbers of workers:
    a filter pattern that does not compile exits with code 1 before any packet
    source is opened; a source that cannot be opened exits with code 2 and the
    error of capture.New; otherwise the components are ready, the analysis pool
    empty and with the filter asked for, the assembly pool in its initial state, and
    the decode pool new, on the source that was opened. *)
Theorem main_starts (f : flags) (w : W) : displayVersion f = false -> 0 < analysisWorkers f ->
  0 < assemblyWorkers f <= int_max -> 0 <= decodeWorkers f <= int_max ->
  match Analysis.setPattern (filter f) None with
  | (_, Some e) => mainStart choice clk f w = Ret (Exited 1 e, w)
  | (re, None) =>
      match Replay.New (netInterface f) (infile f) (bufferSize f) (noDelay f) (ports f) w with
      | Ret ((_, Some e), w') => mainStart choice clk f w = Ret (Exited 2 e, w')
      | Ret ((Some src, None), w') => exists an d pool,
          mainStart choice clk f w = Ret (Ready an d pool, w') /\
          Analysis.pool_ok an /\ Analysis.filter_ an = re /\ zlen (Analysis.workers an) = analysisWorkers f /\
          Analysis.reportSize an = reportSize f /\
          Forall (fun wk => hl_counts (Analysis.hl wk) = ∅ /\ Analysis.kisChan wk = []) (Analysis.workers an) /\
          Assembly.reachable (ports f) (assemblyWorkers f) choice pool /\
          decodersNew (decodeWorkers f) src w' d
      | _ => True
      end
  end.
Proof.
  intros Hv Ha Has Hd. unfold mainStart. rewrite Hv.
  destruct (New_inv (analysisWorkers f) (reportSize f) None ltac:(lia)) as (p & Ep & Hinv).
  assert (Forall (fun wk => hl_counts (hl wk) = ∅ /\ kisChan wk = []) (workers p)) as Hempty.
  { unfold Analysis.New in Ep. destruct (_ <? 0); [done|]. injection Ep as <-. cbn.
    apply Forall_replicate. cbn. by rewrite hl_New_law. }
  assert (set_filter None p = p) as Hnone.
  { unfold Analysis.New in Ep. destruct (_ <? 0); [done|]. by injection Ep as <-. }
  destruct Hinv as [Hok Hn _ _ _ _]. cbn in Hok, Hn.
  assert (forall fl, Reset (set_filter fl p) = Ret (tt, set_filter fl (set_workers (resetW <$> workers p) p))) as Hreset.
  { intros fl. apply (resetLoop_spec [] (workers p) (set_filter fl p)); [done|apply Hok]. }
  unfold liftW, mbind, gom_bind, outcome_bind. rewrite Ep. unfold SetFilterPattern.
  assert (filter_ p = None) as Hf by (by rewrite <- Hnone).
  rewrite Hf. destruct (setPattern (filter f) None) as [re [e|]]; [done|].
  unfold mbind, gom_bind. rewrite Hreset. unfold mret, gom_ret.
  destruct (Replay.New _ _ _ _ _ w) as [[[[src|] [e|]] w']| | |]; try done.
  destruct (Assembly.assembly_New_inv (assemblyWorkers f) choice Has) as (pool & Epool & _).
  unfold packetHandler. rewrite Epool.
  assert (exists d, newDecoders clk f src w' = Ret (d, w') /\ decodersNew (decodeWorkers f) src w' d) as (d & Ed & Hdn).
  { unfold newDecoders, decodersNew. destruct src as [h|h buf];
      edestruct @NewPool_returns as [dp Edp]; try (rewrite Edp; eexists; split; [done|]; by exists dp); lia. }
  rewrite Ed. eexists _, d, pool. split; [done|]. cbn. split_and!.
  - split; cbn; [|apply Hok..]. apply Forall_fmap. eapply Forall_impl; [apply Hok|]. done.
  - done.
  - unfold zlen in *. by rewrite length_fmap.
  - unfold Analysis.New in Ep. destruct (_ <? 0); [done|]. by injection Ep as <-.
  - apply Forall_fmap. eapply Forall_impl; [exact Hempty|]. intros wk [_ Hq]. split; [|done]. cbn. apply hl_Reset_law.
  - by apply Assembly.reach_new.
  - done.
Qed.

(** ** Profiles *)

Context (fails : trace -> effect -> option error) (known : bytes -> bool).

(** Nothing before the call [e], which may fail, failed. *)
Definition allSucceeded (t : trace) : Prop :=
  forall t1 e t2, t = t1 ++ e :: t2 -> fallible e = true -> fails t1 e = None.

Lemma start_no_stop ps : StopCPUProfile ∉ startEffects ps.
Proof.
  assert (Forall (fun e => e <> StopCPUProfile) (startEffects ps)) as Hall.
  { unfold startEffects. repeat apply Forall_app_2; destruct (isProfileEnabled _ _); by repeat constructor. }
  intros Hin. rewrite Forall_forall in Hall. by apply (Hall _ Hin).
Qed.

Lemma start_cpu ps : bs "cpu" ∈ ps ->
  exists t, startEffects ps = Create (bs "cpu.pprof") :: StartCPUProfile :: t.
Proof.
  intros Hin. unfold startEffects. rewrite isProfileEnabled_spec, bool_decide_true by done. by eexists.
Qed.

Lemma dump_one ps p : p ∈ ps -> exists t1 t2,
  concat (dumpEffects known <$> ps) = t1 ++ dumpEffects known p ++ t2.
Proof.
  intros (ps1 & ps2 & ->)%list_elem_of_split. rewrite fmap_app, fmap_cons, concat_app. cbn [concat]. by eexists _, _.
Qed.

(** What a run that returned has done for the profile [p]. *)
Definition profileDone (t : trace) (p : bytes) : Prop :=
  if bool_decide (p = bs "cpu")
  then exists t1 t2, t = [Create (bs "cpu.pprof"); StartCPUProfile] ++ t1 ++ [StopCPUProfile] ++ t2
  else exists t1 t2, let file := p ++ bs ".pprof" in
    t = t1 ++ [Create file] ++ (if known p then [WriteProfile p file] else []) ++ [CloseFile file] ++ t2.

Lemma all_done ps p : p ∈ ps -> profileDone (startEffects ps ++ concat (dumpEffects known <$> ps)) p.
Proof.
  intros Hp. destruct (dump_one ps p Hp) as (t1 & t2 & ->). unfold profileDone, dumpEffects.
  case_bool_decide as Hcpu.
  - subst p. destruct (start_cpu ps Hp) as [t ->]. exists (t ++ t1), t2. simpl. by rewrite <- app_assoc.
  - exists (startEffects ps ++ t1), t2. simpl. by rewrite <- !app_assoc.
Qed.

(** The deferred call, after start-up. *)
Lemma main_dumps f t r0 r t' : startProfiling fails (profiles f) [] = (Some tt, t) ->
  deferredDump fails known f r0 t = Ret (r, t') ->
  (r = r0 /\ allSucceeded t' /\ Forall (profileDone t') (profiles f)) \/
  (r = ProcessExited 1 /\ exists t1 e err, t' = t1 ++ [e; Fatalln err] /\ fails t1 e = Some err).
Proof.
  intros Es. unfold deferredDump. pose proof (performs_seq fails _ _ _ _ (startProfiling_performs fails (profiles f))
    (dumpProfiles_performs fails known (profiles f)) []) as Hboth. unfold seq_, bind in Hboth. rewrite Es in Hboth.
  destruct (dumpProfiles fails known (profiles f) t) as [[[]|] t2]; intros [= <- <-].
  - destruct Hboth as [-> Hok]. left. split_and!; [done|exact Hok|]. apply Forall_forall. by apply all_done.
  - destruct Hboth as (es1 & e & es2 & err & _ & _ & Ef & ->). right. split; [done|]. by exists es1, e, err.
Qed.

(** C40: the profiles of a run (one that does not just print the version), whatever
    the environment refuses and whatever main does with its components.  When main
    returns, no call failed, the CPU profile
    asked for was started at once and stopped, and every other profile asked for was
    written to its file and the file closed (of a name that the runtime does not
    know, the file was created and closed, and nothing written).  When the process exits otherwise,
    either a call failed, which was reported at once with code 1; or main panicked,
    with code 2, and the profiles are complete; or start-up ended with an error, and
    then a CPU profile that was started is not stopped. *)
Theorem main_profiles body f w r t : displayVersion f = false ->
  main choice clk fails known body f w [] = Ret (r, t) ->
  let complete := allSucceeded t /\ Forall (profileDone t) (profiles f) in
  match r with
  | MainReturned => complete
  | ProcessExited code =>
      (code = 1 /\ exists t1 e err, t = t1 ++ [e; Fatalln err] /\ fails t1 e = Some err) \/
      (code = 2 /\ complete) \/
      (exists err w', mainStart choice clk f w = Ret (Exited code err, w') /\ allSucceeded t /\
         (StopCPUProfile ∉ t) /\ (bs "cpu" ∈ profiles f -> StartCPUProfile ∈ t))
  end.
Proof.
  intros Hv. unfold main. rewrite Hv.
  pose proof (startProfiling_performs fails (profiles f) []) as Hs.
  destruct (startProfiling fails (profiles f) []) as [[[]|] t1] eqn:Es.
  2:{ destruct Hs as (es1 & e & es2 & err & _ & _ & Ef & ->). intros [= <- <-]. left.
      split; [done|]. by exists es1, e, err. }
  destruct Hs as [-> Hs]. cbn [app] in *.
  assert (forall r0, deferredDump fails known f r0 (startEffects (profiles f)) = Ret (r, t) ->
    (r = r0 /\ allSucceeded t /\ Forall (profileDone t) (profiles f)) \/
    (r = ProcessExited 1 /\ exists t1 e err, t = t1 ++ [e; Fatalln err] /\ fails t1 e = Some err)) as Hdump
    by (intros r0 E; by eapply main_dumps).
  intros E.
  assert (deferredDump fails known f MainReturned (startEffects (profiles f)) = Ret (r, t) \/
    deferredDump fails known f (ProcessExited 2) (startEffects (profiles f)) = Ret (r, t) \/
    exists code err w', mainStart choice clk f w = Ret (Exited code err, w') /\ r = ProcessExited code /\
      t = startEffects (profiles f)) as [Ed|[Ed|(code & err & w' & Est & -> & ->)]].
  { destruct (mainStart choice clk f w) as [[[|code err|an d pool] w1]| | |]; try done; [by left| | |by right; left].
    - injection E as <- <-. right. right. by exists code, err, w1.
    - destruct (body an d pool); [by left|by right; left|done..]. }
  - destruct (Hdump _ Ed) as [[-> ?]|[-> ?]]; [done|by left].
  - destruct (Hdump _ Ed) as [[-> ?]|[-> ?]]; [by right; left|by left].
  - right. right. exists err, w'. split_and!; [done|exact Hs|apply start_no_stop|].
    intros Hin. destruct (start_cpu _ Hin) as [t ->]. right. by left.
Qed.

End main_facts.
