(* ===== verification/Session.v ===== *)
(** * main.go: the run of the program

    What main does once the components are ready, up to its return.  Without the
    interface it waits for a signal or for the decoder to end, [waiting] being
    the two channels it selects on, with the decoder's goroutine beside it; with
    the interface it runs it, and reports its error.  [mainBody] is both, and
    [memsniff] a run of the whole program. *)
From Stdlib Require Import Strings.Byte.
From S2P Require Import Prelude GoLib Hotlist Analysis Capture Replay Decode GoFmt Logger Presentation Terminal Profiling Main.
From S2P Require DecodePool Files Assembly.
Local Open Scope Z_scope.

(** ** Without the interface *)

Section waiting.
  Context `{LayersPkg} {Src : Type} `{PacketSource Src}.

Record waiting := mkWaiting {
  decodePool : DecodePool.Pool (Src:=Src);
  decoderDone : bool;   (* the goroutine of the decoder has ended *)
  eofChan : Z;          (* elements in the channels, which have room for one *)
  exitChan : Z;
  mainReturned : bool
}.

Definition set_decodePool (p : DecodePool.Pool) (s : waiting) : waiting :=
  mkWaiting p (decoderDone s) (eofChan s) (exitChan s) (mainReturned s).

(** The goroutine [decodePool.Run(); eofChan <- struct{}{}], after Run. *)
Definition announce : GoM waiting unit := fun s =>
  match DecodePool.runAt (decodePool s), decoderDone s with
  | DecodePool.Returned, false =>
      if eofChan s <? 1
      then Ret (tt, mkWaiting (decodePool s) true (eofChan s + 1) (exitChan s) (mainReturned s)) else Blocked
  | _, _ => Blocked
  end.

(** An interrupt: os/signal sends to exitChan unless that would block. *)
Definition interrupt : GoM waiting unit := fun s =>
  Ret (tt, if exitChan s <? 1
           then mkWaiting (decodePool s) (decoderDone s) (eofChan s) (exitChan s + 1) (mainReturned s) else s).

(** The select of main, by the case taken. *)
Definition selectExit : GoM waiting unit := fun s =>
  if 0 <? exitChan s
  then Ret (tt, mkWaiting (decodePool s) (decoderDone s) (eofChan s) (exitChan s - 1) true) else Blocked.

Definition selectEof : GoM waiting unit := fun s =>
  if 0 <? eofChan s
  then Ret (tt, mkWaiting (decodePool s) (decoderDone s) (eofChan s - 1) (exitChan s) true) else Blocked.

(** A step of the decoder's goroutine or of a worker, a signal, or main. *)
Inductive event : Type := Decoder (a : DecodePool.action) | Announce | Interrupt | SelectExit | SelectEof.

(** Nothing happens after main has returned. *)
Definition sessionStep (e : event) : GoM waiting unit := fun s =>
  if mainReturned s then Blocked
  else match e with
       | Decoder a => '(_, p) ← DecodePool.act a (decodePool s); Ret (tt, set_decodePool p s)
       | Announce => announce s
       | Interrupt => interrupt s
       | SelectExit => selectExit s
       | SelectEof => selectEof s
       end.

Fixpoint session (es : list event) : GoM waiting unit :=
  match es with
  | [] => mret tt
  | e :: es => sessionStep e;; session es
  end.

Definition sessionStart (p : DecodePool.Pool) : waiting := mkWaiting p false 0 0 false.
End waiting.

(** ** With the interface *)

Section interface.
  Context {H : Type} {HHot : HotList H keyInfo} {HRe : RegexpPkg} {HSort : SortPkg} {HTerm : TermboxPkg}.
  Context (errorText : error -> bytes) (formatTime : Z -> bytes).

(** [time.Duration( *interval) * time.Second], in nanoseconds. *)
Definition updateInterval (f : flags) : Z := interval f *! 1000000000.

(** cui.Run() up to its select, of the interface that main has made. *)
Definition runInterface (f : flags) (analysisPool : @Analysis.Pool H HRe) (zero : Z) (t : Terminal)
    (init : option error) (r : reading) : outcome (unit * running) :=
  runTermbox formatTime init r (Presentation.New analysisPool (updateInterval f) (cumulative f) zero t).

(** What main still does once cui.Run has returned [err]. *)
Definition interfaceEnded (err : option error) : list instr :=
  match err with
  | Some e => [SetLogger 0 (Some ConsoleLogger); WriteTo 0 (Some (ProxyLogger 0)); Logger.Log (Some (ProxyLogger 0)) [ItemError e]]
  | None => []
  end.
End interface.

(** ** The whole program *)

Section happenings.
  Context {HTerm : TermboxPkg}.

(** What happens in a run from the start of the decoder on: the steps of the other
    goroutines and the signals, the events of the terminal, and what is logged. *)
Record happenings := mkHappenings {
  sessionEvents : list event;
  termInit : option error;               (* of termbox.Init *)
  zeroTime : Z;
  screen : Terminal;
  firstUpdate : reading;
  termActions : list termAction;
  logStore : logs;
  otherThreads : list (list instr);
  logActions : list Logger.action
}.
End happenings.

Section program.
  Context {W : Type} {HPcap : PcapPkg W} `{LayersPkg} {HAsm : Assembly.TcpAssembly}.
  Context {HL : Type} {HHot : HotList HL keyInfo} {HRe : RegexpPkg} {HSort : SortPkg} {HTerm : TermboxPkg}.
  Context (errorText : error -> bytes) (formatTime : Z -> bytes).
  Context (choice : nat -> nat -> option nat) (clk : nat -> Z) (remaining : W -> nat).
  Context (fails : trace -> effect -> option error) (known : bytes -> bool).

(** The wait of main. *)
Definition waitFor {Src : Type} {HSrc : PacketSource Src} (es : list event) (p : DecodePool.Pool (Src:=Src)) :
    outcome unit :=
  '(_, s) ← session es (sessionStart p);
  if mainReturned s then Ret tt else Blocked.

Definition noguiBody (es : list event) (d : decoders) : outcome unit :=
  match d with
  | FromHandle h p => waitFor (HSrc := source_PacketSource h remaining) es p
  | FromReplayer h p =>
      waitFor (HSrc := @replayer_PacketSource W (source_PacketSource h remaining)) es p
  end.

(** What main does with the error of the interface, beside the other goroutines. *)
Definition reportFailure (hp : happenings) (e : error) : outcome unit :=
  '(_, m) ← Logger.runActs errorText (logActions hp)
    (mkMachine (logStore hp) (interfaceEnded (Some e) :: otherThreads hp) []);
  if bool_decide (threads m !! 0%nat = Some []) then Ret tt else Blocked.

Definition guiBody (f : flags) (hp : happenings) (analysisPool : @Analysis.Pool HL HRe) : outcome unit :=
  '(_, s) ← runInterface formatTime f analysisPool (zeroTime hp) (screen hp) (termInit hp) (firstUpdate hp);
  '(_, s) ← termRun errorText formatTime (termActions hp) s;
  match phaseAt s with
  | RunReturned None => Panic
  | RunReturned (Some None) => Ret tt
  | RunReturned (Some (Some e)) => reportFailure hp e
  | _ => Blocked
  end.

Definition mainBody (f : flags) (hp : happenings) (analysisPool : @Analysis.Pool HL HRe) (d : decoders)
    (pool : Assembly.Pool) : outcome unit :=
  if noGui f then noguiBody (sessionEvents hp) d else guiBody f hp analysisPool.

(** A run of the process, and the profiling calls it has made. *)
Definition memsniff (f : flags) (hp : happenings) (w : W) : outcome (ended * trace) :=
  main choice clk fails known (mainBody f hp) f w [].
End program.

(** ** Lemmas *)

Section waiting_facts.
  Context `{LayersPkg} {Src : Type} `{PacketSource Src} `{!DecodePool.CollectorLaws Src}.
  Local Abbreviation waiting := (waiting (Src:=Src)).

(** The decoder's goroutine sends once, after Run has returned. *)
Record waiting_ok (n : Z) (s : waiting) : Prop := {
  wt_pool : DecodePool.pool_inv (decodePool s) /\ DecodePool.numWorkers (decodePool s) = n;
  wt_done : decoderDone s = true -> DecodePool.runAt (decodePool s) = DecodePool.Returned;
  wt_eof : mainReturned s = false -> eofChan s = if decoderDone s then 1 else 0;
  wt_exit : 0 <= exitChan s <= 1
}.

(** What a step leaves of the reasons to return. *)
Definition signalled (s : waiting) : Prop := 0 < exitChan s \/ mainReturned s = true /\ decoderDone s = false.

(** Steps left without an interrupt, once the input has ended. *)
Definition sessionLeft (s : waiting) : Z :=
  DecodePool.measure (decodePool s) + (if decoderDone s then 0 else 1) + (if mainReturned s then 0 else 1).

Lemma sessionStep_ok n s e s' : waiting_ok n s -> sessionStep e s = Ret (tt, s') ->
  waiting_ok n s' /\ (signalled s' -> signalled s \/ e = Interrupt) /\
  (DecodePool.shutting (decodePool s) -> e <> Interrupt ->
   DecodePool.shutting (decodePool s') /\ sessionLeft s' < sessionLeft s).
Proof.
  intros [[Hinv Hn] Hd He Hx]. unfold sessionStep, signalled. destruct (mainReturned s) eqn:Em; [done|].
  specialize (He eq_refl). destruct e; cbn.
  - unfold mbind, outcome_bind. destruct (DecodePool.act a (decodePool s)) as [[[] p]| | |] eqn:E; try done. intros [= <-].
    pose proof (DecodePool.act_move _ _ _ Hinv E) as Hm. cbn. rewrite Em. split_and!.
    + split; cbn; [split; [by eapply DecodePool.pool_act_inv|by rewrite (DecodePool.move_n _ _ _ Hm)]| |done|done].
      intros Hd'. specialize (Hd Hd'). destruct a as [|i].
      * cbn in E. unfold DecodePool.runStep in E. by rewrite Hd in E.
      * by inversion Hm; subst; cbn; rewrite ?Hd in *.
    + intros [?|[? _]]; [by left; left|done].
    + intros Hsh _. destruct (DecodePool.shutting_move _ _ _ Hinv Hsh Hm) as [? ?]. split; [done|].
      unfold sessionLeft. cbn. rewrite Em. lia.
  - unfold announce. destruct (DecodePool.runAt (decodePool s)) eqn:Er; try done.
    destruct (decoderDone s) eqn:Ed; [done|]. destruct (Z.ltb_spec (eofChan s) 1); [|done]. intros [= <-]. cbn. rewrite Em.
    split_and!; [split; cbn; try done; intros; lia| |intros; split; [done|unfold sessionLeft; cbn; rewrite Ed, Em; lia]].
    intros [?|[? _]]; [by left; left|done].
  - intros [= <-]. destruct (Z.ltb_spec (exitChan s) 1); (split_and!; [|by right|done]); split; cbn; try done; lia.
  - unfold selectExit. destruct (Z.ltb_spec 0 (exitChan s)); [|done]. intros [= <-]. cbn.
    split_and!; [split; cbn; done || lia|by left; left|].
    intros ? _. split; [done|]. unfold sessionLeft. cbn. rewrite Em. lia.
  - unfold selectEof. destruct (Z.ltb_spec 0 (eofChan s)); [|done]. intros [= <-]. cbn.
    assert (decoderDone s = true) as Hdone by (destruct (decoderDone s); [done|lia]).
    split_and!; [split; cbn; done || lia| |].
    + intros [?|[_ ?]]; [by left; left|congruence].
    + intros ? _. split; [done|]. unfold sessionLeft. cbn. rewrite Em. lia.
Qed.

Lemma session_ok n es : forall s s', waiting_ok n s -> session es s = Ret (tt, s') ->
  waiting_ok n s' /\ (signalled s' -> signalled s \/ Interrupt ∈ es) /\
  (DecodePool.shutting (decodePool s) -> (Interrupt ∉ es) -> zlen es + sessionLeft s' <= sessionLeft s).
Proof.
  induction es as [|e es IH]; intros s s' Hok; cbn [session].
  { intros [= <-]. split_and!; [done|by left|]. change (zlen []) with 0. lia. }
  unfold mbind, gom_bind. destruct (sessionStep e s) as [[[] s1]| | |] eqn:E; try done. intros E'.
  destruct (sessionStep_ok n s e s1 Hok E) as (Hok1 & Hsig1 & Hleft1).
  destruct (IH s1 s' Hok1 E') as (Hok' & Hsig & Hleft). split_and!; [done| |].
  - intros [Hs|?]%Hsig; [|by right; right]. destruct (Hsig1 Hs) as [?| ->]; [by left|right; left].
  - intros Hsh Hni. apply not_elem_of_cons in Hni as [Hne Hni].
    destruct (Hleft1 Hsh ltac:(congruence)) as [Hsh1 ?]. specialize (Hleft Hsh1 Hni). rewrite zlen_cons. lia.
Qed.

Lemma sessionLeft_bound n s : waiting_ok n s -> 0 <= sessionLeft s <= 5 * n + 3.
Proof.
  intros [[Hinv <-] _ _ _]. pose proof (DecodePool.measure_bound _ Hinv). unfold sessionLeft.
  destruct (decoderDone s), (mainReturned s); lia.
Qed.

Lemma sessionStart_ok n src p : 0 <= n <= int_max -> DecodePool.coll_ok src -> DecodePool.NewPool n src = Ret p ->
  waiting_ok n (sessionStart p).
Proof.
  intros Hn Hs E. destruct (DecodePool.NewPool_inv n src Hn Hs) as (p' & E' & Hinv). assert (p' = p) as -> by congruence.
  split; cbn; [split; [done|]|done|done|lia].
  apply (DecodePool.reachable_n n src p Hn Hs). by apply DecodePool.reach_new.
Qed.

(** The steps of the decoder alone. *)
Lemma session_decodes acts : forall s p, mainReturned s = false -> DecodePool.runActs acts (decodePool s) = Ret (tt, p) ->
  session (Decoder <$> acts) s = Ret (tt, set_decodePool p s).
Proof.
  induction acts as [|a acts IH]; intros s p Hm E.
  { injection E as <-. by destruct s. }
  apply DecodePool.runActs_cons in E as (p1 & E1 & E). rewrite fmap_cons. cbn [session].
  unfold mbind, gom_bind. unfold sessionStep at 1. rewrite Hm. unfold mbind, outcome_bind. rewrite E1.
  by rewrite (IH _ p).
Qed.

Lemma session_app es1 es2 s s1 : session es1 s = Ret (tt, s1) -> session (es1 ++ es2) s = session es2 s1.
Proof.
  revert s. induction es1 as [|e es1 IH]; intros s; cbn [app session]; [by intros [= <-]|].
  unfold mbind, gom_bind. destruct (sessionStep e s) as [[[] s2]| | |]; try done. apply IH.
Qed.

(** After the end of the input, main can return without a signal. *)
Lemma eof_returns n s : waiting_ok n s -> mainReturned s = false -> DecodePool.shutting (decodePool s) ->
  exists es s', (Interrupt ∉ es) /\ session es s = Ret (tt, s') /\ mainReturned s' = true.
Proof.
  intros Hok Hm Hsh. destruct (DecodePool.shutdown_ends (decodePool s)) as (acts & p & E & [Hret _]); [apply Hok|done|].
  pose proof (session_decodes acts s p Hm E) as Es. pose proof (wt_eof _ _ Hok Hm) as Heof.
  assert (Interrupt ∉ (Decoder <$> acts : list event)) as Hni by (by intros (? & ? & _)%list_elem_of_fmap).
  set (s1 := set_decodePool p s) in *. destruct (decoderDone s) eqn:Ed.
  - exists ((Decoder <$> acts) ++ [SelectEof]). eexists. split_and!.
    + rewrite elem_of_app. intros [?|?%list_elem_of_singleton]; done.
    + rewrite (session_app _ _ _ _ Es). cbn. unfold mbind, gom_bind, sessionStep, s1. cbn. rewrite Hm.
      unfold selectEof. cbn. by rewrite Heof.
    + done.
  - exists ((Decoder <$> acts) ++ [Announce; SelectEof]). eexists. split_and!.
    + rewrite elem_of_app. intros [?|[?|?%list_elem_of_singleton]%elem_of_cons]; done.
    + rewrite (session_app _ _ _ _ Es). cbn. unfold mbind, gom_bind, sessionStep, s1. cbn. rewrite Hm.
      unfold announce. cbn. rewrite Hret, Ed, Heof. cbn. by rewrite Hm.
    + done.
Qed.

Lemma interrupt_returns n s : waiting_ok n s -> mainReturned s = false ->
  exists s', session [Interrupt; SelectExit] s = Ret (tt, s') /\ mainReturned s' = true.
Proof.
  intros Hok Hm. pose proof (wt_exit _ _ Hok). cbn. unfold mbind, gom_bind, sessionStep, interrupt, selectExit.
  rewrite Hm. destruct (Z.ltb_spec (exitChan s) 1); cbn; rewrite ?Hm.
  - destruct (Z.ltb_spec 0 (exitChan s + 1)); [by eexists|lia].
  - destruct (Z.ltb_spec 0 (exitChan s)); [by eexists|lia].
Qed.

(** ** Properties *)

(** C33: main waits for a signal or the end of the input, and for nothing else.
    Without the interface, whatever the decoder's goroutines do, for a handler of
    packets that returns: main has
    returned only after an interrupt or after Run; the decoder's goroutine never
    blocks on its channel; while main waits, an interrupt makes it return; and
    once Run has reached the end of the input with no worker lost, every schedule
    without an interrupt has at most [5 n + 3] steps left and some schedule ends
    with main returned. *)
Theorem nogui_ends n src p es s : 0 <= n <= int_max -> DecodePool.coll_ok src -> DecodePool.NewPool n src = Ret p ->
  session es (sessionStart p) = Ret (tt, s) ->
  (mainReturned s = true -> Interrupt ∈ es \/ DecodePool.runAt (decodePool s) = DecodePool.Returned) /\
  (mainReturned s = false ->
   (DecodePool.runAt (decodePool s) = DecodePool.Returned -> decoderDone s = false -> exists s', announce s = Ret (tt, s')) /\
   (exists s', session [Interrupt; SelectExit] s = Ret (tt, s') /\ mainReturned s' = true) /\
   (DecodePool.shutting (decodePool s) ->
    (forall es' s', (Interrupt ∉ es') -> session es' s = Ret (tt, s') -> zlen es' <= 5 * n + 3) /\
    exists es' s', (Interrupt ∉ es') /\ session es' s = Ret (tt, s') /\ mainReturned s' = true)).
Proof.
  intros Hn Hs Ep E. destruct (session_ok n es _ _ (sessionStart_ok n src p Hn Hs Ep) E) as (Hok & Hsig & _).
  split.
  - intros Hm. destruct (decoderDone s) eqn:Ed; [right; by apply (wt_done _ _ Hok)|left].
    by destruct Hsig as [[?|[? _]]|?]; [by right| | |].
  - intros Hm. split_and!.
    + intros Hr Hd. unfold announce. rewrite Hr, Hd, (wt_eof _ _ Hok Hm), Hd. by eexists.
    + by apply (interrupt_returns n).
    + intros Hsh. split; [|by eapply eof_returns].
      intros es' s' Hni E'. destruct (session_ok n es' s s' Hok E') as (Hok' & _ & Hle).
      pose proof (sessionLeft_bound n s Hok). pose proof (sessionLeft_bound n s' Hok'). specialize (Hle Hsh Hni). lia.
Qed.
End waiting_facts.

(** ** A file without the interface *)

Section file_facts.
  Context `{LayersPkg} {Src : Type} `{HFile : Files.FileLaws Src}.
  Local Abbreviation waiting := (waiting (Src:=Src)).

Lemma session_file N es : forall s s' : waiting, Files.onFile N (decodePool s) -> N <= int_max ->
  session es s = Ret (tt, s') -> Files.onFile N (decodePool s').
Proof.
  induction es as [|e es IH]; intros s s' Hf HN E; cbn [session] in E; [by injection E as <-|].
  unfold mbind, gom_bind in E. destruct (sessionStep e s) as [[[] s1]| | |] eqn:E1; try done.
  apply (IH s1 s'); [|done..]. clear IH E s'. unfold sessionStep in E1. destruct (mainReturned s); [done|].
  destruct e; cbn in E1.
  - unfold mbind, outcome_bind in E1. destruct (DecodePool.act a (decodePool s)) as [[[] p]| | |] eqn:E; try done.
    injection E1 as <-. cbn. by eapply Files.onFile_step.
  - unfold announce in E1. destruct (DecodePool.runAt _), (decoderDone s); try done. destruct (eofChan s <? 1); [|done].
    by injection E1 as <-.
  - injection E1 as <-. by destruct (exitChan s <? 1).
  - unfold selectExit in E1. destruct (0 <? exitChan s); [|done]. by injection E1 as <-.
  - unfold selectEof in E1. destruct (0 <? eofChan s); [|done]. by injection E1 as <-.
Qed.

(** C32: reading a file without the interface and without replaying it (--nodelay)
    comes to an end, for a handler of packets that returns.  On a source such as the
    handle of a file, which delivers finitely many packets, every call of
    CollectPackets at least one until the end of the input, and has no timeouts and no
    other errors (so not on a replayer, which times out to keep the pace, nor on
    a live interface), in every schedule: every packet has been
    captured, or counted as dropped, or is still to be read; main, while it waits, can
    always return without an interrupt; and when it has returned without one, the
    whole file was read, and the packets captured are those given to the handler. *)
Theorem nogui_reads_file n src p es s : 0 < n <= int_max -> DecodePool.coll_ok src ->
  Z.of_nat (Files.packetsLeft src) <= int_max -> DecodePool.NewPool n src = Ret p ->
  session es (sessionStart p) = Ret (tt, s) ->
  let d := decodePool s in
  DecodePool.PacketsCaptured d + DecodePool.PacketsDropped d + Z.of_nat (Files.packetsLeft (DecodePool.psrc d)) =
    Z.of_nat (Files.packetsLeft src) /\
  (mainReturned s = false -> exists es' s', (Interrupt ∉ es') /\ session es' s = Ret (tt, s') /\ mainReturned s' = true) /\
  (mainReturned s = true -> (Interrupt ∉ es) -> Files.packetsLeft (DecodePool.psrc d) = 0%nat /\
     DecodePool.PacketsCaptured d =
       sumZ (fun w => sumZ zlen (handlerCalls (DecodePool.wdec w))) (DecodePool.workers d)).
Proof.
  intros Hn Hs HN Ep E d. pose proof (sessionStart_ok n src p ltac:(lia) Hs Ep) as Hok0.
  destruct (session_ok n es _ _ Hok0 E) as (Hok & Hsig & _).
  assert (Files.onFile (Z.of_nat (Files.packetsLeft src)) (decodePool (sessionStart p))) as Hf0
    by (apply (Files.onFile_new n src p); [lia|done..]).
  pose proof (session_file _ es _ _ Hf0 HN E) as Hf. fold d in Hf.
  split; [apply Hf|]. split.
  - intros Hm. destruct (Files.file_shuts _ (Datatypes.S (Files.packetsLeft (DecodePool.psrc d))) d Hf HN) as (acts & p1 & E1 & Hsh);
      [unfold d; rewrite (proj2 (wt_pool _ _ Hok)); lia|lia|].
    pose proof (session_decodes acts s p1 Hm E1) as Es. set (s1 := set_decodePool p1 s) in *.
    assert (waiting_ok n s1) as Hok1 by (by eapply session_ok).
    destruct (eof_returns n s1 Hok1 Hm Hsh) as (es2 & s2 & Hni & E2 & Hm2).
    exists ((Decoder <$> acts) ++ es2), s2. split_and!; [|by rewrite (session_app _ _ _ _ Es)|done].
    rewrite elem_of_app. intros [(? & ? & _)%list_elem_of_fmap|?]; done.
  - intros Hm Hni. apply (Files.file_done _ d Hf HN). destruct (decoderDone s) eqn:Ed; [by apply (wt_done _ _ Hok)|].
    destruct Hsig as [[?|[? _]]|?]; [by right|done..].
Qed.
End file_facts.

Section interface_facts.
  Context {H : Type} {HHot : HotList H keyInfo} {HRe : RegexpPkg} {HSort : SortPkg}.
  Context {HTerm : TermboxPkg} {HTLaws : TermboxLaws}.
  Context (errorText : error -> bytes) (formatTime : Z -> bytes).
  Local Abbreviation runInterface := (runInterface formatTime).

(** An interval that is not positive: runTermbox never returns. *)
Lemma interval_hangs (f : flags) (an : @Analysis.Pool H HRe) zero t r : updateInterval f <= 0 ->
  exists s, runInterface f an zero t None r = Ret (tt, s) /\
     phaseAt s = Interrupting None /\ feederAt s = NotStarted.
Proof.
  intros Hneg. unfold runInterface, runTermbox, eventLoop, deferring, NewTicker, mbind, gom_bind, gets, mret, gom_ret.
  cbn [ui New Presentation.interval]. rewrite (proj2 (Z.ltb_ge _ _) Hneg). by eexists.
Qed.

(** C37: whether the interface starts depends on the interval.  When the terminal
    cannot be initialised, Run returns that error.  Otherwise, with a well formed
    analysis pool, Run goes through its first update when the interval in
    nanoseconds, computed in 64 bits, is positive.  When it is not, the loop panics,
    but the process does not end: the deferred function interrupts a goroutine that
    was never started, and waits for ever.  From 1 to 9223372036 seconds the interval
    is positive, at zero and for negative numbers down to -9223372036 it is not, and
    at 9223372037 it wraps around. *)
Theorem interval_decides (f : flags) (an : @Analysis.Pool H HRe) zero t r :
  Forall Analysis.worker_ok (Analysis.workers an) -> 0 <= Analysis.reportSize an ->
  0 <= Analysis.reportSize an * zlen (Analysis.workers an) <= int_max ->
  Forall2 iterates (rOrders r) (Analysis.workers an) ->
  (forall e, exists s, runInterface f an zero t (Some e) r = Ret (tt, s) /\ phaseAt s = RunReturned (Some (Some e))) /\
  (0 < updateInterval f -> exists s, runInterface f an zero t None r = Ret (tt, s) /\ feederAt s = Polling /\
     (phaseAt s = LoopSelects \/ exists e, phaseAt s = Interrupting (Some (Some e)))) /\
  (updateInterval f <= 0 -> exists s, runInterface f an zero t None r = Ret (tt, s) /\
     forall acts s', termRun errorText formatTime acts s = Ret (tt, s') -> phaseAt s' = Interrupting None) /\
  (1 <= interval f <= 9223372036 -> 0 < updateInterval f) /\
  (-9223372036 <= interval f <= 0 -> updateInterval f <= 0) /\
  (interval f = 9223372037 -> updateInterval f <= 0).
Proof.
  intros Hok Hk Hkn Ho.
  assert (-9223372036 <= interval f <= 9223372036 -> updateInterval f = interval f * 1000000000) as Hid
    by (intros; apply wrap64_id; unfold in_int, int_min, int_max; lia).
  split_and!.
  - intros e. by eexists.
  - intros Hpos. unfold runInterface, runTermbox, eventLoop, deferring, NewTicker, mbind, gom_bind, gets, mret, gom_ret.
    cbn [ui New Presentation.interval]. rewrite (proj2 (Z.ltb_lt _ _) Hpos). cbn.
    destruct (update_returns formatTime r (New an (updateInterval f) (cumulative f) zero t)) as (e & u & E & _); [done|done|].
    rewrite E. destruct e as [e|]; eexists; (split; [done|]); cbn; (split; [done|]); [right; by exists e|by left].
  - intros Hneg. destruct (interval_hangs f an zero t r Hneg) as (s & E & Hp & Hf). exists s. split; [done|].
    intros acts s'. apply termRun_hangs; [done|by rewrite Hf].
  - intros Hr. rewrite Hid by lia. lia.
  - intros Hr. rewrite Hid by lia. lia.
  - unfold updateInterval. intros ->. by vm_compute.
Qed.
End interface_facts.

(** ** The whole program *)

Section program_facts.
  Context {W : Type} {HPcap : PcapPkg W} `{LayersPkg} {HAsm : Assembly.TcpAssembly}.
  Context {HL : Type} {HHot : HotList HL keyInfo} {HRe : RegexpPkg} {HSort : SortPkg} {HTerm : TermboxPkg}.
  Context {HTLaws : TermboxLaws} (errorText : error -> bytes) (formatTime : Z -> bytes).
  Context (choice : nat -> nat -> option nat) (clk : nat -> Z) (remaining : W -> nat).
  Context (fails : trace -> effect -> option error) (known : bytes -> bool).
  Local Abbreviation memsniff := (memsniff errorText formatTime choice clk remaining fails known (HL := HL)).

Lemma waitFor_returns {Src : Type} {HSrc : PacketSource Src} es (p : DecodePool.Pool (Src:=Src)) :
  waitFor es p = Ret tt -> exists s, session es (sessionStart p) = Ret (tt, s) /\ mainReturned s = true.
Proof.
  unfold waitFor, mbind, outcome_bind. destruct (session es (sessionStart p)) as [[[] s]| | |]; try done.
  intros E. exists s. split; [done|]. by destruct (mainReturned s).
Qed.

(** The program is started with an interval that is not positive, and all else goes
    well: it never ends, whatever happens. *)
Theorem program_hangs (f : flags) (hp : happenings) (w : W) an d pool w' t :
  displayVersion f = false -> noGui f = false -> updateInterval f <= 0 -> termInit hp = None ->
  startProfiling fails (profiles f) [] = (Some tt, t) -> mainStart choice clk f w = Ret (Ready an d pool, w') ->
  memsniff f hp w = Blocked.
Proof.
  intros Hv Hg Hi Ht Es Em. unfold Session.memsniff, main. rewrite Hv, Es, Em. unfold mainBody, guiBody. rewrite Hg, Ht.
  destruct (interval_hangs formatTime f an (zeroTime hp) (screen hp) (firstUpdate hp) Hi) as (s & E & Hp & Hf).
  unfold mbind, outcome_bind. rewrite E.
  pose proof (termRun_waits errorText formatTime (termActions hp) None s Hp ltac:(by rewrite Hf)) as Hw.
  destruct (termRun errorText formatTime (termActions hp) s) as [[u s']| | |]; [by rewrite Hw|done..].
Qed.

Lemma mainStart_version f (w w' : W) : mainStart (HL := HL) choice clk f w = Ret (PrintedVersion, w') -> displayVersion f = true.
Proof.
  unfold mainStart. destruct (displayVersion f); [done|]. unfold liftW, mbind, gom_bind, outcome_bind.
  destruct (Analysis.New _ _) as [an| | |]; try done. destruct (SetFilterPattern _ _) as [[[e|] an1]| | |]; try done.
  destruct (Replay.New _ _ _ _ _ _) as [[[[src|] [e|]] w1]| | |]; try done.
  destruct (packetHandler _ _); try done. by destruct (newDecoders _ _ _ _) as [[]| | |].
Qed.

(** The schedule, and the wait of main at its end, on whichever source was opened. *)
Definition waited (es : list event) (d : decoders (W:=W)) : Prop :=
  match d with
  | FromHandle h p => exists s, @session _ _ _ (source_PacketSource h remaining) es (sessionStart p) = Ret (tt, s) /\
      mainReturned s = true
  | FromReplayer h p => exists s,
      @session _ _ _ (@replayer_PacketSource W (source_PacketSource h remaining)) es (sessionStart p) = Ret (tt, s) /\
      mainReturned s = true
  end.

(** A run of the program without the interface returns from main only when the
    components were ready and the wait of main ended. *)
Theorem program_returns (f : flags) (hp : happenings) (w : W) t : displayVersion f = false -> noGui f = true ->
  memsniff f hp w = Ret (MainReturned, t) ->
  exists an d pool w', mainStart choice clk f w = Ret (Ready an d pool, w') /\ waited (sessionEvents hp) d.
Proof.
  intros Hv Hg. unfold Session.memsniff, main, deferredDump. rewrite Hv.
  destruct (startProfiling fails (profiles f) []) as [[[]|] t1]; [|done].
  destruct (mainStart choice clk f w) as [[[|code err|an d pool] w']| | |] eqn:Em; try done.
  - apply mainStart_version in Em. congruence.
  - unfold mainBody. rewrite Hg. destruct (noguiBody remaining (sessionEvents hp) d) as [[]| | |] eqn:En; try done.
    + intros _. exists an, d, pool, w'. split; [done|]. destruct d; by apply waitFor_returns in En.
    + by destruct (dumpProfiles _ _ _ _) as [[]].
  - by destruct (dumpProfiles _ _ _ _) as [[]].
Qed.

End program_facts.
