(* ===== verification/Witnesses.v ===== *)
(** * Concrete inputs

    For each property with hypotheses, the property applied to concrete data
    at which its hypotheses hold, with the packages the program takes from
    elsewhere instantiated by concrete functions. *)
From Stdlib Require Import Strings.Byte.
From S2P Require Import Prelude GoLib Buffer Stream History Reader Model McText Progress Transaction Deliveries Conversation.
From S2P Require Import Hotlist Analysis PacketBuffer Capture Replay.
Local Open Scope Z_scope.

(** ** Concrete packages *)

(** A regexp that matches the keys with a given prefix. *)
Fixpoint hasPrefix (p s : bytes) : bool :=
  match p, s with
  | [], _ => true
  | x :: p', y :: s' => bool_decide (x = y) && hasPrefix p' s'
  | _ :: _, [] => false
  end.

#[local] Instance prefixRegexp : RegexpPkg := {|
  regexp := bytes;
  Compile p := if bool_decide (head p = Some "["%byte) then inr (ErrOther 1) else inl p;
  MatchString := hasPrefix
|}.

(** libpcap reading a script of packets, then reporting EOF. *)
#[local] Instance scriptPcap : PcapPkg (list PacketData) := {|
  Handle := unit;
  InactiveHandle := unit;
  NewInactiveHandle _ := mret (Some tt, None);
  CleanUp _ := mret tt;
  SetSnapLen _ _ := mret None;
  SetPromisc _ _ := mret None;
  SetTimeout _ _ := mret None;
  SetBufferSize _ _ := mret None;
  Activate _ := mret (Some tt, None);
  OpenOffline _ := mret (Some tt, None);
  SetBPFFilter _ _ := mret None;
  ZeroCopyReadPacketData _ := fun w =>
    match w with
    | pd :: w' => if bool_decide (zlen (Data pd) <= snapLen /\ 0 < ciTimestamp (Info pd))
                  then Ret ((Data pd, Info pd, None), w')
                  else Ret (([], zeroCaptureInfo, Some (ErrOther 2)), w')
    | [] => Ret (([], zeroCaptureInfo, Some EOF), [])
    end;
  HandleStats _ := mret (mkPcapStats 0 0 0, None)
|}.

Lemma script_handle_ok h : handle_ok h.
Proof.
  intros [|pd w].
  - exists [], zeroCaptureInfo, (Some EOF), []. done.
  - simpl. case_bool_decide as Hok; eexists _, _, _, _; split; [done| |done|done].
  unfold snapLen, capMax in *. lia.
Qed.

(** ** Protocol *)

Definition item1 : Transaction.item := mkItem (bs "foo") (bs "0") (bs "hello") None.
Definition item2 : Transaction.item := mkItem (bs "bar") (bs "32") (bs "END") (Some (bs "17")).

(** A gets of two keys, its two directions cut in the middle of words, lines and
    values; a set, cut between the carriage return and the line feed and in its
    data block; and an unknown command. *)
Definition tx1 : transaction :=
  let q := Retrieve true [bs "foo"; bs "bar"] [item1; item2] in
  let r := answer q in
  mkTx q [bs "ge"; bs "ts foo b"; bs "ar" ++ crlf]
    [take 3 r; take 18 (drop 3 r); take 9 (drop 21 r); drop 30 r].

Definition tx2 : transaction :=
  let q := Store (bs "set") (bs "foo") (bs "0") (bs "60") [] (bs "get x") (bs "STORED" ++ crlf) in
  let r := request q in
  mkTx q [take 14 r; take 1 (drop 14 r); take 3 (drop 15 r); drop 18 r] [bs "STO"; bs "RED" ++ crlf].

Definition tx3 : transaction :=
  mkTx (Other (bs "version") (bs "VERSION 1.4" ++ crlf)) [bs "version" ++ crlf] [bs "VERSION 1.4" ++ crlf].

Lemma tx1_ok : tx_ok tx1.
Proof.
  split; [|by split; repeat constructor..]. split; [repeat constructor; done|]. split; [done|]. split.
  - repeat constructor; try done; intros c; try done. intros [= <-]. repeat constructor; done.
  - split; [repeat constructor; done|done].
Qed.

Lemma tx2_ok : tx_ok tx2.
Proof.
  split; [|by split; repeat constructor..]. split; [repeat constructor; done|].
  split_and!; [done..|]. exists (bs "STORED" ++ [CR]), []. split_and!; [done| |done].
  apply (bool_decide_unpack (LF ∉ bs "STORED" ++ [CR])). exact I.
Qed.

Lemma tx3_ok : tx_ok tx3.
Proof.
  split; [|by split; repeat constructor..]. split; [repeat constructor; done|].
  split_and!; [done..|]. exists (bs "VERSION 1.4" ++ [CR]), []. split_and!; [done| |done].
  apply (bool_decide_unpack (LF ∉ bs "VERSION 1.4" ++ [CR])). exact I.
Qed.

(** How the commands arrive: first the two SYNs; two segments of the first command
    in one call; a retransmission before its third; a FIN at the end. *)
Definition commands1 : list transaction := [tx1; tx2; tx3; tx1].

Definition deliveries1 : list input :=
  [ClientData (segment []); ServerData (segment []); ClientData (segment (bs "ge") ++ segment (bs "ts foo b"));
   ClientData (segment [])] ++ drop 2 (concat (tx_inputs <$> commands1)) ++ [ClientData (segment [])].

Lemma deliveries1_delivered : delivered (concat (tx_inputs <$> commands1)) deliveries1.
Proof.
  assert (noData (segment [])) as He by (by constructor).
  exists ([ClientData (segment []); ServerData (segment []); ClientData (segment (bs "ge"));
    ClientData (segment (bs "ts foo b")); ClientData (segment [])] ++
    drop 2 (concat (tx_inputs <$> commands1)) ++ [ClientData (segment [])]). split.
  - apply (noisy_empty false), (noisy_empty true); [done..|].
    assert (concat (tx_inputs <$> commands1) = ClientData (segment (bs "ge")) :: ClientData (segment (bs "ts foo b")) ::
      drop 2 (concat (tx_inputs <$> commands1))) as E by reflexivity.
    rewrite E at 1. do 2 apply noisy_keep. apply (noisy_empty false); [done|]. rewrite <- (app_nil_r (drop 2 _)) at 1.
    apply noisy_app_2; [apply noisy_refl|]. apply (noisy_empty false); [done|constructor].
  - do 2 apply joined_keep. apply (joined_two false). apply joined_refl.
Qed.

Lemma get_conversation_witness :
  exists c c', NewConsumer None None [] = Ret c /\
    conversation deliveries1 c = Ret (tt, c') /\
    events c' = concat (tx_events <$> commands1).
Proof.
  apply (get_conversation commands1 deliveries1 None None []).
  - repeat (constructor; [apply tx1_ok || apply tx2_ok || apply tx3_ok|]). constructor.
  - apply deliveries1_delivered.
  - constructor.
Defined.

Lemma conversation_total_witness :
  exists c c', NewConsumer (Some 0%nat) None [SrcReader Reader.New] = Ret c /\
    conversation [ClientData [mkReassembly (bs "get a") (-1)]; ServerDone; ClientData [mkReassembly (bs " x") 5]] c
      = Ret (tt, c') /\
    is_Some (State c') /\ zlen (eventBuf c') < eventCap /\ Forall source_fresh (bufferPool c').
Proof.
  apply (conversation_total
    [ClientData [mkReassembly (bs "get a") (-1)]; ServerDone; ClientData [mkReassembly (bs " x") 5]]
    (Some 0%nat) None [SrcReader Reader.New]).
  - by repeat constructor.
  - by repeat constructor.
Defined.

Lemma binary_ignored_witness :
  exists c c', NewConsumer None None [] = Ret c /\
    conversation (ClientData (segment (Byte.x80 :: bs "xyz")) ::
      [ServerData (segment (bs "VALUE a 0 1")); ClientDone]) c = Ret (tt, c') /\ events c' = [].
Proof.
  apply (binary_ignored (bs "xyz") [ServerData (segment (bs "VALUE a 0 1")); ClientDone] None None []).
  - constructor.
  - done.
Defined.

(** *** Where the parser and a server disagree

    A get is answered with one hit; how much of it is heard depends on what came
    before. *)
Definition heard (ins : list input) : option (list Event) :=
  match (c ← NewConsumer None None []; conversation ins c) with Ret (_, c) => Some (events c) | _ => None end.

Definition says (s : string) : input := ClientData (segment (bs s ++ crlf)).
Definition replies (ls : list string) : input := ServerData (segment (concat ((fun l => bs l ++ crlf) <$> ls))).
Definition hit_a : list input := [says "get a"; replies ["VALUE a 0 1"; "x"; "END"]].
Definition heard_a : list Event := [mkEvent EventGetHit (bs "a") 1].

Example get_heard : heard hit_a = Some heard_a.
Proof. reflexivity. Qed.

(** The argument of an unknown command is taken for the next command, and the
    answer of the get for its reply. *)
Example delete_hides_hit : heard ([says "delete foo"; replies ["NOT_FOUND"]] ++ hit_a) = Some [].
Proof. reflexivity. Qed.

(** A storage command that is not answered takes the answer of the next one. *)
Example noreply_hides_hit : heard ([says "set b 0 0 1 noreply"; says "y"] ++ hit_a) = Some [].
Proof. reflexivity. Qed.

(** The size of a value is whatever number the line has. *)
Example negative_size : heard [says "get a"; replies ["VALUE a 0 -5"; "END"]] = Some [mkEvent EventGetHit (bs "a") (-5)].
Proof. reflexivity. Qed.

(** A reader that holds a text. *)
Definition reader_of (d : bytes) : Source :=
  SrcReader (set_rbuf (mkBuffer d (zlen d) BufferSize [mkBlock 0 (zlen d)] 0) Reader.New).

Lemma reader_of_holds d : 0 < zlen d <= BufferSize -> holds (reader_of d) d 0.
Proof.
  intros Hd. eexists. split; [reflexivity|]. split_and!; try done.
  - split; [split|..]; simpl; try done; repeat constructor; unfold blockSize, in_int, int_min, int_max, big, BufferSize in *; simpl;
      try done; lia.
  - unfold abs, bufHolds. simpl. f_equal. unfold cellsOf. simpl. unfold zlen. rewrite app_nil_r, Nat2Z.id.
    by rewrite take_ge.
Qed.

(** A consumer that waits for an answer, with a malformed one buffered, and the next
    command. *)
Definition malformed : bytes := bs "VALUE foo 0 x" ++ [Transaction.CR].

Definition confused : Consumer Source StateFn Proto :=
  mkConsumer (reader_of (bs "get b")) (reader_of (malformed ++ LF :: bs "END"))
    RunProtocol (Some HandleGet) [] (mkProto (bs "get") [bs "foo"]) [] [].

Lemma desync_resyncs_witness : exists c', McText.run confused = Ret (tt, c') /\ resynced (events confused) c'.
Proof.
  apply (desync_resyncs confused).
  apply (desynced_value confused (bs "get b") 0 malformed (bs "END") 0 (bs "foo") (bs "0") (bs "x") []); try done.
  - apply reader_of_holds. by split.
  - apply reader_of_holds. by split.
  - by apply (bool_decide_unpack (LF ∉ malformed)).
Defined.

(** A first word that is not a command. *)
Example resync_command : desynced
  (mkConsumer (reader_of (bs "12 rest")) (reader_of (bs "VALUE")) RunProtocol (Some ReadCommand) [] (mkProto [] []) [] []).
Proof.
  apply (desynced_command _ (bs "12") " "%byte (bs "rest") (bs "VALUE") 0); try done.
  - apply (reader_of_holds (bs "12 rest")). by split.
  - apply reader_of_holds. by split.
  - by apply (bool_decide_unpack (Forall (fun b => b ∉ delims) (bs "12"))).
  - by apply (bool_decide_unpack (" "%byte ∈ delims)).
Qed.

(** ** Buffer and Reader *)

Definition calls1 : list call :=
  [CallWrite (-1) (bs "ab"); CallDiscard (-5); CallWrite 3 (bs "cd"); CallReadN 4; CallDiscard int_max;
   CallReadLine; CallReset].

Lemma buffer_never_panics_witness :
  exists rs b', doCalls calls1 (NewBuffer 16) = Ret (rs, b') /\ safe b' /\ bcap b' = 16 /\
    length rs = length calls1.
Proof. apply (buffer_never_panics 16 calls1); [done|]. by repeat constructor. Defined.

(** A gap, a read across it, a discard beyond the end and an overfull write. *)
Definition calls2 : list call :=
  [CallWrite 0 (bs "ab"); CallWrite 2 (bs "cd"); CallReadN 3; CallPeekN 1; CallDiscard 5;
   CallWrite 1 (bs "efgh"); CallReadLine; CallIndexAny (bs "g"); CallLen; CallWrite 0 (bs "0123456789")].

Lemma buffer_refines_stream_witness :
  exists rs b', doCalls calls2 (NewBuffer 8) = Ret (rs, b') /\
    s_calls 8 (mkStream [] 0) calls2 rs (abs b') /\
    stored (cells (abs b')) = buf b' /\ zlen (cells (abs b')) = Len b'.
Proof. apply (buffer_refines_stream 8 calls2); [done| |done]. by repeat constructor. Defined.

Lemma new_buffer_wf cap : 0 <= cap <= big -> wf (NewBuffer cap).
Proof. intros ?. split; [by apply NewBuffer_safe|by repeat constructor..]. Qed.

Definition deliveries : list Reassembly := [mkReassembly (bs "get a") (-1); mkReassembly (bs "bc") 7].

Lemma Reassembled_writes_witness :
  exists r' don rest, Reader.Reassembled deliveries Reader.New = Ret (tt, r') /\ deliveries = don ++ rest /\
    wf (rbuf r') /\ abs (rbuf r') = writeAll don (abs (rbuf Reader.New)) /\
    match rest with
    | [] => rerr r' = None
    | x :: _ => rerr r' = Some ErrShortWrite /\
        bcap (rbuf Reader.New) < zlen (stored (cells (s_write (rSkip x) (rBytes x) (abs (rbuf r')))))
    end.
Proof.
  apply (Reassembled_writes deliveries Reader.New); [by apply new_buffer_wf|done|done| |done].
  by repeat constructor.
Defined.

Definition failed : Reader := set_rerr (Some ErrShortWrite) Reader.New.

Lemma Reader_error_sticky_witness :
  Reader.Reassembled deliveries failed = Ret (tt, failed) /\
  Reader.Discard 3 failed = Ret ((0, Some ErrShortWrite), failed) /\
  Reader.ReadN 3 failed = Ret (([], Some ErrShortWrite), failed) /\
  Reader.PeekN 3 failed = Ret (([], Some ErrShortWrite), failed) /\
  Reader.ReadLine failed = Ret (([], Some ErrShortWrite), failed) /\
  Reader.IndexAny (bs " ") failed = Ret ((-1, Some ErrShortWrite), failed) /\
  Reader.Reset failed = Ret (tt, mkReader (NewBuffer (bcap (rbuf failed))) false false None).
Proof. by apply (Reader_error_sticky failed ErrShortWrite deliveries 3 (bs " ")). Defined.

(** ** Consumer *)

Definition newConsumer : Consumer Source StateFn Proto :=
  mkConsumer (SrcReader Reader.New) (SrcReader Reader.New) RunProtocol (Some PeekMagicByte) []
    (mkProto [] []) [] [].

Definition hit (k : bytes) (n : Z) : Event := mkEvent EventGetHit k n.

Lemma AddEvent_batches_witness :
  let es := replicate 19 (hit (bs "k") 1) in
  exists c', addEvents es newConsumer = Ret (tt, c') /\ concat (handled c') ++ eventBuf c' = es /\
    Forall (fun b => zlen b = eventCap) (handled c') /\ zlen (eventBuf c') < eventCap.
Proof. by apply (AddEvent_batches (replicate 19 (hit (bs "k") 1)) newConsumer). Defined.

Lemma Close_releases_witness :
  exists c', Model.Close newConsumer = Ret (tt, c') /\ ClientReader c' = eofSource /\
    ServerReader c' = eofSource /\ Run c' = RunNothing /\ events c' = events newConsumer /\
    bufferPool c' = bufferPool newConsumer ++ released (ClientReader newConsumer) ++
      released (ServerReader newConsumer) /\
    Model.Close c' = Ret (tt, c').
Proof.
  apply (Close_releases newConsumer); apply New_reader_inv.
Defined.

(** ** Hot list and analysis *)

Definition k1 : keyInfo := mkKeyInfo (bs "a") 10.
Definition k2 : keyInfo := mkKeyInfo (bs "b") 3.
Definition counts1 : gmap keyInfo Z := {[ k1 := 2; k2 := 9 ]}.

#[local] Existing Instance mergeSortPkg.

Lemma Top_correct_witness :
  (2 < 0 -> Top (map_to_list counts1) 2 counts1 = Panic) /\
  (0 <= 2 -> exists l, Top (map_to_list counts1) 2 counts1 = Ret l /\ topOf counts1 2 l).
Proof. by apply (Top_correct (map_to_list counts1) 2 counts1). Defined.

(** Another order, and a sort that treats ties differently. *)
Definition revSortPkg : SortPkg := {|
  sort_Sort A less l := merge_sort (notAfter less) (rev l);
  sort_Sort_perm A less l :=
    transitivity (merge_sort_Permutation (notAfter less) (rev l)) (Permutation_sym (Permutation_rev l));
  sort_Sort_sorted A less l := notAfter_sorted less (rev l)
|}.

#[local] Instance perfectK : HotList (gmap keyInfo Z) keyInfo := perfect_HotList.

(** Two batches, one worker receiving in between. *)
Definition acts1 : list action :=
  [Analysis.Handle [hit (bs "a") 10; hit (bs "b") 3; hit (bs "xa") 1]; Work 0; Work 1; Analysis.Handle [hit (bs "a") 10]; Work 0; Work 1; Work 1].

Definition filterA : option (@regexp prefixRegexp) := @Some bytes (bs "a").

Lemma report_exact_witness :
  exists p0 p, Analysis.New 2 100 = Ret p0 /\
    Analysis.run acts1 (set_filter filterA p0) = Ret (tt, p) /\
    forall orders, EventsDropped p = 0 -> Forall (fun w => kisChan w = []) (workers p) ->
      Forall2 iterates orders (workers p) ->
      let l := kiOf <$> filterEvents (offered acts1) filterA in
      Z.of_nat (length (remove_dups l)) <= 100 ->
      exists rep, Report 7 orders false p = Ret (rep, p) /\
        Keys rep ≡ₚ lineOf l <$> remove_dups l /\
        StronglySorted (fun a b => TrafficEstimate b <= TrafficEstimate a) (Keys rep).
Proof.
  apply (report_exact
    2 100 filterA acts1 7); try done. by repeat constructor.
Defined.

Lemma events_accounted_witness :
  exists p0 p, Analysis.New 2 100 = Ret p0 /\
    Analysis.run acts1 (set_filter None p0) = Ret (tt, p) /\
    EventsHandled p + EventsDropped p = zlen (filterEvents (offered acts1) None) /\
    Forall (fun w => zlen (kisChan w) <= kisCap) (workers p).
Proof.
  apply (events_accounted 2 100 None acts1); try done.
  by repeat constructor.
Defined.

Definition pool1 : Pool :=
  mkPool 3 (replicate 4 (newWorker)) None 0 0.

Lemma partitionEvents_shards_witness :
  let evts := [hit (bs "a") 1; hit (bs "b") 2; hit (bs "a") 3] in
  exists per, partitionEvents evts pool1 = Ret per /\ length per = length (workers pool1) /\
    forall i, (i < length (workers pool1))%nat ->
      per !! i = Some (shard (zlen (workers pool1)) (Z.of_nat i) evts).
Proof. by apply (partitionEvents_shards [hit (bs "a") 1; hit (bs "b") 2; hit (bs "a") 3] pool1). Defined.

Lemma pool1_ok : pool_ok pool1.
Proof. split; [|done..]. by repeat constructor. Qed.

Lemma SetFilterPattern_spec_witness :
  SetFilterPattern (bs "[") pool1 = Ret (Some (ErrOther 1), pool1).
Proof.
  assert (pool_ok pool1) as Hok by apply pool1_ok.
  pose proof (SetFilterPattern_spec (bs "[") pool1 Hok) as E. exact E.
Defined.

Lemma Report_resets_witness :
  exists rep p', Report 7 (replicate 4 []) true pool1 = Ret (rep, p') /\
    zlen (Keys rep) = sumZ (fun w => Z.min (reportSize pool1) (Z.of_nat (size (hl_counts (hl w))))) (workers pool1) /\
    Forall (fun w => hl_counts (hl w) = ∅) (workers p') /\
    kisChan <$> workers p' = kisChan <$> workers pool1.
Proof.
  apply (Report_resets 7 (replicate 4 []) pool1); [apply pool1_ok| |done|done].
  by repeat constructor.
Defined.

(** ** Capture *)

Definition packet (t : Z) (d : bytes) : PacketData := mkPacketData (mkCaptureInfo t (zlen d) (zlen d) 0) d.

Definition packets1 : list PacketData := [packet 5 (bs "abc"); packet 6 []; packet 7 (bs "defgh"); packet 8 (bs "i")].

Lemma PacketBuffer_roundtrip_witness :
  exists pb0 pb err accepted rest,
    NewPacketBuffer 10 7 = Ret pb0 /\ appendAll packets1 pb0 = Ret (err, pb) /\
    packets1 = accepted ++ rest /\ PacketLen pb = zlen accepted /\
    BytesRemaining (blk pb) = 7 - zlen (concat (Data <$> accepted)) /\
    (forall i pd, accepted !! i = Some pd -> Packet (Z.of_nat i) pb = Ret pd) /\
    match rest with
    | [] => err = None
    | pd :: _ =>
        (err = Some ErrBlocksFull /\ zlen accepted = 10) \/
        (err = Some ErrBytesFull /\ zlen accepted < 10 /\
           7 < zlen (concat (Data <$> accepted)) + zlen (Data pd))
    end.
Proof. apply (PacketBuffer_roundtrip 10 7 packets1); [done|done|]. by repeat constructor. Defined.

(** A packet buffer as decode allocates it. *)
Definition pbuf : PacketBuffer :=
  mkPacketBuffer (mkBlockBuffer [] 3 [] 200000) (replicate 3 zeroCaptureInfo).

Lemma pbuf_holds : holdsPackets pbuf [].
Proof. split; try done; unfold capMax; simpl; lia. Qed.

Definition script : option (@Handle _ scriptPcap) := @Some unit tt.

Lemma source_CollectPackets_spec_witness :
  exists err pb' pds w1 w',
    source_CollectPackets script pbuf packets1 = Ret ((err, pb'), w') /\
    reads script packets1 pds w1 /\ holdsPackets pb' pds /\
    stops script pb' pds w1 err w' /\ PacketCap pb' = PacketCap pbuf /\
    (err = None -> snapLen <= dataCap (blk pbuf) -> pds <> []).
Proof.
  apply (source_CollectPackets_spec script packets1 pbuf []).
  - apply script_handle_ok.
  - apply pbuf_holds.
  - done.
Defined.

Lemma portFilter_roundtrip_witness :
  match portFilter [11211; 80; 0] with
  | (_, Some e) => [11211; 80; 0] = [] /\ e = ErrNoPort
  | (expr, None) => parseTerms (Split expr SPb) = Some [11211; 80; 0]
  end.
Proof. apply (portFilter_roundtrip [11211; 80; 0]). repeat constructor; done. Defined.

(** The script as a source, and a replayer over it with two packets at hand. *)
#[local] Instance scriptSource : PacketSource (list PacketData) := source_PacketSource script length.

Lemma script_times w buf ci w' : ZeroCopyReadPacketData script w = Ret ((buf, ci, None), w') ->
  0 < ciTimestamp ci /\ (length w' < length w)%nat.
Proof.
  destruct w as [|pd w]; simpl; [done|]. case_bool_decide as Hok; intros E; simplify_eq. split; [apply Hok|lia].
Qed.

Lemma script_ends w buf ci err w' : ZeroCopyReadPacketData script w = Ret ((buf, ci, err), w') ->
  (length w' <= length w)%nat.
Proof.
  destruct w as [|pd w]; simpl; [intros E; by simplify_eq|]. case_bool_decide; intros E; simplify_eq; lia.
Qed.

#[local] Instance scriptLaws : PacketSourceLaws (list PacketData) :=
  source_laws script length (script_handle_ok script) script_times script_ends.

Definition replayPackets : list PacketData := [packet 1000 (bs "x"); packet 90001000 (bs "y")].

Definition replay1 : replayer (list PacketData) :=
  mkReplayer 50 1000
    (mkPacketBuffer (mkBlockBuffer [1; 2] 3 (bs "xy") 200000)
      [mkCaptureInfo 1000 1 1 0; mkCaptureInfo 90001000 1 1 0; zeroCaptureInfo])
    0 0 0 [packet 90002000 (bs "z")] (fun n => 60 + Z.of_nat n) 0.

Lemma replay1_ok : replay_ok replay1 replayPackets.
Proof.
  split; try done; try (split; done).
  repeat constructor.
Qed.

Lemma replayer_CollectPackets_spec_witness :
  exists err pb' r' ps', replayer_CollectPackets pbuf replay1 = Ret ((err, pb'), r') /\ replay_ok r' ps' /\
    ((exists e, err = Some e /\ pb' = Clear pbuf /\ received r' = received replay1 /\
        sourceFailed (elapsedAt replay1) replay1 replayPackets e r') \/
     exists fetched gone out k,
       (paced replay1 replayPackets -> paced r' ps') /\
       Forall (fun pd => ts pd <= first r' + elapsedAt replay1 - ms 5) gone /\
       fetches (src replay1) fetched (src r') /\ holdsPackets pb' out /\
       Replay.pending replay1 replayPackets ++ fetched = gone ++ out ++ Replay.pending r' ps' /\
       Forall (fun pd => ts pd <= first r' + (elapsedAt replay1 +! replayerTimeout)) out /\
       dropped r' = wrap64 (dropped replay1 + zlen gone) /\
       received r' = wrap64 (received replay1 + zlen out + k) /\
       stopped pb' out (Replay.pending r' ps') (first r' + (elapsedAt replay1 +! replayerTimeout)) err k).
Proof.
  apply (replayer_CollectPackets_spec replay1 replayPackets pbuf []).
  - apply replay1_ok.
  - apply pbuf_holds.
  - done.
Defined.

Lemma replayer_DiscardPacket_spec_witness :
  exists pd rest, Replay.pending replay1 replayPackets = pd :: rest /\
    let elapsed := timeSub (clock replay1 (tick replay1)) (start replay1) in
    let r1 := set_tick (1 + tick replay1)%nat replay1 in
    if elapsed +! replayerTimeout <? timeSub (ts pd) (first replay1)
    then replayer_DiscardPacket replay1 = Ret (Some NextErrorTimeoutExpired, r1)
    else exists r', replayer_DiscardPacket replay1 = Ret (None, r') /\ replay_ok r' replayPackets /\
           Replay.pending r' replayPackets = rest /\ received r' = received replay1 +! 1 /\
           dropped r' = dropped replay1.
Proof.
  apply (replayer_DiscardPacket_spec replay1 replayPackets).
  - apply replay1_ok.
  - done.
Defined.

