(* ===== verification/PipelineWitnesses.v ===== *)
(** * Concrete inputs for decoding and reassembly

    The properties of Decode, DecodePool, Assembly and Pipeline applied to
    concrete data, with gopacket and tcpassembly instantiated by small concrete
    packages: flows are pairs of addresses with the library's own hash, layers of
    a few bytes, an assembler that delivers every segment in the
    order it arrives. *)
From Stdlib Require Import Strings.Byte.
From S2P Require Import Prelude GoLib Buffer Stream Reader Model McText Progress Transaction Deliveries Conversation.
From S2P Require Import Hotlist Analysis Callers Concurrent PacketBuffer Capture Replay.
From S2P Require Import Decode DecodePool Batches Assembly Dispatch Conservation Pipeline Traffic Witnesses.
Local Open Scope Z_scope.

(** ** Flows and layers *)

Definition pairFlow : Type := Z * bytes * bytes.

(** gopacket's Flow.FastHash. *)
Definition pairHash (f : pairFlow) : Z :=
  let '(typ, s, d) := f in
  u64 (Z.lxor (u64 (fnv1a s + fnv1a d)) typ * 1099511628211).

#[local] Instance pairPkg : GopacketPkg := {|
  Flow := pairFlow;
  Flow_eq_dec := _;
  Flow_countable := _;
  zeroFlow := (0, [], []);
  Flow_Reverse f := (f.1.1, f.2, f.1.2);
  FastHash := pairHash;
  EndpointType f := f.1.1;
  EndpointTCPPort := 4;
  SrcRaw f := f.1.2
|}.

#[local] Instance pairLaws : GopacketLaws.
Proof.
  split; [by intros [[? ?] ?]|by intros [[? ?] ?]|].
  intros [[typ s] d]. cbn. do 3 f_equal. by rewrite Z.add_comm.
Qed.

(** Layers.  An Ethernet header is the byte "E"; an IPv4 header the byte "T" when
    TCP follows and "U" when something else does, and two addresses; a TCP header two
    ports of two bytes.  A layer keeps its payload; there is nothing else. *)
Definition tcpHeader : Type := (byte * byte) * (byte * byte) * bytes.

Definition unusedLayer : DecodingLayer unit := {|
  DecodeFromBytes _ x := (x, false, Some (ErrOther 4));
  NextLayerType _ := LayerTypeOther 0;
  LayerPayload _ := []
|}.

Definition pairEthernet : DecodingLayer bytes := {|
  DecodeFromBytes data x :=
    match data with "E"%byte :: rest => (rest, false, None) | _ => (x, false, Some (ErrOther 3)) end;
  NextLayerType _ := LayerTypeIPv4;
  LayerPayload x := x
|}.

Definition pairIPv4 : DecodingLayer (byte * (byte * byte) * bytes) := {|
  DecodeFromBytes data x :=
    match data with
    | kind :: s :: d :: rest => ((kind, (s, d), rest), false, None)
    | _ => (x, true, Some (ErrOther 3))
    end;
  NextLayerType x := if bool_decide (x.1.1 = "T"%byte) then LayerTypeTCP else LayerTypeOther 17;
  LayerPayload x := x.2
|}.

Definition pairTCP : DecodingLayer tcpHeader := {|
  DecodeFromBytes data x :=
    match data with
    | s1 :: s2 :: d1 :: d2 :: rest => (((s1, s2), (d1, d2), rest), false, None)
    | _ => (x, true, Some (ErrOther 3))
    end;
  NextLayerType _ := LayerTypePayload;
  LayerPayload x := x.2
|}.

#[local] Instance pairLayers : LayersPkg := {|
  Ethernet := bytes; zeroEthernet := []; Ethernet_layer := pairEthernet;
  Loopback := unit; zeroLoopback := tt; Loopback_layer := unusedLayer;
  Dot1Q := unit; zeroDot1Q := tt; Dot1Q_layer := unusedLayer;
  IPv4 := byte * (byte * byte) * bytes; zeroIPv4 := (x00, (x00, x00), []); IPv4_layer := pairIPv4;
  NetworkFlow4 ip := (1, [ip.1.2.1], [ip.1.2.2]);
  IPv6 := unit; zeroIPv6 := tt; IPv6_layer := unusedLayer; NetworkFlow6 _ := (2, [], []);
  TCPHeader := tcpHeader;
  zeroTCP := ((x00, x00), (x00, x00), []); TCP_layer := pairTCP;
  TransportFlow t := (4, [t.1.1.1; t.1.1.2], [t.1.2.1; t.1.2.2]);
  TCPContent := tcpHeader; tcpContent t := t;
  UnsupportedLayerType _ := ErrOther 5
|}.

#[local] Instance pairLayersLaws : LayersLaws.
Proof.
  split.
  - intros data l l'. cbn. destruct data as [|[] data]; done.
  - by intros data l l'.
  - by intros data l l'.
  - intros data l l'. cbn. by destruct data as [|? [|? [|? ?]]].
  - by intros data _ l l'.
  - intros data l l'. cbn. destruct data as [|? [|? [|? [|? ?]]]]; cbn; split_and!; try done; by intros [=].
  - intros t data l Hne. destruct t; try done; unfold decodeLayer, into; cbn.
    + destruct data as [|[] data]; try done; simpl; lia.
    + destruct data as [|? [|? [|? data]]]; try done; simpl; lia.
    + destruct data as [|? [|? [|? [|? data]]]]; try done; simpl; lia.
    + destruct data; [done|simpl; lia].
Qed.

(** ** Decoding *)

Lemma hashCombine_injective_witness :
  0 <= hashCombine 7 9 < 2 ^ 64 /\ (hashCombine 7 9 = hashCombine 8 9 -> 7 = 8) /\
  (hashCombine 7 9 = hashCombine 7 10 -> 9 = 10).
Proof. apply (hashCombine_injective 7 8 9 10); done. Defined.

(** A segment from host [s] port 11211 to host [d] port 40000, and one back. *)
Definition fromServer (s d : byte) (payload : bytes) : bytes :=
  ("E" :: "T" :: s :: d :: "+" :: "203" :: "156" :: "@" :: payload)%byte.
Definition toServer (s d : byte) (payload : bytes) : bytes :=
  ("E" :: "T" :: s :: d :: "156" :: "@" :: "+" :: "203" :: payload)%byte.

Definition decoded1 : @DecodedPacket pairPkg pairLayers := newDecodedPacket.

Lemma decode_history_free_witness :
  let data := fromServer "a" "b" (bs "END") in
  exists dp1 d1, decode zeroCaptureInfo data decoded1 newDecoder = Ret (dp1, d1) /\
    dpInfo dp1 = zeroCaptureInfo /\
    decoded dp1 = parsedTypes (lastParse data (resetPacket zeroCaptureInfo decoded1)) /\
    lys dp1 = parsedLayers (lastParse data (resetPacket zeroCaptureInfo decoded1)) /\
    largestPacket newDecoder <= largestPacket d1 /\
    (IsTCP dp1 = false -> FlowHash dp1 = 0) /\
    (tcpOverIP false (decoded dp1) = true ->
       FlowHash dp1 = hashCombine (FastHash (NetFlow dp1)) (FastHash (TransportFlow (TCP (lys dp1))))) /\
    forall dp' d' dp1' d1', noHopByHop data (resetPacket zeroCaptureInfo decoded1) -> sameFrame decoded1 dp' ->
      decode zeroCaptureInfo data dp' d' = Ret (dp1', d1') ->
      decoded dp1' = decoded dp1 /\
      (tcpOverIP false (decoded dp1) = true ->
         NetFlow dp1' = NetFlow dp1 /\ FlowHash dp1' = FlowHash dp1 /\
         TransportFlow (TCP (lys dp1')) = TransportFlow (TCP (lys dp1)) /\
         tcpContent (TCP (lys dp1')) = tcpContent (TCP (lys dp1))).
Proof. apply (decode_history_free zeroCaptureInfo (fromServer "a" "b" (bs "END")) decoded1 newDecoder). Defined.

(** The frame is TCP over IP, and so the last part is not void. *)
Example decoded1_tcp : exists dp1 d1,
  decode zeroCaptureInfo (fromServer "a" "b" (bs "END")) decoded1 newDecoder = Ret (dp1, d1) /\
  tcpOverIP false (decoded dp1) = true /\ SrcRaw (TransportFlow (TCP (lys dp1))) = bs "+" ++ ["203"%byte] /\
  noHopByHop (fromServer "a" "b" (bs "END")) (resetPacket zeroCaptureInfo decoded1).
Proof. by eexists _, _. Qed.

Definition frames : list PacketData :=
  [packet 5 (toServer "b" "a" (bs "get x")); packet 6 (fromServer "a" "b" (bs "END"))].

(** A buffer that holds the two frames. *)
Definition framesBuf : PacketBuffer :=
  match appendAll frames pbuf with Ret (_, pb) => pb | _ => pbuf end.

Lemma framesBuf_holds : holdsPackets framesBuf frames.
Proof. split; try done; unfold capMax; simpl; lia. Qed.

Lemma decodeBatch_spec_witness :
  if zlen (slots newDecoder) <? zlen frames then decodeBatch framesBuf newDecoder = Panic
  else exists dps d1, decodeBatch framesBuf newDecoder = Ret (tt, d1) /\
    handlerCalls d1 = handlerCalls newDecoder ++ [dps] /\
    length dps = length frames /\ slots d1 = dps ++ drop (length frames) (slots newDecoder) /\
    forall i pd dp, frames !! i = Some pd -> slots newDecoder !! i = Some dp ->
      exists dp1, dps !! i = Some dp1 /\ decodedFrom pd dp dp1.
Proof. apply (decodeBatch_spec framesBuf frames newDecoder). apply framesBuf_holds. Defined.

(** ** The decode pool, on the script of Witnesses *)

#[local] Existing Instance scriptPcap.
#[local] Instance scriptSrc : PacketSource (list PacketData) := source_PacketSource script length.
#[local] Instance scriptCollector : CollectorLaws (list PacketData) := handle_collector script length.

Local Abbreviation DPool := (DecodePool.Pool (Src := list PacketData)).

(** A pool of one worker after the actions [acts]. *)
Definition decodeAfter (input : list PacketData) (acts : list DecodePool.action) : DPool :=
  match NewPool 1 input with
  | Ret p => match DecodePool.runActs acts p with Ret (_, p') => p' | _ => p end
  | _ => DecodePool.mkPool 0 [] [] 0 0 [] Selecting []
  end.

Definition isRet {A} (o : outcome A) : bool := match o with Ret _ => true | _ => false end.

(** Compare the two sides of an equation by running both, without printing the
    value in between. *)
(** A replayer over the script keeps the promises the pool relies on, too. *)
#[local] Instance replaySource : PacketSource (replayer (list PacketData)) :=
  replayer_PacketSource (HSrc := scriptSource).
#[local] Instance replayCollector : CollectorLaws (replayer (list PacketData)) :=
  replayer_collector (HLaws := scriptLaws).

Lemma replayed_pool : exists p, DecodePool.NewPool 2 replay1 = Ret p /\ DecodePool.pool_inv p.
Proof. apply DecodePool.NewPool_inv; [done|]. exists replayPackets. apply replay1_ok. Qed.

Ltac by_running := match goal with |- ?x = ?y => exact (eq_refl y <: x = y) end.

Lemma found {A} (d : A) (o : option A) : (if o is Some _ then true else false) = true -> o = Some (default d o).
Proof. by destruct o. Qed.

Lemma ran {S} (d : S) (o : outcome (unit * S)) : isRet o = true ->
  o = Ret (tt, match o with Ret (_, s) => s | _ => d end).
Proof. by destruct o as [[[] s]| | |]. Qed.

Lemma decodeAfter_reachable input acts :
  isRet (p ← NewPool 1 input; DecodePool.runActs acts p) = true ->
  DecodePool.reachable 1 input (decodeAfter input acts).
Proof.
  unfold decodeAfter, mbind, outcome_bind. destruct (NewPool 1 input) as [p| | |] eqn:E; try done.
  destruct (DecodePool.runActs acts p) as [[[] p']| | |] eqn:E'; try done. intros _.
  eapply runActs_reachable; [by apply DecodePool.reach_new|done].
Qed.

(** One batch decoded, then the end of the input. *)
Definition decodeSchedule : list DecodePool.action :=
  [WorkerStep 0; RunStep; RunStep; WorkerStep 0; WorkerStep 0; WorkerStep 0; RunStep; RunStep].

Definition stopping : DPool := decodeAfter frames decodeSchedule.

Lemma stopping_reachable : DecodePool.reachable 1 frames stopping.
Proof. apply decodeAfter_reachable. vm_compute. reflexivity. Qed.

Lemma stopping_shutting : shutting stopping.
Proof.
  split; [by vm_compute|]. intros i w Hi [(_ & _ & Hcl) _].
  assert (DecodePool.closed <$> DecodePool.workers stopping = [true]) as E by (by vm_compute).
  assert ((DecodePool.closed <$> DecodePool.workers stopping) !! i = Some false) as E'
    by (by rewrite list_lookup_fmap, Hi; simpl; rewrite Hcl).
  rewrite E in E'. by destruct i as [|[|]].
Qed.

Lemma pool_runs_safely_witness :
  (forall a, (DecodePool.act a stopping = Blocked /\ stuck stopping a) \/
     exists p', DecodePool.act a stopping = Ret (tt, p')) /\
  NoDup (readyQ stopping) /\ zlen (readyQ stopping) <= 1 /\
  (forall i w, DecodePool.workers stopping !! i = Some w -> wphase w = Handling \/ workReady w = true ->
     runAt stopping <> Collecting i /\ (i ∉ readyQ stopping)).
Proof.
  apply (pool_runs_safely 1 frames stopping); [done|exact (script_handle_ok script)|apply stopping_reachable].
Defined.

Lemma pool_accounts_witness :
  PacketsCaptured stopping = wrap64 (sumZ id (imap (fun i w =>
    sumZ zlen (handlerCalls (wdec w)) +
    if bool_decide (wphase w = Handling \/ workReady w = true \/ lost stopping i w) then PacketLen (wpb w) else 0)
      (DecodePool.workers stopping))).
Proof.
  apply (pool_accounts 1 frames stopping); [done|exact (script_handle_ok script)|apply stopping_reachable].
Defined.

Lemma shutdown_terminates_witness :
  (forall acts p', DecodePool.runActs acts stopping = Ret (tt, p') -> zlen acts <= 5 * 1 + 1) /\
  exists acts p', DecodePool.runActs acts stopping = Ret (tt, p') /\ finished p'.
Proof.
  apply (shutdown_terminates 1 frames stopping);
    [done|exact (script_handle_ok script)|apply stopping_reachable|apply stopping_shutting].
Defined.

Definition decodeStart : DPool := match NewPool 1 frames with Ret p => p | _ => stopping end.

Lemma decodeStart_new : NewPool 1 frames = Ret decodeStart.
Proof. reflexivity. Qed.

Lemma stopping_ran : DecodePool.runActs decodeSchedule decodeStart = Ret (tt, stopping).
Proof. unfold stopping, decodeAfter. rewrite decodeStart_new. apply ran. by_running. Qed.

Definition decodeWorker : DecodePool.worker :=
  default (DecodePool.mkWorker pbuf false false newDecoder Exited) (DecodePool.workers stopping !! 0%nat).

Lemma decodeWorker_at : DecodePool.workers stopping !! 0%nat = Some decodeWorker.
Proof. unfold decodeWorker. apply found. by_running. Qed.

Lemma batches_decoded_once_witness :
  exists done, buffersOf 0 (collectedIn decodeSchedule decodeStart) = done ++ inHand decodeWorker /\
    Forall2 decodedBatch done (handlerCalls (wdec decodeWorker)).
Proof.
  apply (batches_decoded_once 1 frames decodeSchedule decodeStart stopping);
    [done|exact (script_handle_ok script)|exact decodeStart_new|exact stopping_ran|exact decodeWorker_at].
Defined.

(** One buffer was filled, and it was decoded. *)
Example decodeWorker_batches : length (collectedIn decodeSchedule decodeStart) = 1%nat /\
  length <$> handlerCalls (wdec decodeWorker) = [2%nat] /\ inHand decodeWorker = [].
Proof. split_and!; by_running. Qed.

(** A source whose first read fails: the timestamp of the packet is refused. *)
Definition badFrames : list PacketData := [packet 0 (bs "x")].

Definition collecting : DPool := decodeAfter badFrames [WorkerStep 0; RunStep].

Definition badWorker : DecodePool.worker :=
  default (DecodePool.mkWorker pbuf false false newDecoder Exited) (head (DecodePool.workers collecting)).

Lemma collecting_reachable : DecodePool.reachable 1 badFrames collecting.
Proof. apply decodeAfter_reachable. vm_compute. reflexivity. Qed.

(** Run takes the error and goes on to its next select. *)
Definition afterError : DPool :=
  match DecodePool.runActs [RunStep; RunStep] collecting with Ret (_, p) => p | _ => collecting end.

Lemma afterError_ran : DecodePool.runActs [RunStep; RunStep] collecting = Ret (tt, afterError).
Proof. unfold afterError. apply ran. by_running. Qed.

Lemma source_error_blocks_shutdown_witness :
  lost afterError 0 (set_pb (Clear (wpb badWorker)) badWorker) /\ runAt afterError <> Returned.
Proof.
  apply (source_error_blocks_shutdown 1 badFrames collecting 0 badWorker (ErrOther 2) (Clear (wpb badWorker)) [])
    with (acts := [RunStep]);
    [done|exact (script_handle_ok script)|apply collecting_reachable|reflexivity|reflexivity|vm_compute; reflexivity|done|done
    |exact afterError_ran].
Defined.

(** ** Assembly *)

(** An assembler that takes every segment as the next of its stream; an empty
    one ends the stream. *)
Definition toyAssemble (nf : Flow) (t : TCPHeader) (ts : Z) (a : gset connectionKey) :
    gset connectionKey * list callback :=
  let k := mkKey _ nf (TransportFlow t) in
  let payload := take 1000 (t : tcpHeader).2 in
  match payload with
  | [] => if bool_decide (k ∈ a) then (a ∖ {[k]}, [CbReassemblyComplete k]) else (a, [])
  | _ => if bool_decide (k ∈ a) then (a, [CbReassembled k [mkReassembly payload 0]])
         else ({[k]} ∪ a, [CbNew k; CbReassembled k [mkReassembly payload 0]])
  end.

#[local] Instance toyAssembly : TcpAssembly := {|
  Assembler := gset connectionKey;
  NewAssembler := ∅;
  AssembleWithTimestamp := toyAssemble;
  FlushOlderThan _ a := (a, 0, 0, [])
|}.

#[local] Instance toyLaws : AssemblyLaws.
Proof.
  refine {| openKeys := (fun a => a) : @Assembler _ _ toyAssembly -> gset connectionKey |}; [done| |].
  - intros nf t ts a. cbn. unfold toyAssemble. set (k := mkKey _ nf (TransportFlow t)).
    assert (Forall reassembly_ok [mkReassembly (take 1000 (t : tcpHeader).2) 0]) as Hok.
    { apply Forall_singleton. unfold reassembly_ok, delivery, zlen, big. cbn [rSkip rBytes].
      pose proof (length_take_le (t : tcpHeader).2 1000). rewrite length_take. lia. }
    destruct (take 1000 (t : tcpHeader).2) as [|b payload]; case_bool_decide; cbn.
    + by apply valid_done; [done|constructor].
    + by constructor.
    + by apply valid_data; [done..|constructor].
    + apply valid_new; [done|by split; cbn; lia|]. apply valid_data; [set_solver|done|constructor].
  - intros ts a. cbn. constructor.
Qed.

Definition memcached : list Z := [11211].

Definition noChoice : nat -> nat -> option nat := fun _ _ => None.

Definition asmAfter (n : Z) (acts : list Assembly.action) : Assembly.Pool :=
  match Assembly.New n noChoice with
  | Ret p => match Assembly.runActs memcached acts p with Ret (_, p') => p' | _ => p end
  | _ => Assembly.mkPool [] [] []
  end.

Lemma asmAfter_reachable n acts :
  isRet (p ← Assembly.New n noChoice; Assembly.runActs memcached acts p) = true ->
  Assembly.reachable memcached n noChoice (asmAfter n acts).
Proof.
  unfold asmAfter, mbind, outcome_bind. destruct (Assembly.New n noChoice) as [p| | |] eqn:E; try done.
  destruct (Assembly.runActs memcached acts p) as [[[] p']| | |] eqn:E'; try done. intros _.
  eapply assembly_runActs_reachable; [by apply Assembly.reach_new|done].
Qed.

(** The decoded form of a frame. *)
Definition decodedFrame (data : bytes) : DecodedPacket :=
  match decode zeroCaptureInfo data decoded1 newDecoder with Ret (dp, _) => dp | _ => decoded1 end.

Definition request1 : DecodedPacket := decodedFrame (toServer "b" "a" (bs "get x")).
Definition reply1 : DecodedPacket := decodedFrame (fromServer "a" "b" (bs "END")).

(** A pool of three workers. *)
Definition pool3 : Assembly.Pool := asmAfter 3 [].

Lemma pool3_workers : 0 < zlen (Assembly.workers pool3).
Proof. vm_compute. reflexivity. Qed.

Lemma partition_by_connection_witness : exists per,
  partition [request1; reply1] pool3 = Ret per /\ length per = length (Assembly.workers pool3) /\
  (forall i, (i < length (Assembly.workers pool3))%nat ->
     per !! i = Some (shardOf (zlen (Assembly.workers pool3)) (Z.of_nat i) [request1; reply1])) /\
  (forall dp dp', hashed dp -> hashed dp' -> keyOf dp' = keyOf dp \/ keyOf dp' = key_Reverse (keyOf dp) ->
     Assembly.slotOf (zlen (Assembly.workers pool3)) dp' = Assembly.slotOf (zlen (Assembly.workers pool3)) dp).
Proof. exact (partition_by_connection [request1; reply1] pool3 pool3_workers). Defined.

(** The two packets are hashed, and are the two directions of one connection. *)
Example request_reply : hashed request1 /\ hashed reply1 /\ keyOf reply1 = key_Reverse (keyOf request1).
Proof. unfold hashed. split_and!; apply (bool_decide_eq_true_1 _); vm_compute; reflexivity. Qed.

(** A call with one batch, sent and taken up. *)
Definition served : Assembly.Pool := asmAfter 2 [ActCall [request1; reply1]; ActSend 0; ActSend 0].

Lemma served_reachable : Assembly.reachable memcached 2 noChoice served.
Proof. apply asmAfter_reachable. by_running. Qed.

Lemma assembly_survives_witness :
  (Assembly.act memcached (ActRecv 0) served = Blocked \/
     exists p', Assembly.act memcached (ActRecv 0) served = Ret (tt, p')) /\
  Forall (fun w => zlen (wiCh w) <= 128 /\ Forall (fun c => is_Some (State c)) (consumers w)) (Assembly.workers served).
Proof. apply (assembly_survives memcached 2 noChoice served (ActRecv 0)); [done|apply served_reachable]. Defined.

Definition servedCall : call := default (mkCall [] 0 0 0 0 false) (calls served !! 0%nat).

Lemma HandlePackets_completes_witness : exists acts p' c',
  Assembly.runActs memcached acts served = Ret (tt, p') /\ calls p' !! 0%nat = Some c' /\ returned c' = true /\
  signals c' = batchesSent c'.
Proof.
  apply (HandlePackets_completes memcached 2 noChoice served 0 servedCall);
    [done|exact served_reachable|unfold servedCall; apply found; by_running|by_running|by_running].
Defined.

(** The batch of the decode worker is assembled: both packets are the first
    worker's. *)
Definition decodedCalls : list (list DecodedPacket) := handlerCalls (wdec decodeWorker).

Definition asm1 : list Assembly.action :=
  (ActCall <$> decodedCalls) ++ [ActSend 0; ActSend 0; ActRecv 0; ActWait 0].

Definition before1 : Assembly.Pool := match Assembly.New 2 noChoice with Ret p => p | _ => Assembly.mkPool [] [] [] end.
Definition after1 : Assembly.Pool := asmAfter 2 asm1.

Lemma before1_new : Assembly.New 2 noChoice = Ret before1.
Proof. reflexivity. Qed.

Lemma asm1_ran : Assembly.runActs memcached asm1 before1 = Ret (tt, after1).
Proof. unfold after1, asmAfter. rewrite before1_new. apply ran. by_running. Qed.

(** What is empty everywhere, as a test. *)
Definition emptied {A B} (f : A -> list B) (l : list A) : bool :=
  forallb (fun x => match f x with [] => true | _ => false end) l.

Lemma emptied_Forall {A B} (f : A -> list B) (l : list A) : emptied f l = true -> Forall (fun x => f x = []) l.
Proof.
  intros H. apply Forall_forall. intros x Hx. unfold emptied in H. rewrite forallb_forall in H.
  specialize (H x (proj1 (list_elem_of_In l x) Hx)). by destruct (f x).
Qed.

Lemma after1_rest : atRest after1.
Proof.
  split; [|apply emptied_Forall; by_running].
  assert (Forall (fun c => todo c = []) (Assembly.calls after1)) as Hc by (apply emptied_Forall; by_running).
  intros id c Ec. exact (Forall_lookup_1 _ _ _ _ Hc Ec).
Qed.

Lemma stopping_decoded : allDecoded stopping.
Proof. apply emptied_Forall. by_running. Qed.

Lemma packets_conserved_witness :
  exists pdss dss, Forall2 holdsPackets (collectedIn decodeSchedule decodeStart).*2 pdss /\
    Forall2 (Forall2 (fun pd dp1 => exists dp, decodedFrom pd dp dp1)) pdss dss /\
    concat ((fun i => concat (taken (workIn memcached i asm1 before1))) <$> seq 0 (Z.to_nat 2)) ≡ₚ concat dss.
Proof.
  apply (packets_conserved memcached 1 frames decodeSchedule decodeStart stopping 2 noChoice asm1 before1 after1);
    [done|exact (script_handle_ok script)|exact decodeStart_new|exact stopping_ran|exact stopping_decoded|done
    |exact before1_new|exact asm1_ran|by_running|exact after1_rest|].
  apply (interleave_interleaves [0%nat]). by_running.
Defined.

(** 128 calls fill the queue of the only worker; the 129th is about to send. *)
Definition flood : Assembly.Pool :=
  asmAfter 1 (concat ((fun i => [ActCall [request1]; ActSend i]) <$> seq 0 128) ++ [ActCall [request1]]).

Lemma flood_reachable : Assembly.reachable memcached 1 noChoice flood.
Proof. apply asmAfter_reachable. by_running. Qed.

Definition floodCall : call := default (mkCall [] 0 0 0 0 false) (calls flood !! 128%nat).
Definition floodWorker : Assembly.worker := default (newWorker (noChoice 0)) (Assembly.workers flood !! at_ floodCall).
Definition refused : Assembly.Pool :=
  match Assembly.act memcached (ActSend 128) flood with Ret (_, p) => p | _ => flood end.

Lemma flood_call : calls flood !! 128%nat = Some floodCall.
Proof. unfold floodCall. apply found. by_running. Qed.

Lemma flood_worker : Assembly.workers flood !! at_ floodCall = Some floodWorker.
Proof. unfold floodWorker. apply found. by_running. Qed.

Lemma flood_refused : Assembly.act memcached (ActSend 128) flood = Ret (tt, refused).
Proof. unfold refused. apply ran. by_running. Qed.

(** The worker takes up a batch afterwards. *)
Definition later : Assembly.Pool :=
  match Assembly.runActs memcached [ActRecv 0; ActWait 0] refused with Ret (_, p) => p | _ => refused end.

Lemma later_ran : Assembly.runActs memcached [ActRecv 0; ActWait 0] refused = Ret (tt, later).
Proof. unfold later. apply ran. by_running. Qed.

Lemma HandlePackets_lost_signal_witness :
  Assembly.act memcached (ActWait 128) later = Blocked /\
  exists c2, calls later !! 128%nat = Some c2 /\ returned c2 = false.
Proof.
  apply (HandlePackets_lost_signal memcached 1 noChoice flood 128 floodCall [request1] [] floodWorker refused)
    with (acts := [ActRecv 0; ActWait 0]);
    [done|exact flood_reachable|exact flood_call|by_running|done|exact flood_worker|by_running|exact flood_refused
    |exact later_ran].
Defined.

(** ** Connections *)

Definition serverNet : Flow := (1, bs "a", bs "b").
Definition serverPorts : Flow := (4, ["+"; "203"]%byte, ["156"; "@"]%byte).

Definition freshWorker : Assembly.worker := newWorker (noChoice 0).

Lemma New_pairs_witness :
  let c := length (consumers freshWorker) in
  exists w1 w2 w1' w2' c0,
    factory_New memcached serverNet serverPorts freshWorker = Ret (ServerStream c, w1) /\
    factory_New memcached (Flow_Reverse serverNet) (Flow_Reverse serverPorts) w1 = Ret (ClientStream c, w2) /\
    factory_New memcached (Flow_Reverse serverNet) (Flow_Reverse serverPorts) freshWorker = Ret (ClientStream c, w1') /\
    factory_New memcached serverNet serverPorts w1' = Ret (ServerStream c, w2') /\
    halfOpen w2 = halfOpen freshWorker /\ halfOpen w2' = halfOpen freshWorker /\
    consumers w2 = consumers freshWorker ++ [c0] /\ consumers w2' = consumers freshWorker ++ [c0] /\
    State c0 = Some PeekMagicByte /\ events c0 = [].
Proof.
  apply (New_pairs memcached serverNet serverPorts freshWorker); [constructor|reflexivity|reflexivity|reflexivity].
Defined.

(** The stream of the server, opened and completed without the client's. *)
Definition serverKey1 : connectionKey := mkKey _ serverNet serverPorts.

Lemma New_reuses_half_open_witness :
  exists s w1 w2 w3, factory_New memcached serverNet serverPorts freshWorker = Ret (s, w1) /\
    consumerOf s = 0%nat /\
    callBacks memcached [CbNew serverKey1; CbReassemblyComplete serverKey1] freshWorker = Ret (tt, w2) /\
    streams w2 !! serverKey1 = None /\
    factory_New memcached serverNet serverPorts w2 = Ret (s, w3) /\ consumers w3 = consumers w2.
Proof.
  apply (New_reuses_half_open memcached serverKey1 true freshWorker ∅ [CbReassemblyComplete serverKey1] ∅).
  - split; try done; constructor.
  - done.
  - by split; [|simpl; lia].
  - reflexivity.
  - reflexivity.
  - apply valid_done; [set_solver|]. assert (({[serverKey1]} ∪ ∅) ∖ {[serverKey1]} =@{gset connectionKey} ∅) as -> by set_solver.
    constructor.
  - done.
  - by repeat constructor.
Defined.

(** ** From traffic to report *)

#[local] Existing Instance prefixRegexp.
#[local] Existing Instance perfectK.
#[local] Existing Instance mergeSortPkg.

(** Two clients, b and c, of the server a, and one, d, of the server b: each asks
    for two values, in two segments, and both ends close. *)
Definition tx4 : transaction :=
  let q := Retrieve false [bs "foo"; bs "bar"] [item1; item2] in
  mkTx q [take 6 (request q); drop 6 (request q)] [answer q].

Lemma tx4_ok : tx_ok tx4.
Proof.
  split; [|by split; repeat constructor..]. split; [repeat constructor; done|]. split; [done|]. split.
  - repeat constructor; try done; intros c; try done. intros [= <-]. repeat constructor; done.
  - split; [repeat constructor; done|done].
Qed.

(** The packets of a connection, and what the assembler makes of them. *)
Definition packetsOf (server client : byte) (t : transaction) : list DecodedPacket :=
  decodedFrame <$> ((toServer client server <$> tx_asked t) ++ (fromServer server client <$> tx_answered t) ++
    [toServer client server []; fromServer server client []]).

Definition scriptOf (t : transaction) : list connCall :=
  Opens false :: (Gives <$> ((fun s => ClientData (segment s)) <$> tx_asked t)) ++
  Opens true :: (Gives <$> ((fun s => ServerData (segment s)) <$> tx_answered t) ++ [ClientDone; ServerDone]).

Definition connOf (server client : byte) (t : transaction) : connection :=
  mkConn (1, [server], [client]) serverPorts [t] (scriptOf t).

Lemma given_Gives ins : given (Gives <$> ins) = ins.
Proof. induction ins as [|i ins IH]; [done|]. change (i :: given (Gives <$> ins) = i :: ins). by rewrite IH. Qed.

Lemma scriptOf_carries t : carries [t] (given (scriptOf t)).
Proof.
  assert (given (scriptOf t) = tx_inputs t ++ [ClientDone; ServerDone]) as ->.
  { unfold scriptOf, tx_inputs, given. cbn [omap list_omap]. rewrite omap_app. cbn [omap list_omap].
    change (omap (fun a => match a with Gives i => Some i | Opens _ => None end)) with given.
    by rewrite !given_Gives, app_assoc. }
  exists (tx_inputs t). split; [cbn; rewrite app_nil_r; apply delivered_refl|]. by exists false, [].
Qed.

Lemma connOf_ok server client : connection_ok memcached (connOf server client tx4).
Proof.
  split; [reflexivity|reflexivity| |by vm_compute|apply scriptOf_carries]. constructor; [apply tx4_ok|constructor].
Qed.

(** The calls for a connection that is opened and closed by the direction [first]:
    a SYN of each direction, the data, and a FIN of each. *)
Definition handshake (first : bool) (ts : list transaction) : list connCall :=
  [Opens first; Gives (dataOf first (segment [])); Opens (negb first); Gives (dataOf (negb first) (segment []))] ++
  (Gives <$> (concat (tx_inputs <$> ts) ++ [dataOf first (segment [])]) ++
   [doneOf first; dataOf (negb first) (segment []); doneOf (negb first)]).

Lemma handshake_carries first ts : carries ts (given (handshake first ts)).
Proof.
  unfold handshake, given. rewrite omap_app.
  change (omap (fun a => match a with Gives i => Some i | Opens _ => None end)) with given.
  rewrite given_Gives. simpl. assert (noData (segment [])) as He by (by constructor).
  exists (dataOf first (segment []) :: dataOf (negb first) (segment []) :: concat (tx_inputs <$> ts) ++
    [dataOf first (segment [])]). split.
  - eexists. split; [|apply joined_refl]. apply noisy_empty, noisy_empty; [done..|].
    rewrite <- (app_nil_r (concat _)) at 1. apply noisy_app_2; [apply noisy_refl|].
    apply noisy_empty; [done|constructor].
  - exists first, [segment []]. split; [by constructor|]. simpl. by rewrite <- app_assoc.
Qed.

(** A connection that the server's direction opens and closes. *)
Example handshake_ok : connection_ok memcached (mkConn serverNet serverPorts [tx1; tx2] (handshake true [tx1; tx2])).
Proof.
  split; [reflexivity|reflexivity| |by vm_compute|apply handshake_carries].
  repeat (constructor; [apply tx1_ok || apply tx2_ok|]). constructor.
Qed.

(** Their packets arrive in two calls of HandlePackets; the workers take what they
    are sent as it suits them, and a ticker ticks. *)
Definition packets3 : list DecodedPacket :=
  concat ((fun '(p, q, r) => [p; q; r]) <$>
    zip (zip (packetsOf "a" "b" tx4) (packetsOf "a" "c" tx4)) (packetsOf "b" "d" tx4)).

Definition asm3 : list Assembly.action :=
  [ActCall (take 7 packets3); ActSend 0; ActCall (drop 7 packets3); ActSend 0; ActRecv 1; ActSend 1; ActSend 1;
   ActTick 0; ActRecv 1; ActRecv 0; ActRecv 0; ActWait 0; ActWait 1].

Definition before3 : Assembly.Pool := default (Assembly.mkPool [] [] [])
  match Assembly.New 2 noChoice with Ret p => Some p | _ => None end.
Definition after3 : Assembly.Pool := asmAfter 2 asm3.

Lemma before3_new : Assembly.New 2 noChoice = Ret before3.
Proof. reflexivity. Qed.

Lemma asm3_ran : Assembly.runActs memcached asm3 before3 = Ret (tt, after3).
Proof. unfold after3, asmAfter. rewrite before3_new. apply ran. by_running. Qed.

(** The first connection is the first worker's, the others are the second's. *)
Definition conns3 : list (list connection) := [[connOf "a" "b" tx4]; [connOf "a" "c" tx4; connOf "b" "d" tx4]].

Definition turns3 (i : nat) : list nat :=
  match i with 0%nat => replicate 7 0%nat | _ => [0; 0; 1; 1; 0; 1; 0; 0; 1; 1; 0; 1; 0; 1]%nat end.

Lemma conns3_calls i xs : conns3 !! i = Some xs ->
  interleaves (connectionCalls <$> xs) (callsMade (workIn memcached i asm3 before3)).
Proof.
  intros E. apply (interleave_interleaves (turns3 i)). destruct i as [|[|i]]; [| |done]; injection E as <-; by_running.
Qed.

Lemma conns3_served i xs : conns3 !! i = Some xs -> serves memcached asm3 before3 i xs.
Proof.
  intros E. split; [| |by apply conns3_calls]; destruct i as [|[|i]]; [| |done| | |done]; injection E as <-.
  - repeat (constructor; [apply connOf_ok|]). constructor.
  - repeat (constructor; [apply connOf_ok|]). constructor.
  - apply NoDup_singleton.
  - apply NoDup_cons. split; [|apply NoDup_singleton]. intros [= ?]%list_elem_of_singleton.
Qed.

Definition worker3 : Assembly.worker := default freshWorker (Assembly.workers after3 !! 1%nat).

Lemma worker3_at : Assembly.workers after3 !! 1%nat = Some worker3.
Proof. unfold worker3. apply found. by_running. Qed.

Lemma workers_get_shards_witness :
  performAll memcached (workIn memcached 1 asm3 before3) (newWorker (noChoice 1)) = Ret (tt, set_wiCh [] worker3) /\
  taken (workIn memcached 1 asm3 before3) ++ (dps <$> wiCh worker3) =
    batchOf 2 (argsIn asm3) 1 <$> sentIn memcached 1 asm3 before3 /\
  NoDup (sentIn memcached 1 asm3 before3) /\
  (plog after3 = [] -> forall id c, Assembly.calls after3 !! id = Some c -> todo c = [] ->
     batchOf 2 (argsIn asm3) 1 id <> [] -> id ∈ sentIn memcached 1 asm3 before3).
Proof.
  apply (workers_get_shards memcached 2 noChoice asm3 before3 after3);
    [done|exact before3_new|exact asm3_ran|exact worker3_at].
Defined.

(** The second worker was sent a batch of either call. *)
Example sent3 : sentIn memcached 1 asm3 before3 = [0; 1]%nat /\ plog after3 = [].
Proof. split; by_running. Qed.

Lemma traffic_report_witness :
  let iteration t (h : gmap keyInfo Z) := map_to_list h in
  let evts := concat (connEvents <$> concat conns3) in
  let l := kiOf <$> filterEvents evts filterA in
  exists p0, Analysis.New 2 10 = Ret p0 /\
    forall acts s, goAll iteration Z.of_nat acts (Callers.start (set_filter filterA p0) (CallHandleEvents <$> batches after3)) = Ret (tt, s) ->
      allFinished s = true -> EventsDropped (Callers.pool s) = 0 ->
      Forall (fun w => kisChan w = []) (Analysis.workers (Callers.pool s)) ->
      forall racts s', goAll iteration Z.of_nat racts (Callers.start (Callers.pool s) (replicate 2 (CallReport false))) = Ret (tt, s') ->
        forall j rep err, callers s' !! j = Some (Finished rep err) ->
          exists r, rep = Some r /\ err = None /\ Keys r ≡ₚ lineOf l <$> remove_dups l /\
            StronglySorted (fun a b => TrafficEstimate b <= TrafficEstimate a) (Keys r).
Proof.
  apply (traffic_report memcached (fun _ h => map_to_list h) Z.of_nat (fun _ _ => reflexivity _)
    2 noChoice asm3 before3 after3 conns3 2 10 filterA 2);
    [done|exact before3_new|exact asm3_ran|done|exact conns3_served|done|done|vm_compute; congruence|vm_compute; congruence].
Defined.
