(* ===== verification/CallersWitnesses.v ===== *)
(** * Concrete inputs for the concurrent callers

    Two goroutines hand batches to a pool of two workers at once, and two reports
    are asked for at once: the properties of Concurrent applied to these runs. *)
From Stdlib Require Import Strings.Byte.
From S2P Require Import Prelude GoLib Model Hotlist Analysis Callers Concurrent Interval Witnesses PipelineWitnesses.
Local Open Scope Z_scope.

#[local] Existing Instance prefixRegexp.
#[local] Existing Instance perfectK.
#[local] Existing Instance mergeSortPkg.

Definition orderOf (t : nat) (h : gmap keyInfo Z) : list (keyInfo * Z) := map_to_list h.

Lemma orderOf_ok t h : orderOf t h ≡ₚ map_to_list (hl_counts h).
Proof. done. Qed.

Local Abbreviation goAll := (goAll orderOf Z.of_nat).

Definition batches1 : list (list Event) :=
  [[hit (bs "a") 10; hit (bs "b") 3; hit (bs "ab") 1]; [hit (bs "a") 10; hit (bs "ac") 2]].

Lemma batches1_hits : Forall (fun e => isHit e = true) (concat batches1).
Proof. by repeat constructor. Qed.

Definition pool0 : Pool := mkPool 100 (replicate 2 newWorker) None 0 0.

Lemma pool0_new : Analysis.New 2 100 = Ret pool0.
Proof. reflexivity. Qed.

Definition start0 : Conc := start (set_filter filterA pool0) (CallHandleEvents <$> batches1).

(** The callers take turns; worker 1 receives before they have counted. *)
Definition handling : list goStep :=
  [StepCaller 0 1; StepCaller 1 2; StepCaller 0 1; StepCaller 1 2; StepCaller 0 1; StepCaller 1 2;
   StepCaller 0 1; StepCaller 1 2; RecvWorker 1; StepCaller 0 1; StepCaller 1 2; StepCaller 1 2;
   RecvWorker 0; RecvWorker 0].

Definition afterSteps (acts : list goStep) (s : Conc) : Conc :=
  match goAll acts s with Ret (_, s') => s' | _ => s end.

Definition handledAll : Conc := afterSteps handling start0.

Lemma handling_ran : goAll handling start0 = Ret (tt, handledAll).
Proof. unfold handledAll, afterSteps. apply ran. by_running. Qed.

Lemma handling_finished : allFinished handledAll = true.
Proof. by_running. Qed.

Lemma handling_kept : EventsDropped (pool handledAll) = 0.
Proof. by_running. Qed.

Lemma handling_drained : Forall (fun w => kisChan w = []) (workers (pool handledAll)).
Proof.
  apply (Forall_fmap kisChan (fun q => q = [])). assert (kisChan <$> workers (pool handledAll) = [[]; []]) as -> by by_running.
  by repeat constructor.
Qed.

(** The two reports; the second one waits while worker 0 answers the first. *)
Definition reporting1 : list goStep :=
  [StepCaller 0 1; StepCaller 1 2; StepCaller 0 1; StepCaller 0 1; StepCaller 1 2; StepCaller 0 1;
   StepCaller 1 2; StepCaller 0 1; StepCaller 1 2; StepCaller 0 1; StepCaller 1 2; StepCaller 1 2].

Definition startReports : Conc := start (pool handledAll) (replicate 2 (CallReport false)).

Definition reportedAll : Conc := afterSteps reporting1 startReports.

Lemma reporting1_ran : goAll reporting1 startReports = Ret (tt, reportedAll).
Proof. unfold reportedAll, afterSteps. apply ran. by_running. Qed.

Definition observed : list keyInfo := kiOf <$> filterEvents (concat batches1) filterA.

(** Caller [j] has returned an exact report. *)
Definition exactReport (j : nat) : Prop :=
  exists r, callers reportedAll !! j = Some (Finished (Some r) None) /\
    Keys r ≡ₚ lineOf observed <$> remove_dups observed /\
    StronglySorted (fun a b => TrafficEstimate b <= TrafficEstimate a) (Keys r).

Definition reportOf (c : option caller) : option ReportT :=
  match c with Some (Finished rep _) => rep | _ => None end.

Lemma returned (s : @Conc (gmap keyInfo Z) prefixRegexp) j : (if reportOf (callers s !! j) is Some _ then true else false) = true ->
  exists rep err, callers s !! j = Some (Finished rep err).
Proof. destruct (callers s !! j) as [[]|]; try done. eauto. Qed.

Lemma concurrent_report_exact_witness : exactReport 0 /\ exactReport 1.
Proof.
  destruct (concurrent_report_exact orderOf Z.of_nat orderOf_ok 2 100 filterA batches1 2) as (p0 & E & Hp);
    [done|done|exact batches1_hits|done|vm_compute; congruence|].
  rewrite pool0_new in E. injection E as <-.
  specialize (Hp handling handledAll handling_ran handling_finished handling_kept handling_drained
    reporting1 reportedAll reporting1_ran).
  assert (forall j rep err, callers reportedAll !! j = Some (Finished rep err) -> exactReport j) as Hexact.
  { intros j rep err Hj. destruct (Hp j rep err Hj) as (r & Er & Ee & HK & Hs). exists r. split; [|exact (conj HK Hs)].
    rewrite Hj, Er, Ee. reflexivity. }
  split.
  - destruct (returned reportedAll 0) as (rep & err & Hj); [by_running|]. exact (Hexact 0%nat rep err Hj).
  - destruct (returned reportedAll 1) as (rep & err & Hj); [by_running|]. exact (Hexact 1%nat rep err Hj).
Defined.

Lemma pool0_ok : pool_ok (set_filter filterA pool0).
Proof.
  destruct (New_inv 2 100 filterA) as (p & E & Hinv); [done|]. rewrite pool0_new in E. injection E as <-. apply Hinv.
Qed.

Lemma concurrent_handles_refine_witness :
  let p0 := set_filter filterA pool0 in
  EventsHandled (pool handledAll) + EventsDropped (pool handledAll) =
    EventsHandled p0 + EventsDropped p0 + zlen (filterEvents (concat batches1) filterA) /\
  exists calls, run calls p0 = Ret (tt, pool handledAll) /\ offered calls ≡ₚ filterEvents (concat batches1) filterA.
Proof.
  apply (concurrent_handles_refine orderOf Z.of_nat (set_filter filterA pool0) batches1) with (acts := handling).
  - exact pool0_ok.
  - by split.
  - done.
  - exact handling_ran.
  - exact handling_finished.
Defined.

(** Everything at once: batches, a report that clears the pool, another filter and
    a reset; stopped while the report waits for a reply. *)
Definition allTasks : list task :=
  [CallHandleEvents (concat batches1); CallReport true; CallSetFilterPattern (bs "a"); CallReset].

Definition mixed : list goStep :=
  [StepCaller 0 1; StepCaller 1 1; StepCaller 0 1; StepCaller 2 1; StepCaller 1 1; StepCaller 3 1].

Definition halfway : Conc := afterSteps mixed (start pool0 allTasks).

Lemma mixed_ran : goAll mixed (start pool0 allTasks) = Ret (tt, halfway).
Proof. unfold halfway, afterSteps. apply ran. by_running. Qed.

Lemma concurrent_calls_complete_witness :
  zlen mixed <= (3 * 2 + 2) * zlen allTasks + queued pool0 /\
  (forall a, go orderOf Z.of_nat a halfway = Blocked \/ exists s', go orderOf Z.of_nat a halfway = Ret (tt, s')) /\
  (allFinished halfway = false -> forall t, exists j s', go orderOf Z.of_nat (StepCaller j t) halfway = Ret (tt, s')) /\
  exists acts' s', goAll acts' halfway = Ret (tt, s') /\ allFinished s' = true.
Proof.
  apply (concurrent_calls_complete orderOf Z.of_nat orderOf_ok 2 100 pool0 allTasks);
    [by repeat constructor|done|done|done|done|done|exact mixed_ran].
Defined.

(** Two intervals: the second batch is received between the reply of the worker to
    the first report and its reset, and no report shows it. *)
Definition intervalTasks : list task :=
  [CallHandleEvents [hit (bs "a") 10]; CallHandleEvents [hit (bs "a") 10]; CallReport true; CallReport true].

Definition turns1 : list goStep :=
  replicate 4 (StepCaller 0 1) ++ [RecvWorker 0] ++ replicate 3 (StepCaller 2 1) ++ replicate 4 (StepCaller 1 1) ++
  [RecvWorker 0] ++ replicate 2 (StepCaller 2 1) ++ replicate 5 (StepCaller 3 2).

Definition pool2 : Pool := mkPool 100 (replicate 1 newWorker) None 0 0.

Lemma pool2_new : Analysis.New 1 100 = Ret pool2.
Proof. reflexivity. Qed.

Definition startIntervals : Conc := start (set_filter None pool2) intervalTasks.

Definition afterIntervals : Conc := afterSteps turns1 startIntervals.

Lemma turns1_ran : goAll turns1 startIntervals = Ret (tt, afterIntervals).
Proof. unfold afterIntervals, afterSteps. apply ran. by_running. Qed.

Lemma turns1_alone : oneReporter orderOf Z.of_nat turns1 startIntervals = true.
Proof. by_running. Qed.

Lemma turns1_reports : allFinished afterIntervals = true /\ reported (mkKeyInfo (bs "a") 10) afterIntervals = 1 /\
  occ (mkKeyInfo (bs "a") 10) (kiOf <$> handed intervalTasks) = 2.
Proof. split_and!; by_running. Qed.

Lemma reports_never_overcount_witness :
  reported (mkKeyInfo (bs "a") 10) afterIntervals <= occ (mkKeyInfo (bs "a") 10) (kiOf <$> handed intervalTasks).
Proof.
  destruct (reports_never_overcount orderOf Z.of_nat orderOf_ok 1 100 None intervalTasks) as (p0 & E & Hp);
    [done|done|done|by repeat constructor|done|].
  rewrite pool2_new in E. injection E as <-.
  exact (Hp turns1 afterIntervals turns1_ran turns1_alone (mkKeyInfo (bs "a") 10)).
Defined.
