(* ===== verification/FrontWitnesses.v ===== *)
(** * Concrete inputs for the loggers, the user interface and main

    The properties of Logger, Presentation and Main applied to concrete data, with
    a terminal of 80 by 24 cells. *)
From Stdlib Require Import Strings.Byte.
From S2P Require Import Prelude GoLib Hotlist Analysis PacketBuffer Capture Replay Decode.
From S2P Require Import Logger GoFmt Presentation Terminal Profiling Main Session Witnesses PipelineWitnesses.
From S2P Require DecodePool Files Assembly.
Local Open Scope Z_scope.

Definition errorText (e : error) : bytes := bs "error".
Definition formatTime (t : Z) : bytes := Itoa t.

(** ** Loggers *)

Definition text (s : string) : message := [ItemString (bs s)].

(** One message was recorded; two goroutines log three more. *)
Definition start1 : machine := startup [text "buffered"] [[text "a"; [ItemInt 7]]; [text "b"]].

(** The first goroutine is inside the proxy when main announces itself. *)
Definition schedule1 : list Logger.action := [Thread 1; Thread 0; Thread 1; Thread 1; Thread 0].

Definition after (acts : list Logger.action) (m : machine) : machine :=
  match Logger.runActs errorText acts m with Ret (_, m') => m' | _ => m end.

Lemma after_ran acts m : isRet (Logger.runActs errorText acts m) = true ->
  Logger.runActs errorText acts m = Ret (tt, after acts m).
Proof. apply ran. Qed.

Lemma handover_delivers_witness :
  Z.of_nat (length schedule1) <= 4 + 3 * zlen [text "buffered"] +
    6 * zlen (concat [[text "a"; [ItemInt 7]]; [text "b"]]) /\
  (forall a, Logger.act errorText a (after schedule1 start1) <> Panic) /\
  (exists acts' m', Logger.runActs errorText acts' (after schedule1 start1) = Ret (tt, m') /\ finished m') /\
  (finished (after schedule1 start1) ->
     stderr (heap (after schedule1 start1)) ≡ₚ [text "buffered"] ++ concat [[text "a"; [ItemInt 7]]; [text "b"]] /\
     [text "buffered"] `sublist_of` stderr (heap (after schedule1 start1))).
Proof.
  apply (handover_delivers errorText [text "buffered"] [[text "a"; [ItemInt 7]]; [text "b"]] schedule1).
  apply after_ran. by_running.
Defined.

(** The proxy logs to the interface, and main is about to take it away while a
    goroutine logs 129 messages. *)
Definition failing : machine :=
  mkMachine (mkLogs [] [mkBuffer false []] [mkProxy 0 false (Some UILogger)] [])
    [interfaceEnded (Some EOF);
     logAll (replicate 129 (text "packet"))] [].

Definition fillChannel : list Logger.action := replicate 385 (Thread 1).

Definition jam : machine := after fillChannel failing.

Lemma jam_ran : Logger.runActs errorText fillChannel failing = Ret (tt, jam).
Proof. apply after_ran. by_running. Qed.

(** main announces its SetLogger and stays there. *)
Definition stuck1 : machine := after [Thread 0] jam.

Lemma stuck1_ran : Logger.runActs errorText [Thread 0] jam = Ret (tt, stuck1).
Proof. apply after_ran. by_running. Qed.

Lemma failed_ui_deadlocks_witness :
  Logger.act errorText (Thread 1) stuck1 = Blocked /\
  (threads stuck1 !! 0%nat = Some (SetLogger 0 (Some ConsoleLogger) ::
       [WriteTo 0 (Some (ProxyLogger 0)); Logger.Log (Some (ProxyLogger 0)) [ItemError EOF]]) \/
   threads stuck1 !! 0%nat = Some (Store 0 (Some ConsoleLogger) ::
       [WriteTo 0 (Some (ProxyLogger 0)); Logger.Log (Some (ProxyLogger 0)) [ItemError EOF]]) /\
     Logger.act errorText (Thread 0) stuck1 = Blocked).
Proof.
  apply (failed_ui_deadlocks errorText failing fillChannel jam 0 1 0 [RUnlock 0] (text "packet") (Some ConsoleLogger)
    [WriteTo 0 (Some (ProxyLogger 0)); Logger.Log (Some (ProxyLogger 0)) [ItemError EOF]] [Thread 0] stuck1).
  - split; repeat constructor; done.
  - exact jam_ran.
  - done.
  - exists (default (mkProxy 0 false None) (proxies (heap jam) !! 0%nat)). apply found. by_running.
  - by_running.
  - by left.
  - vm_compute. congruence.
  - by_running.
  - by repeat constructor.
  - exact stuck1_ran.
Defined.

(** ** The user interface *)

(** Cells that were set; the others are blank. *)
#[local] Instance gridTerm : TermboxPkg := {|
  Terminal := gmap (Z * Z) Z;
  Size _ := (80, 24);
  SetCell x y r t := if bool_decide (0 <= x < 80 /\ 0 <= y < 24) then <[(x, y) := r]> t else t;
  Clear _ := (None, ∅);
  Flush t := (None, t);
  Sync t := (None, t);
  RuneWidth r := if r <? 32 then 0 else 1
|}.

#[local] Instance gridLaws : TermboxLaws.
Proof.
  refine {| cell := fun (t : @Terminal gridTerm) x y => default 32 ((t : gmap (Z * Z) Z) !! (x, y)) |}; cbn; try done.
  - intros x y r t x' y'. destruct (decide (x' = x /\ y' = y)) as [[-> ->]|Hne].
    + case_bool_decide as Hin; case_bool_decide as Hin'; try tauto. by rewrite lookup_insert_eq.
    + rewrite (bool_decide_false (x' = x /\ _)) by tauto. case_bool_decide; [|done].
      rewrite lookup_insert_ne; [done|]. intros [= -> ->]. tauto.
  - intros r. destruct (r <? 32); lia.
  - intros r Hr. destruct (Z.ltb_spec r 32); [lia|done].
Qed.

#[local] Existing Instance prefixRegexp.
#[local] Existing Instance perfectK.
#[local] Existing Instance mergeSortPkg.

Definition line1 : KeyReport := mkKeyReport (bs "user:1") 100 5 500.

(** A reader of the pool of Witnesses, with the last report of one line. *)
Definition ui1 : uiContext :=
  mkUI pool1 1000000000 [bs "Reached EOF"] [bs "msg"] (mkReport 3 [line1]) false true (∅ : @Terminal gridTerm).

Definition reading1 : reading := mkReading 7 (replicate 4 []) (mkStats 9 8 7 1 1 0 2 5).

Lemma ui1_ok : ui_ok ui1 /\ reading_ok (Tick reading1) ui1.
Proof. split; [split; [apply pool1_ok|by vm_compute]|by repeat constructor]. Qed.

Lemma update_draws_witness : exists rep p', Report 7 (replicate 4 []) true pool1 = Ret (rep, p') /\
  (Forall (fun kr => fits (Name kr)) (Keys rep) -> exists t, Size t = (80, 24) /\
     screenOf formatTime t (mkReport 3 [line1]) (rStats reading1) [bs "Reached EOF"] /\
     update formatTime reading1 ui1 =
       Ret ((Flush t).1, set_term (Flush t).2 (set_prevReport (mkReport 3 [line1]) (set_analysis p' ui1)))).
Proof.
  apply (update_draws formatTime ui1 reading1); [apply ui1_ok|apply ui1_ok|by vm_compute|by vm_compute|by vm_compute
    |by repeat constructor|by repeat constructor].
Defined.

(** The channel is full and the pause key is pressed. *)
Definition uiFull : uiContext := set_msgChan (replicate 128 (bs "msg")) ui1.
Definition pauseKey : input := TermEvent (EventKey 112 0) reading1.

Lemma uiFull_ok : ui_ok uiFull /\ reading_ok pauseKey uiFull /\ waits pauseKey uiFull.
Proof. split; [apply ui1_ok|]. split; [apply ui1_ok|by split; [done|vm_compute]]. Qed.

Lemma loop_waits_witness :
  (waits pauseKey uiFull -> loopRound errorText formatTime pauseKey uiFull = Blocked) /\
  (~ waits pauseKey uiFull -> exists res u', loopRound errorText formatTime pauseKey uiFull = Ret (res, u') /\ ui_ok u' /\
    forall ev r, pauseKey = TermEvent ev r -> quits ev -> res = Some None).
Proof. apply (loop_waits errorText formatTime pauseKey uiFull); apply uiFull_ok. Defined.

(** Two messages are sent, a tick passes, and three messages are taken. *)
Definition round1 : list Presentation.action :=
  [Send (text "a"); Round Message; Send (text "b"); Round (Tick reading1); Round Message; Round Message].

Definition ui2 : uiContext :=
  match eventLoopFrom errorText formatTime round1 ui1 with Ret (_, u) => u | _ => ui1 end.

Lemma went_round {S A} (d : S) (o : outcome (option A * S)) :
  match o with Ret (None, _) => true | _ => false end = true ->
  o = Ret (None, match o with Ret (_, s) => s | _ => d end).
Proof. by destruct o as [[[a|] s]| | |]. Qed.

Lemma ui2_ran : eventLoopFrom errorText formatTime round1 ui1 = Ret (None, ui2).
Proof. unfold ui2. apply went_round. by_running. Qed.

Lemma messages_are_recent_witness :
  let queue := msgChan ui1 ++ sentIn errorText (paused ui1) round1 in
  let n := takenIn round1 in
  (n <= length queue)%nat /\ msgChan ui2 = drop n queue /\ zlen (msgChan ui2) <= 128 /\
  messages ui2 = lastN 4 (messages ui1 ++ take n queue) /\ paused ui2 = foldl pausedBy (paused ui1) round1.
Proof.
  apply (messages_are_recent errorText formatTime round1 ui1 ui2); [by vm_compute; lia|by vm_compute|exact ui2_ran].
Defined.

(** ** main *)

#[local] Existing Instance pairPkg.
#[local] Existing Instance pairLayers.
#[local] Existing Instance toyAssembly.
#[local] Existing Instance toyLaws.
#[local] Existing Instance scriptPcap.
#[local] Existing Instance scriptSrc.
#[local] Existing Instance scriptCollector.

Definition idlePool : DecodePool.Pool (Src := list PacketData) :=
  DecodePool.mkPool 0 [] [] 40 2 [] DecodePool.Selecting [].

Lemma statGenerator_totals_witness :
  exists st, statGenerator idlePool pool1 ([], rStats reading1) = Ret (st, ([], st)) /\
    (@None error <> None -> PacketsEnteredFilter st = PacketsEnteredFilter (rStats reading1)) /\
    PacketsCaptured st = 40 /\ PacketsPassedFilter st = 0 + 40 /\
    ResponsesParsed st = Analysis.EventsHandled pool1 /\ PacketsDroppedTotal st = 0 + 2 + 0 /\
    exists percent, dropLabel st =
      bs "Dropped: " ++ Itoa 0 ++ bs "+" ++ Itoa 2 ++ bs "+" ++ Itoa 0 ++ bs "=" ++
      Itoa (0 + 2 + 0) ++ bs " (" ++ padLeft 5 percent ++ bs "%)" /\
      (0 + 40 = 0 -> percent = bs "0.00").
Proof.
  apply (statGenerator_totals idlePool pool1 [] (rStats reading1) (mkPcapStats 0 0 0) None []); by vm_compute.
Defined.

(** What the label says in full. *)
Example label1 : dropLabel (mkStats 0 40 40 0 2 0 2 0) = bs "Dropped: 0+2+0=2 ( 5.00%)".
Proof. vm_compute. reflexivity. Qed.

Definition flags1 : flags := mkFlags (bs "") (bs "file.pcap") 8 [11211] 2 1 4 (bs "user") 100 1 false true true false [bs "cpu"; bs "heap"].

Definition opened : outcome (option openedSource * option error * list PacketData) :=
  Replay.New (netInterface flags1) (infile flags1) (bufferSize flags1) (noDelay flags1) (ports flags1) packets1.

Definition source1 : option openedSource := match opened with Ret ((s, _), _) => s | _ => None end.
Definition world1 : list PacketData := match opened with Ret (_, w) => w | _ => [] end.

Lemma source1_opened : opened = Ret ((source1, None), world1).
Proof.
  assert (match opened with Ret ((_, None), _) => true | _ => false end = true) as E by by_running.
  unfold source1, world1. by destruct opened as [[[s [e|]] w]| | |].
Qed.

Lemma source1_some : exists src, source1 = Some src.
Proof.
  assert ((if source1 is Some _ then true else false) = true) as E by by_running.
  destruct source1 as [src|]; [by exists src|done].
Qed.

Definition clock1 (n : nat) : Z := 60 + Z.of_nat n.

Lemma main_starts_witness : exists src an d pool, source1 = Some src /\
  mainStart (HL := gmap keyInfo Z) (fun _ _ => None) clock1 flags1 packets1 = Ret (Ready an d pool, world1) /\
  Analysis.pool_ok an /\ Analysis.filter_ an = Some (bs "user" : regexp) /\ zlen (Analysis.workers an) = 4 /\
  Analysis.reportSize an = 100 /\
  Forall (fun wk => hl_counts (Analysis.hl wk) = ∅ /\ Analysis.kisChan wk = []) (Analysis.workers an) /\
  Assembly.reachable [11211] 2 (fun _ _ => None) pool /\ decodersNew clock1 1 src world1 d.
Proof.
  assert (0 < 4 /\ 0 < 2 <= int_max /\ 0 <= 1 <= int_max) as (H4 & H2 & H1) by by vm_compute.
  pose proof (main_starts (HL := gmap keyInfo Z) (fun _ _ => None) clock1 flags1 packets1 eq_refl H4 H2 H1) as Hm.
  fold opened in Hm. rewrite source1_opened in Hm. destruct source1_some as [src E]. rewrite E in Hm.
  destruct Hm as (an & d & pool & Hm). exists src, an, d, pool. exact (conj E Hm).
Defined.

(** A run with two profiles in which no call fails: the two frames are read, and main
    returns. *)
Definition noFailure (t : trace) (e : effect) : option error := None.
Definition heapOnly (p : bytes) : bool := bool_decide (p = bs "heap").

Definition events2 : list event := (Decoder <$> decodeSchedule ++ [DecodePool.RunStep]) ++ [Announce; SelectEof].

Definition happenings1 : happenings :=
  mkHappenings events2 None 7 (∅ : @Terminal gridTerm)
    (mkReading 7 [] (mkStats 0 0 0 0 0 0 0 0)) [] (mkLogs [] [] [] []) [] [].

Definition body1 := mainBody (HL := gmap keyInfo Z) errorText formatTime length flags1 happenings1.

Definition run1 : outcome (ended * trace) :=
  main (HL := gmap keyInfo Z) (fun _ _ => None) clock1 noFailure heapOnly body1 flags1 frames [].

Definition traceAfter : trace := match run1 with Ret (_, t) => t | _ => [] end.

Lemma run1_returned : run1 = Ret (MainReturned, traceAfter).
Proof.
  assert (match run1 with Ret (MainReturned, _) => true | _ => false end = true) as E by by_running.
  unfold traceAfter. by destruct run1 as [[[|c] t]| | |].
Qed.

Lemma main_profiles_witness : allSucceeded noFailure traceAfter /\ Forall (profileDone heapOnly traceAfter) (profiles flags1).
Proof.
  exact (main_profiles (HL := gmap keyInfo Z) (fun _ _ => None) clock1 noFailure heapOnly body1 flags1 frames
    MainReturned traceAfter eq_refl run1_returned).
Defined.

(** The run is one of the whole program. *)
Example run1_whole : memsniff (HL := gmap keyInfo Z) errorText formatTime (fun _ _ => None) clock1 length noFailure heapOnly
  flags1 happenings1 frames = run1.
Proof. reflexivity. Qed.

(** Without an interface or a file there is nothing to sniff. *)
Example default_flags : exists t, memsniff (HL := gmap keyInfo Z) errorText formatTime (fun _ _ => None) clock1 length
  noFailure heapOnly defaultFlags happenings1 frames = Ret (ProcessExited 2, t).
Proof. by eexists. Qed.

(** With the interface and an interval of zero, the program does not end. *)
Example zero_interval : memsniff (HL := gmap keyInfo Z) errorText formatTime (fun _ _ => None) clock1 length noFailure heapOnly
  (mkFlags (bs "") (bs "file.pcap") 8 [11211] 2 1 4 (bs "user") 100 0 false true false false []) happenings1 frames = Blocked.
Proof. by vm_compute. Qed.

(** ** The run of the program *)

(** The file is decoded to its end; main waits. *)
Definition decoding : DecodePool.Pool := match DecodePool.NewPool 1 frames with Ret p => p | _ => stopping end.

Lemma decoding_new : DecodePool.NewPool 1 frames = Ret decoding.
Proof.
  unfold decoding. assert (isRet (DecodePool.NewPool 1 frames) = true) as E by by_running.
  by destruct (DecodePool.NewPool 1 frames).
Qed.

Definition events1 : list event := Decoder <$> decodeSchedule.

Definition session1 : waiting :=
  match session events1 (sessionStart decoding) with Ret (_, s) => s | _ => sessionStart decoding end.

Lemma session1_ran : session events1 (sessionStart decoding) = Ret (tt, session1).
Proof. unfold session1. apply ran. by_running. Qed.

Lemma nogui_ends_witness :
  (mainReturned session1 = true -> Interrupt ∈ events1 \/ DecodePool.runAt (decodePool session1) = DecodePool.Returned) /\
  (mainReturned session1 = false ->
   (DecodePool.runAt (decodePool session1) = DecodePool.Returned -> decoderDone session1 = false ->
    exists s', announce session1 = Ret (tt, s')) /\
   (exists s', session [Interrupt; SelectExit] session1 = Ret (tt, s') /\ mainReturned s' = true) /\
   (DecodePool.shutting (decodePool session1) ->
    (forall es' s', (Interrupt ∉ es') -> session es' session1 = Ret (tt, s') -> zlen es' <= 5 * 1 + 3) /\
    exists es' s', (Interrupt ∉ es') /\ session es' session1 = Ret (tt, s') /\ mainReturned s' = true)).
Proof.
  apply (nogui_ends 1 frames decoding events1 session1);
    [done|exact (script_handle_ok script)|exact decoding_new|exact session1_ran].
Defined.

(** The default flags but for the interval, which is zero. *)
Definition flagsNow : flags :=
  mkFlags (bs "eth0") (bs "") 8 [11211] 8 8 32 (bs "") 100 0 false false false false [].

Definition firstReading : reading := mkReading 7 [[]; []; []; []] (mkStats 0 0 0 0 0 0 0 0).

Lemma interval_decides_witness :
  Session.updateInterval flagsNow = 0 /\
  exists s, runInterface formatTime flagsNow pool1 7 (∅ : @Terminal gridTerm) None firstReading = Ret (tt, s) /\
    forall acts s', termRun errorText formatTime acts s = Ret (tt, s') -> phaseAt s' = Interrupting None.
Proof.
  split; [reflexivity|].
  apply (interval_decides errorText formatTime flagsNow pool1 7 (∅ : @Terminal gridTerm) firstReading).
  - by repeat constructor.
  - done.
  - done.
  - repeat constructor.
  - done.
Defined.

(** The interface with the default interval, after the keys p and q. *)
Definition quitting : list termAction :=
  [PollReturns (EventKey 112 0); Forward firstReading; Received; PollReturns (EventKey 113 0); Forward firstReading].

Definition started1 : running :=
  match runInterface formatTime defaultFlags pool1 7 (∅ : @Terminal gridTerm) None firstReading with
  | Ret (_, s) => s
  | _ => mkRunning (Presentation.New pool1 0 false 0 (∅ : @Terminal gridTerm)) NotStarted LoopStuck
  end.

Definition quitted : running :=
  match termRun errorText formatTime quitting started1 with Ret (_, s) => s | _ => started1 end.

Lemma loop_gets_events_witness :
  loopDid errorText formatTime (roundsIn errorText formatTime quitting started1) (ui started1) quitted /\
  underway started1 ++ polled quitting = handled (roundsIn errorText formatTime quitting started1) ++ underway quitted.
Proof.
  apply (loop_gets_events errorText formatTime quitting started1 quitted); [by_running|].
  unfold quitted. apply ran. by_running.
Defined.

(** The key x follows q. *)
Lemma quit_may_hang_witness :
  exists s', termAct errorText formatTime (PollReturns (EventKey 120 0)) quitted = Ret (tt, s') /\
    forall acts s2, termRun errorText formatTime acts s' = Ret (tt, s2) -> phaseAt s2 = Interrupting (Some None).
Proof. apply (quit_may_hang errorText formatTime quitted); by_running. Defined.

(** ** A file that is read to its end *)

(** libpcap reading a file: every packet is cut off at the snap length. *)
#[local] Instance filePcap : PcapPkg (list PacketData) := {|
  Handle := unit;
  InactiveHandle := unit;
  NewInactiveHandle _ := mret (Some tt, None);
  CleanUp _ := mret tt;
  SetSnapLen _ _ := mret None;
  SetPromisc _ _ := mret None;
  SetTimeout _ _ := mret None;
  SetBufferSize _ _ := mret None;
  Activate _ := mret (Some tt, None);
  OpenOffline _ := mret (Some tt, None);
  SetBPFFilter _ _ := mret None;
  ZeroCopyReadPacketData _ := fun w =>
    match w with
    | pd :: w' => Ret ((take (Z.to_nat snapLen) (Data pd), Info pd, None), w')
    | [] => Ret (([], zeroCaptureInfo, Some EOF), [])
    end;
  HandleStats _ := mret (mkPcapStats 0 0 0, None)
|}.

Definition openFile : option (@Handle _ filePcap) := @Some unit tt.

Lemma frames_file : Files.file_handle openFile (length (A := PacketData)).
Proof.
  intros [|pd w]; eexists _, _, _, _; (split; [done|]).
  - split; [done|by right].
  - split; [|by left]. unfold zlen. rewrite length_take. unfold snapLen. lia.
Qed.

#[local] Instance fileSrc : PacketSource (list PacketData) := source_PacketSource openFile length.
#[local] Instance fileCollector : DecodePool.CollectorLaws (list PacketData) := DecodePool.handle_collector openFile length.
#[local] Instance fileLaws : Files.FileLaws (list PacketData) := Files.handle_file openFile length frames_file.

Definition reading2 : DecodePool.Pool := match DecodePool.NewPool 1 frames with Ret p => p | _ => decoding end.

Lemma reading2_new : DecodePool.NewPool 1 frames = Ret reading2.
Proof.
  unfold reading2. assert (isRet (DecodePool.NewPool 1 frames) = true) as E by by_running.
  by destruct (DecodePool.NewPool 1 frames).
Qed.

Definition session2 : waiting :=
  match session events2 (sessionStart reading2) with Ret (_, s) => s | _ => sessionStart reading2 end.

Lemma session2_ran : session events2 (sessionStart reading2) = Ret (tt, session2).
Proof. unfold session2. apply ran. by_running. Qed.

Lemma nogui_reads_file_witness :
  let d := decodePool session2 in
  DecodePool.PacketsCaptured d + DecodePool.PacketsDropped d + Z.of_nat (Files.packetsLeft (DecodePool.psrc d)) =
    Z.of_nat (Files.packetsLeft frames) /\
  (mainReturned session2 = false ->
   exists es' s', (Interrupt ∉ es') /\ session es' session2 = Ret (tt, s') /\ mainReturned s' = true) /\
  (mainReturned session2 = true -> (Interrupt ∉ events2) -> Files.packetsLeft (DecodePool.psrc d) = 0%nat /\
     DecodePool.PacketsCaptured d =
       sumZ (fun w => sumZ zlen (handlerCalls (DecodePool.wdec w))) (DecodePool.workers d)).
Proof.
  apply (nogui_reads_file 1 frames reading2 events2 session2);
    [done|exact (Files.file_handle_ok openFile length frames_file)|by vm_compute|exact reading2_new|exact session2_ran].
Defined.

(** Main has returned at the end of the file, without an interrupt. *)
Example session2_returned : mainReturned session2 = true /\ (Interrupt ∉ events2).
Proof.
  split; [by vm_compute|].
  intros [(? & ? & _)%list_elem_of_fmap|[?|?%list_elem_of_singleton]%elem_of_cons]%elem_of_app; done.
Qed.
